(** * Managed matmul core: thread decomposition, tiling and fusion anchors

    A shallow embedding of
    [src/backend/graph_compiler/core/src/ops/templates/managed_matmul_core.cpp]
    (namespace [sc::ops]) and the properties of its planning functions.

    Conventions of the embedding.
    - A C++ [int] and an IR expression of type [s32] or [index] is a [Z].
      [/] and [%] are the truncating [Z.quot] and [Z.rem].  An [int] has 32
      bits: where [get_default_config] multiplies and adds dimensions (the
      cost of a candidate of the search, the byte size of the tile of one
      thread) the operations are [imul] and [iadd], which bring the result
      back into [-2^31, 2^31) as the compiled code does.  Block counts,
      splits and thread counts stay within the dimensions and the number of
      threads, and are computed on [Z] directly.
    - Code evaluated while the loop nest is built (plain C++ values) lives in
      the [outcome] monad: a division by zero is [Undefined], a failed
      [COMPILE_ASSERT] is [Fatal], [std::vector::at] out of range is
      [OutOfRange].
    - Code that is emitted ([_for_], [_if_], [_var_init_], calls, fusion
      anchors) is represented by what it does when it runs: a function from
      the values of the loop variables and of the thread id to the list of
      events it performs, in program order.  The divisors of the emitted
      divisions are block sizes and loop bounds that the build-time code has
      already divided by, or that are positive inside the loop.
    - The C [assert]s, which a release build compiles out, are not part of
      the embedding; [COMPILE_ASSERT] is. *)

From Stdlib Require Import ZArith List Bool Lia Permutation String Sorted.
Import ListNotations.
Open Scope Z_scope.

(** ** Outcomes of build-time code *)

Inductive outcome (A : Type) : Type :=
| Ok (a : A)
| Fatal (msg : string)
| OutOfRange
| Undefined.

Arguments Ok {A} a.
Arguments Fatal {A} msg.
Arguments OutOfRange {A}.
Arguments Undefined {A}.

Definition bind {A B : Type} (m : outcome A) (k : A -> outcome B) : outcome B :=
  match m with
  | Ok a => k a
  | Fatal msg => Fatal msg
  | OutOfRange => OutOfRange
  | Undefined => Undefined
  end.

Notation "x <- m ;; k" := (bind m (fun x => k))
  (at level 61, m at next level, right associativity).
Notation "' p <- m ;; k" := (bind m (fun p => k))
  (at level 61, p pattern, m at next level, right associativity).

(** [a / b] on [int]. *)
Definition idiv (a b : Z) : outcome Z :=
  if b =? 0 then Undefined else Ok (Z.quot a b).

(** [a % b] on [int]. *)
Definition irem (a b : Z) : outcome Z :=
  if b =? 0 then Undefined else Ok (Z.rem a b).

(** The value of a 32-bit [int] after an operation whose mathematical
    result is [z]: two's-complement wrap-around into [-2^31, 2^31). *)
Definition int32 (z : Z) : Z := Z.modulo (z + 2 ^ 31) (2 ^ 32) - 2 ^ 31.

(** [a + b] and [a * b] on [int]. *)
Definition iadd (a b : Z) : Z := int32 (a + b).
Definition imul (a b : Z) : Z := int32 (a * b).

(** [a / b] on [int] where [a] may be any 32-bit value: besides the division
    by zero, [INT_MIN / -1] has no value. *)
Definition idiv32 (a b : Z) : outcome Z :=
  if (a =? - 2 ^ 31) && (b =? -1) then Undefined else idiv a b.

(** [COMPILE_ASSERT(cond, msg)]. *)
Definition COMPILE_ASSERT (cond : bool) (msg : string) : outcome unit :=
  if cond then Ok tt else Fatal msg.

(** Modelled from the spec: [utils::divide_and_ceil] is declared in
    [utils.hpp], which is not among the sources; the spec reads it as the
    ceiling of the quotient, and the file's own [divide_and_ceil] on
    expressions spells the same formula [(v + d - 1) / d]. *)
Definition utils_divide_and_ceil (x y : Z) : outcome Z := idiv (x + y - 1) y.

(** Modelled from the spec: [utils::rnd_up] is declared in [utils.hpp]; it
    rounds [a] up to block granularity, [divide_and_ceil(a, b) * b]. *)
Definition utils_rnd_up (a b : Z) : outcome Z :=
  q <- utils_divide_and_ceil a b ;; Ok (q * b).

(** [0, 1, ..., n-1], the values a loop variable of [_for_(v, 0, n)] takes. *)
Definition range (n : Z) : list Z := map Z.of_nat (seq 0 (Z.to_nat n)).

(** ** get_splits *)

(** [for (i = 1; i <= X; ++i) if (X % i == 0) splits.push_back(i);] *)
Definition get_splits (X : Z) : list Z :=
  filter (fun i => Z.rem X i =? 0) (map (fun i => i + 1) (range X)).

(** [v.at(i)] *)
Definition vector_at (v : list Z) (i : nat) : outcome Z :=
  match nth_error v i with
  | Some x => Ok x
  | None => OutOfRange
  end.

(** ** Work partitioning (balance211) on emitted expressions *)

(** [divide_and_ceil] on expressions: [(v + d - 1) / d]. *)
Definition divide_and_ceil (v d : Z) : Z := Z.quot (v + d - 1) d.

Record balance211 : Type := mk_balance211 {
  b_length : Z;   (* the returned expression *)
  b_start : Z;    (* [n_start] *)
  b_T1 : Z        (* [T1] *)
}.

Definition get_balance211_length (n team idx : Z) : balance211 :=
  let n1 := divide_and_ceil n team in
  let n2 := n1 - 1 in
  let T1 := n - n2 * team in
  let n_start :=
    if idx <=? T1 then idx * n1 else T1 * n1 + (idx - T1) * n2 in
  mk_balance211 (if idx <? T1 then n1 else n2) n_start T1.

(** ** Tensors, the generator object and its configuration *)

Inductive sc_data_etype : Type := f32 | bf16 | u8 | s8 | s32.

Definition etype_eqb (a b : sc_data_etype) : bool :=
  match a, b with
  | f32, f32 | bf16, bf16 | u8, u8 | s8, s8 | s32, s32 => true
  | _, _ => false
  end.

(** [utils::is_one_of(t, datatypes::u8, datatypes::s8)] *)
Definition is_u8_or_s8 (t : sc_data_etype) : bool :=
  etype_eqb t u8 || etype_eqb t s8.

(** Modelled from the spec: [utils::get_sizeof_etype] is declared in
    [utils.hpp], which is not among the sources; the spec only calls it the
    element size of an operand.  The sizes in bytes of the element types the
    template handles. *)
Definition get_sizeof_etype (t : sc_data_etype) : Z :=
  match t with
  | f32 => 4
  | bf16 => 2
  | u8 => 1
  | s8 => 1
  | s32 => 4
  end.

(** The part of [logical_tensor_t] the template reads. *)
Record logical_tensor_t : Type := mk_tensor {
  plain_dims : list Z;        (* [get_plain_dims()] *)
  dtype_ : sc_data_etype;     (* [dtype_] *)
  is_blocking : bool;         (* [get_format().is_blocking()] *)
  blocking_dims : list Z;     (* [get_blocking_dims()] *)
  format_blocks_2 : Z         (* [get_format().blocks_[2]] *)
}.

(** [dims[i]]; the tensors of a matmul have at least two dimensions. *)
Definition dim (t : logical_tensor_t) (i : nat) : Z := nth i (plain_dims t) 0.

Record gen_managed_matmul_core_t : Type := mk_gen {
  in_tensors_0 : logical_tensor_t;    (* A *)
  in_tensors_1 : logical_tensor_t;    (* B *)
  out_tensors_0 : logical_tensor_t;   (* C *)
  iim_block_ : Z;
  iin_block_ : Z;
  iik_block_ : Z
}.

Definition get_A_dtype (g : gen_managed_matmul_core_t) := dtype_ (in_tensors_0 g).
Definition get_B_dtype (g : gen_managed_matmul_core_t) := dtype_ (in_tensors_1 g).

Record managed_matmul_core_config_t : Type := mk_config {
  M_split_num : Z;
  N_split_num : Z;
  M_sub_block : Z;
  N_sub_block : Z;
  K_sub_block : Z;
  im_loop_order : Z
}.

(** What the planning functions read of the compilation context and of the
    runtime configuration. *)
Record context_t : Type := mk_context {
  get_num_threads : Z;     (* [runtime_config_t::get().get_num_threads()] *)
  getDCacheSize_2 : Z;     (* [ctx->machine_.cpu_flags_.getDCacheSize(2)] *)
  mixed_fusion_ : bool     (* [ctx->flags_.mixed_fusion_] *)
}.

(** ** Blocking sizes chosen by the constructor *)

Definition size_t_rnd_up (a b : Z) : Z := Z.quot (a + b - 1) b * b.

(** [suggest_aligned_block(plain_X, default_block, min, align)] on [size_t]
    arguments, all [min], [align] and [default_block] being positive
    constants at every call. *)
Definition suggest_aligned_block (plain_X default_block min align : Z) : Z :=
  if plain_X <? default_block then
    if plain_X <=? min then min
    else if plain_X <? align then size_t_rnd_up plain_X min
    else size_t_rnd_up plain_X align
  else if Z.rem plain_X default_block =? 0 then size_t_rnd_up default_block align
  else
    let num_X_block := Z.quot (plain_X + default_block - 1) default_block in
    size_t_rnd_up (Z.quot (plain_X + num_X_block - 1) num_X_block) align.

(** The constructor: default blocks by element type of A, then the three
    blocking sizes.  [num_threads] is the positive thread count of the
    runtime configuration. *)
Definition make_gen (num_threads : Z) (A B C : logical_tensor_t)
  : gen_managed_matmul_core_t :=
  let plain_M := dim A 0 in
  let plain_K := dim A 1 in
  let plain_N := dim B 1 in
  let is_bf16 := etype_eqb (dtype_ A) bf16 in
  let is_f32 := etype_eqb (dtype_ A) f32 in
  let '(M_block_default, N_block_default, K_block_default) :=
    if is_f32 then (16, 16, 16)
    else if is_bf16 then (32, 32, 32)
    else (32, 64, 64) in
  let iim :=
    if (plain_N <=? 512) && (plain_K <=? 512) then
      Z.max 4 (Z.min M_block_default
                 (Z.quot (plain_M + num_threads - 1) num_threads))
    else suggest_aligned_block plain_M M_block_default 1 1 in
  let iin := suggest_aligned_block plain_N N_block_default 1 16 in
  let iik := suggest_aligned_block plain_K K_block_default
               (if is_bf16 then 2 else if is_f32 then 1 else 4) 16 in
  mk_gen A B C iim iin iik.

(** ** The cost model: get_default_config *)

(** Conversion of an [int] to [float] (binary32, round to nearest, ties to
    even).  A [float] that holds a converted [int] is represented by the
    integer it equals; [FLT_MAX] is an integer as well. *)
Definition float_of_int (z : Z) : Z :=
  let a := Z.abs z in
  if a <? 2 ^ 24 then z
  else
    let e := Z.log2 a - 23 in
    let q := Z.shiftr a e in
    let r := a - Z.shiftl q e in
    let half := Z.shiftl 1 (e - 1) in
    let q' := if (half <? r) || ((half =? r) && Z.odd q) then q + 1 else q in
    Z.sgn z * Z.shiftl q' e.

(** [std::numeric_limits<float>::max()] *)
Definition FLT_MAX : Z := 2 ^ 128 - 2 ^ 104.

(** Running a loop body over the successive values of its variable. *)
Fixpoint for_each {S : Type} (body : S -> Z -> outcome S) (l : list Z) (s : S)
  : outcome S :=
  match l with
  | [] => Ok s
  | i :: l' => s' <- body s i ;; for_each body l' s'
  end.

(** [for (int i = 1; i <= num_threads; i++)] *)
Definition candidates (num_threads : Z) : list Z :=
  map (fun i => i + 1) (range num_threads).

(** The value of [new_cost] for candidate [i] (lines 108-120): the
    expression is evaluated on [int], then converted to [float].
    [num_core], a product of two minima, is at most [num_threads]. *)
Definition new_cost (num_threads iim_block iin_block M N i : Z) : outcome Z :=
  mb <- idiv M iim_block ;;
  t <- idiv num_threads i ;;
  num_M_block <- utils_divide_and_ceil mb t ;;
  nb <- idiv N iin_block ;;
  num_N_block <- utils_divide_and_ceil nb i ;;
  let num_brgemm := imul num_M_block num_N_block in
  let num_core := Z.min i nb * Z.min t mb in
  a <- idiv32 (imul M i) num_threads ;;
  b <- idiv N i ;;
  c <- idiv32 (imul (iadd (iadd 1024 a) b) (iadd num_brgemm (imul 8 i)))
         num_core ;;
  Ok (float_of_int c).

(** One iteration of the search loop on the state [(split_n, cost)]. *)
Definition search_step (num_threads iim_block iin_block M N : Z)
  (st : Z * Z) (i : Z) : outcome (Z * Z) :=
  c <- new_cost num_threads iim_block iin_block M N i ;;
  if c <? snd st then Ok (i, c) else Ok st.

(** The search loop (lines 104-125): the final [(split_n, cost)]. *)
Definition cost_search (num_threads iim_block iin_block M N : Z)
  : outcome (Z * Z) :=
  for_each (search_step num_threads iim_block iin_block M N)
    (candidates num_threads) (1, FLT_MAX).

(** The three overrides (lines 126-154) applied to the searched [split_n]:
    the final [(M_split_num, N_split_num)]. *)
Definition split_overrides (is_int8 : bool) (num_threads M N K split_n : Z)
  : outcome (Z * Z) :=
  M_split0 <- idiv num_threads split_n ;;
  let N_split0 := split_n in
  if is_int8 && (N <=? 512) && (K <=? 512) then Ok (num_threads, 1)
  else if (N <=? 192) && (K <=? 192) then Ok (num_threads, 1)
  else if K >=? 8192 then
    if M <? N then
      let possible_splits := get_splits M_split0 in
      shrink <- (if (2 <? Z.of_nat (List.length possible_splits))
                 then q <- idiv N M ;; Ok (q <? 3)
                 else Ok false) ;;
      if (shrink : bool) then
        m <- idiv M_split0 (nth 1 possible_splits 0) ;;
        Ok (m, N_split0)
      else
        K_split_num <- vector_at (get_splits num_threads) 1 ;;
        n <- idiv num_threads K_split_num ;;
        Ok (1, n)
    else
      let possible_splits := get_splits N_split0 in
      if 2 <? Z.of_nat (List.length possible_splits) then
        n <- idiv N_split0 (nth 1 possible_splits 0) ;;
        Ok (M_split0, n)
      else Ok (M_split0, N_split0)
  else Ok (M_split0, N_split0).

(** [divide_and_ceil(divide_and_ceil(X, block), split) * block]: the extent
    of one thread along an axis (lines 155-160). *)
Definition single_extent (X block split : Z) : outcome Z :=
  xb <- utils_divide_and_ceil X block ;;
  s <- utils_divide_and_ceil xb split ;;
  Ok (s * block).

(** [single_K_threshold] (lines 163-165); the byte size of the tile is a
    product of three [int]s. *)
Definition single_K_threshold (single_M single_N sizeofdtypeA L2_size : Z)
  : outcome Z :=
  idiv (if imul (imul single_M single_N) sizeofdtypeA <? L2_size
        then 2048 else 4096)
    sizeofdtypeA.

Section GetDefaultConfig.

(** The double-precision evaluation, converted to [int], of
    [(sqrt(pow(a, 2) + b) - a) / d] for [a = 2 * sizeofdtypeA * L2_K],
    [b = 4 * sizeofdtypeC * L2_size] and [d = 2 * sizeofdtypeC].  Floating
    point is outside the embedding: the planning functions are parametric
    in this value. *)
Variable double_L2_MN : Z -> Z -> Z -> Z.

(** Sub-block sizing (lines 155-190): [(M_sub_block, N_sub_block,
    K_sub_block)].  In the last branch [single_K] is below the threshold,
    which is at most 4096, and [2 * sizeofdtypeA * single_K] is below
    [2^15]. *)
Definition sub_block_sizing (iim_block iin_block iik_block M N K : Z)
  (sizeofdtypeA sizeofdtypeC L2_size : Z) (M_split N_split : Z)
  : outcome (Z * Z * Z) :=
  single_M <- single_extent M iim_block M_split ;;
  single_N <- single_extent N iin_block N_split ;;
  let single_K := K in
  threshold <- single_K_threshold single_M single_N sizeofdtypeA L2_size ;;
  if single_K >=? threshold then
    K_sub <- utils_divide_and_ceil single_K threshold ;;
    kb <- utils_divide_and_ceil single_K iik_block ;;
    l2k <- utils_divide_and_ceil kb K_sub ;;
    let L2_K := l2k * iik_block in
    let L2_MN := double_L2_MN (imul (imul 2 sizeofdtypeA) L2_K)
                   (imul (imul 4 sizeofdtypeC) L2_size)
                   (imul 2 sizeofdtypeC) in
    m <- idiv single_M L2_MN ;;
    n <- idiv single_N L2_MN ;;
    Ok (Z.max 1 m, Z.max 1 n, K_sub)
  else
    L2_MN <- idiv L2_size (2 * sizeofdtypeA * single_K) ;;
    m <- idiv single_M L2_MN ;;
    n <- idiv single_N L2_MN ;;
    Ok (Z.max 1 m, Z.max 1 n, 1).

(** [M], [N] and [K] rounded up to block granularity (lines 88-99). *)
Definition rounded_M (g : gen_managed_matmul_core_t) : outcome Z :=
  utils_rnd_up (dim (in_tensors_0 g) 0) (iim_block_ g).
Definition rounded_N (g : gen_managed_matmul_core_t) : outcome Z :=
  utils_rnd_up (dim (in_tensors_1 g) 1) (iin_block_ g).
Definition rounded_K (g : gen_managed_matmul_core_t) : outcome Z :=
  utils_rnd_up (dim (in_tensors_0 g) 1) (iik_block_ g).

Definition get_default_config (g : gen_managed_matmul_core_t) (ctx : context_t)
  : outcome managed_matmul_core_config_t :=
  let num_threads := get_num_threads ctx in
  let is_int8 := is_u8_or_s8 (get_A_dtype g) in
  M <- rounded_M g ;;
  N <- rounded_N g ;;
  K <- rounded_K g ;;
  let sizeofdtypeA := get_sizeof_etype (dtype_ (in_tensors_0 g)) in
  let sizeofdtypeC := get_sizeof_etype (dtype_ (out_tensors_0 g)) in
  '(split_n, _) <- cost_search num_threads (iim_block_ g) (iin_block_ g) M N ;;
  '(M_split, N_split) <- split_overrides is_int8 num_threads M N K split_n ;;
  let L2_size := getDCacheSize_2 ctx in
  '(M_sub, N_sub, K_sub) <-
     sub_block_sizing (iim_block_ g) (iin_block_ g) (iik_block_ g) M N K
       sizeofdtypeA sizeofdtypeC L2_size M_split N_split ;;
  Ok (mk_config M_split N_split M_sub N_sub K_sub 0).

End GetDefaultConfig.

(** The real-number value of the sizing expression, truncated: what the
    double-precision evaluation returns when no rounding occurs.  Used to
    run the planning functions on examples. *)
Definition L2_MN_exact (a b d : Z) : Z := Z.quot (Z.sqrt (a * a + b) - a) d.

(** ** What the emitted loop nest does: events *)

Inductive tensor_id : Type := tsr_A | tsr_B | tsr_C | tsr_out_tmp_buf.

(** [slice_range]: one [(offset, length)] pair per dimension. *)
Definition slice_range : Type := list (Z * Z).

(** Where in the loop nest a fusion anchor is created. *)
Inductive anchor_site : Type :=
| at_block        (* inside [im_n], after the brgemm call *)
| at_sub_block    (* in the body of [o_im_n], after the [im_k] loop *)
| at_thread       (* in the body of the [n_s] loop *)
| at_m_split      (* in the body of the [m_s] loop, after the [n_s] loop *)
| at_reduce_tile. (* in the reduction loop over output tiles *)

Inductive event : Type :=
| brgemm (init : bool) (A_idx B_idx : list Z) (C : tensor_id) (C_idx : list Z)
    (bs LDA LDB LDC stride_a stride_b : Z)
| output_fusion_anchor (site : anchor_site) (s : slice_range)
| iterated_fusion_anchor (site : anchor_site) (iter : Z)
    (slices : list slice_range)
| mem_zero (C_idx : list Z) (size : Z) (dtype : sc_data_etype)
| dnnl_brgemm_init (C_idx : list Z) (M N LDC : Z) (dtype : sc_data_etype)
    (value : Z)
| add_assign (C_idx tmp_idx : list Z) (lanes : Z).

(** [0, step, 2*step, ...] below [n]: a [_for_(v, 0, n, step)] loop with a
    positive step. *)
Definition range_step (n step : Z) : list Z :=
  map (fun i => i * step) (range (Z.quot (n + step - 1) step)).

(** ** single_thread_matmul_call *)

(** The region shapes of the anchor created after the [im_k] loop: either
    the single shape of "case 1", or the table of the 16 cases.  A shape is
    the pair of the lengths along M and N. *)
Inductive sub_block_shapes : Type :=
| shape_single (length_M length_N : Z)
| shape_table (lengths : list (Z * Z)).

(** [length_M] (or [length_N]) of one entry of the table (lines 397-424):
    [X_anchor] is [X_anchor_info[p + 1]], [i] the inner index. *)
Definition anchor_length (blocking : bool) (X_anchor block sub_block i : Z)
  : outcome Z :=
  if blocking then
    xb <- idiv X_anchor block ;;
    l <- idiv xb sub_block ;;
    r <- irem xb sub_block ;;
    Ok (if negb (r =? 0) then l + (1 - i) else l)
  else
    l <- idiv X_anchor sub_block ;;
    xb <- idiv X_anchor block ;;
    r <- irem xb sub_block ;;
    Ok (if negb (r =? 0) then l + (1 - i) * block else l).

Fixpoint map_outcome {A B : Type} (f : A -> outcome B) (l : list A)
  : outcome (list B) :=
  match l with
  | [] => Ok []
  | a :: l' => b <- f a ;; bs <- map_outcome f l' ;; Ok (b :: bs)
  end.

(** The indices [(p, q, i, j)] in the order of the four nested loops. *)
Definition sixteen_cases : list (nat * nat * Z * Z) :=
  flat_map (fun p => flat_map (fun q => flat_map (fun i =>
    map (fun j => (p, q, i, j)) [0; 1]) [0; 1]) [0%nat; 1%nat]) [0%nat; 1%nat].

(** The test of "case 1" (lines 370-373), [&&] evaluating left to right. *)
Definition no_imbalance (iim_block iin_block : Z)
  (config : managed_matmul_core_config_t) (M_anchor_info N_anchor_info : list Z)
  : outcome bool :=
  if negb (nth 1 M_anchor_info 0 =? nth 2 M_anchor_info 0) then Ok false
  else if negb (nth 1 N_anchor_info 0 =? nth 2 N_anchor_info 0) then Ok false
  else
    mb <- idiv (nth 1 M_anchor_info 0) iim_block ;;
    rm <- irem mb (M_sub_block config) ;;
    if negb (rm =? 0) then Ok false
    else
      nb <- idiv (nth 1 N_anchor_info 0) iin_block ;;
      rn <- irem nb (N_sub_block config) ;;
      Ok (rn =? 0).

(** The build-time part of lines 368-436. *)
Definition sub_block_anchor_shapes (blocking : bool) (iim_block iin_block : Z)
  (config : managed_matmul_core_config_t) (M_anchor_info N_anchor_info : list Z)
  : outcome sub_block_shapes :=
  even <- no_imbalance iim_block iin_block config M_anchor_info N_anchor_info ;;
  if (even : bool) then
    if blocking then
      mb <- idiv (nth 1 M_anchor_info 0) iim_block ;;
      lm <- idiv mb (M_sub_block config) ;;
      nb <- idiv (nth 1 N_anchor_info 0) iin_block ;;
      ln <- idiv nb (N_sub_block config) ;;
      Ok (shape_single lm ln)
    else
      lm <- idiv (nth 1 M_anchor_info 0) (M_sub_block config) ;;
      ln <- idiv (nth 1 N_anchor_info 0) (N_sub_block config) ;;
      Ok (shape_single lm ln)
  else
    t <- map_outcome (fun '(p, q, i, j) =>
           length_M <- anchor_length blocking (nth (p + 1) M_anchor_info 0)
                         iim_block (M_sub_block config) i ;;
           length_N <- anchor_length blocking (nth (q + 1) N_anchor_info 0)
                         iin_block (N_sub_block config) j ;;
           Ok (length_M, length_N)) sixteen_cases ;;
    Ok (shape_table t).

(** The values of the expressions handed to [single_thread_matmul_call],
    and of the thread id, when the emitted code runs. *)
Record call_args : Type := mk_call_args {
  a_M : Z; a_N : Z; a_K : Z;
  a_m_idx : Z; a_n_idx : Z; a_k_idx : Z;
  a_m_s : Z; a_n_s : Z; a_k_s : Z;
  a_tid : Z
}.

Section SingleThreadMatmulCall.

Variable g : gen_managed_matmul_core_t.
Variable config : managed_matmul_core_config_t.
Variable C : tensor_id.
Variable dtype_block : Z.
Variable fusion : bool.
Variable M_anchor_info N_anchor_info : list Z.
Variable is_partial : bool.

Let ta := in_tensors_0 g.
Let tb := in_tensors_1 g.
Let tc := out_tensors_0 g.
Let iim := iim_block_ g.
Let iin := iin_block_ g.
Let iik := iik_block_ g.

(** The slice of C starting at [(m, n)] with lengths [(lm, ln)], in the
    layout of [tc]; in the blocked layout the lengths count blocks. *)
Definition c_slice (m n lm ln : Z) : slice_range :=
  if negb (is_blocking tc) then [(m, lm); (n, ln)]
  else [(Z.quot m iim, lm); (Z.quot n iin, ln); (0, iim); (0, iin)].

(** The brgemm call and the anchor of one [(k_b, m_o, n_o)] iteration
    (lines 303-364). *)
Definition block_body (a : call_args) (m_b_idx n_b_idx m_o_end n_o_end : Z)
  (k_b m_o n_o : Z) : list event :=
  let ori_K := dim ta 1 in
  let ori_N := dim tb 1 in
  let m_start_idx :=
    a_m_idx a + m_b_idx * iim + Z.rem (m_o + a_tid a) m_o_end * iim in
  let n_start_idx :=
    a_n_idx a + n_b_idx * iin + Z.rem (n_o + a_tid a) n_o_end * iin in
  let bk := get_balance211_length (Z.quot (a_K a) iik) (K_sub_block config) k_b in
  let bs := b_length bk in
  let k_start_idx := a_k_idx a + b_start bk * iik in
  let aidx :=
    if negb (is_blocking ta) then [m_start_idx; k_start_idx]
    else [Z.quot m_start_idx iim; Z.quot k_start_idx iik; 0; 0] in
  let bidx :=
    if 1 <? dtype_block
    then [Z.quot n_start_idx iin; Z.quot k_start_idx iik; 0; 0; 0]
    else if negb (is_blocking tb) then [k_start_idx; n_start_idx]
    else [Z.quot n_start_idx iin; Z.quot k_start_idx iik; 0; 0] in
  let cidx0 :=
    if negb (is_blocking tc) then [m_start_idx; n_start_idx]
    else [Z.quot m_start_idx iim; Z.quot n_start_idx iin; 0; 0] in
  let cidx := if is_partial then a_k_s a :: cidx0 else cidx0 in
  let LDA := if negb (is_blocking ta) then ori_K else iik in
  let LDB := if negb (is_blocking tb) then ori_N else iin in
  let LDC := if negb (is_blocking tc) then ori_N else iin in
  let stride_a := if negb (is_blocking ta) then iik else iim * iik in
  let stride_b := if negb (is_blocking tb) then iik * ori_N else iik * iin in
  brgemm (k_b =? 0) aidx bidx C cidx bs LDA LDB LDC stride_a stride_b
  :: (if fusion && negb is_partial then
        if k_b =? K_sub_block config - 1 then
          [output_fusion_anchor at_block
             (if negb (is_blocking tc)
              then [(m_start_idx, iim); (n_start_idx, iin)]
              else [(Z.quot m_start_idx iim, 1); (Z.quot n_start_idx iin, 1);
                    (0, iim); (0, iin)])]
        else []
      else []).

(** [anchor_iter] (lines 437-484). *)
Definition anchor_iter (a : call_args) (m_b n_b m_b_bigger_num n_b_bigger_num : Z)
  : Z :=
  if a_m_s a <? nth 0 M_anchor_info 0 then
    if a_n_s a <? nth 0 N_anchor_info 0 then
      if m_b <? m_b_bigger_num
      then (if n_b <? n_b_bigger_num then 0 else 1)
      else (if n_b <? n_b_bigger_num then 2 else 3)
    else
      if m_b <? m_b_bigger_num
      then (if n_b <? n_b_bigger_num then 4 else 5)
      else (if n_b <? n_b_bigger_num then 6 else 7)
  else
    if a_n_s a <? nth 0 N_anchor_info 0 then
      if m_b <? m_b_bigger_num
      then (if n_b <? n_b_bigger_num then 8 else 9)
      else (if n_b <? n_b_bigger_num then 10 else 11)
    else
      if m_b <? m_b_bigger_num
      then (if n_b <? n_b_bigger_num then 12 else 13)
      else (if n_b <? n_b_bigger_num then 14 else 15).

(** The anchor created after the [im_k] loop of sub-block [(m_b, n_b)]. *)
Definition sub_block_anchor (shapes : sub_block_shapes) (a : call_args)
  (m_b n_b : Z) (bm bn : balance211) : event :=
  let m := a_m_idx a + b_start bm * iim in
  let n := a_n_idx a + b_start bn * iin in
  match shapes with
  | shape_single lm ln => output_fusion_anchor at_sub_block (c_slice m n lm ln)
  | shape_table t =>
      iterated_fusion_anchor at_sub_block
        (anchor_iter a m_b n_b (b_T1 bm) (b_T1 bn))
        (map (fun '(lm, ln) => c_slice m n lm ln) t)
  end.

(** The emitted loop nest, run on the values [a] (lines 289-498).  With
    [im_loop_order == 1] the loops [im_m] and [im_n] are exchanged. *)
Definition matmul_loops (shapes : option sub_block_shapes) (a : call_args)
  : list event :=
  flat_map (fun m_b =>
    flat_map (fun n_b =>
      let bm := get_balance211_length (Z.quot (a_M a) iim) (M_sub_block config) m_b in
      let bn := get_balance211_length (Z.quot (a_N a) iin) (N_sub_block config) n_b in
      let m_o_end := b_length bm in
      let n_o_end := b_length bn in
      flat_map (fun k_b =>
        if im_loop_order config =? 1 then
          flat_map (fun n_o =>
            flat_map (fun m_o =>
              block_body a (b_start bm) (b_start bn) m_o_end n_o_end k_b m_o n_o)
              (range m_o_end)) (range n_o_end)
        else
          flat_map (fun m_o =>
            flat_map (fun n_o =>
              block_body a (b_start bm) (b_start bn) m_o_end n_o_end k_b m_o n_o)
              (range n_o_end)) (range m_o_end))
        (range (K_sub_block config))
      ++ match shapes with
         | Some s => [sub_block_anchor s a m_b n_b bm bn]
         | None => []
         end)
      (range (N_sub_block config)))
    (range (M_sub_block config)).

(** Building the loop nest: the region shapes are computed when the nest is
    built, and only [if (fusion && !is_partial)]. *)
Definition single_thread_matmul_call : outcome (call_args -> list event) :=
  if fusion && negb is_partial then
    s <- sub_block_anchor_shapes (is_blocking tc) iim iin config
           M_anchor_info N_anchor_info ;;
    Ok (matmul_loops (Some s))
  else Ok (matmul_loops None).

End SingleThreadMatmulCall.

(** ** generate *)

(** The sizes computed at the head of [generate] (lines 519-546). *)
Record extents : Type := mk_extents {
  e_K_split_num : Z;
  e_M : Z; e_K : Z; e_N : Z;
  e_M_block_size : Z; e_M_ib_block_size : Z;
  e_N_block_size : Z; e_N_ib_block_size : Z;
  e_K_block_size : Z; e_K_ib_block_size : Z;
  e_M_blk_num : Z; e_N_blk_num : Z
}.

(** [X_block_size] and [X_ib_block_size] before the replacement of a zero
    [X_ib_block_size] (lines 530-538). *)
Definition block_sizes (X block split : Z) : outcome (Z * Z) :=
  xb <- idiv X block ;;
  c <- utils_divide_and_ceil xb split ;;
  xb' <- idiv X block ;;
  f <- idiv xb' split ;;
  Ok (c * block, f * block).

Definition block_extents (g : gen_managed_matmul_core_t) (ctx : context_t)
  (config : managed_matmul_core_config_t) : outcome extents :=
  let num_threads := get_num_threads ctx in
  t <- idiv num_threads (M_split_num config) ;;
  K_split_num <- idiv t (N_split_num config) ;;
  M <- utils_rnd_up (dim (in_tensors_0 g) 0) (iim_block_ g) ;;
  K <- utils_rnd_up (dim (in_tensors_0 g) 1) (iik_block_ g) ;;
  N <- utils_rnd_up (dim (in_tensors_1 g) 1) (iin_block_ g) ;;
  '(M_block_size, M_ib) <- block_sizes M (iim_block_ g) (M_split_num config) ;;
  '(N_block_size, N_ib) <- block_sizes N (iin_block_ g) (N_split_num config) ;;
  '(K_block_size, K_ib) <- block_sizes K (iik_block_ g) K_split_num ;;
  let M_ib_block_size := if M_ib =? 0 then M_block_size else M_ib in
  let N_ib_block_size := if N_ib =? 0 then N_block_size else N_ib in
  let K_ib_block_size := if K_ib =? 0 then K_block_size else K_ib in
  M_blk_num <-
    idiv (M - (M_block_size - iim_block_ g) * M_split_num config) (iim_block_ g) ;;
  N_blk_num <-
    idiv (N - (N_block_size - iin_block_ g) * N_split_num config) (iin_block_ g) ;;
  Ok (mk_extents K_split_num M K N M_block_size M_ib_block_size
        N_block_size N_ib_block_size K_block_size K_ib_block_size
        M_blk_num N_blk_num).

(** The three [COMPILE_ASSERT]s on the sub-block counts (lines 548-556);
    the divisors are non-zero once [block_extents] has returned. *)
Definition check_sub_blocks (g : gen_managed_matmul_core_t)
  (config : managed_matmul_core_config_t) (e : extents) : outcome unit :=
  _ <- COMPILE_ASSERT
         ((Z.quot (e_M_block_size e) (iim_block_ g) >=? M_sub_block config)
          && (Z.quot (e_M_ib_block_size e) (iim_block_ g) >=? M_sub_block config))
         "bad M_sub_block given" ;;
  _ <- COMPILE_ASSERT
         ((Z.quot (e_N_block_size e) (iin_block_ g) >=? N_sub_block config)
          && (Z.quot (e_N_ib_block_size e) (iin_block_ g) >=? N_sub_block config))
         "bad N_sub_block given" ;;
  COMPILE_ASSERT
    ((Z.quot (e_K_block_size e) (iik_block_ g) >=? K_sub_block config)
     && (Z.quot (e_K_ib_block_size e) (iik_block_ g) >=? K_sub_block config))
    "bad K_sub_block given".

(** [dtype_block] and the check of the format of B (lines 558-570). *)
Definition get_dtype_block (g : gen_managed_matmul_core_t) : Z :=
  if etype_eqb (get_B_dtype g) bf16 then 2
  else if is_u8_or_s8 (get_B_dtype g) then 4
  else 1.

Definition check_B_format (g : gen_managed_matmul_core_t) : outcome unit :=
  let dtype_block := get_dtype_block g in
  if 1 <? dtype_block then
    COMPILE_ASSERT
      ((format_blocks_2 (in_tensors_1 g) =? -1)
       || (format_blocks_2 (in_tensors_1 g) =? dtype_block))
      "Wrong data format of B"
  else Ok tt.

(** The emitted plan: the temporary tensor, the extents of the two parallel
    loops, and what their bodies do.  [get_thread_id m_s n_s k_s] is the id
    of the thread that runs the iteration. *)
Record loop_plan : Type := mk_plan {
  out_tmp_buf : option (sc_data_etype * list Z);
  M_real_split : Z;
  N_real_split : Z;
  n_s_body : (Z -> Z -> Z -> Z) -> Z -> Z -> list event;
  m_s_tail : Z -> list event
}.

(** The whole plan run with the parallel loops taken in index order. *)
Definition run_plan (p : loop_plan) (get_thread_id : Z -> Z -> Z -> Z)
  : list event :=
  flat_map (fun m_s =>
    flat_map (fun n_s => n_s_body p get_thread_id m_s n_s)
      (range (N_real_split p))
    ++ m_s_tail p m_s)
    (range (M_real_split p)).

Section Generate.

Variable g : gen_managed_matmul_core_t.
(** [vectorize_step(ctx, get_C_dtype().type_code_, 16)], defined outside
    this file. *)
Variable vectorize_step_16 : Z.
Variable config : managed_matmul_core_config_t.
Variable fusion : bool.
Variable e : extents.

Let iim := iim_block_ g.
Let iin := iin_block_ g.
Let iik := iik_block_ g.
Let blocking := is_blocking (out_tensors_0 g).

(** [m_idx] and [M_single_thr_size] of the iteration [m_s] (lines 592-600),
    and their counterparts along N and K. *)
Definition m_partition (m_s : Z) : balance211 :=
  get_balance211_length (Z.quot (e_M e) iim) (M_split_num config) m_s.
Definition n_partition (n_s : Z) : balance211 :=
  get_balance211_length (Z.quot (e_N e) iin) (N_split_num config) n_s.
Definition k_partition (k_s : Z) : balance211 :=
  get_balance211_length (Z.quot (e_K e) iik) (e_K_split_num e) k_s.

(** One candidate region of the anchor of a thread (lines 614-628). *)
Definition thread_slice (m_idx n_idx : Z) (i j : Z) : slice_range :=
  let M_length := if i =? 0 then e_M_block_size e else e_M_ib_block_size e in
  let N_length := if j =? 0 then e_N_block_size e else e_N_ib_block_size e in
  if blocking then
    [(Z.quot m_idx iim, Z.quot M_length iim);
     (Z.quot n_idx iin, Z.quot N_length iin); (0, iim); (0, iin)]
  else [(m_idx, M_length); (n_idx, N_length)].

(** The anchor of one thread's output (lines 611-680 and 817-886). *)
Definition thread_anchor (m_s n_s m_idx n_idx : Z) : list event :=
  let s := thread_slice m_idx n_idx in
  let inside := (m_idx <? e_M e) && (n_idx <? e_N e) in
  if (e_M_block_size e =? e_M_ib_block_size e)
     && (e_N_block_size e =? e_N_ib_block_size e) then
    if inside then [output_fusion_anchor at_thread (s 0 0)] else []
  else if e_M_block_size e =? e_M_ib_block_size e then
    let iter := if n_s <? e_N_blk_num e then 0 else 1 in
    if inside then [iterated_fusion_anchor at_thread iter [s 0 0; s 0 1]]
    else []
  else if e_N_block_size e =? e_N_ib_block_size e then
    let iter := if m_s <? e_M_blk_num e then 0 else 1 in
    if inside then [iterated_fusion_anchor at_thread iter [s 0 0; s 1 0]]
    else []
  else
    let iter :=
      if m_s <? e_M_blk_num e
      then (if n_s <? e_N_blk_num e then 0 else 1)
      else (if n_s <? e_N_blk_num e then 2 else 3) in
    if inside
    then [iterated_fusion_anchor at_thread iter [s 0 0; s 0 1; s 1 0; s 1 1]]
    else [].

(** The anchor created after the [n_s] loop when [N_split_num == 1]
    (lines 683-714 and 890-921).  [m_idx] and [n_idx] still denote the
    expressions assigned in the body of the [n_s] loop. *)
Definition m_split_anchor (m_s : Z) : list event :=
  let m_idx := b_start (m_partition m_s) * iim in
  if fusion && (N_split_num config =? 1) then
    let s (M_length : Z) : slice_range :=
      if blocking then
        [(Z.quot m_idx iim, Z.quot M_length iim);
         (0, divide_and_ceil (e_N e) iin); (0, iim); (0, iin)]
      else [(m_idx, M_length); (0, e_N e)] in
    if e_M_block_size e =? e_M_ib_block_size e then
      [output_fusion_anchor at_m_split (s (e_M_block_size e))]
    else
      [iterated_fusion_anchor at_m_split
         (if m_s <? e_M_blk_num e then 0 else 1)
         [s (e_M_block_size e); s (e_M_ib_block_size e)]]
  else [].

Definition M_anchor_info : list Z :=
  [e_M_blk_num e; e_M_block_size e; e_M_ib_block_size e].
Definition N_anchor_info : list Z :=
  [e_N_blk_num e; e_N_block_size e; e_N_ib_block_size e].

(** The values handed to [single_thread_matmul_call] by the thread
    [(m_s, n_s, k_s)]. *)
Definition thread_args (K k_idx : Z) (tid : Z -> Z -> Z -> Z) (m_s n_s k_s : Z)
  : call_args :=
  let bm := m_partition m_s in
  let bn := n_partition n_s in
  mk_call_args (b_length bm * iim) (b_length bn * iin) K
    (b_start bm * iim) (b_start bn * iin) k_idx
    m_s n_s k_s (tid m_s n_s k_s).

(** The branch [K_split_num == 1] (lines 586-715): body of the [n_s] loop. *)
Definition body_no_K_split (call : call_args -> list event) (K_rnd : Z)
  (tid : Z -> Z -> Z -> Z) (m_s n_s : Z) : list event :=
  flat_map (fun k_s => call (thread_args K_rnd k_s tid m_s n_s k_s))
    (range (e_K_split_num e))
  ++ (if fusion
      then thread_anchor m_s n_s (b_start (m_partition m_s) * iim)
             (b_start (n_partition n_s) * iin)
      else []).

(** The element type of the temporary tensor (lines 725-727). *)
Definition out_dtype : sc_data_etype :=
  if is_u8_or_s8 (get_A_dtype g) then s32 else f32.

Definition K_real_split : Z :=
  Z.min (divide_and_ceil (e_K e) iik) (e_K_split_num e).

(** [lanes] (lines 758-761). *)
Definition lanes : Z :=
  if negb (Z.quot iin 16 =? 0) && (Z.rem iin 16 =? 0)
  then vectorize_step_16 else 1.

(** The reduction of the temporary tensor into C for the thread
    [(m_s, n_s)] (lines 756-887). *)
Definition reduce_phase (m_s n_s : Z) : list event :=
  let bm := m_partition m_s in
  let bn := n_partition n_s in
  let M_single_thr_size := b_length bm * iim in
  let N_single_thr_size := b_length bn * iin in
  let m_idx := b_start bm * iim in
  let n_idx := b_start bn * iin in
  let inside := (m_idx <? e_M e) && (n_idx <? e_N e) in
  let M_single_thr_num_block := divide_and_ceil M_single_thr_size iim in
  let N_single_thr_num_block := divide_and_ceil N_single_thr_size iin in
  if blocking then
    flat_map (fun lm_ln =>
      let lm := Z.quot lm_ln N_single_thr_num_block in
      let ln := Z.rem lm_ln N_single_thr_num_block in
      if inside then
        mem_zero [Z.quot m_idx iim + lm; Z.quot n_idx iin + ln; 0; 0]
          (iim * iin) out_dtype
        :: flat_map (fun lks =>
             flat_map (fun lmo =>
               map (fun lno =>
                 add_assign
                   [Z.quot m_idx iim + lm; Z.quot n_idx iin + ln; lmo; lno]
                   [lks; Z.quot m_idx iim + lm; Z.quot n_idx iin + ln; lmo; lno]
                   lanes)
                 (range_step iin lanes))
               (range iim))
             (range K_real_split)
        ++ (if fusion
            then [output_fusion_anchor at_reduce_tile
                    [(Z.quot m_idx iim + lm, 1); (Z.quot n_idx iin + ln, 1);
                     (0, iim); (0, iin)]]
            else [])
      else [])
      (range (M_single_thr_num_block * N_single_thr_num_block))
  else
    (if inside
     then [dnnl_brgemm_init [m_idx; n_idx] M_single_thr_size N_single_thr_size
             (e_N e) out_dtype 0]
     else [])
    ++ flat_map (fun lm_ln =>
         let lm := Z.quot lm_ln N_single_thr_size in
         let ln := Z.rem lm_ln N_single_thr_size in
         flat_map (fun lks =>
           if inside
           then [add_assign [m_idx + lm; n_idx + ln]
                   [lks; m_idx + lm; n_idx + ln] lanes]
           else [])
           (range (e_K_split_num e)))
         (range_step (M_single_thr_size * N_single_thr_size) lanes)
    ++ (if fusion then thread_anchor m_s n_s m_idx n_idx else []).

(** The branch [K_split_num != 1] (lines 716-922): body of the [n_s] loop. *)
Definition body_K_split (call : call_args -> list event)
  (tid : Z -> Z -> Z -> Z) (m_s n_s : Z) : list event :=
  flat_map (fun k_s =>
    let bk := k_partition k_s in
    call (thread_args (b_length bk * iik) (b_start bk * iik) tid m_s n_s k_s))
    (range K_real_split)
  ++ reduce_phase m_s n_s.

Definition generate_plan : outcome loop_plan :=
  _ <- check_sub_blocks g config e ;;
  _ <- check_B_format g ;;
  let dtype_block := get_dtype_block g in
  let M_real := Z.min (divide_and_ceil (e_M e) iim) (M_split_num config) in
  let N_real := Z.min (divide_and_ceil (e_N e) iin) (N_split_num config) in
  if e_K_split_num e =? 1 then
    call <- single_thread_matmul_call g config tsr_C dtype_block fusion
              M_anchor_info N_anchor_info false ;;
    Ok (mk_plan None M_real N_real
          (body_no_K_split call (size_t_rnd_up (e_K e) iik)) m_split_anchor)
  else
    call <- single_thread_matmul_call g config tsr_out_tmp_buf dtype_block
              fusion M_anchor_info N_anchor_info true ;;
    Ok (mk_plan
          (Some (out_dtype, K_real_split :: blocking_dims (out_tensors_0 g)))
          M_real N_real (body_K_split call) m_split_anchor).

End Generate.

(** [generate], from its arguments to the plan it emits. *)
Definition generate (g : gen_managed_matmul_core_t) (ctx : context_t)
  (vectorize_step_16 : Z) (config : managed_matmul_core_config_t)
  (fusion : bool) : outcome loop_plan :=
  e <- block_extents g ctx config ;;
  generate_plan g vectorize_step_16 config fusion e.

(** ** Vocabulary of the statements *)

Definition sum_Z (l : list Z) : Z := fold_right Z.add 0 l.

(** [x] lies in the interval of offset [s] and length [l]. *)
Definition covers (x s l : Z) : bool := (s <=? x) && (x <? s + l).

(** The point [p] lies in the region [r], dimension by dimension. *)
Fixpoint in_slice (p : list Z) (r : slice_range) : bool :=
  match p, r with
  | [], [] => true
  | x :: p', (s, l) :: r' => covers x s l && in_slice p' r'
  | _, _ => false
  end.

Definition site_eqb (a b : anchor_site) : bool :=
  match a, b with
  | at_block, at_block | at_sub_block, at_sub_block | at_thread, at_thread
  | at_m_split, at_m_split | at_reduce_tile, at_reduce_tile => true
  | _, _ => false
  end.

(** The region an anchor event denotes when it runs: the slice of an output
    anchor, the selected alternative of an iterated one. *)
Definition anchor_region (site : anchor_site) (ev : event) : list slice_range :=
  match ev with
  | output_fusion_anchor s r => if site_eqb s site then [r] else []
  | iterated_fusion_anchor s iter rs =>
      if site_eqb s site then
        match nth_error rs (Z.to_nat iter) with
        | Some r => [r]
        | None => []
        end
      else []
  | _ => []
  end.

(** The regions of the anchors created at [site], in the order of a trace. *)
Definition anchor_regions (site : anchor_site) (trace : list event)
  : list slice_range :=
  flat_map (anchor_region site) trace.

(** The number of regions of [rs] that contain the point [p]. *)
Definition cover_count (p : list Z) (rs : list slice_range) : nat :=
  List.length (filter (in_slice p) rs).

(** [rs] exactly tiles [region]: a point of [region] lies in exactly one
    member of [rs], and a point outside lies in none. *)
Definition exactly_tiles (rs : list slice_range) (region : slice_range) : Prop :=
  forall p : list Z,
    cover_count p rs = if in_slice p region then 1%nat else 0%nat.

Definition b2n (b : bool) : nat := if b then 1%nat else 0%nat.

(** [a] with another thread id. *)
Definition with_tid (a : call_args) (tid : Z) : call_args :=
  mk_call_args (a_M a) (a_N a) (a_K a) (a_m_idx a) (a_n_idx a) (a_k_idx a)
    (a_m_s a) (a_n_s a) (a_k_s a) tid.

(** The state of the search after the candidates [1 .. k]: it holds the
    first candidate of least cost, unless no candidate costs less than
    [FLT_MAX]. *)
Definition search_invariant (num_threads iim_block iin_block M N : Z)
  (k : Z) (st : Z * Z) : Prop :=
  let cost_of := new_cost num_threads iim_block iin_block M N in
  (st = (1, FLT_MAX)
   \/ (1 <= fst st <= k /\ cost_of (fst st) = Ok (snd st) /\ snd st < FLT_MAX))
  /\ forall i, 1 <= i <= k ->
       exists c, cost_of i = Ok c /\ snd st <= c /\ (i < fst st -> snd st < c).

(** The output region assigned to the thread [(m_s, n_s)]: [m_idx],
    [M_single_thr_size], [n_idx] and [N_single_thr_size] of lines 592-600,
    in the layout of C (blocks, then the full inner block, when C is
    blocked). *)
Definition thread_region (g : gen_managed_matmul_core_t)
  (config : managed_matmul_core_config_t) (e : extents) (m_s n_s : Z)
  : slice_range :=
  let bm := m_partition g config e m_s in
  let bn := n_partition g config e n_s in
  if is_blocking (out_tensors_0 g) then
    [(b_start bm, b_length bm); (b_start bn, b_length bn);
     (0, iim_block_ g); (0, iin_block_ g)]
  else
    [(b_start bm * iim_block_ g, b_length bm * iim_block_ g);
     (b_start bn * iin_block_ g, b_length bn * iin_block_ g)].

(** Sums of counts over the values of a loop variable. *)
Definition nsum (f : Z -> nat) (l : list Z) : nat := list_sum (map f l).

(** The messages of the three checks on the sub-block counts. *)
Definition sub_block_messages : list string :=
  ["bad M_sub_block given"; "bad N_sub_block given"; "bad K_sub_block given"]%string.

(** Some sub-block count exceeds the number of blocks of a thread along its
    axis, for the big or for the small share. *)
Definition sub_block_exceeds (g : gen_managed_matmul_core_t)
  (config : managed_matmul_core_config_t) (e : extents) : Prop :=
  M_sub_block config > Z.quot (e_M_block_size e) (iim_block_ g)
  \/ M_sub_block config > Z.quot (e_M_ib_block_size e) (iim_block_ g)
  \/ N_sub_block config > Z.quot (e_N_block_size e) (iin_block_ g)
  \/ N_sub_block config > Z.quot (e_N_ib_block_size e) (iin_block_ g)
  \/ K_sub_block config > Z.quot (e_K_block_size e) (iik_block_ g)
  \/ K_sub_block config > Z.quot (e_K_ib_block_size e) (iik_block_ g).

(** The record [e] in terms of the numbers of blocks [Mb], [Nb], [Kb]. *)
Definition extents_of_blocks (g : gen_managed_matmul_core_t) (ctx : context_t)
  (config : managed_matmul_core_config_t) (e : extents) (Mb Nb Kb : Z) : Prop :=
  let ib (Xb split block : Z) :=
    if Z.quot Xb split * block =? 0 then divide_and_ceil Xb split * block
    else Z.quot Xb split * block in
  e_M e = Mb * iim_block_ g /\ e_N e = Nb * iin_block_ g
  /\ e_K e = Kb * iik_block_ g
  /\ e_K_split_num e
     = Z.quot (Z.quot (get_num_threads ctx) (M_split_num config))
         (N_split_num config)
  /\ e_K_split_num e <> 0
  /\ e_M_block_size e = divide_and_ceil Mb (M_split_num config) * iim_block_ g
  /\ e_M_ib_block_size e = ib Mb (M_split_num config) (iim_block_ g)
  /\ e_M_blk_num e
     = Mb - (divide_and_ceil Mb (M_split_num config) - 1) * M_split_num config
  /\ e_N_block_size e = divide_and_ceil Nb (N_split_num config) * iin_block_ g
  /\ e_N_ib_block_size e = ib Nb (N_split_num config) (iin_block_ g)
  /\ e_N_blk_num e
     = Nb - (divide_and_ceil Nb (N_split_num config) - 1) * N_split_num config
  /\ e_K_block_size e = divide_and_ceil Kb (e_K_split_num e) * iik_block_ g
  /\ e_K_ib_block_size e = ib Kb (e_K_split_num e) (iik_block_ g).

(** The last dimensions of a point against the last dimensions of a
    region, past the first two. *)
Definition point_tail (p : list Z) (tail : slice_range) : bool :=
  match p with
  | _ :: _ :: rest => in_slice rest tail
  | _ => false
  end.

(** The inner dimensions of a region of C: none for a plain C, the full
    inner block for a blocked one. *)
Definition inner_block (g : gen_managed_matmul_core_t) : slice_range :=
  if is_blocking (out_tensors_0 g) then [(0, iim_block_ g); (0, iin_block_ g)]
  else [].

(** The first two coordinates of a point. *)
Definition point_m (p : list Z) : Z := nth 0 p 0.
Definition point_n (p : list Z) : Z := nth 1 p 0.

(** Start and width, along one axis, of the region of a block anchor
    (lines 354-362): [block] is the block size of the axis, [idx] the start
    of the thread, [b_idx] the first block of the sub-block, [o_end] its
    number of blocks, [o] the loop variable. *)
Definition block_start (g : gen_managed_matmul_core_t)
  (block idx b_idx o_end tid o : Z) : Z :=
  let start_idx := idx + b_idx * block + Z.rem (o + tid) o_end * block in
  if is_blocking (out_tensors_0 g) then Z.quot start_idx block else start_idx.

Definition block_unit (g : gen_managed_matmul_core_t) (block : Z) : Z :=
  if is_blocking (out_tensors_0 g) then 1 else block.

(** The number of block anchors of a thread whose interval along one axis
    contains [x]: [nb] blocks from [idx], in [sub] sub-blocks. *)
Definition axis_block_count (g : gen_managed_matmul_core_t)
  (block nb sub idx tid x : Z) : nat :=
  nsum (fun m_b =>
          let b := get_balance211_length nb sub m_b in
          nsum (fun m_o =>
                  b2n (covers x
                         (block_start g block idx (b_start b) (b_length b) tid m_o)
                         (block_unit g block)))
            (range (b_length b)))
    (range sub).

(** ** What the reduction does to one element of C *)

(** [idx] lies in the span of [lanes] elements that starts at [base] and
    runs along the last dimension. *)
Fixpoint in_span (idx base : list Z) (lanes : Z) : bool :=
  match idx, base with
  | [x], [b] => covers x b lanes
  | x :: idx', b :: base' => (x =? b) && in_span idx' base' lanes
  | _, _ => false
  end.

(** The index [base] moved by [j] along the last dimension. *)
Fixpoint span_element (base : list Z) (j : Z) : list Z :=
  match base with
  | [] => []
  | [b] => [b + j]
  | b :: base' => b :: span_element base' j
  end.

(** The element [idx] of C is set to zero by the event: [mem_zero] clears
    [size] consecutive elements of an inner block from the given one,
    [dnnl_brgemm_init] sets an [M x N] window of a plain C to [value]. *)
Definition zero_covers (g : gen_managed_matmul_core_t) (ev : event)
  (idx : list Z) : bool :=
  match ev, idx with
  | mem_zero [mb; nb; i0; j0] size _, [x; y; i; j] =>
      (x =? mb) && (y =? nb) && covers j 0 (iin_block_ g)
      && covers (i * iin_block_ g + j) (i0 * iin_block_ g + j0) size
  | dnnl_brgemm_init [m; n] M N _ _ value, [x; y] =>
      (value =? 0) && covers x m M && covers y n N
  | _, _ => false
  end.

(** The content of the element [idx] of C, as far as the events seen so far
    determine it: [None] while it depends on what C held at the start, or
    on a brgemm call that writes C; [Some l] once it has been set to zero
    and the elements of the temporary tensor at the indices [l] have then
    been added to it, in this order. *)
Definition c_step (g : gen_managed_matmul_core_t) (idx : list Z)
  (st : option (list (list Z))) (ev : event) : option (list (list Z)) :=
  match ev with
  | mem_zero _ _ _ | dnnl_brgemm_init _ _ _ _ _ _ =>
      if zero_covers g ev idx then Some [] else st
  | add_assign c t lanes =>
      if in_span idx c lanes then
        match st with
        | Some l => Some (l ++ [span_element t (last idx 0 - last c 0)])
        | None => None
        end
      else st
  | brgemm _ _ _ tsr_C _ _ _ _ _ _ _ => None
  | _ => st
  end.

Definition c_state (g : gen_managed_matmul_core_t) (idx : list Z)
  (trace : list event) : option (list (list Z)) :=
  fold_left (c_step g idx) trace None.

(** Adding the element of slot [lks] at the position [idx]. *)
Definition append_slot (idx : list Z) (st : option (list (list Z))) (lks : Z)
  : option (list (list Z)) :=
  match st with
  | Some l => Some (l ++ [lks :: idx])
  | None => None
  end.

(** ** Vocabulary of the further properties *)

(** The default blocks [(M_block_default, N_block_default, K_block_default)]
    the constructor starts from, by element type of A (lines 225-241). *)
Definition default_blocks (t : sc_data_etype) : Z * Z * Z :=
  if etype_eqb t f32 then (16, 16, 16)
  else if etype_eqb t bf16 then (32, 32, 32)
  else (32, 64, 64).

(** The [min] the constructor passes for the block of K (line 252). *)
Definition K_block_min (t : sc_data_etype) : Z :=
  if etype_eqb t bf16 then 2 else if etype_eqb t f32 then 1 else 4.

(** The fatal errors [generate] can end in (lines 548-570). *)
Definition generate_messages : list string :=
  sub_block_messages ++ ["Wrong data format of B"%string].

(** The whole output, in the layout of C: the [M x N] elements of a plain
    C, the blocks and the full inner block of a blocked one. *)
Definition output_region (g : gen_managed_matmul_core_t) (e : extents)
  : slice_range :=
  if is_blocking (out_tensors_0 g) then
    [(0, Z.quot (e_M e) (iim_block_ g)); (0, Z.quot (e_N e) (iin_block_ g));
     (0, iim_block_ g); (0, iin_block_ g)]
  else [(0, e_M e); (0, e_N e)].

(** ** The blocks a brgemm call multiplies *)

(** The block that the leading coordinate of a tile denotes: the coordinate
    itself in a blocked layout, the element offset divided by the block
    size in a plain one. *)
Definition block_of (blocked : bool) (block x : Z) : Z :=
  if blocked then x else Z.quot x block.

(** The brgemm call [ev] multiplies the block [(mb, kb)] of A by the block
    [(kb, nb)] of B and accumulates into the block [(mb, nb)] of its output
    (C, or a slot of the temporary tensor, whose leading index is the
    slot): the tiles of A, B and the output start at the blocks [mb], [nb]
    and at the same block of K, and [kb] is one of the [bs] blocks of K the
    batch walks over from there. *)
Definition brgemm_multiplies (g : gen_managed_matmul_core_t) (dtype_block : Z)
  (mb nb kb : Z) (ev : event) : bool :=
  match ev with
  | brgemm _ A_idx B_idx C C_idx bs _ _ _ _ _ =>
      let a_blocked := is_blocking (in_tensors_0 g) in
      let b_blocked := (1 <? dtype_block) || is_blocking (in_tensors_1 g) in
      let c_blocked := is_blocking (out_tensors_0 g) in
      let a_m := block_of a_blocked (iim_block_ g) (nth 0 A_idx 0) in
      let a_k := block_of a_blocked (iik_block_ g) (nth 1 A_idx 0) in
      let b_k := if b_blocked then nth 1 B_idx 0
                 else Z.quot (nth 0 B_idx 0) (iik_block_ g) in
      let b_n := if b_blocked then nth 0 B_idx 0
                 else Z.quot (nth 1 B_idx 0) (iin_block_ g) in
      let C_tile := match C with tsr_out_tmp_buf => tl C_idx | _ => C_idx end in
      let c_m := block_of c_blocked (iim_block_ g) (nth 0 C_tile 0) in
      let c_n := block_of c_blocked (iin_block_ g) (nth 1 C_tile 0) in
      (a_m =? mb) && (c_m =? mb) && (b_n =? nb) && (c_n =? nb)
      && (b_k =? a_k) && covers kb a_k bs
  | _ => false
  end.

(** The number of brgemm calls of a trace that multiply the blocks
    [(mb, kb)] and [(kb, nb)]. *)
Definition multiply_count (g : gen_managed_matmul_core_t) (dtype_block : Z)
  (mb nb kb : Z) (trace : list event) : nat :=
  List.length (filter (brgemm_multiplies g dtype_block mb nb kb) trace).

(** [config] with another [im_loop_order]. *)
Definition with_loop_order (config : managed_matmul_core_config_t) (o : Z)
  : managed_matmul_core_config_t :=
  mk_config (M_split_num config) (N_split_num config) (M_sub_block config)
    (N_sub_block config) (K_sub_block config) o.

(** The event is a brgemm call that accumulates into the slot [k_s] of the
    temporary tensor. *)
Definition writes_slot (k_s : Z) (ev : event) : Prop :=
  match ev with
  | brgemm _ _ _ tsr_out_tmp_buf (s :: _) _ _ _ _ _ _ => s = k_s
  | _ => False
  end.

(** The event is a brgemm call. *)
Definition is_brgemm (ev : event) : bool :=
  match ev with
  | brgemm _ _ _ _ _ _ _ _ _ _ _ => true
  | _ => false
  end.

(** ** The brgemm calls on one tile of the output *)

Definition tensor_eqb (a b : tensor_id) : bool :=
  match a, b with
  | tsr_A, tsr_A | tsr_B, tsr_B | tsr_C, tsr_C
  | tsr_out_tmp_buf, tsr_out_tmp_buf => true
  | _, _ => false
  end.

Fixpoint index_eqb (a b : list Z) : bool :=
  match a, b with
  | [], [] => true
  | x :: a', y :: b' => (x =? y) && index_eqb a' b'
  | _, _ => false
  end.

(** The [init] flags of the brgemm calls of a trace that accumulate into
    the tile of index [idx] of the tensor [C], in the order of the trace:
    [true] for [brgemm_init_update], [false] for [brgemm_update]. *)
Definition init_flags (C : tensor_id) (idx : list Z) (trace : list event)
  : list bool :=
  flat_map (fun ev =>
    match ev with
    | brgemm init _ _ C' idx' _ _ _ _ _ _ =>
        if tensor_eqb C C' && index_eqb idx idx' then [init] else []
    | _ => []
    end) trace.

(** The number of [brgemm_init_update] calls of a trace on that tile. *)
Definition init_count (C : tensor_id) (idx : list Z) (trace : list event)
  : nat :=
  List.length (filter (fun b : bool => b) (init_flags C idx trace)).

(** The flags of [K_sub_block] rounds of [k] calls each: the first round
    initialises, the others accumulate. *)
Definition rounds (config : managed_matmul_core_config_t) (k : nat) : list bool :=
  flat_map (fun k_b => repeat (k_b =? 0) k) (range (K_sub_block config)).

(** [cidx] of one iteration of the loops over the blocks (lines 326-330). *)
Definition block_C_idx (g : gen_managed_matmul_core_t) (is_partial : bool)
  (a : call_args) (m_b_idx n_b_idx m_o_end n_o_end m_o n_o : Z) : list Z :=
  let iim := iim_block_ g in
  let iin := iin_block_ g in
  let m_start_idx :=
    a_m_idx a + m_b_idx * iim + Z.rem (m_o + a_tid a) m_o_end * iim in
  let n_start_idx :=
    a_n_idx a + n_b_idx * iin + Z.rem (n_o + a_tid a) n_o_end * iin in
  let cidx0 :=
    if negb (is_blocking (out_tensors_0 g)) then [m_start_idx; n_start_idx]
    else [Z.quot m_start_idx iim; Z.quot n_start_idx iin; 0; 0] in
  if is_partial then a_k_s a :: cidx0 else cidx0.

(** The blocks [(mb, nb)] that the tile of index [idx] of [C] holds, and the
    first block of K of the thread that accumulates into it: the start of
    the share of K of the slot, for a tile of the temporary tensor. *)
Definition tile_blocks (g : gen_managed_matmul_core_t) (e : extents)
  (C : tensor_id) (idx : list Z) : Z * Z * Z :=
  let blocking := is_blocking (out_tensors_0 g) in
  match C with
  | tsr_out_tmp_buf =>
      (block_of blocking (iim_block_ g) (nth 1 idx 0),
       block_of blocking (iin_block_ g) (nth 2 idx 0),
       b_start (k_partition g e (nth 0 idx 0)))
  | _ =>
      (block_of blocking (iim_block_ g) (nth 0 idx 0),
       block_of blocking (iin_block_ g) (nth 1 idx 0), 0)
  end.

(** The invariant of the loop nest about one tile: every
    [brgemm_init_update] on the tile is a call that multiplies the blocks of
    the tile from the first block of K of its thread, and as long as there
    is at most one such call the calls on the tile come in rounds. *)
Definition tile_in_order (g : gen_managed_matmul_core_t)
  (config : managed_matmul_core_config_t) (e : extents) (C : tensor_id)
  (idx : list Z) (trace : list event) : Prop :=
  let '(mb, nb, kb) := tile_blocks g e C idx in
  (init_count C idx trace
   <= multiply_count g (get_dtype_block g) mb nb kb trace)%nat
  /\ ((init_count C idx trace <= 1)%nat ->
      init_flags C idx trace = rounds config (init_count C idx trace)).

(** ** Concrete inputs *)

Definition tensor_2d (blocked : bool) (d0 d1 : Z) (t : sc_data_etype)
  : logical_tensor_t :=
  mk_tensor [d0; d1] t blocked [d0; d1] (-1).

(** The generator the constructor builds for a plain [M x K] by [K x N]
    matmul of element type [t]. *)
Definition matmul_gen (num_threads M K N : Z) (t : sc_data_etype)
  : gen_managed_matmul_core_t :=
  make_gen num_threads (tensor_2d false M K t) (tensor_2d false K N t)
    (tensor_2d false M N t).

(** A machine with [num_threads] threads and 1 MiB of L2 cache. *)
Definition machine (num_threads : Z) : context_t :=
  mk_context num_threads 1048576 true.

(** A generator of an f32 matmul with 16x16x16 blocks, C plain or blocked
    (then of blocking dimensions [M/16, N/16, 16, 16]). *)
Definition f32_gen (blocked : bool) (M K N : Z) : gen_managed_matmul_core_t :=
  mk_gen (tensor_2d false M K f32) (tensor_2d false K N f32)
    (mk_tensor [M; N] f32 blocked
       (if blocked then [Z.quot M 16; Z.quot N 16; 16; 16] else [M; N]) (-1))
    16 16 16.

(** * Properties *)

(** ** Loop ranges *)

Lemma range_nonpos (n : Z) : n <= 0 -> range n = [].
Proof.
  intros H. unfold range. replace (Z.to_nat n) with 0%nat by lia. reflexivity.
Qed.

Lemma range_succ (n : Z) : 0 <= n -> range (n + 1) = range n ++ [n].
Proof.
  intros H. unfold range.
  replace (Z.to_nat (n + 1)) with (S (Z.to_nat n)) by lia.
  rewrite seq_S, map_app. simpl. rewrite Z2Nat.id by lia. reflexivity.
Qed.

Lemma range_cons (n : Z) :
  0 < n -> range n = 0 :: map (fun i => i + 1) (range (n - 1)).
Proof.
  intros H. unfold range.
  replace (Z.to_nat n) with (S (Z.to_nat (n - 1))) by lia.
  simpl. f_equal. rewrite <- seq_shift, !map_map.
  apply map_ext. intros k. lia.
Qed.

Lemma in_range (n x : Z) : In x (range n) <-> 0 <= x < n.
Proof.
  unfold range. rewrite in_map_iff. split.
  - intros (k & <- & Hk). apply in_seq in Hk. lia.
  - intros H. exists (Z.to_nat x). split; [lia|]. apply in_seq. lia.
Qed.

Lemma range_length (n : Z) : List.length (range n) = Z.to_nat n.
Proof. unfold range. now rewrite length_map, length_seq. Qed.

Lemma NoDup_range (n : Z) : NoDup (range n).
Proof.
  unfold range. apply Finite.Injective_map_NoDup_in.
  - intros a b _ _ H. lia.
  - apply seq_NoDup.
Qed.

Lemma range_ind (P : Z -> list Z -> Prop) :
  P 0 [] ->
  (forall k, 0 <= k -> P k (range k) -> P (k + 1) (range k ++ [k])) ->
  forall n, 0 <= n -> P n (range n).
Proof.
  intros H0 HS n Hn. pattern n. apply natlike_ind; [exact H0 | | exact Hn].
  intros k Hk IH. change (Z.succ k) with (k + 1) in *.
  replace (Z.succ k) with (k + 1) by lia.
  rewrite range_succ by lia. now apply HS.
Qed.

Lemma sum_Z_app (l l' : list Z) : sum_Z (l ++ l') = sum_Z l + sum_Z l'.
Proof.
  induction l as [|a l IH]; simpl; [reflexivity|]. rewrite IH. lia.
Qed.

(** ** Work partitioning: get_balance211_length *)

Section Balance211.

Variables n team : Z.
Hypothesis Hn : 0 <= n.
Hypothesis Hteam : 0 < team.

Let n1 := divide_and_ceil n team.
Let n2 := n1 - 1.
Let T1 := n - n2 * team.

Lemma balance_n1_ceil : n2 * team < n \/ n = 0.
Proof.
  subst n2 n1. unfold divide_and_ceil.
  Z.to_euclidean_division_equations. nia.
Qed.

Lemma balance_n1_upper : n <= n1 * team.
Proof.
  subst n1. unfold divide_and_ceil.
  Z.to_euclidean_division_equations. nia.
Qed.

Lemma balance_n1_nonneg : 0 <= n1.
Proof.
  subst n1. unfold divide_and_ceil.
  Z.to_euclidean_division_equations. nia.
Qed.

Lemma balance_T1_upper : T1 <= team.
Proof. pose proof balance_n1_upper. subst T1 n2. nia. Qed.

Lemma balance_T1_pos : 0 < T1.
Proof.
  subst T1 n2 n1. unfold divide_and_ceil.
  Z.to_euclidean_division_equations. nia.
Qed.

Lemma balance_n1_pos : 0 < n -> 0 < n1.
Proof. intros H. pose proof balance_n1_upper. nia. Qed.

Lemma balance_T1_eq (idx : Z) : b_T1 (get_balance211_length n team idx) = T1.
Proof. reflexivity. Qed.

Lemma balance_big (idx : Z) :
  idx < T1 ->
  b_length (get_balance211_length n team idx) = n1
  /\ b_start (get_balance211_length n team idx) = idx * n1.
Proof.
  intros H. unfold get_balance211_length. simpl. fold n1 n2 T1.
  destruct (Z.ltb_spec idx T1); [|lia].
  destruct (Z.leb_spec idx T1); [|lia]. auto.
Qed.

Lemma balance_small (idx : Z) :
  T1 <= idx ->
  b_length (get_balance211_length n team idx) = n2
  /\ b_start (get_balance211_length n team idx) = T1 * n1 + (idx - T1) * n2.
Proof.
  intros H. unfold get_balance211_length. simpl. fold n1 n2 T1.
  destruct (Z.ltb_spec idx T1); [lia|].
  destruct (Z.leb_spec idx T1); [|auto].
  split; [reflexivity|]. assert (idx = T1) by lia. subst idx. lia.
Qed.

(** The start of worker [idx + 1] is the end of worker [idx]. *)
Lemma balance_contiguous (idx : Z) :
  b_start (get_balance211_length n team (idx + 1))
  = b_start (get_balance211_length n team idx)
    + b_length (get_balance211_length n team idx).
Proof.
  destruct (Z.lt_ge_cases idx T1) as [H|H].
  - destruct (balance_big idx H) as [-> ->].
    destruct (Z.lt_ge_cases (idx + 1) T1) as [H'|H'].
    + destruct (balance_big _ H') as [_ ->]. lia.
    + destruct (balance_small _ H') as [_ ->]. subst n2. nia.
  - destruct (balance_small idx H) as [-> ->].
    destruct (balance_small (idx + 1) ltac:(lia)) as [_ ->]. lia.
Qed.

Lemma balance_start_0 : b_start (get_balance211_length n team 0) = 0.
Proof.
  destruct (balance_big 0 balance_T1_pos) as [_ ->]. lia.
Qed.

Lemma balance_start_team : b_start (get_balance211_length n team team) = n.
Proof.
  pose proof balance_T1_upper.
  destruct (balance_small team ltac:(lia)) as [_ ->]. subst T1 n2. nia.
Qed.

Lemma balance_length_nonneg (idx : Z) :
  0 < n -> 0 <= b_length (get_balance211_length n team idx).
Proof.
  intros H. pose proof (balance_n1_pos H).
  destruct (Z.lt_ge_cases idx T1) as [H'|H'].
  - destruct (balance_big idx H') as [-> _]. lia.
  - destruct (balance_small idx H') as [-> _]. lia.
Qed.

(** The lengths of the first [k] workers add up to the start of worker [k]. *)
Lemma balance_partial_sum (k : Z) :
  0 <= k ->
  sum_Z (map (fun i => b_length (get_balance211_length n team i)) (range k))
  = b_start (get_balance211_length n team k).
Proof.
  intros Hk. pattern k. apply natlike_ind; [| |exact Hk].
  - now rewrite balance_start_0.
  - intros x Hx IH. replace (Z.succ x) with (x + 1) by lia.
    rewrite range_succ, map_app, sum_Z_app by lia.
    rewrite balance_contiguous, <- IH. unfold sum_Z at 2. simpl. lia.
Qed.

Lemma balance_sum :
  sum_Z (map (fun i => b_length (get_balance211_length n team i)) (range team))
  = n.
Proof. rewrite balance_partial_sum by lia. apply balance_start_team. Qed.

End Balance211.

(** ** Counting the intervals that contain a point *)

Lemma filter_length_app {A : Type} (f : A -> bool) (l l' : list A) :
  List.length (filter f (l ++ l'))
  = (List.length (filter f l) + List.length (filter f l'))%nat.
Proof. now rewrite filter_app, length_app. Qed.

Lemma contiguous_start_mono (start len : Z -> Z) (k : Z) :
  0 <= k ->
  (forall i, 0 <= i < k -> 0 <= len i) ->
  (forall i, 0 <= i < k -> start (i + 1) = start i + len i) ->
  start 0 <= start k.
Proof.
  intros Hk. pattern k. apply natlike_ind; [lia | | exact Hk].
  intros i Hi IH Hlen Hnext. replace (Z.succ i) with (i + 1) by lia.
  rewrite Hnext by lia.
  pose proof (Hlen i ltac:(lia)).
  enough (start 0 <= start i) by lia.
  apply IH; intros; first [apply Hlen | apply Hnext]; lia.
Qed.

(** Intervals laid end to end contain a point at most once, and exactly
    once when the point lies between the first start and the last end. *)
Lemma contiguous_cover_count (start len : Z -> Z) (k x : Z) :
  0 <= k ->
  (forall i, 0 <= i < k -> 0 <= len i) ->
  (forall i, 0 <= i < k -> start (i + 1) = start i + len i) ->
  List.length (filter (fun i => covers x (start i) (len i)) (range k))
  = b2n (covers x (start 0) (start k - start 0)).
Proof.
  intros Hk. pattern k. apply natlike_ind; [| |exact Hk].
  - intros _ _. simpl. unfold covers, b2n.
    destruct (Z.leb_spec (start 0) x), (Z.ltb_spec x (start 0 + (start 0 - start 0)));
      simpl; auto; lia.
  - intros j Hj IH Hlen Hnext. replace (Z.succ j) with (j + 1) by lia.
    rewrite range_succ, filter_length_app by lia.
    rewrite IH by (intros; first [apply Hlen | apply Hnext]; lia).
    assert (Hmono : start 0 <= start j).
    { apply (contiguous_start_mono start len); [lia | |];
        intros; first [apply Hlen | apply Hnext]; lia. }
    rewrite (Hnext j) by lia. specialize (Hlen j ltac:(lia)).
    simpl. unfold covers, b2n.
    repeat match goal with
    | |- context [Z.leb ?a ?b] => destruct (Z.leb_spec a b)
    | |- context [Z.ltb ?a ?b] => destruct (Z.ltb_spec a b)
    end; simpl; lia.
Qed.

(** ** Claim C2 *)

(** C2.  For [n > 0], [team > 0] and [idx] in [[0, team)], with
    [n1 = ceil(n / team)], [n2 = n1 - 1] and [T1 = n - n2 * team]:
    [get_balance211_length] gives a worker [idx < T1] the length [n1] from
    [idx * n1], and a worker [idx >= T1] the length [n2] from
    [T1 * n1 + (idx - T1) * n2]; the lengths of all workers add up to [n],
    each is [n1] or [n1 - 1], and the [(start, length)] pairs partition
    [[0, n)]: they start at 0, each begins where the previous one ends, the
    last ends at [n], no length is negative, and every point of [[0, n)]
    lies in exactly one of them and no other point in any. *)
Theorem balance211_partition (n team idx : Z) :
  0 < n -> 0 < team -> 0 <= idx < team ->
  let n1 := divide_and_ceil n team in
  let n2 := n1 - 1 in
  let T1 := n - n2 * team in
  let b := get_balance211_length n team in
  (n2 * team < n <= n1 * team)
  /\ b_T1 (b idx) = T1
  /\ (idx < T1 -> b_length (b idx) = n1 /\ b_start (b idx) = idx * n1)
  /\ (T1 <= idx ->
      b_length (b idx) = n2 /\ b_start (b idx) = T1 * n1 + (idx - T1) * n2)
  /\ sum_Z (map (fun i => b_length (b i)) (range team)) = n
  /\ (forall i, 0 <= i < team -> b_length (b i) = n1 \/ b_length (b i) = n1 - 1)
  /\ b_start (b 0) = 0
  /\ (forall i, 0 <= i < team - 1 ->
      b_start (b (i + 1)) = b_start (b i) + b_length (b i))
  /\ b_start (b (team - 1)) + b_length (b (team - 1)) = n
  /\ (forall i, 0 <= i < team -> 0 <= b_length (b i))
  /\ (forall x,
      List.length
        (filter (fun i => covers x (b_start (b i)) (b_length (b i))) (range team))
      = if (0 <=? x) && (x <? n) then 1%nat else 0%nat).
Proof.
  intros Hn Hteam Hidx n1 n2 T1 b.
  assert (Hn0 : 0 <= n) by lia.
  repeat split.
  - destruct (balance_n1_ceil n team Hn0 Hteam); [assumption | lia].
  - apply balance_n1_upper; assumption.
  - apply balance_big; assumption.
  - apply balance_big; assumption.
  - apply balance_small; assumption.
  - apply balance_small; assumption.
  - apply balance_sum; assumption.
  - intros i Hi. destruct (Z.lt_ge_cases i T1) as [H|H].
    + left. apply balance_big; assumption.
    + right. apply balance_small; assumption.
  - apply balance_start_0; assumption.
  - intros i Hi. apply balance_contiguous.
  - unfold b. rewrite <- (balance_contiguous n team (team - 1)).
    replace (team - 1 + 1) with team by lia.
    apply balance_start_team; assumption.
  - intros i Hi. apply balance_length_nonneg; assumption.
  - intros x. unfold b.
    rewrite (contiguous_cover_count
               (fun i => b_start (get_balance211_length n team i))
               (fun i => b_length (get_balance211_length n team i))) by
      (first [lia | intros; apply balance_length_nonneg; assumption
             | intros; apply balance_contiguous]).
    rewrite balance_start_0, balance_start_team by assumption.
    unfold covers, b2n. now rewrite Z.sub_0_r, Z.add_0_l.
Qed.

(** The claim at [n = 7], [team = 3], [idx = 1]. *)
Lemma balance211_partition_witness :
  b_length (get_balance211_length 7 3 1) = 2
  /\ b_start (get_balance211_length 7 3 1) = 3.
Proof.
  pose proof (balance211_partition 7 3 1 ltac:(lia) ltac:(lia) ltac:(lia)) as H.
  cbv zeta in H.
  destruct H as (_ & _ & _ & Hsmall & _).
  destruct (Hsmall ltac:(vm_compute; discriminate)) as [Hl Hs].
  split; [exact Hl | exact Hs].
Defined.

(** ** Claim C9: rotation of the inner block indices *)

Lemma rotation_injective (tid c x y : Z) :
  0 <= tid -> 0 <= x < c -> 0 <= y < c ->
  Z.rem (x + tid) c = Z.rem (y + tid) c -> x = y.
Proof.
  intros Htid Hx Hy. rewrite !Z.rem_mod_nonneg by lia. intros H.
  pose proof (Z.div_mod (x + tid) c ltac:(lia)) as Ex.
  pose proof (Z.div_mod (y + tid) c ltac:(lia)) as Ey.
  rewrite H in Ex.
  destruct (Z.lt_trichotomy ((x + tid) / c) ((y + tid) / c)) as [L|[L|L]]; nia.
Qed.

Lemma rotation_permutation (tid c : Z) :
  0 <= tid -> 0 < c ->
  Permutation (map (fun b => Z.rem (b + tid) c) (range c)) (range c).
Proof.
  intros Htid Hc. apply Permutation_map_same_l.
  - apply Finite.Injective_map_NoDup_in; [|apply NoDup_range].
    intros x y Hx Hy. apply in_range in Hx, Hy.
    now apply rotation_injective.
  - intros y Hy. apply in_map_iff in Hy as (x & <- & Hx).
    apply in_range in Hx. apply in_range.
    rewrite Z.rem_mod_nonneg by lia. apply Z.mod_pos_bound. lia.
Qed.

Lemma rotation_permutation_any (tid c : Z) :
  0 <= tid ->
  Permutation (map (fun b => Z.rem (b + tid) c) (range c)) (range c).
Proof.
  intros Htid. destruct (Z.lt_ge_cases 0 c) as [H|H].
  - now apply rotation_permutation.
  - rewrite range_nonpos by lia. constructor.
Qed.

Lemma Permutation_flat_map_pointwise {A B : Type} (f f' : A -> list B)
  (l : list A) :
  (forall x, In x l -> Permutation (f x) (f' x)) ->
  Permutation (flat_map f l) (flat_map f' l).
Proof.
  induction l as [|a l IH]; intros H; simpl; [constructor|].
  apply Permutation_app; [apply H; now left|].
  apply IH. intros x Hx. apply H. now right.
Qed.

Lemma flat_map_map {A B C : Type} (f : A -> B) (h : B -> list C) (l : list A) :
  flat_map h (map f l) = flat_map (fun x => h (f x)) l.
Proof.
  induction l as [|a l IH]; simpl; [reflexivity|]. now rewrite IH.
Qed.

(** A loop over rotated indices does the same things as the loop over the
    indices themselves, in another order. *)
Lemma rotated_loop {B : Type} (h : Z -> list B) (tid c : Z) :
  0 <= tid ->
  Permutation (flat_map (fun o => h (Z.rem (o + tid) c)) (range c))
    (flat_map h (range c)).
Proof.
  intros Htid.
  rewrite <- (flat_map_map (fun o => Z.rem (o + tid) c) h).
  apply Permutation_flat_map. now apply rotation_permutation_any.
Qed.

Lemma Permutation_flat_map_swap {A B C : Type} (h : A -> B -> list C)
  (la : list A) (lb : list B) :
  Permutation (flat_map (fun a => flat_map (fun b => h a b) lb) la)
    (flat_map (fun b => flat_map (fun a => h a b) la) lb).
Proof.
  induction la as [|a la IH]; simpl.
  - induction lb; simpl; auto.
  - rewrite IH. clear IH.
    induction lb as [|b lb IH]; simpl; [constructor|].
    rewrite <- IH, <- !app_assoc. apply Permutation_app_head.
    rewrite !app_assoc. apply Permutation_app_tail. apply Permutation_app_comm.
Qed.

Section Rotation.

Variable g : gen_managed_matmul_core_t.
Variable config : managed_matmul_core_config_t.
Variable C : tensor_id.
Variable dtype_block : Z.
Variable fusion : bool.
Variable M_anchor_info N_anchor_info : list Z.
Variable is_partial : bool.

(** What one [(k_b, m, n)] iteration does once the rotated indices
    [m = (m_o + tid) % m_o_end] and [n = (n_o + tid) % n_o_end] are known:
    [block_body] at thread id 0 and in-range indices. *)
Lemma block_body_rotated (a : call_args) (m_b_idx n_b_idx m_o_end n_o_end : Z)
  (k_b m_o n_o tid : Z) :
  0 <= tid -> 0 <= m_o < m_o_end -> 0 <= n_o < n_o_end ->
  block_body g config C dtype_block fusion is_partial (with_tid a tid)
    m_b_idx n_b_idx m_o_end n_o_end k_b m_o n_o
  = block_body g config C dtype_block fusion is_partial (with_tid a 0)
      m_b_idx n_b_idx m_o_end n_o_end k_b
      (Z.rem (m_o + tid) m_o_end) (Z.rem (n_o + tid) n_o_end).
Proof.
  intros Htid Hm Hn. unfold block_body. cbn [with_tid a_tid a_m_idx a_n_idx
    a_k_idx a_K a_k_s].
  rewrite !Z.add_0_r.
  assert (Hidem : forall o c, 0 <= o < c ->
            Z.rem (Z.rem (o + tid) c) c = Z.rem (o + tid) c).
  { intros o c Ho. rewrite !Z.rem_mod_nonneg by
      (try (rewrite Z.rem_mod_nonneg by lia; apply Z.mod_pos_bound); lia).
    apply Z.mod_mod. lia. }
  now rewrite !Hidem by assumption.
Qed.

Lemma inner_loops_rotated (a : call_args) (bm bn : balance211) (k_b tid : Z) :
  0 <= tid ->
  let body t m_o n_o :=
    block_body g config C dtype_block fusion is_partial (with_tid a t)
      (b_start bm) (b_start bn) (b_length bm) (b_length bn) k_b m_o n_o in
  Permutation
    (flat_map (fun m_o => flat_map (fun n_o => body tid m_o n_o)
       (range (b_length bn))) (range (b_length bm)))
    (flat_map (fun m_o => flat_map (fun n_o => body 0 m_o n_o)
       (range (b_length bn))) (range (b_length bm))).
Proof.
  intros Htid body.
  transitivity
    (flat_map (fun m_o => flat_map (fun n_o =>
       body 0 (Z.rem (m_o + tid) (b_length bm)) (Z.rem (n_o + tid) (b_length bn)))
       (range (b_length bn))) (range (b_length bm))).
  - apply Permutation_flat_map_pointwise. intros m_o Hm.
    apply Permutation_flat_map_pointwise. intros n_o Hn.
    apply in_range in Hm, Hn. unfold body.
    rewrite block_body_rotated by assumption. reflexivity.
  - rewrite (rotated_loop (fun m => flat_map (fun n_o =>
       body 0 m (Z.rem (n_o + tid) (b_length bn))) (range (b_length bn))))
      by assumption.
    apply Permutation_flat_map_pointwise. intros m_o _.
    now apply (rotated_loop (fun n => body 0 m_o n)).
Qed.

Lemma matmul_loops_rotated (shapes : option sub_block_shapes) (a : call_args)
  (tid : Z) :
  0 <= tid ->
  Permutation
    (matmul_loops g config C dtype_block fusion M_anchor_info N_anchor_info
       is_partial shapes (with_tid a tid))
    (matmul_loops g config C dtype_block fusion M_anchor_info N_anchor_info
       is_partial shapes (with_tid a 0)).
Proof.
  intros Htid. unfold matmul_loops.
  apply Permutation_flat_map_pointwise. intros m_b _.
  apply Permutation_flat_map_pointwise. intros n_b _.
  cbn [with_tid a_M a_N].
  apply Permutation_app.
  - apply Permutation_flat_map_pointwise. intros k_b _.
    destruct (im_loop_order config =? 1).
    + rewrite (Permutation_flat_map_swap
                 (fun n_o m_o => block_body g config C dtype_block fusion
                    is_partial (with_tid a tid) _ _ _ _ k_b m_o n_o)).
      rewrite (Permutation_flat_map_swap
                 (fun n_o m_o => block_body g config C dtype_block fusion
                    is_partial (with_tid a 0) _ _ _ _ k_b m_o n_o)).
      now apply inner_loops_rotated.
    + now apply inner_loops_rotated.
  - destruct shapes as [s|]; [|constructor].
    destruct s; reflexivity.
Qed.

End Rotation.

(** C9.  For a thread id [tid >= 0] and a positive inner block count [c],
    [b -> (b + tid) mod c] permutes [[0, c)]; consequently the block
    positions [(m_start_idx, n_start_idx)] visited in a sub-block, and with
    them everything [single_thread_matmul_call] does, are the same for every
    thread id up to the order: the trace at thread id [tid] is a permutation
    of the trace at any other thread id [tid']. *)
Theorem rotation_keeps_visited_blocks
  (g : gen_managed_matmul_core_t) (config : managed_matmul_core_config_t)
  (C : tensor_id) (dtype_block : Z) (fusion : bool)
  (M_anchor_info N_anchor_info : list Z) (is_partial : bool)
  (shapes : option sub_block_shapes) (a : call_args) (tid tid' c : Z) :
  0 <= tid -> 0 <= tid' -> 0 < c ->
  Permutation (map (fun b => Z.rem (b + tid) c) (range c)) (range c)
  /\ (forall y, 0 <= y < c ->
      exists! b, 0 <= b < c /\ Z.rem (b + tid) c = y)
  /\ Permutation
       (matmul_loops g config C dtype_block fusion M_anchor_info N_anchor_info
          is_partial shapes (with_tid a tid))
       (matmul_loops g config C dtype_block fusion M_anchor_info N_anchor_info
          is_partial shapes (with_tid a tid')).
Proof.
  intros Htid Htid' Hc. split; [now apply rotation_permutation|]. split.
  - intros y Hy.
    pose proof (rotation_permutation tid c Htid Hc) as HP.
    assert (Hin : In y (map (fun b => Z.rem (b + tid) c) (range c))).
    { apply (Permutation_in _ (Permutation_sym HP)). now apply in_range. }
    apply in_map_iff in Hin as (b & Hb & Hbin). apply in_range in Hbin.
    exists b. split; [now split|].
    intros b' [Hb' Hy']. subst y.
    symmetry in Hy'. now apply rotation_injective in Hy'.
  - etransitivity; [now apply matmul_loops_rotated|].
    symmetry. now apply matmul_loops_rotated.
Qed.

(** The claim for thread id 1 and three blocks. *)
Lemma rotation_keeps_visited_blocks_witness :
  Permutation (map (fun b => Z.rem (b + 1) 3) (range 3)) (range 3).
Proof.
  exact (proj1 (rotation_keeps_visited_blocks (f32_gen true 80 16 16)
                  (mk_config 1 1 2 1 1 0) tsr_C 1 true [] [] false None
                  (mk_call_args 80 16 16 0 0 0 0 0 0 0) 1 0 3
                  ltac:(lia) ltac:(lia) ltac:(lia))).
Defined.

(** ** Outcomes *)

Lemma idiv_ok (a b : Z) : b <> 0 -> idiv a b = Ok (Z.quot a b).
Proof. intros H. unfold idiv. destruct (Z.eqb_spec b 0); [contradiction | reflexivity]. Qed.

Lemma idiv_inv (a b q : Z) : idiv a b = Ok q -> b <> 0 /\ q = Z.quot a b.
Proof.
  unfold idiv. destruct (Z.eqb_spec b 0); [discriminate|].
  intros [= <-]. auto.
Qed.

Lemma irem_inv (a b r : Z) : irem a b = Ok r -> b <> 0 /\ r = Z.rem a b.
Proof.
  unfold irem. destruct (Z.eqb_spec b 0); [discriminate|].
  intros [= <-]. auto.
Qed.

Lemma bind_inv {A B : Type} (m : outcome A) (k : A -> outcome B) (b : B) :
  bind m k = Ok b -> exists a, m = Ok a /\ k a = Ok b.
Proof. destruct m; simpl; try discriminate. intros H. eauto. Qed.

(** Only [std::vector::at] throws [std::out_of_range]. *)
Lemma bind_no_throw {A B : Type} (m : outcome A) (k : A -> outcome B) :
  m <> OutOfRange -> (forall a, k a <> OutOfRange) -> bind m k <> OutOfRange.
Proof. destruct m; simpl; auto; discriminate. Qed.

Lemma idiv_no_throw (a b : Z) : idiv a b <> OutOfRange.
Proof. unfold idiv. destruct (b =? 0); discriminate. Qed.

Lemma idiv32_no_throw (a b : Z) : idiv32 a b <> OutOfRange.
Proof.
  unfold idiv32. destruct (_ && _); [discriminate | apply idiv_no_throw].
Qed.

Lemma idiv32_ok (a b : Z) : 0 < b -> idiv32 a b = Ok (Z.quot a b).
Proof.
  intros H. unfold idiv32.
  destruct (Z.eqb_spec b (-1)); [lia|]. rewrite andb_false_r.
  apply idiv_ok. lia.
Qed.

(** An [int] operation whose result is in range returns it. *)
Lemma int32_small (z : Z) : - 2 ^ 31 <= z < 2 ^ 31 -> int32 z = z.
Proof.
  intros H. unfold int32. rewrite Z.mod_small; lia.
Qed.

Lemma int32_range (z : Z) : - 2 ^ 31 <= int32 z < 2 ^ 31.
Proof.
  unfold int32. pose proof (Z.mod_pos_bound (z + 2 ^ 31) (2 ^ 32) ltac:(lia)).
  lia.
Qed.

Lemma bind_no_fatal {A B : Type} (m : outcome A) (k : A -> outcome B) :
  (forall s, m <> Fatal s) -> (forall a s, k a <> Fatal s) ->
  forall s, bind m k <> Fatal s.
Proof.
  intros Hm Hk s. destruct m; simpl; auto; try discriminate.
  now destruct (Hm msg).
Qed.

Lemma idiv_no_fatal (a b : Z) (s : string) : idiv a b <> Fatal s.
Proof. unfold idiv. destruct (b =? 0); discriminate. Qed.

(** ** get_splits *)

Lemma in_candidates (n x : Z) : In x (candidates n) <-> 1 <= x <= n.
Proof.
  unfold candidates. rewrite in_map_iff. split.
  - intros (y & <- & Hy). apply in_range in Hy. lia.
  - intros H. exists (x - 1). split; [lia|]. apply in_range. lia.
Qed.

Lemma NoDup_candidates (n : Z) : NoDup (candidates n).
Proof.
  unfold candidates. apply Finite.Injective_map_NoDup_in; [|apply NoDup_range].
  intros a b _ _ H. lia.
Qed.

Lemma candidates_succ (k : Z) :
  0 <= k -> candidates (k + 1) = candidates k ++ [k + 1].
Proof. intros H. unfold candidates. now rewrite range_succ, map_app. Qed.

Lemma in_get_splits (X d : Z) :
  In d (get_splits X) <-> 1 <= d <= X /\ Z.rem X d = 0.
Proof.
  unfold get_splits. rewrite filter_In. fold (candidates X).
  rewrite in_candidates, Z.eqb_eq. tauto.
Qed.

Lemma NoDup_get_splits (X : Z) : NoDup (get_splits X).
Proof. unfold get_splits. apply NoDup_filter. apply NoDup_candidates. Qed.

(** A number above 1 has at least the two divisors 1 and itself. *)
Lemma get_splits_two (X : Z) : 2 <= X -> (2 <= List.length (get_splits X))%nat.
Proof.
  intros H.
  change 2%nat with (List.length [1; X]).
  apply NoDup_incl_length.
  - constructor; [simpl; lia|]. constructor; [simpl; tauto | constructor].
  - intros d [<-|[<-|[]]]; apply in_get_splits.
    + split; [lia|]. apply Z.rem_1_r.
    + split; [lia|]. apply Z.rem_same. lia.
Qed.

Lemma get_splits_1 : get_splits 1 = [1].
Proof. reflexivity. Qed.

Lemma get_splits_few (X : Z) :
  1 <= X -> (List.length (get_splits X) < 2)%nat <-> X = 1.
Proof.
  intros H. split.
  - intros Hl. destruct (Z.eq_dec X 1); [assumption|].
    pose proof (get_splits_two X ltac:(lia)). lia.
  - intros ->. simpl. lia.
Qed.

Lemma nth_get_splits (X : Z) (i : nat) :
  (i < List.length (get_splits X))%nat ->
  1 <= nth i (get_splits X) 0 <= X /\ Z.rem X (nth i (get_splits X) 0) = 0.
Proof. intros H. apply in_get_splits. now apply nth_In. Qed.

Lemma vector_at_ok (v : list Z) (i : nat) :
  (i < List.length v)%nat -> vector_at v i = Ok (nth i v 0).
Proof.
  intros H. unfold vector_at. now rewrite (nth_error_nth' v 0 H).
Qed.

Lemma vector_at_out (v : list Z) (i : nat) :
  (List.length v <= i)%nat -> vector_at v i = OutOfRange.
Proof.
  intros H. unfold vector_at.
  now rewrite (proj2 (nth_error_None v i) H).
Qed.

(** A positive divisor [d] of [X] leaves a quotient between 1 and [X]. *)
Lemma quot_divisor (X d : Z) :
  1 <= d <= X -> Z.rem X d = 0 -> 1 <= Z.quot X d <= X /\ Z.quot X d * d = X.
Proof.
  intros Hd Hr. pose proof (Z.quot_rem' X d) as E. rewrite Hr in E. nia.
Qed.

(** ** The cost search *)

Lemma for_each_app {S : Type} (body : S -> Z -> outcome S) (l l' : list Z) (s : S) :
  for_each body (l ++ l') s = (s' <- for_each body l s ;; for_each body l' s').
Proof.
  revert s. induction l as [|i l IH]; intros s; simpl; [reflexivity|].
  destruct (body s i); simpl; auto.
Qed.

Section CostSearch.

Variables num_threads iim_block iin_block M N : Z.

Let cost_of := new_cost num_threads iim_block iin_block M N.
Let step := search_step num_threads iim_block iin_block M N.

Lemma search_prefix (k : Z) :
  0 <= k ->
  forall st, for_each step (candidates k) (1, FLT_MAX) = Ok st ->
  search_invariant num_threads iim_block iin_block M N k st.
Proof.
  intros Hk. pattern k. apply natlike_ind; [| |exact Hk].
  - intros st [= <-]. split; [now left|]. intros i Hi. lia.
  - intros j Hj IH st. replace (Z.succ j) with (j + 1) by lia.
    rewrite candidates_succ, for_each_app by lia. intros H.
    apply bind_inv in H as (st0 & E0 & H).
    specialize (IH st0 E0). destruct IH as [IHa IHb].
    simpl in H. apply bind_inv in H as (st1 & E1 & [= <-]).
    unfold step, search_step in E1.
    apply bind_inv in E1 as (c & Ec & E1). fold cost_of in Ec.
    destruct (Z.ltb_spec c (snd st0)) as [Hlt|Hge]; injection E1 as <-.
    + split.
      * right. simpl. repeat split; try lia; [exact Ec|].
        destruct IHa as [->|(_ & _ & Hm)]; simpl in *; lia.
      * intros i Hi. simpl. destruct (Z.eq_dec i (j + 1)) as [->|Hne].
        -- exists c. repeat split; [exact Ec | lia | lia].
        -- destruct (IHb i ltac:(lia)) as (ci & Eci & Hle & _).
           exists ci. repeat split; [exact Eci | lia | lia].
    + split.
      * destruct IHa as [->|(Hr & Hc & Hm)]; [now left|].
        right. repeat split; try lia; assumption.
      * intros i Hi. destruct (Z.eq_dec i (j + 1)) as [->|Hne].
        -- exists c. repeat split; [exact Ec | lia |].
           destruct IHa as [->|(Hr & _)]; simpl; lia.
        -- destruct (IHb i ltac:(lia)) as (ci & Eci & Hle & Hs).
           exists ci. repeat split; assumption.
Qed.

Lemma cost_search_invariant (split_n cost : Z) :
  cost_search num_threads iim_block iin_block M N = Ok (split_n, cost) ->
  search_invariant num_threads iim_block iin_block M N (Z.max 0 num_threads)
    (split_n, cost).
Proof.
  intros H. apply search_prefix; [lia|].
  unfold cost_search in H. fold step in H.
  destruct (Z.le_gt_cases 0 num_threads).
  - now rewrite Z.max_r by lia.
  - rewrite Z.max_l by lia. unfold candidates in *.
    rewrite range_nonpos in * by lia. exact H.
Qed.

Lemma cost_search_range (split_n cost : Z) :
  1 <= num_threads ->
  cost_search num_threads iim_block iin_block M N = Ok (split_n, cost) ->
  1 <= split_n <= num_threads.
Proof.
  intros Hnt H. apply cost_search_invariant in H as [[E|(Hr & _)] _].
  - injection E as -> _. lia.
  - simpl in Hr. lia.
Qed.

End CostSearch.

(** ** The overrides *)

Lemma quot_bounds (nt s : Z) :
  1 <= s <= nt -> 1 <= Z.quot nt s /\ Z.quot nt s * s <= nt.
Proof. intros H. Z.to_euclidean_division_equations. nia. Qed.

Lemma split_overrides_bounds (is_int8 : bool) (nt M N K split_n Ms Ns : Z) :
  1 <= nt -> 1 <= split_n <= nt ->
  split_overrides is_int8 nt M N K split_n = Ok (Ms, Ns) ->
  1 <= Ms /\ 1 <= Ns /\ Ms * Ns <= nt.
Proof.
  intros Hnt Hs. unfold split_overrides.
  rewrite idiv_ok by lia. cbn [bind].
  pose proof (quot_bounds nt split_n Hs) as [HM0 HM0'].
  set (M0 := Z.quot nt split_n) in *.
  destruct (is_int8 && (N <=? 512) && (K <=? 512)); [intros [= <- <-]; lia|].
  destruct ((N <=? 192) && (K <=? 192)); [intros [= <- <-]; lia|].
  destruct (K >=? 8192); [|intros [= <- <-]; lia].
  destruct (M <? N).
  - intros H. apply bind_inv in H as (shrink & Es & H).
    destruct shrink.
    + destruct (Z.ltb_spec 2 (Z.of_nat (List.length (get_splits M0))));
        [|discriminate].
      destruct (nth_get_splits M0 1 ltac:(lia)) as [Hd Hr].
      rewrite idiv_ok in H by lia. injection H as <- <-.
      destruct (quot_divisor M0 _ Hd Hr). nia.
    + apply bind_inv in H as (Ksn & EK & H).
      unfold vector_at in EK.
      destruct (nth_error (get_splits nt) 1) as [d|] eqn:End; [|discriminate].
      injection EK as ->.
      apply nth_error_In, in_get_splits in End as [Hd Hr].
      rewrite idiv_ok in H by lia. injection H as <- <-.
      destruct (quot_divisor nt Ksn Hd Hr). lia.
  - destruct (Z.ltb_spec 2 (Z.of_nat (List.length (get_splits split_n)))).
    + destruct (nth_get_splits split_n 1 ltac:(lia)) as [Hd Hr].
      rewrite idiv_ok by lia. intros [= <- <-].
      destruct (quot_divisor split_n _ Hd Hr). nia.
    + intros [= <- <-]. lia.
Qed.


(** The first two overrides put every split on M. *)
Lemma split_overrides_small (is_int8 : bool) (nt M N K split_n : Z) :
  split_n <> 0 ->
  is_int8 && (N <=? 512) && (K <=? 512) = true
  \/ (N <=? 192) && (K <=? 192) = true ->
  split_overrides is_int8 nt M N K split_n = Ok (nt, 1).
Proof.
  intros Hs H. unfold split_overrides.
  rewrite idiv_ok by assumption. cbn [bind].
  destruct (is_int8 && (N <=? 512) && (K <=? 512)); [reflexivity|].
  destruct H as [H|H]; [discriminate|]. now rewrite H.
Qed.

(** The branch that calls [get_splits(num_threads).at(1)]. *)
Lemma split_overrides_at_1 (is_int8 : bool) (nt M N K split_n : Z) :
  split_n <> 0 -> 8192 <= K -> M < N ->
  (List.length (get_splits (Z.quot nt split_n)) <= 2)%nat ->
  split_overrides is_int8 nt M N K split_n
  = (K_split_num <- vector_at (get_splits nt) 1 ;;
     n <- idiv nt K_split_num ;; Ok (1, n)).
Proof.
  intros Hs HK HMN Hlen. unfold split_overrides.
  rewrite idiv_ok by assumption. cbn [bind].
  replace (K <=? 512) with false by (symmetry; apply Z.leb_gt; lia).
  replace (K <=? 192) with false by (symmetry; apply Z.leb_gt; lia).
  rewrite !andb_false_r.
  replace (K >=? 8192) with true by (symmetry; apply Z.geb_le; lia).
  replace (M <? N) with true by (symmetry; apply Z.ltb_lt; lia).
  replace (2 <? Z.of_nat (List.length (get_splits (Z.quot nt split_n))))
    with false by (symmetry; apply Z.ltb_ge; lia).
  reflexivity.
Qed.

Lemma split_overrides_no_throw (is_int8 : bool) (nt M N K split_n : Z) :
  2 <= nt -> split_overrides is_int8 nt M N K split_n <> OutOfRange.
Proof.
  intros Hnt. unfold split_overrides.
  apply bind_no_throw; [apply idiv_no_throw|]. intros M0.
  destruct (is_int8 && (N <=? 512) && (K <=? 512)); [discriminate|].
  destruct ((N <=? 192) && (K <=? 192)); [discriminate|].
  destruct (K >=? 8192); [|discriminate].
  destruct (M <? N).
  - apply bind_no_throw.
    + destruct (2 <? _); [|discriminate].
      apply bind_no_throw; [apply idiv_no_throw | discriminate].
    + intros [|].
      * apply bind_no_throw; [apply idiv_no_throw | discriminate].
      * rewrite vector_at_ok by (pose proof (get_splits_two nt Hnt); lia).
        cbn [bind].
        apply bind_no_throw; [apply idiv_no_throw | discriminate].
  - destruct (2 <? _); [|discriminate].
    apply bind_no_throw; [apply idiv_no_throw | discriminate].
Qed.

Lemma for_each_no_throw {S : Type} (body : S -> Z -> outcome S) (l : list Z) :
  (forall s i, body s i <> OutOfRange) ->
  forall s, for_each body l s <> OutOfRange.
Proof.
  intros Hb. induction l as [|i l IH]; intros s; simpl; [discriminate|].
  apply bind_no_throw; auto.
Qed.

Ltac no_throw :=
  repeat first
    [ apply idiv_no_throw
    | apply idiv32_no_throw
    | discriminate
    | apply bind_no_throw; [|intros ?]
    | match goal with
      | |- (if ?c then _ else _) <> _ => destruct c
      | |- (let '(_, _) := ?p in _) <> _ => destruct p
      end
    | progress unfold utils_divide_and_ceil, utils_rnd_up, single_extent,
        single_K_threshold ].

Lemma cost_search_no_throw (nt iim iin M N : Z) :
  cost_search nt iim iin M N <> OutOfRange.
Proof.
  unfold cost_search. apply for_each_no_throw. intros s i.
  unfold search_step, new_cost. no_throw.
Qed.

Lemma sub_block_sizing_no_throw (fp : Z -> Z -> Z -> Z)
  (iim iin iik M N K sA sC L2 Ms Ns : Z) :
  sub_block_sizing fp iim iin iik M N K sA sC L2 Ms Ns <> OutOfRange.
Proof. unfold sub_block_sizing. no_throw. Qed.

(** With two threads or more [get_default_config] never throws. *)
Lemma get_default_config_no_throw (fp : Z -> Z -> Z -> Z)
  (g : gen_managed_matmul_core_t) (ctx : context_t) :
  2 <= get_num_threads ctx -> get_default_config fp g ctx <> OutOfRange.
Proof.
  intros Hnt. unfold get_default_config, rounded_M, rounded_N, rounded_K.
  apply bind_no_throw; [no_throw|]. intros M.
  apply bind_no_throw; [no_throw|]. intros N.
  apply bind_no_throw; [no_throw|]. intros K.
  apply bind_no_throw; [apply cost_search_no_throw|]. intros [split_n c].
  apply bind_no_throw; [now apply split_overrides_no_throw|]. intros [Ms Ns].
  apply bind_no_throw; [apply sub_block_sizing_no_throw|]. intros [[a b] d].
  discriminate.
Qed.

(** ** Totality of the planning steps on well-formed inputs *)

Lemma rnd_up_ok (d b : Z) :
  0 < b -> utils_rnd_up d b = Ok (Z.quot (d + b - 1) b * b).
Proof.
  intros H. unfold utils_rnd_up, utils_divide_and_ceil.
  now rewrite idiv_ok by lia.
Qed.

Lemma rnd_up_blocks (d b : Z) :
  1 <= d -> 0 < b ->
  let X := Z.quot (d + b - 1) b * b in
  1 <= Z.quot X b /\ Z.quot X b * b = X /\ d <= X.
Proof.
  intros Hd Hb X. subst X.
  rewrite Z.quot_mul by lia.
  Z.to_euclidean_division_equations. nia.
Qed.

Lemma new_cost_ok (nt iim iin M N i : Z) :
  0 < iim -> 0 < iin -> 1 <= Z.quot M iim -> 1 <= Z.quot N iin ->
  1 <= i <= nt ->
  exists c, new_cost nt iim iin M N i = Ok c.
Proof.
  intros Him Hin HM HN Hi. unfold new_cost, utils_divide_and_ceil.
  pose proof (quot_bounds nt i Hi) as [Hq _].
  rewrite (idiv_ok M iim), (idiv_ok nt i) by lia. cbn [bind].
  rewrite (idiv_ok _ (Z.quot nt i)), (idiv_ok N iin) by lia. cbn [bind].
  rewrite (idiv_ok _ i), (idiv32_ok _ nt), (idiv_ok N i) by lia. cbn [bind].
  assert (Hcore : 0 < Z.min i (Z.quot N iin) * Z.min (Z.quot nt i) (Z.quot M iim)).
  { assert (1 <= Z.min i (Z.quot N iin)) by lia.
    assert (1 <= Z.min (Z.quot nt i) (Z.quot M iim)) by lia.
    generalize dependent (Z.min i (Z.quot N iin)).
    generalize dependent (Z.min (Z.quot nt i) (Z.quot M iim)).
    intros. nia. }
  rewrite (idiv32_ok _ _ Hcore). cbn [bind]. eauto.
Qed.

Lemma for_each_ok {S : Type} (body : S -> Z -> outcome S) (l : list Z) :
  (forall s i, In i l -> exists s', body s i = Ok s') ->
  forall s, exists s', for_each body l s = Ok s'.
Proof.
  induction l as [|i l IH]; intros Hb s; simpl; [eauto|].
  destruct (Hb s i (or_introl eq_refl)) as (s' & ->). cbn [bind].
  apply IH. intros s0 j Hj. apply Hb. now right.
Qed.

Lemma cost_search_ok (nt iim iin M N : Z) :
  0 < iim -> 0 < iin -> 1 <= Z.quot M iim -> 1 <= Z.quot N iin ->
  exists st, cost_search nt iim iin M N = Ok st.
Proof.
  intros Him Hin HM HN. unfold cost_search. apply for_each_ok.
  intros s i Hi. apply in_candidates in Hi. unfold search_step.
  destruct (new_cost_ok nt iim iin M N i Him Hin HM HN Hi) as (c & ->).
  cbn [bind]. destruct (c <? snd s); eauto.
Qed.

Lemma single_extent_ok (X block split : Z) :
  0 < block -> 0 < split ->
  single_extent X block split
  = Ok (Z.quot (Z.quot (X + block - 1) block + split - 1) split * block).
Proof.
  intros Hb Hs. unfold single_extent, utils_divide_and_ceil.
  rewrite idiv_ok by lia. cbn [bind]. now rewrite idiv_ok by lia.
Qed.

Lemma ceil_quot_pos (x d : Z) : 1 <= x -> 0 < d -> 1 <= Z.quot (x + d - 1) d.
Proof. intros Hx Hd. Z.to_euclidean_division_equations. nia. Qed.

Lemma single_extent_pos (X block split : Z) :
  1 <= X -> 0 < block -> 0 < split ->
  0 < Z.quot (Z.quot (X + block - 1) block + split - 1) split * block.
Proof.
  intros HX Hb Hs.
  pose proof (ceil_quot_pos X block HX Hb) as H1.
  pose proof (ceil_quot_pos _ split H1 Hs) as H2.
  generalize dependent (Z.quot (Z.quot (X + block - 1) block + split - 1) split).
  intros. nia.
Qed.

Lemma threshold_value (b : bool) (t : sc_data_etype) :
  let v := Z.quot (if b then 2048 else 4096) (get_sizeof_etype t) in
  512 <= v <= 4096.
Proof. destruct b, t; vm_compute; split; discriminate. Qed.

Lemma sizeof_pos (t : sc_data_etype) : 1 <= get_sizeof_etype t <= 4.
Proof. destruct t; simpl; lia. Qed.

Lemma single_K_threshold_ok (sM sN L2 : Z) (t : sc_data_etype) :
  single_K_threshold sM sN (get_sizeof_etype t) L2
  = Ok (Z.quot (if imul (imul sM sN) (get_sizeof_etype t) <? L2
                then 2048 else 4096)
          (get_sizeof_etype t)).
Proof.
  unfold single_K_threshold. apply idiv_ok. pose proof (sizeof_pos t). lia.
Qed.

Lemma quot_nonzero (a b : Z) : 0 < b -> b <= a -> Z.quot a b <> 0.
Proof. intros Hb Ha. Z.to_euclidean_division_equations. nia. Qed.

(** Below the threshold the sizing returns as soon as the cache holds two
    rows of [K] elements of A. *)
Lemma sub_block_sizing_small_K (fp : Z -> Z -> Z -> Z)
  (iim iin iik M N K L2 Ms Ns : Z) (tA tC : sc_data_etype) :
  0 < iim -> 0 < iin -> 0 < Ms -> 0 < Ns -> 1 <= K ->
  K * get_sizeof_etype tA < 2048 ->
  2 * get_sizeof_etype tA * K <= L2 ->
  exists m n,
    sub_block_sizing fp iim iin iik M N K (get_sizeof_etype tA)
      (get_sizeof_etype tC) L2 Ms Ns = Ok (m, n, 1).
Proof.
  intros Him Hin HMs HNs HK HK' HL2. unfold sub_block_sizing.
  rewrite (single_extent_ok M) by assumption. cbn [bind].
  rewrite (single_extent_ok N) by assumption. cbn [bind].
  rewrite single_K_threshold_ok. cbn [bind].
  rewrite Z.geb_leb.
  match goal with |- context [Z.leb ?t K] => destruct (Z.leb_spec t K) end.
  { exfalso. clear - H HK'.
    match type of H with context [if ?b then _ else _] => destruct b end;
      destruct tA; simpl in *;
      change (Z.quot 2048 1) with 2048 in *; change (Z.quot 4096 1) with 4096 in *;
      change (Z.quot 2048 2) with 1024 in *; change (Z.quot 4096 2) with 2048 in *;
      change (Z.quot 2048 4) with 512 in *; change (Z.quot 4096 4) with 1024 in *;
      lia. }
  assert (Hd : 0 < 2 * get_sizeof_etype tA * K).
  { pose proof (sizeof_pos tA) as Hsz. clear - Hsz HK. nia. }
  rewrite (idiv_ok L2) by lia. cbn [bind].
  pose proof (quot_nonzero L2 _ Hd HL2) as Hq.
  rewrite (idiv_ok _ _ Hq). cbn [bind].
  rewrite (idiv_ok _ _ Hq). cbn [bind]. eauto.
Qed.

(** ** Claims on get_default_config *)

Lemma get_default_config_inv (fp : Z -> Z -> Z -> Z)
  (g : gen_managed_matmul_core_t) (ctx : context_t)
  (cfg : managed_matmul_core_config_t) :
  get_default_config fp g ctx = Ok cfg ->
  exists M N K split_n cost,
    rounded_M g = Ok M /\ rounded_N g = Ok N /\ rounded_K g = Ok K
    /\ cost_search (get_num_threads ctx) (iim_block_ g) (iin_block_ g) M N
       = Ok (split_n, cost)
    /\ split_overrides (is_u8_or_s8 (get_A_dtype g)) (get_num_threads ctx)
         M N K split_n = Ok (M_split_num cfg, N_split_num cfg)
    /\ sub_block_sizing fp (iim_block_ g) (iin_block_ g) (iik_block_ g) M N K
         (get_sizeof_etype (dtype_ (in_tensors_0 g)))
         (get_sizeof_etype (dtype_ (out_tensors_0 g)))
         (getDCacheSize_2 ctx) (M_split_num cfg) (N_split_num cfg)
       = Ok (M_sub_block cfg, N_sub_block cfg, K_sub_block cfg)
    /\ im_loop_order cfg = 0.
Proof.
  unfold get_default_config. intros H.
  apply bind_inv in H as (M & EM & H).
  apply bind_inv in H as (N & EN & H).
  apply bind_inv in H as (K & EK & H).
  apply bind_inv in H as ([split_n cost] & ES & H).
  apply bind_inv in H as ([Ms Ns] & EO & H).
  apply bind_inv in H as ([[a b] c] & EZ & H).
  injection H as <-. simpl.
  exists M, N, K, split_n, cost. repeat split; assumption.
Qed.

(** Whenever [get_default_config] returns, with at least one thread, both
    splits are at least 1 and their product is at most the thread count. *)
Lemma get_default_config_split_bounds (fp : Z -> Z -> Z -> Z)
  (g : gen_managed_matmul_core_t) (ctx : context_t)
  (cfg : managed_matmul_core_config_t) :
  1 <= get_num_threads ctx ->
  get_default_config fp g ctx = Ok cfg ->
  1 <= M_split_num cfg /\ 1 <= N_split_num cfg
  /\ M_split_num cfg * N_split_num cfg <= get_num_threads ctx.
Proof.
  intros Hnt H.
  apply get_default_config_inv in H
    as (M & N & K & split_n & cost & _ & _ & _ & ES & EO & _).
  apply cost_search_range in ES; [|assumption].
  eapply split_overrides_bounds; eassumption.
Qed.

(** C3, at the input on which the code departs from it: one thread, an f32
    matmul of 16 x 8192 by 8192 x 32.  [get_default_config] returns no
    Config: [get_splits(1).at(1)] throws [std::out_of_range]. *)
Theorem get_default_config_throws_single_thread (fp : Z -> Z -> Z -> Z) :
  get_default_config fp (matmul_gen 1 16 8192 32 f32) (machine 1) = OutOfRange.
Proof. reflexivity. Qed.

(** C10.  When [K >= 8192], [M < N] and the searched [M_split_num] has at
    most two divisors, the overrides evaluate [get_splits(num_threads).at(1)];
    [get_splits(num_threads)] has fewer than two elements exactly when
    [num_threads == 1], and then [get_default_config] throws
    [std::out_of_range]; with [num_threads >= 2] the access succeeds, yields
    a divisor [d >= 2] and the pair [(1, num_threads / d)], and
    [get_default_config] does not throw. *)
Theorem large_K_override_needs_two_threads (fp : Z -> Z -> Z -> Z)
  (g : gen_managed_matmul_core_t) (ctx : context_t) (M N K split_n cost : Z) :
  let nt := get_num_threads ctx in
  let is_int8 := is_u8_or_s8 (get_A_dtype g) in
  1 <= nt ->
  rounded_M g = Ok M -> rounded_N g = Ok N -> rounded_K g = Ok K ->
  cost_search nt (iim_block_ g) (iin_block_ g) M N = Ok (split_n, cost) ->
  8192 <= K -> M < N ->
  (List.length (get_splits (Z.quot nt split_n)) <= 2)%nat ->
  split_overrides is_int8 nt M N K split_n
  = (K_split_num <- vector_at (get_splits nt) 1 ;;
     n <- idiv nt K_split_num ;; Ok (1, n))
  /\ ((List.length (get_splits nt) < 2)%nat <-> nt = 1)
  /\ (nt = 1 -> get_default_config fp g ctx = OutOfRange)
  /\ (2 <= nt ->
      exists d, vector_at (get_splits nt) 1 = Ok d /\ 2 <= d <= nt
        /\ split_overrides is_int8 nt M N K split_n = Ok (1, Z.quot nt d)
        /\ get_default_config fp g ctx <> OutOfRange).
Proof.
  intros nt is_int8 Hnt EM EN EK ES HK HMN Hlen.
  pose proof (cost_search_range _ _ _ _ _ _ _ Hnt ES) as Hs.
  pose proof (split_overrides_at_1 is_int8 nt M N K split_n
                ltac:(lia) HK HMN Hlen) as EO.
  split; [exact EO|]. split; [now apply get_splits_few|]. split.
  - intros H1. unfold get_default_config. fold nt is_int8.
    rewrite EM, EN, EK. cbn [bind]. rewrite ES. cbn [bind].
    rewrite EO, H1. reflexivity.
  - intros H2. pose proof (get_splits_two nt H2) as Hl.
    exists (nth 1 (get_splits nt) 0).
    pose proof (vector_at_ok (get_splits nt) 1 ltac:(lia)) as Eat.
    destruct (nth_get_splits nt 1 ltac:(lia)) as [Hd Hr].
    assert (Hd2 : 2 <= nth 1 (get_splits nt) 0).
    { destruct (get_splits nt) as [|a [|b l]] eqn:E; simpl in Hl; try lia.
      simpl in *. pose proof (NoDup_get_splits nt) as ND. rewrite E in ND.
      assert (Ha : In a (get_splits nt)) by (rewrite E; now left).
      assert (Hb : In b (get_splits nt)) by (rewrite E; right; now left).
      unfold get_splits in E.
      assert (Hsorted : a < b).
      { clear - E Hnt. fold (candidates nt) in E. unfold candidates, range in E.
        revert E. generalize 0%nat at 1.
        induction (Z.to_nat nt) as [|k IH]; intros s E; [discriminate|].
        simpl in E. destruct (Z.rem nt (Z.of_nat s + 1) =? 0).
        - injection E as <- E. clear IH.
          assert (Hb : In b (filter (fun i => Z.rem nt i =? 0)
                     (map (fun i => i + 1) (map Z.of_nat (seq (S s) k)))))
            by (rewrite E; now left).
          apply filter_In in Hb as [Hb _].
          apply in_map_iff in Hb as (y & <- & Hy).
          apply in_map_iff in Hy as (z & <- & Hz). apply in_seq in Hz. lia.
        - now apply (IH (S s)). }
      apply in_get_splits in Ha. lia. }
    split; [exact Eat|]. split; [lia|]. split.
    + rewrite EO, Eat. cbn [bind]. now rewrite idiv_ok by lia.
    + now apply get_default_config_no_throw.
Qed.

(** The claim on two threads: a 16 x 8192 by 8192 x 32 matmul. *)
Lemma large_K_override_needs_two_threads_witness :
  get_default_config L2_MN_exact (matmul_gen 2 16 8192 32 f32) (machine 2)
  <> OutOfRange.
Proof.
  destruct (large_K_override_needs_two_threads L2_MN_exact
              (matmul_gen 2 16 8192 32 f32) (machine 2) 16 32 8192 2 8976
              ltac:(simpl; lia) eq_refl eq_refl eq_refl
              ltac:(vm_compute; reflexivity) ltac:(lia) ltac:(lia)
              ltac:(vm_compute; lia)) as (_ & _ & _ & H).
  destruct (H ltac:(simpl; lia)) as (d & _ & _ & _ & Hn). exact Hn.
Defined.

Lemma is_u8_or_s8_sizeof (t : sc_data_etype) :
  is_u8_or_s8 t = true -> get_sizeof_etype t = 1.
Proof. destruct t; simpl; intros H; try discriminate; reflexivity. Qed.

(** C6.  For a u8 or s8 A with [N <= 512] and [K <= 512] after rounding to
    block granularity: whatever candidate the search picked, the overrides
    return [(num_threads, 1)]; every Config [get_default_config] returns has
    [M_split_num = num_threads] and [N_split_num = 1]; and it does return one
    for positive dimensions, blocks and thread count once the L2 cache holds
    [2 * K] bytes. *)
Theorem int8_small_N_K_splits_on_M (fp : Z -> Z -> Z -> Z)
  (g : gen_managed_matmul_core_t) (ctx : context_t) (M N K : Z) :
  let nt := get_num_threads ctx in
  is_u8_or_s8 (get_A_dtype g) = true ->
  rounded_M g = Ok M -> rounded_N g = Ok N -> rounded_K g = Ok K ->
  N <= 512 -> K <= 512 ->
  (forall split_n, split_n <> 0 ->
     split_overrides true nt M N K split_n = Ok (nt, 1))
  /\ (forall cfg, get_default_config fp g ctx = Ok cfg ->
        M_split_num cfg = nt /\ N_split_num cfg = 1)
  /\ (1 <= nt -> 0 < iim_block_ g -> 0 < iin_block_ g -> 0 < iik_block_ g ->
      1 <= dim (in_tensors_0 g) 0 -> 1 <= dim (in_tensors_1 g) 1 ->
      1 <= dim (in_tensors_0 g) 1 -> 2 * K <= getDCacheSize_2 ctx ->
      exists cfg, get_default_config fp g ctx = Ok cfg
        /\ M_split_num cfg = nt /\ N_split_num cfg = 1).
Proof.
  intros nt Hint8 EM EN EK HN HK.
  assert (Hcond : true && (N <=? 512) && (K <=? 512) = true).
  { simpl. apply andb_true_iff. split; apply Z.leb_le; assumption. }
  assert (Hover : forall split_n, split_n <> 0 ->
            split_overrides true nt M N K split_n = Ok (nt, 1)).
  { intros split_n Hs. apply split_overrides_small; [assumption | now left]. }
  assert (Hret : forall cfg, get_default_config fp g ctx = Ok cfg ->
            M_split_num cfg = nt /\ N_split_num cfg = 1).
  { intros cfg H.
    apply get_default_config_inv in H
      as (M' & N' & K' & split_n & cost & EM' & EN' & EK' & ES & EO & _).
    rewrite EM in EM'. rewrite EN in EN'. rewrite EK in EK'.
    injection EM' as <-. injection EN' as <-. injection EK' as <-.
    rewrite Hint8 in EO. fold nt in EO.
    assert (Hs : split_n <> 0).
    { unfold split_overrides in EO. apply bind_inv in EO as (q & Eq & _).
      now apply idiv_inv in Eq. }
    rewrite (Hover split_n Hs) in EO. now injection EO as <- <-. }
  split; [exact Hover|]. split; [exact Hret|].
  intros Hnt Him Hin Hik HdM HdN HdK HL2.
  enough (exists cfg, get_default_config fp g ctx = Ok cfg) as (cfg & E).
  { exists cfg. split; [exact E|]. now apply Hret. }
  unfold get_default_config. rewrite EM, EN, EK. cbn [bind]. fold nt.
  unfold rounded_M, rounded_N, rounded_K in *.
  rewrite rnd_up_ok in EM, EN, EK by assumption.
  destruct (rnd_up_blocks _ _ HdM Him) as (HMb & _ & _).
  destruct (rnd_up_blocks _ _ HdN Hin) as (HNb & _ & _).
  destruct (rnd_up_blocks _ _ HdK Hik) as (_ & _ & HKp).
  cbv zeta in HMb, HNb, HKp.
  injection EM as EM. injection EN as EN. injection EK as EK.
  rewrite EM in HMb. rewrite EN in HNb. rewrite EK in HKp.
  destruct (cost_search_ok nt _ _ _ _ Him Hin HMb HNb) as ([split_n cost] & ES).
  rewrite ES. cbn [bind].
  pose proof (cost_search_range _ _ _ _ _ _ _ Hnt ES) as Hs.
  rewrite Hint8, (Hover split_n) by lia. cbn [bind].
  fold (get_A_dtype g).
  pose proof (is_u8_or_s8_sizeof _ Hint8) as Hsz.
  assert (HK1 : 1 <= K) by lia.
  assert (HK2 : K * get_sizeof_etype (get_A_dtype g) < 2048)
    by (rewrite Hsz; lia).
  assert (HK3 : 2 * get_sizeof_etype (get_A_dtype g) * K <= getDCacheSize_2 ctx)
    by (rewrite Hsz; lia).
  assert (Hnt0 : 0 < nt) by lia.
  destruct (sub_block_sizing_small_K fp (iim_block_ g) (iin_block_ g)
              (iik_block_ g) M N K (getDCacheSize_2 ctx) nt 1
              (get_A_dtype g) (dtype_ (out_tensors_0 g)) Him Hin
              Hnt0 Z.lt_0_1 HK1 HK2 HK3)
    as (m & n & ->).
  cbn [bind]. eauto.
Qed.

(** The claim on 56 threads: an s8 matmul of 256 x 256 by 256 x 256. *)
Lemma int8_small_N_K_splits_on_M_witness :
  exists cfg,
    get_default_config L2_MN_exact (matmul_gen 56 256 256 256 s8) (machine 56)
    = Ok cfg /\ M_split_num cfg = 56 /\ N_split_num cfg = 1.
Proof.
  destruct (int8_small_N_K_splits_on_M L2_MN_exact
              (matmul_gen 56 256 256 256 s8) (machine 56) 260 256 256
              eq_refl eq_refl eq_refl eq_refl ltac:(lia) ltac:(lia))
    as (_ & _ & H).
  apply H; vm_compute; first [reflexivity | discriminate].
Defined.




(** The cost is an [int] before it is a [float].  On four threads and the
    f32 matmul of 16384 x 1024 by 1024 x 16384 the product of the candidate
    3 is 18773 * 350232, which leaves the 32 bits: its cost is negative, the
    search selects 3 and the Config is [{1, 3, 136, 45, 1, 0}]. *)
Lemma cost_search_on_wrapping_cost :
  let g := matmul_gen 4 16384 1024 16384 f32 in
  map (new_cost 4 (iim_block_ g) (iin_block_ g) 16384 16384) [1; 2; 3; 4]
  = [Ok 335587328; Ok 67178496; Ok (-671676416); Ok 335716352]
  /\ cost_search 4 (iim_block_ g) (iin_block_ g) 16384 16384
     = Ok (3, -671676416)
  /\ get_default_config L2_MN_exact g (machine 4)
     = Ok (mk_config 1 3 136 45 1 0).
Proof. vm_compute. repeat split. Qed.

(** X22.  Every Config [get_default_config] returns has [M_sub_block],
    [N_sub_block] and [K_sub_block] at least 1.  With [single_M] and
    [single_N] the extents of one thread for the returned splits, the
    threshold on K is 2048 / sizeof(A) when the [int] value of
    [single_M * single_N * sizeof(A)] is below [L2_size] and
    4096 / sizeof(A) otherwise; [K_sub_block] is 1 whenever [K] is below
    the threshold, and [ceil(K / threshold)] otherwise. *)
Theorem sub_blocks_at_least_one (fp : Z -> Z -> Z -> Z)
  (g : gen_managed_matmul_core_t) (ctx : context_t)
  (cfg : managed_matmul_core_config_t) :
  get_default_config fp g ctx = Ok cfg ->
  1 <= M_sub_block cfg /\ 1 <= N_sub_block cfg /\ 1 <= K_sub_block cfg
  /\ exists M N K single_M single_N threshold,
       rounded_M g = Ok M /\ rounded_N g = Ok N /\ rounded_K g = Ok K
       /\ single_extent M (iim_block_ g) (M_split_num cfg) = Ok single_M
       /\ single_extent N (iin_block_ g) (N_split_num cfg) = Ok single_N
       /\ threshold
          = Z.quot (if imul (imul single_M single_N)
                         (get_sizeof_etype (get_A_dtype g))
                       <? getDCacheSize_2 ctx
                    then 2048 else 4096)
              (get_sizeof_etype (get_A_dtype g))
       /\ (K < threshold -> K_sub_block cfg = 1)
       /\ (threshold <= K ->
           K_sub_block cfg = Z.quot (K + threshold - 1) threshold).
Proof.
  intros H.
  apply get_default_config_inv in H
    as (M & N & K & split_n & cost & EM & EN & EK & _ & _ & EZ & _).
  unfold sub_block_sizing in EZ.
  apply bind_inv in EZ as (single_M & EsM & EZ).
  apply bind_inv in EZ as (single_N & EsN & EZ).
  apply bind_inv in EZ as (threshold & Et & EZ).
  fold (get_A_dtype g) in *.
  rewrite single_K_threshold_ok in Et. injection Et as Et.
  assert (Hthr : 512 <= threshold).
  { rewrite <- Et. apply threshold_value. }
  rewrite Z.geb_leb in EZ.
  destruct (Z.leb_spec threshold K) as [Hge|Hlt].
  - apply bind_inv in EZ as (K_sub & EKs & EZ).
    apply bind_inv in EZ as (kb & _ & EZ).
    apply bind_inv in EZ as (l2k & _ & EZ).
    apply bind_inv in EZ as (m & _ & EZ).
    apply bind_inv in EZ as (n & _ & EZ).
    injection EZ as <- <- <-.
    unfold utils_divide_and_ceil in EKs. apply idiv_inv in EKs as [_ ->].
    split; [lia|]. split; [lia|]. split.
    + apply ceil_quot_pos; lia.
    + exists M, N, K, single_M, single_N, threshold.
      repeat split; auto; lia.
  - apply bind_inv in EZ as (L2_MN & _ & EZ).
    apply bind_inv in EZ as (m & _ & EZ).
    apply bind_inv in EZ as (n & _ & EZ).
    injection EZ as <- <- <-.
    split; [lia|]. split; [lia|]. split; [lia|].
    exists M, N, K, single_M, single_N, threshold.
    repeat split; auto; lia.
Qed.

(** The claim on five threads: an f32 matmul of 2560 x 2560 by 2560 x 2560. *)
Lemma sub_blocks_at_least_one_witness :
  1 <= 3 /\ 1 <= 18 /\ 1 <= 3.
Proof.
  destruct (sub_blocks_at_least_one L2_MN_exact
              (matmul_gen 5 2560 2560 2560 f32) (machine 5)
              (mk_config 5 1 3 18 3 0) ltac:(vm_compute; reflexivity))
    as (H1 & H2 & H3 & _).
  simpl in H1, H2, H3. auto.
Defined.

(** The [int] product is the byte size of the tile as long as that is below
    [2^31]. *)
Lemma tile_bytes_exact (single_M single_N sizeofdtypeA : Z) :
  0 <= single_M -> 0 <= single_N -> 1 <= sizeofdtypeA ->
  single_M * single_N * sizeofdtypeA < 2 ^ 31 ->
  imul (imul single_M single_N) sizeofdtypeA
  = single_M * single_N * sizeofdtypeA.
Proof.
  intros HM HN Hs Hb. unfold imul.
  rewrite (int32_small (single_M * single_N)) by nia.
  apply int32_small. nia.
Qed.

(** C7 on one thread and the f32 matmul of 32768 x 768 by 768 x 32768, with
    1 MiB of L2 cache.  The tile of the thread is the whole output,
    [single_M = single_N = 32768], of [2^32] bytes: it does not fit in the
    cache, the threshold on K for such a tile is 4096 / 4 = 1024 and
    K = 768 is below it.  The [int] product of line 164 wraps around to 0,
    which is below [L2_size]: the code takes the threshold 2048 / 4 = 512
    and returns [K_sub_block = 2]. *)
Lemma K_sub_block_on_overflowing_tile :
  let g := matmul_gen 1 32768 768 32768 f32 in
  let ctx := machine 1 in
  rounded_M g = Ok 32768 /\ rounded_N g = Ok 32768 /\ rounded_K g = Ok 768
  /\ single_extent 32768 (iim_block_ g) 1 = Ok 32768
  /\ single_extent 32768 (iin_block_ g) 1 = Ok 32768
  /\ getDCacheSize_2 ctx <= 32768 * 32768 * get_sizeof_etype (get_A_dtype g)
  /\ 768 < Z.quot 4096 (get_sizeof_etype (get_A_dtype g))
  /\ imul (imul 32768 32768) (get_sizeof_etype (get_A_dtype g)) = 0
  /\ single_K_threshold 32768 32768 (get_sizeof_etype (get_A_dtype g))
       (getDCacheSize_2 ctx) = Ok 512
  /\ get_default_config L2_MN_exact g ctx = Ok (mk_config 1 1 128 128 2 0)
  /\ K_sub_block (mk_config 1 1 128 128 2 0) <> 1.
Proof. vm_compute. repeat split; discriminate. Qed.

(** ** Claim C8: validation of the sub-block counts *)

Lemma check_sub_blocks_spec (g : gen_managed_matmul_core_t)
  (config : managed_matmul_core_config_t) (e : extents) :
  (check_sub_blocks g config e = Ok tt /\ ~ sub_block_exceeds g config e)
  \/ (exists msg, In msg sub_block_messages
        /\ check_sub_blocks g config e = Fatal msg
        /\ sub_block_exceeds g config e).
Proof.
  unfold check_sub_blocks, COMPILE_ASSERT, sub_block_exceeds, sub_block_messages.
  rewrite !Z.geb_leb.
  repeat match goal with
  | |- context [Z.leb ?a ?b] => destruct (Z.leb_spec a b)
  end; cbn [andb bind];
  first [ left; split; [reflexivity | lia]
        | right; eexists; split; [|split; [reflexivity | lia]]; simpl; tauto ].
Qed.

Lemma map_outcome_no_fatal {A B : Type} (f : A -> outcome B) (l : list A) :
  (forall a s, f a <> Fatal s) -> forall s, map_outcome f l <> Fatal s.
Proof.
  intros Hf. induction l as [|a l IH]; intros s; simpl; [discriminate|].
  apply bind_no_fatal; [intros; apply Hf|]. intros b s'.
  apply bind_no_fatal; [exact IH | discriminate].
Qed.

Lemma irem_no_fatal (a b : Z) (s : string) : irem a b <> Fatal s.
Proof. unfold irem. destruct (b =? 0); discriminate. Qed.

Ltac no_fatal :=
  repeat first
    [ apply idiv_no_fatal
    | apply irem_no_fatal
    | discriminate
    | apply bind_no_fatal; [intros ?|intros ? ?]
    | match goal with
      | |- (if ?c then _ else _) <> _ => destruct c
      | |- (let '(_, _) := ?p in _) <> _ => destruct p
      end ].

Lemma single_thread_matmul_call_no_fatal (g : gen_managed_matmul_core_t)
  (config : managed_matmul_core_config_t) (C : tensor_id) (dtype_block : Z)
  (fusion : bool) (Mi Ni : list Z) (is_partial : bool) (s : string) :
  single_thread_matmul_call g config C dtype_block fusion Mi Ni is_partial
  <> Fatal s.
Proof.
  unfold single_thread_matmul_call.
  destruct (fusion && negb is_partial); [|discriminate].
  apply bind_no_fatal; [|discriminate]. clear s. intros s.
  unfold sub_block_anchor_shapes.
  apply bind_no_fatal; [intros s'; unfold no_imbalance; no_fatal|].
  intros even s'. destruct even.
  - no_fatal.
  - apply bind_no_fatal; [|discriminate]. intros s''.
    apply map_outcome_no_fatal. intros [[[p q] i] j] s3.
    unfold anchor_length. no_fatal.
Qed.



(** ** Counting over loop nests *)

Lemma nsum_app (f : Z -> nat) (l l' : list Z) :
  nsum f (l ++ l') = (nsum f l + nsum f l')%nat.
Proof. unfold nsum. now rewrite map_app, list_sum_app. Qed.

Lemma nsum_ext (f f' : Z -> nat) (l : list Z) :
  (forall x, In x l -> f x = f' x) -> nsum f l = nsum f' l.
Proof.
  intros H. unfold nsum. f_equal. apply map_ext_in. exact H.
Qed.

Lemma nsum_zero (l : list Z) : nsum (fun _ => 0%nat) l = 0%nat.
Proof. unfold nsum. induction l; simpl; auto. Qed.

Lemma nsum_scale (f : Z -> nat) (c : nat) (l : list Z) :
  nsum (fun x => (f x * c)%nat) l = (nsum f l * c)%nat.
Proof.
  unfold nsum. induction l as [|a l IH]; simpl; [reflexivity|].
  rewrite IH. lia.
Qed.

Lemma nsum_scale_l (f : Z -> nat) (c : nat) (l : list Z) :
  nsum (fun x => (c * f x)%nat) l = (c * nsum f l)%nat.
Proof.
  unfold nsum. induction l as [|a l IH]; simpl; [lia|].
  rewrite IH. lia.
Qed.

Lemma nsum_filter (h : Z -> bool) (l : list Z) :
  nsum (fun x => b2n (h x)) l = List.length (filter h l).
Proof.
  unfold nsum. induction l as [|a l IH]; simpl; [reflexivity|].
  rewrite IH. destruct (h a); reflexivity.
Qed.

(** A sum all of whose terms vanish but the one at [x0]. *)
Lemma nsum_single (f : Z -> nat) (l : list Z) (x0 : Z) :
  NoDup l -> In x0 l -> (forall x, In x l -> x <> x0 -> f x = 0%nat) ->
  nsum f l = f x0.
Proof.
  unfold nsum. induction l as [|a l IH]; intros ND Hin Hz; [contradiction|].
  inversion ND as [|? ? Hna ND']; subst. simpl.
  destruct Hin as [->|Hin].
  - rewrite (map_ext_in f (fun _ => 0%nat)).
    + fold (nsum (fun _ => 0%nat) l). rewrite nsum_zero. lia.
    + intros x Hx. apply Hz; [now right|]. intros ->. contradiction.
  - rewrite IH; auto.
    + rewrite Hz; [lia | now left|]. intros ->. contradiction.
    + intros x Hx. apply Hz. now right.
Qed.

(** Summing over a permutation of the indices. *)
Lemma nsum_permutation (f : Z -> nat) (l l' : list Z) :
  Permutation l l' -> nsum f l = nsum f l'.
Proof.
  intros H. unfold nsum. induction H; simpl; try lia.
Qed.

Lemma nsum_rotated (f : Z -> nat) (tid c : Z) :
  0 <= tid ->
  nsum (fun o => f (Z.rem (o + tid) c)) (range c) = nsum f (range c).
Proof.
  intros Htid. unfold nsum. rewrite <- (map_map (fun o => Z.rem (o + tid) c) f).
  apply (nsum_permutation f). now apply rotation_permutation_any.
Qed.

Lemma cover_count_app (p : list Z) (rs rs' : list slice_range) :
  cover_count p (rs ++ rs') = (cover_count p rs + cover_count p rs')%nat.
Proof. unfold cover_count. apply filter_length_app. Qed.

Lemma anchor_regions_app (site : anchor_site) (l l' : list event) :
  anchor_regions site (l ++ l') = anchor_regions site l ++ anchor_regions site l'.
Proof. unfold anchor_regions. apply flat_map_app. Qed.

Lemma cover_count_flat_map (p : list Z) (site : anchor_site)
  (F : Z -> list event) (l : list Z) :
  cover_count p (anchor_regions site (flat_map F l))
  = nsum (fun x => cover_count p (anchor_regions site (F x))) l.
Proof.
  unfold nsum. induction l as [|a l IH]; simpl; [reflexivity|].
  now rewrite anchor_regions_app, cover_count_app, IH.
Qed.

Lemma cover_count_single (p : list Z) (r : slice_range) :
  cover_count p [r] = b2n (in_slice p r).
Proof. unfold cover_count. simpl. now destruct (in_slice p r). Qed.

Lemma b2n_andb (a b : bool) : b2n (a && b) = (b2n a * b2n b)%nat.
Proof. now destruct a, b. Qed.

(** Two independent loops: the count of a product is the product of the
    counts. *)
Lemma nsum_product (f h : Z -> nat) (t : nat) (l l' : list Z) :
  nsum (fun x => nsum (fun y => (f x * h y * t)%nat) l') l
  = (nsum f l * nsum h l' * t)%nat.
Proof.
  rewrite (nsum_ext _ (fun x => (f x * (nsum h l' * t))%nat)).
  - rewrite nsum_scale. lia.
  - intros x _.
    rewrite (nsum_ext _ (fun y => (h y * (f x * t))%nat)) by (intros; lia).
    rewrite nsum_scale. lia.
Qed.

Lemma nsum_product_swapped (f h : Z -> nat) (t : nat) (l l' : list Z) :
  nsum (fun y => nsum (fun x => (f x * h y * t)%nat) l) l'
  = (nsum f l * nsum h l' * t)%nat.
Proof.
  rewrite (nsum_ext _ (fun y => nsum (fun x => (h y * f x * t)%nat) l)).
  - rewrite nsum_product. lia.
  - intros y _. apply nsum_ext. intros; lia.
Qed.

(** ** One axis: threads, sub-blocks and blocks *)

Lemma balance_length_nonneg_in_range (n team idx : Z) :
  0 <= n -> 0 < team -> 0 <= idx < team ->
  0 <= b_length (get_balance211_length n team idx).
Proof.
  intros Hn Hteam Hidx.
  pose proof (balance_n1_nonneg n team Hn Hteam) as H1.
  pose proof (balance_T1_upper n team Hteam) as HT.
  destruct (Z.lt_ge_cases idx (n - (divide_and_ceil n team - 1) * team)) as [H|H].
  - destruct (balance_big n team idx H) as [-> _]. exact H1.
  - destruct (balance_small n team idx H) as [-> _].
    destruct (balance_n1_ceil n team Hn Hteam) as [Hc|Hc]; nia.
Qed.

(** The sub-blocks of a thread laid end to end cover its [nb] blocks:
    [unit] is the width of a block, [base] the start of the thread. *)
Lemma sub_blocks_cover (nb sub base unit x : Z) :
  0 <= nb -> 0 < sub -> 0 < unit ->
  nsum (fun m_b =>
          b2n (covers x
                 (base + b_start (get_balance211_length nb sub m_b) * unit)
                 (b_length (get_balance211_length nb sub m_b) * unit)))
    (range sub)
  = b2n (covers x base (nb * unit)).
Proof.
  intros Hnb Hsub Hunit.
  rewrite (nsum_filter (fun m_b => covers x
             (base + b_start (get_balance211_length nb sub m_b) * unit)
             (b_length (get_balance211_length nb sub m_b) * unit))).
  rewrite (contiguous_cover_count
             (fun m_b => base + b_start (get_balance211_length nb sub m_b) * unit)
             (fun m_b => b_length (get_balance211_length nb sub m_b) * unit)).
  - rewrite balance_start_0, balance_start_team by assumption.
    f_equal. f_equal; lia.
  - lia.
  - intros i Hi.
    pose proof (balance_length_nonneg_in_range nb sub i Hnb Hsub Hi). nia.
  - intros i Hi. rewrite balance_contiguous. lia.
Qed.

(** The blocks of a sub-block, visited in rotated order, cover it. *)
Lemma rotated_blocks_cover (len start base unit tid x : Z) :
  0 <= len -> 0 < unit -> 0 <= tid ->
  nsum (fun m_o =>
          b2n (covers x (base + (start + Z.rem (m_o + tid) len) * unit) unit))
    (range len)
  = b2n (covers x (base + start * unit) (len * unit)).
Proof.
  intros Hlen Hunit Htid.
  rewrite (nsum_rotated
             (fun j => b2n (covers x (base + (start + j) * unit) unit)))
    by assumption.
  rewrite (nsum_filter (fun j => covers x (base + (start + j) * unit) unit)).
  rewrite (contiguous_cover_count
             (fun j => base + (start + j) * unit) (fun _ => unit));
    try lia.
  f_equal. f_equal; lia.
Qed.

(** Sub-blocks, then rotated blocks: the blocks of a thread cover it. *)
Lemma blocks_cover (nb sub base unit tid x : Z) :
  0 <= nb -> 0 < sub -> 0 < unit -> 0 <= tid ->
  nsum (fun m_b =>
          let b := get_balance211_length nb sub m_b in
          nsum (fun m_o =>
                  b2n (covers x
                         (base + (b_start b + Z.rem (m_o + tid) (b_length b)) * unit)
                         unit))
            (range (b_length b)))
    (range sub)
  = b2n (covers x base (nb * unit)).
Proof.
  intros Hnb Hsub Hunit Htid.
  rewrite <- (sub_blocks_cover nb sub base unit x) by assumption.
  apply nsum_ext. intros m_b Hm. apply in_range in Hm. cbv zeta.
  apply rotated_blocks_cover; try assumption.
  now apply balance_length_nonneg_in_range.
Qed.

Section Axis.

(** [Xb] blocks of width [block] shared by [split] threads. *)
Variables Xb block split : Z.
Hypothesis HXb : 0 <= Xb.
Hypothesis Hblock : 0 < block.
Hypothesis Hsplit : 0 < split.

Let X := Xb * block.
Let n1 := divide_and_ceil Xb split.

Lemma axis_quot : Z.quot X block = Xb.
Proof. subst X. apply Z.quot_mul. lia. Qed.

Lemma axis_block_sizes :
  block_sizes X block split = Ok (n1 * block, Z.quot Xb split * block).
Proof.
  unfold block_sizes, utils_divide_and_ceil.
  repeat (rewrite idiv_ok by lia; cbn [bind]).
  now rewrite axis_quot.
Qed.

(** [X_blk_num] is the [T1] of the partition among the threads. *)
Lemma axis_blk_num :
  Z.quot (X - (n1 * block - block) * split) block = Xb - (n1 - 1) * split.
Proof.
  subst X. replace (Xb * block - (n1 * block - block) * split)
    with ((Xb - (n1 - 1) * split) * block) by lia.
  apply Z.quot_mul. lia.
Qed.

(** A thread below [min(Xb, split)] gets [X_block_size] when its index is
    below [X_blk_num], and [X_ib_block_size] otherwise; it gets at least
    one block, and starts inside the tensor. *)
Lemma axis_thread (s : Z) :
  let bs := n1 * block in
  let ib0 := Z.quot Xb split * block in
  let ib := if ib0 =? 0 then bs else ib0 in
  let blk_num := Xb - (n1 - 1) * split in
  let b := get_balance211_length Xb split s in
  0 <= s < Z.min Xb split ->
  b_length b * block = (if s <? blk_num then bs else ib)
  /\ 1 <= b_length b
  /\ 0 <= b_start b
  /\ b_start b + b_length b <= Xb.
Proof.
  intros bs ib0 ib blk_num b Hs.
  pose proof (balance_n1_upper Xb split Hsplit) as Hup.
  pose proof (balance_T1_upper Xb split Hsplit) as HT.
  pose proof (balance_T1_pos Xb split HXb Hsplit) as HTp.
  fold n1 in Hup. cbv zeta in HT, HTp. fold n1 in HT, HTp. fold blk_num in HT, HTp.
  assert (Hn1 : 1 <= n1) by nia.
  assert (Hfloor : Z.quot Xb split = n1 \/ Z.quot Xb split = n1 - 1).
  { subst n1. unfold divide_and_ceil. Z.to_euclidean_division_equations. nia. }
  assert (Hfloor' : Z.quot Xb split = n1 -> blk_num = split).
  { intros E. subst blk_num n1. unfold divide_and_ceil in *.
    Z.to_euclidean_division_equations. nia. }
  destruct (Z.ltb_spec s blk_num) as [Hlt|Hge].
  - destruct (balance_big Xb split s Hlt) as [El Es].
    fold n1 in El, Es. fold b in El, Es. rewrite El, Es.
    repeat split; try nia.
  - destruct (balance_small Xb split s Hge) as [El Es].
    fold n1 in El, Es. fold blk_num in Es. fold b in El, Es. rewrite El, Es.
    destruct Hfloor as [E|E]; [specialize (Hfloor' E); lia|].
    assert (Hn2 : 1 <= n1 - 1).
    { destruct (Z.le_gt_cases 1 (n1 - 1)); [assumption|].
      assert (n1 = 1) by lia. subst blk_num. nia. }
    subst ib ib0. rewrite E.
    destruct (Z.eqb_spec ((n1 - 1) * block) 0); [nia|].
    repeat split; try nia.
Qed.

End Axis.

(** ** The sizes computed by generate *)

Lemma block_sizes_inv (X block split bs ib : Z) :
  block_sizes X block split = Ok (bs, ib) ->
  block <> 0 /\ split <> 0
  /\ bs = divide_and_ceil (Z.quot X block) split * block
  /\ ib = Z.quot (Z.quot X block) split * block.
Proof.
  unfold block_sizes, utils_divide_and_ceil. intros H.
  apply bind_inv in H as (xb & E1 & H). apply idiv_inv in E1 as [Hb ->].
  apply bind_inv in H as (c & E2 & H). apply idiv_inv in E2 as [Hs ->].
  apply bind_inv in H as (xb' & E3 & H). apply idiv_inv in E3 as [_ ->].
  apply bind_inv in H as (f & E4 & H). apply idiv_inv in E4 as [_ ->].
  injection H as <- <-. auto.
Qed.

Lemma rnd_up_inv (d b X : Z) :
  utils_rnd_up d b = Ok X -> b <> 0 /\ X = Z.quot (d + b - 1) b * b.
Proof.
  unfold utils_rnd_up, utils_divide_and_ceil. intros H.
  apply bind_inv in H as (q & E & H). apply idiv_inv in E as [Hb ->].
  injection H as <-. auto.
Qed.

Lemma block_extents_inv (g : gen_managed_matmul_core_t) (ctx : context_t)
  (config : managed_matmul_core_config_t) (e : extents) :
  block_extents g ctx config = Ok e ->
  exists Mb Nb Kb, extents_of_blocks g ctx config e Mb Nb Kb.
Proof.
  unfold block_extents. intros H.
  apply bind_inv in H as (t & Et & H). apply idiv_inv in Et as [HMs ->].
  apply bind_inv in H as (Ksn & EK & H). apply idiv_inv in EK as [HNs ->].
  apply bind_inv in H as (M & EM & H). apply rnd_up_inv in EM as [Him ->].
  apply bind_inv in H as (K & EKr & H). apply rnd_up_inv in EKr as [Hik ->].
  apply bind_inv in H as (N & EN & H). apply rnd_up_inv in EN as [Hin ->].
  apply bind_inv in H as ([Mbs Mib] & EbM & H).
  apply block_sizes_inv in EbM as (_ & _ & -> & ->).
  apply bind_inv in H as ([Nbs Nib] & EbN & H).
  apply block_sizes_inv in EbN as (_ & _ & -> & ->).
  apply bind_inv in H as ([Kbs Kib] & EbK & H).
  apply block_sizes_inv in EbK as (_ & HKs & -> & ->).
  apply bind_inv in H as (Mbn & EMn & H). apply idiv_inv in EMn as [_ ->].
  apply bind_inv in H as (Nbn & ENn & H). apply idiv_inv in ENn as [_ ->].
  injection H as <-.
  rewrite !Z.quot_mul by assumption.
  set (Mb := Z.quot (dim (in_tensors_0 g) 0 + iim_block_ g - 1) (iim_block_ g)).
  set (Nb := Z.quot (dim (in_tensors_1 g) 1 + iin_block_ g - 1) (iin_block_ g)).
  set (Kb := Z.quot (dim (in_tensors_0 g) 1 + iik_block_ g - 1) (iik_block_ g)).
  exists Mb, Nb, Kb. unfold extents_of_blocks. cbn [e_M e_N e_K e_K_split_num
    e_M_block_size e_M_ib_block_size e_M_blk_num e_N_block_size
    e_N_ib_block_size e_N_blk_num e_K_block_size e_K_ib_block_size].
  repeat split; try reflexivity; try assumption.
  - replace (Mb * iim_block_ g
             - (divide_and_ceil Mb (M_split_num config) * iim_block_ g
                - iim_block_ g) * M_split_num config)
      with ((Mb - (divide_and_ceil Mb (M_split_num config) - 1)
                  * M_split_num config) * iim_block_ g) by lia.
    now apply Z.quot_mul.
  - replace (Nb * iin_block_ g
             - (divide_and_ceil Nb (N_split_num config) * iin_block_ g
                - iin_block_ g) * N_split_num config)
      with ((Nb - (divide_and_ceil Nb (N_split_num config) - 1)
                  * N_split_num config) * iin_block_ g) by lia.
    now apply Z.quot_mul.
Qed.

(** ** Fusion anchors of single_thread_matmul_call *)

Lemma in_slice_2d (p : list Z) (sm lm sn ln : Z) (tail : slice_range) :
  in_slice p ((sm, lm) :: (sn, ln) :: tail)
  = covers (point_m p) sm lm && covers (point_n p) sn ln && point_tail p tail.
Proof.
  unfold point_m, point_n. destruct p as [|x [|y rest]]; simpl.
  - now rewrite andb_false_r.
  - now rewrite !andb_false_r.
  - apply andb_assoc.
Qed.

Lemma b2n_in_slice_2d (p : list Z) (sm lm sn ln : Z) (tail : slice_range) :
  b2n (in_slice p ((sm, lm) :: (sn, ln) :: tail))
  = (b2n (covers (point_m p) sm lm) * b2n (covers (point_n p) sn ln)
     * b2n (point_tail p tail))%nat.
Proof. now rewrite in_slice_2d, !b2n_andb. Qed.

Lemma nsum_last (c : nat) (k : Z) :
  1 <= k -> nsum (fun k_b => if k_b =? k - 1 then c else 0%nat) (range k) = c.
Proof.
  intros Hk.
  rewrite (nsum_single _ (range k) (k - 1)).
  - now rewrite Z.eqb_refl.
  - apply NoDup_range.
  - apply in_range. lia.
  - intros x _ Hx. destruct (Z.eqb_spec x (k - 1)); [contradiction | reflexivity].
Qed.

Section BlockAnchors.

Variable g : gen_managed_matmul_core_t.
Variable config : managed_matmul_core_config_t.
Variable C : tensor_id.
Variable dtype_block : Z.
Variable M_anchor_info N_anchor_info : list Z.

Let iim := iim_block_ g.
Let iin := iin_block_ g.
Let blocking := is_blocking (out_tensors_0 g).

Lemma block_body_regions (a : call_args) (m_b_idx n_b_idx m_o_end n_o_end : Z)
  (k_b m_o n_o : Z) :
  anchor_regions at_block
    (block_body g config C dtype_block true false a m_b_idx n_b_idx
       m_o_end n_o_end k_b m_o n_o)
  = if k_b =? K_sub_block config - 1 then
      [(block_start g iim (a_m_idx a) m_b_idx m_o_end (a_tid a) m_o, block_unit g iim)
       :: (block_start g iin (a_n_idx a) n_b_idx n_o_end (a_tid a) n_o, block_unit g iin)
       :: inner_block g]
    else [].
Proof.
  unfold block_body, anchor_regions, block_start, block_unit, inner_block.
  cbn [flat_map anchor_region andb negb app].
  destruct (k_b =? K_sub_block config - 1); [|reflexivity].
  cbn [flat_map anchor_region site_eqb app].
  destruct (is_blocking (out_tensors_0 g)); reflexivity.
Qed.

Lemma block_body_count (p : list Z) (a : call_args)
  (m_b_idx n_b_idx m_o_end n_o_end k_b m_o n_o : Z) :
  cover_count p (anchor_regions at_block
    (block_body g config C dtype_block true false a m_b_idx n_b_idx
       m_o_end n_o_end k_b m_o n_o))
  = if k_b =? K_sub_block config - 1 then
      (b2n (covers (point_m p)
              (block_start g iim (a_m_idx a) m_b_idx m_o_end (a_tid a) m_o)
              (block_unit g iim))
       * b2n (covers (point_n p)
                (block_start g iin (a_n_idx a) n_b_idx n_o_end (a_tid a) n_o)
                (block_unit g iin))
       * b2n (point_tail p (inner_block g)))%nat
    else 0%nat.
Proof.
  rewrite block_body_regions.
  destruct (k_b =? K_sub_block config - 1); [|reflexivity].
  now rewrite cover_count_single, b2n_in_slice_2d.
Qed.

Lemma inner_loops_count (p : list Z) (a : call_args) (bm bn : balance211)
  (k_b : Z) :
  let body m_o n_o :=
    block_body g config C dtype_block true false a (b_start bm) (b_start bn)
      (b_length bm) (b_length bn) k_b m_o n_o in
  let SM := nsum (fun m_o =>
              b2n (covers (point_m p)
                     (block_start g iim (a_m_idx a) (b_start bm) (b_length bm)
                        (a_tid a) m_o) (block_unit g iim)))
              (range (b_length bm)) in
  let SN := nsum (fun n_o =>
              b2n (covers (point_n p)
                     (block_start g iin (a_n_idx a) (b_start bn) (b_length bn)
                        (a_tid a) n_o) (block_unit g iin)))
              (range (b_length bn)) in
  cover_count p (anchor_regions at_block
    (if im_loop_order config =? 1 then
       flat_map (fun n_o => flat_map (fun m_o => body m_o n_o)
         (range (b_length bm))) (range (b_length bn))
     else
       flat_map (fun m_o => flat_map (fun n_o => body m_o n_o)
         (range (b_length bn))) (range (b_length bm))))
  = if k_b =? K_sub_block config - 1
    then (SM * SN * b2n (point_tail p (inner_block g)))%nat else 0%nat.
Proof.
  intros body SM SN.
  destruct (im_loop_order config =? 1).
  - rewrite cover_count_flat_map.
    rewrite (nsum_ext _ (fun n_o => nsum (fun m_o =>
               cover_count p (anchor_regions at_block (body m_o n_o)))
               (range (b_length bm))))
      by (intros; apply cover_count_flat_map).
    unfold body.
    rewrite (nsum_ext _ (fun n_o => nsum _ (range (b_length bm))))
      by (intros; apply nsum_ext; intros; apply block_body_count).
    destruct (k_b =? K_sub_block config - 1).
    + apply nsum_product_swapped.
    + rewrite (nsum_ext _ (fun _ => 0%nat)) by (intros; apply nsum_zero).
      apply nsum_zero.
  - rewrite cover_count_flat_map.
    rewrite (nsum_ext _ (fun m_o => nsum (fun n_o =>
               cover_count p (anchor_regions at_block (body m_o n_o)))
               (range (b_length bn))))
      by (intros; apply cover_count_flat_map).
    unfold body.
    rewrite (nsum_ext _ (fun m_o => nsum _ (range (b_length bn))))
      by (intros; apply nsum_ext; intros; apply block_body_count).
    destruct (k_b =? K_sub_block config - 1).
    + apply nsum_product.
    + rewrite (nsum_ext _ (fun _ => 0%nat)) by (intros; apply nsum_zero).
      apply nsum_zero.
Qed.

Lemma sub_block_anchor_not_block (s : sub_block_shapes) (a : call_args)
  (m_b n_b : Z) (bm bn : balance211) :
  anchor_regions at_block
    [sub_block_anchor g M_anchor_info N_anchor_info s a m_b n_b bm bn] = [].
Proof. destruct s; reflexivity. Qed.

Lemma matmul_loops_block_count (p : list Z) (s : sub_block_shapes)
  (a : call_args) :
  1 <= K_sub_block config ->
  cover_count p (anchor_regions at_block
    (matmul_loops g config C dtype_block true M_anchor_info N_anchor_info
       false (Some s) a))
  = (axis_block_count g iim (Z.quot (a_M a) iim) (M_sub_block config)
       (a_m_idx a) (a_tid a) (point_m p)
     * axis_block_count g iin (Z.quot (a_N a) iin) (N_sub_block config)
         (a_n_idx a) (a_tid a) (point_n p)
     * b2n (point_tail p (inner_block g)))%nat.
Proof.
  intros HK. unfold matmul_loops, axis_block_count. cbv zeta.
  rewrite cover_count_flat_map.
  rewrite <- nsum_product.
  apply nsum_ext. intros m_b _.
  rewrite cover_count_flat_map.
  apply nsum_ext. intros n_b _.
  rewrite anchor_regions_app, cover_count_app, sub_block_anchor_not_block.
  rewrite cover_count_flat_map.
  rewrite (nsum_ext _ _ _ (fun k_b _ => inner_loops_count p a _ _ k_b)).
  rewrite nsum_last by assumption.
  change (cover_count p []) with 0%nat. apply Nat.add_0_r.
Qed.

End BlockAnchors.

Lemma axis_block_count_covers (g : gen_managed_matmul_core_t)
  (block nb sub s tid x : Z) :
  0 <= nb -> 0 < sub -> 0 < block -> 0 <= tid ->
  axis_block_count g block nb sub (s * block) tid x
  = b2n (if is_blocking (out_tensors_0 g)
         then covers x s nb else covers x (s * block) (nb * block)).
Proof.
  intros Hnb Hsub Hblock Htid. unfold axis_block_count, block_start, block_unit.
  destruct (is_blocking (out_tensors_0 g)).
  - rewrite <- (Z.mul_1_r nb).
    rewrite <- (blocks_cover nb sub s 1 tid x) by lia.
    rewrite Z.mul_1_r.
    apply nsum_ext. intros m_b _. cbv zeta.
    apply nsum_ext. intros m_o _. f_equal. f_equal.
    replace (s * block + b_start (get_balance211_length nb sub m_b) * block
             + Z.rem (m_o + tid) (b_length (get_balance211_length nb sub m_b))
               * block)
      with ((s + (b_start (get_balance211_length nb sub m_b)
                  + Z.rem (m_o + tid)
                      (b_length (get_balance211_length nb sub m_b))) * 1)
            * block) by lia.
    apply Z.quot_mul. lia.
  - rewrite <- (blocks_cover nb sub (s * block) block tid x) by lia.
    apply nsum_ext. intros m_b _. cbv zeta.
    apply nsum_ext. intros m_o _. f_equal. f_equal. lia.
Qed.

Lemma in_thread_region (g : gen_managed_matmul_core_t)
  (config : managed_matmul_core_config_t) (e : extents) (m_s n_s : Z)
  (p : list Z) :
  let bm := m_partition g config e m_s in
  let bn := n_partition g config e n_s in
  b2n (in_slice p (thread_region g config e m_s n_s))
  = (b2n (if is_blocking (out_tensors_0 g)
          then covers (point_m p) (b_start bm) (b_length bm)
          else covers (point_m p) (b_start bm * iim_block_ g)
                 (b_length bm * iim_block_ g))
     * b2n (if is_blocking (out_tensors_0 g)
            then covers (point_n p) (b_start bn) (b_length bn)
            else covers (point_n p) (b_start bn * iin_block_ g)
                   (b_length bn * iin_block_ g))
     * b2n (point_tail p (inner_block g)))%nat.
Proof.
  intros bm bn. unfold thread_region, inner_block. fold bm bn.
  destruct (is_blocking (out_tensors_0 g)); apply b2n_in_slice_2d.
Qed.

(** The block anchors of one call of [single_thread_matmul_call] by the
    thread [(m_s, n_s)] tile the region of the thread. *)
Lemma block_anchors_tile (g : gen_managed_matmul_core_t)
  (config : managed_matmul_core_config_t) (e : extents) (C : tensor_id)
  (dtype_block : Z) (Mi Ni : list Z) (s : sub_block_shapes)
  (K k_idx : Z) (tid : Z -> Z -> Z -> Z) (m_s n_s k_s : Z) :
  0 < iim_block_ g -> 0 < iin_block_ g ->
  0 <= Z.quot (e_M e) (iim_block_ g) -> 0 <= Z.quot (e_N e) (iin_block_ g) ->
  0 < M_split_num config -> 0 < N_split_num config ->
  0 < M_sub_block config -> 0 < N_sub_block config -> 1 <= K_sub_block config ->
  0 <= m_s < M_split_num config -> 0 <= n_s < N_split_num config ->
  0 <= tid m_s n_s k_s ->
  exactly_tiles
    (anchor_regions at_block
       (matmul_loops g config C dtype_block true Mi Ni false (Some s)
          (thread_args g config e K k_idx tid m_s n_s k_s)))
    (thread_region g config e m_s n_s).
Proof.
  intros Him Hin HMb HNb HMs HNs HMsub HNsub HKsub Hm Hn Htid p.
  rewrite matmul_loops_block_count by assumption.
  change (if in_slice p (thread_region g config e m_s n_s) then 1%nat else 0%nat)
    with (b2n (in_slice p (thread_region g config e m_s n_s))).
  rewrite in_thread_region.
  unfold thread_args. cbn [a_M a_N a_m_idx a_n_idx a_tid].
  rewrite !Z.quot_mul by lia.
  pose proof (balance_length_nonneg_in_range _ _ m_s HMb HMs Hm) as HLm.
  pose proof (balance_length_nonneg_in_range _ _ n_s HNb HNs Hn) as HLn.
  fold (m_partition g config e m_s) in HLm.
  fold (n_partition g config e n_s) in HLn.
  rewrite !axis_block_count_covers by assumption.
  reflexivity.
Qed.

(** *** The anchor of a sub-block *)

Lemma map_outcome_nth {A B : Type} (f : A -> outcome B) (l : list A)
  (t : list B) (k : nat) (x : A) :
  map_outcome f l = Ok t -> nth_error l k = Some x ->
  exists y, f x = Ok y /\ nth_error t k = Some y.
Proof.
  revert t k. induction l as [|a l IH]; intros t k H Hk.
  - destruct k; discriminate.
  - simpl in H. apply bind_inv in H as (b & Eb & H).
    apply bind_inv in H as (bs & Ebs & H). injection H as <-.
    destruct k as [|k]; simpl in Hk.
    + injection Hk as <-. exists b. auto.
    + destruct (IH bs k Ebs Hk) as (y & Hy & Hn). exists y. auto.
Qed.

(** [anchor_iter] is the position, in the table of the 16 cases, of the
    entry built for the four tests it makes. *)
Lemma anchor_iter_entry (Mi Ni : list Z) (a : call_args)
  (m_b n_b m_big n_big : Z) :
  nth_error sixteen_cases (Z.to_nat (anchor_iter Mi Ni a m_b n_b m_big n_big))
  = Some ((if a_m_s a <? nth 0 Mi 0 then 0%nat else 1%nat),
          (if a_n_s a <? nth 0 Ni 0 then 0%nat else 1%nat),
          (if m_b <? m_big then 0 else 1),
          (if n_b <? n_big then 0 else 1)).
Proof.
  unfold anchor_iter.
  destruct (a_m_s a <? nth 0 Mi 0), (a_n_s a <? nth 0 Ni 0),
    (m_b <? m_big), (n_b <? n_big); reflexivity.
Qed.

Lemma ceil_of_multiple (nb sub : Z) :
  0 <= nb -> 0 < sub -> Z.rem nb sub = 0 ->
  divide_and_ceil nb sub = Z.quot nb sub.
Proof.
  intros Hnb Hsub E. unfold divide_and_ceil.
  Z.to_euclidean_division_equations. nia.
Qed.
Lemma ceil_of_non_multiple (nb sub : Z) :
  0 <= nb -> 0 < sub -> Z.rem nb sub <> 0 ->
  divide_and_ceil nb sub = Z.quot nb sub + 1.
Proof.
  intros Hnb Hsub E. unfold divide_and_ceil.
  Z.to_euclidean_division_equations. nia.
Qed.
Lemma quot_of_multiple (nb sub block : Z) :
  0 <= nb -> 0 < sub -> 0 < block -> Z.rem nb sub = 0 ->
  Z.quot (nb * block) sub = Z.quot nb sub * block.
Proof.
  intros Hnb Hsub Hb E.
  pose proof (Z.quot_rem' nb sub) as Q. rewrite E in Q.
  rewrite Q at 1.
  replace ((sub * Z.quot nb sub + 0) * block)
    with (Z.quot nb sub * block * sub) by lia.
  apply Z.quot_mul. lia.
Qed.

Lemma Ok_inj {A : Type} (a b : A) : Ok a = Ok b -> a = b.
Proof. now intros [= ->]. Qed.

(** With [nb] blocks in the thread, the table entry holds the number of
    blocks of sub-block [m_b] when C is blocked, and their total width when
    C is plain and [nb] is a multiple of the sub-block count. *)
Lemma anchor_length_matches (blocking : bool) (nb block sub m_b l : Z) :
  0 <= nb -> 0 < block -> 0 < sub -> 0 <= m_b < sub ->
  blocking = true \/ Z.rem nb sub = 0 ->
  let b := get_balance211_length nb sub m_b in
  anchor_length blocking (nb * block) block sub
    (if m_b <? b_T1 b then 0 else 1) = Ok l ->
  l = if blocking then b_length b else b_length b * block.
Proof.
  intros Hnb Hblock Hsub Hm Hlayout b H.
  pose proof (balance_T1_upper nb sub Hsub) as HT.
  pose proof (balance_T1_pos nb sub Hnb Hsub) as HTp.
  assert (Hfloor : Z.rem nb sub = 0 ->
            divide_and_ceil nb sub = Z.quot nb sub
            /\ nb - (divide_and_ceil nb sub - 1) * sub = sub).
  { intros E. rewrite (ceil_of_multiple nb sub Hnb Hsub E).
    pose proof (Z.quot_rem' nb sub) as Q. rewrite E in Q. lia. }
  pose proof (ceil_of_non_multiple nb sub Hnb Hsub) as Hceil.
  unfold b in *. rewrite balance_T1_eq in H.
  unfold anchor_length in H.
  destruct blocking.
  - apply bind_inv in H as (xb & E1 & H). apply idiv_inv in E1 as [_ ->].
    apply bind_inv in H as (q & E2 & H). apply idiv_inv in E2 as [_ ->].
    apply bind_inv in H as (r & E3 & H). apply irem_inv in E3 as [_ ->].
    apply Ok_inj in H. subst l. rewrite Z.quot_mul by lia.
    destruct (Z.ltb_spec m_b (nb - (divide_and_ceil nb sub - 1) * sub)) as [L|L].
    + destruct (balance_big nb sub m_b L) as [-> _].
      destruct (Z.eqb_spec (Z.rem nb sub) 0) as [E|E]; cbn [negb].
      * destruct (Hfloor E) as [-> _]. reflexivity.
      * rewrite (Hceil E). lia.
    + destruct (balance_small nb sub m_b L) as [-> _].
      destruct (Z.eqb_spec (Z.rem nb sub) 0) as [E|E]; cbn [negb].
      * destruct (Hfloor E) as [_ E']. lia.
      * rewrite (Hceil E). lia.
  - destruct Hlayout as [Hl|E]; [discriminate|].
    apply bind_inv in H as (q & E1 & H). apply idiv_inv in E1 as [_ ->].
    apply bind_inv in H as (xb & E2 & H). apply idiv_inv in E2 as [_ ->].
    apply bind_inv in H as (r & E3 & H). apply irem_inv in E3 as [_ ->].
    apply Ok_inj in H. subst l. rewrite Z.quot_mul by lia.
    rewrite E. cbn [Z.eqb negb].
    destruct (Hfloor E) as [E1 E2].
    destruct (balance_big nb sub m_b ltac:(lia)) as [-> _]. rewrite E1.
    now apply quot_of_multiple.
Qed.

Lemma single_length_matches (blocking : bool) (nb block sub m_b : Z) :
  0 <= nb -> 0 < block -> 0 < sub -> 0 <= m_b < sub -> Z.rem nb sub = 0 ->
  let b := get_balance211_length nb sub m_b in
  (if blocking then Z.quot nb sub else Z.quot (nb * block) sub)
  = if blocking then b_length b else b_length b * block.
Proof.
  intros Hnb Hblock Hsub Hm E b.
  pose proof (ceil_of_multiple nb sub Hnb Hsub E) as Hc.
  pose proof (Z.quot_rem' nb sub) as Q. rewrite E in Q.
  destruct (balance_big nb sub m_b ltac:(rewrite Hc; nia)) as [El _].
  unfold b. rewrite El, Hc.
  destruct blocking; [reflexivity | now apply quot_of_multiple].
Qed.

Lemma no_imbalance_true (iim iin : Z) (config : managed_matmul_core_config_t)
  (Mi Ni : list Z) :
  no_imbalance iim iin config Mi Ni = Ok true ->
  nth 1 Mi 0 = nth 2 Mi 0 /\ nth 1 Ni 0 = nth 2 Ni 0
  /\ Z.rem (Z.quot (nth 1 Mi 0) iim) (M_sub_block config) = 0
  /\ Z.rem (Z.quot (nth 1 Ni 0) iin) (N_sub_block config) = 0.
Proof.
  unfold no_imbalance. intros H.
  destruct (Z.eqb_spec (nth 1 Mi 0) (nth 2 Mi 0)) as [EM|]; [|discriminate].
  destruct (Z.eqb_spec (nth 1 Ni 0) (nth 2 Ni 0)) as [EN|]; [|discriminate].
  cbn [negb] in H.
  apply bind_inv in H as (mb & E1 & H). apply idiv_inv in E1 as [_ ->].
  apply bind_inv in H as (rm & E2 & H). apply irem_inv in E2 as [_ ->].
  destruct (Z.eqb_spec (Z.rem (Z.quot (nth 1 Mi 0) iim) (M_sub_block config)) 0)
    as [ERM|]; [|discriminate].
  cbn [negb] in H.
  apply bind_inv in H as (nb & E3 & H). apply idiv_inv in E3 as [_ ->].
  apply bind_inv in H as (rn & E4 & H). apply irem_inv in E4 as [_ ->].
  apply Ok_inj in H. apply Z.eqb_eq in H. auto.
Qed.

Lemma c_slice_2d (g : gen_managed_matmul_core_t) (m n lm ln : Z) :
  c_slice g m n lm ln
  = ((if is_blocking (out_tensors_0 g) then Z.quot m (iim_block_ g) else m), lm)
    :: ((if is_blocking (out_tensors_0 g) then Z.quot n (iin_block_ g) else n), ln)
    :: inner_block g.
Proof.
  unfold c_slice, inner_block. now destruct (is_blocking (out_tensors_0 g)).
Qed.

Section SubBlockAnchors.

Variable g : gen_managed_matmul_core_t.
Variable config : managed_matmul_core_config_t.
Variable C : tensor_id.
Variable dtype_block : Z.
Variables blkM bsM ibM blkN bsN ibN : Z.
Variable s : sub_block_shapes.
Variable a : call_args.
Variables nbM nbN : Z.

Let iim := iim_block_ g.
Let iin := iin_block_ g.
Let blocking := is_blocking (out_tensors_0 g).
Let Mi := [blkM; bsM; ibM].
Let Ni := [blkN; bsN; ibN].

Hypothesis Hshape :
  sub_block_anchor_shapes blocking iim iin config Mi Ni = Ok s.
Hypothesis HaM : a_M a = nbM * iim.
Hypothesis HaN : a_N a = nbN * iin.
Hypothesis HselM : nbM * iim = if a_m_s a <? blkM then bsM else ibM.
Hypothesis HselN : nbN * iin = if a_n_s a <? blkN then bsN else ibN.
Hypothesis HnbM : 0 <= nbM.
Hypothesis HnbN : 0 <= nbN.
Hypothesis Him : 0 < iim.
Hypothesis Hin : 0 < iin.
Hypothesis HMsub : 0 < M_sub_block config.
Hypothesis HNsub : 0 < N_sub_block config.
Hypothesis Hlayout :
  blocking = true
  \/ (Z.rem nbM (M_sub_block config) = 0 /\ Z.rem nbN (N_sub_block config) = 0).

(** The region of the anchor of sub-block [(m_b, n_b)] has the lengths of
    the sub-block. *)
Lemma sub_block_anchor_region (m_b n_b : Z) :
  0 <= m_b < M_sub_block config -> 0 <= n_b < N_sub_block config ->
  let bm := get_balance211_length nbM (M_sub_block config) m_b in
  let bn := get_balance211_length nbN (N_sub_block config) n_b in
  anchor_regions at_sub_block [sub_block_anchor g Mi Ni s a m_b n_b bm bn]
  = [c_slice g (a_m_idx a + b_start bm * iim) (a_n_idx a + b_start bn * iin)
       (if blocking then b_length bm else b_length bm * iim)
       (if blocking then b_length bn else b_length bn * iin)].
Proof.
  intros Hm Hn bm bn.
  unfold sub_block_anchor_shapes in Hshape.
  apply bind_inv in Hshape as (even & Ee & H).
  destruct even.
  - apply no_imbalance_true in Ee as (EM & EN & ERM & ERN).
    unfold Mi, Ni in EM, EN, ERM, ERN. cbn [nth] in EM, EN, ERM, ERN.
    assert (EbM : bsM = nbM * iim) by (destruct (a_m_s a <? blkM); lia).
    assert (EbN : bsN = nbN * iin) by (destruct (a_n_s a <? blkN); lia).
    rewrite EbM, Z.quot_mul in ERM by lia.
    rewrite EbN, Z.quot_mul in ERN by lia.
    pose proof (single_length_matches blocking nbM iim _ m_b HnbM Him HMsub Hm ERM)
      as LM.
    pose proof (single_length_matches blocking nbN iin _ n_b HnbN Hin HNsub Hn ERN)
      as LN.
    cbv zeta in LM, LN. fold bm in LM. fold bn in LN.
    assert (Es : s = shape_single
                       (if blocking then b_length bm else b_length bm * iim)
                       (if blocking then b_length bn else b_length bn * iin)).
    { rewrite <- LM, <- LN. unfold Mi, Ni in H. cbn [nth] in H.
      rewrite EbM, EbN in H. clear LM LN.
      destruct blocking.
      - apply bind_inv in H as (x1 & E1 & H). apply idiv_inv in E1 as [_ ->].
        apply bind_inv in H as (x2 & E2 & H). apply idiv_inv in E2 as [_ ->].
        apply bind_inv in H as (x3 & E3 & H). apply idiv_inv in E3 as [_ ->].
        apply bind_inv in H as (x4 & E4 & H). apply idiv_inv in E4 as [_ ->].
        apply Ok_inj in H. rewrite !Z.quot_mul in H by lia. now symmetry.
      - apply bind_inv in H as (x1 & E1 & H). apply idiv_inv in E1 as [_ ->].
        apply bind_inv in H as (x2 & E2 & H). apply idiv_inv in E2 as [_ ->].
        apply Ok_inj in H. now symmetry. }
    rewrite Es. reflexivity.
  - apply bind_inv in H as (t & Et & H). apply Ok_inj in H. subst s.
    destruct (map_outcome_nth _ _ _ _ _ Et
                (anchor_iter_entry Mi Ni a m_b n_b (b_T1 bm) (b_T1 bn)))
      as ([lM lN] & Hy & Hnth).
    apply bind_inv in Hy as (lM' & ElM & Hy).
    apply bind_inv in Hy as (lN' & ElN & Hy).
    apply Ok_inj in Hy. injection Hy as -> ->.
    assert (EselM : nth ((if a_m_s a <? nth 0 Mi 0 then 0 else 1) + 1) Mi 0
                    = nbM * iim).
    { unfold Mi. cbn [nth]. rewrite HselM.
      destruct (a_m_s a <? blkM); reflexivity. }
    assert (EselN : nth ((if a_n_s a <? nth 0 Ni 0 then 0 else 1) + 1) Ni 0
                    = nbN * iin).
    { unfold Ni. cbn [nth]. rewrite HselN.
      destruct (a_n_s a <? blkN); reflexivity. }
    rewrite EselM in ElM. rewrite EselN in ElN.
    apply anchor_length_matches in ElM; try assumption; [|tauto].
    apply anchor_length_matches in ElN; try assumption; [|tauto].
    fold bm in ElM. fold bn in ElN. subst lM lN.
    unfold anchor_regions, sub_block_anchor.
    cbn [flat_map anchor_region site_eqb app].
    rewrite nth_error_map, Hnth. reflexivity.
Qed.

End SubBlockAnchors.

Lemma anchor_regions_nil (site : anchor_site) (l : list event) :
  (forall ev, In ev l -> anchor_region site ev = []) ->
  anchor_regions site l = [].
Proof.
  intros H. unfold anchor_regions. induction l as [|ev l IH]; [reflexivity|].
  simpl. rewrite (H ev) by now left. apply IH. intros ev' Hin. apply H. now right.
Qed.

Lemma block_body_no_sub_block_anchor (g : gen_managed_matmul_core_t)
  (config : managed_matmul_core_config_t) (C : tensor_id) (dtype_block : Z)
  (fusion is_partial : bool) (a : call_args)
  (m_b_idx n_b_idx m_o_end n_o_end k_b m_o n_o : Z) (ev : event) :
  In ev (block_body g config C dtype_block fusion is_partial a m_b_idx n_b_idx
           m_o_end n_o_end k_b m_o n_o) ->
  anchor_region at_sub_block ev = [].
Proof.
  unfold block_body. intros [<-|H]; [reflexivity|].
  destruct (fusion && negb is_partial); [|contradiction].
  destruct (k_b =? K_sub_block config - 1); [|contradiction].
  destruct H as [<-|[]]. reflexivity.
Qed.

Lemma inner_loops_no_sub_block_anchor (g : gen_managed_matmul_core_t)
  (config : managed_matmul_core_config_t) (C : tensor_id) (dtype_block : Z)
  (fusion is_partial : bool) (a : call_args) (bm bn : balance211) :
  anchor_regions at_sub_block
    (flat_map (fun k_b =>
       if im_loop_order config =? 1 then
         flat_map (fun n_o => flat_map (fun m_o =>
           block_body g config C dtype_block fusion is_partial a
             (b_start bm) (b_start bn) (b_length bm) (b_length bn) k_b m_o n_o)
           (range (b_length bm))) (range (b_length bn))
       else
         flat_map (fun m_o => flat_map (fun n_o =>
           block_body g config C dtype_block fusion is_partial a
             (b_start bm) (b_start bn) (b_length bm) (b_length bn) k_b m_o n_o)
           (range (b_length bn))) (range (b_length bm)))
       (range (K_sub_block config)))
  = [].
Proof.
  apply anchor_regions_nil. intros ev H.
  apply in_flat_map in H as (k_b & _ & H).
  destruct (im_loop_order config =? 1);
    apply in_flat_map in H as (x & _ & H);
    apply in_flat_map in H as (y & _ & H);
    eapply block_body_no_sub_block_anchor; eassumption.
Qed.

Section SubBlockTiling.

Variable g : gen_managed_matmul_core_t.
Variable config : managed_matmul_core_config_t.
Variable C : tensor_id.
Variable dtype_block : Z.
Variables blkM bsM ibM blkN bsN ibN : Z.
Variable s : sub_block_shapes.
Variable a : call_args.
Variables nbM nbN SM SN : Z.

Let iim := iim_block_ g.
Let iin := iin_block_ g.
Let blocking := is_blocking (out_tensors_0 g).
Let Mi := [blkM; bsM; ibM].
Let Ni := [blkN; bsN; ibN].

Hypothesis Hshape :
  sub_block_anchor_shapes blocking iim iin config Mi Ni = Ok s.
Hypothesis HaM : a_M a = nbM * iim.
Hypothesis HaN : a_N a = nbN * iin.
Hypothesis HsM : a_m_idx a = SM * iim.
Hypothesis HsN : a_n_idx a = SN * iin.
Hypothesis HselM : nbM * iim = if a_m_s a <? blkM then bsM else ibM.
Hypothesis HselN : nbN * iin = if a_n_s a <? blkN then bsN else ibN.
Hypothesis HnbM : 0 <= nbM.
Hypothesis HnbN : 0 <= nbN.
Hypothesis Him : 0 < iim.
Hypothesis Hin : 0 < iin.
Hypothesis HMsub : 0 < M_sub_block config.
Hypothesis HNsub : 0 < N_sub_block config.
Hypothesis Hlayout :
  blocking = true
  \/ (Z.rem nbM (M_sub_block config) = 0 /\ Z.rem nbN (N_sub_block config) = 0).

Lemma matmul_loops_sub_block_count (p : list Z) :
  cover_count p (anchor_regions at_sub_block
    (matmul_loops g config C dtype_block true Mi Ni false (Some s) a))
  = (b2n (if blocking then covers (point_m p) SM nbM
          else covers (point_m p) (SM * iim) (nbM * iim))
     * b2n (if blocking then covers (point_n p) SN nbN
            else covers (point_n p) (SN * iin) (nbN * iin))
     * b2n (point_tail p (inner_block g)))%nat.
Proof.
  unfold matmul_loops. cbv zeta.
  fold iim iin. rewrite HaM, HaN, !Z.quot_mul by lia.
  transitivity
    (nsum (fun m_b =>
             b2n (covers (point_m p)
                    ((if blocking then SM else SM * iim)
                     + b_start (get_balance211_length nbM (M_sub_block config) m_b)
                       * (if blocking then 1 else iim))
                    (b_length (get_balance211_length nbM (M_sub_block config) m_b)
                     * (if blocking then 1 else iim))))
       (range (M_sub_block config))
     * nsum (fun n_b =>
               b2n (covers (point_n p)
                      ((if blocking then SN else SN * iin)
                       + b_start (get_balance211_length nbN (N_sub_block config) n_b)
                         * (if blocking then 1 else iin))
                      (b_length (get_balance211_length nbN (N_sub_block config) n_b)
                       * (if blocking then 1 else iin))))
         (range (N_sub_block config))
     * b2n (point_tail p (inner_block g)))%nat.
  - rewrite cover_count_flat_map, <- nsum_product.
    apply nsum_ext. intros m_b Hm. apply in_range in Hm.
    rewrite cover_count_flat_map.
    apply nsum_ext. intros n_b Hn. apply in_range in Hn.
    rewrite anchor_regions_app, inner_loops_no_sub_block_anchor.
    cbn [app]. cbv beta iota. unfold Mi, Ni.
    rewrite (sub_block_anchor_region g config blkM bsM ibM blkN bsN ibN s a
               nbM nbN Hshape HselM HselN HnbM HnbN Him Hin HMsub HNsub
               Hlayout m_b n_b Hm Hn).
    rewrite cover_count_single, c_slice_2d, b2n_in_slice_2d.
    fold iim iin blocking. rewrite HsM, HsN.
    f_equal. f_equal.
    + f_equal. destruct blocking.
      * f_equal; [|lia].
        rewrite <- Z.mul_add_distr_r, Z.quot_mul by lia. lia.
      * f_equal; lia.
    + f_equal. destruct blocking.
      * f_equal; [|lia].
        rewrite <- Z.mul_add_distr_r, Z.quot_mul by lia. lia.
      * f_equal; lia.
  - rewrite !sub_blocks_cover by (try assumption; destruct blocking; lia).
    destruct blocking; rewrite ?Z.mul_1_r; reflexivity.
Qed.

End SubBlockTiling.

Lemma thread_anchor_other_site (g : gen_managed_matmul_core_t) (e : extents)
  (m_s n_s m_idx n_idx : Z) (site : anchor_site) :
  site <> at_thread ->
  anchor_regions site (thread_anchor g e m_s n_s m_idx n_idx) = [].
Proof.
  intros Hs. apply anchor_regions_nil. intros ev H.
  assert (Hsite : site_eqb at_thread site = false)
    by (destruct site; try reflexivity; contradiction).
  unfold thread_anchor in H.
  repeat match type of H with
  | In _ (if ?c then _ else _) => destruct c
  | In _ (let _ := _ in _) => cbv zeta in H
  end;
  repeat match type of H with
  | In _ [] => contradiction
  | In _ (_ :: _) => destruct H as [<-|H]
  end; cbn [anchor_region]; rewrite ?Hsite; reflexivity.
Qed.

Lemma divide_and_ceil_mul (Xb block : Z) :
  0 <= Xb -> 0 < block -> divide_and_ceil (Xb * block) block = Xb.
Proof.
  intros HX Hb. unfold divide_and_ceil.
  replace (Xb * block + block - 1) with (Xb * block + (block - 1)) by lia.
  Z.to_euclidean_division_equations. nia.
Qed.

(** What a successful [generate] without K split has checked and built. *)
Lemma generate_no_K_split_inv (g : gen_managed_matmul_core_t) (ctx : context_t)
  (v : Z) (config : managed_matmul_core_config_t) (e : extents) (p : loop_plan) :
  block_extents g ctx config = Ok e ->
  e_K_split_num e = 1 ->
  generate g ctx v config true = Ok p ->
  check_sub_blocks g config e = Ok tt
  /\ exists s,
       sub_block_anchor_shapes (is_blocking (out_tensors_0 g)) (iim_block_ g)
         (iin_block_ g) config (M_anchor_info e) (N_anchor_info e) = Ok s
       /\ p = mk_plan None
                (Z.min (divide_and_ceil (e_M e) (iim_block_ g)) (M_split_num config))
                (Z.min (divide_and_ceil (e_N e) (iin_block_ g)) (N_split_num config))
                (body_no_K_split g config true e
                   (matmul_loops g config tsr_C (get_dtype_block g) true
                      (M_anchor_info e) (N_anchor_info e) false (Some s))
                   (size_t_rnd_up (e_K e) (iik_block_ g)))
                (m_split_anchor g config true e).
Proof.
  intros Ee EK H. unfold generate in H. rewrite Ee in H. cbn [bind] in H.
  unfold generate_plan in H.
  apply bind_inv in H as ([] & Ec & H).
  apply bind_inv in H as ([] & _ & H).
  rewrite EK in H. cbn [Z.eqb Pos.eqb] in H.
  apply bind_inv in H as (call & Ecall & H). apply Ok_inj in H.
  split; [exact Ec|].
  unfold single_thread_matmul_call in Ecall. cbn [andb negb] in Ecall.
  apply bind_inv in Ecall as (s & Es & Ecall). apply Ok_inj in Ecall.
  exists s. split; [exact Es|]. now subst.
Qed.

Lemma ceil_pos_inv (Xb split : Z) :
  0 < split -> 1 <= divide_and_ceil Xb split -> 1 <= Xb.
Proof.
  intros Hs H. unfold divide_and_ceil in H.
  Z.to_euclidean_division_equations. nia.
Qed.

(** C1, as the code has it.  For a plan without K split, built with a
    fusion manager from a Config with positive splits and sub-block counts,
    and a thread [(m_s, n_s)] of the decomposition: the regions of the
    anchors created per block (inside [im_n]) exactly tile the output
    region of the thread; so do, on their own, the regions of the anchors
    created per sub-block (after [im_k]), when C is blocked or when the
    block counts of the thread along M and N are multiples of
    [M_sub_block] and [N_sub_block].  The two levels are nested, not
    disjoint from each other. *)
Theorem anchors_tile_thread_region_per_level
  (g : gen_managed_matmul_core_t) (ctx : context_t) (v : Z)
  (config : managed_matmul_core_config_t) (e : extents) (p : loop_plan)
  (tid : Z -> Z -> Z -> Z) (m_s n_s : Z) :
  block_extents g ctx config = Ok e ->
  e_K_split_num e = 1 ->
  generate g ctx v config true = Ok p ->
  0 < iim_block_ g -> 0 < iin_block_ g ->
  0 < M_split_num config -> 0 < N_split_num config ->
  1 <= M_sub_block config -> 1 <= N_sub_block config ->
  1 <= K_sub_block config ->
  0 <= m_s < M_real_split p -> 0 <= n_s < N_real_split p ->
  0 <= tid m_s n_s 0 ->
  exactly_tiles (anchor_regions at_block (n_s_body p tid m_s n_s))
    (thread_region g config e m_s n_s)
  /\ (is_blocking (out_tensors_0 g) = true
      \/ (Z.rem (b_length (m_partition g config e m_s)) (M_sub_block config) = 0
          /\ Z.rem (b_length (n_partition g config e n_s)) (N_sub_block config)
             = 0) ->
      exactly_tiles (anchor_regions at_sub_block (n_s_body p tid m_s n_s))
        (thread_region g config e m_s n_s)).
Proof.
  intros Ee EK Hgen Him Hin HMs HNs HMsub HNsub HKsub Hm Hn Htid.
  destruct (generate_no_K_split_inv g ctx v config e p Ee EK Hgen)
    as (Ec & s & Es & ->).
  destruct (block_extents_inv g ctx config e Ee) as (Mb & Nb & Kb & Hext).
  destruct Hext as (EM & EN & _ & _ & _ & EMbs & EMib & EMblk
                    & ENbs & ENib & ENblk & _ & _).
  cbv beta in EMib, ENib.
  destruct (check_sub_blocks_spec g config e)
    as [[_ Hfit]|(msg & _ & Ec' & _)]; [|rewrite Ec in Ec'; discriminate].
  unfold sub_block_exceeds in Hfit.
  assert (HMb : 1 <= Mb).
  { apply (ceil_pos_inv Mb (M_split_num config) HMs).
    rewrite EMbs, Z.quot_mul in Hfit by lia. lia. }
  assert (HNb : 1 <= Nb).
  { apply (ceil_pos_inv Nb (N_split_num config) HNs).
    rewrite ENbs, Z.quot_mul in Hfit by lia. lia. }
  cbn [M_real_split N_real_split] in Hm, Hn.
  rewrite EM, divide_and_ceil_mul in Hm by lia.
  rewrite EN, divide_and_ceil_mul in Hn by lia.
  pose proof (axis_thread Mb (iim_block_ g) (M_split_num config)
                ltac:(lia) Him HMs m_s Hm) as (HselM & HlenM & HstM & _).
  pose proof (axis_thread Nb (iin_block_ g) (N_split_num config)
                ltac:(lia) Hin HNs n_s Hn) as (HselN & HlenN & HstN & _).
  cbv zeta in HselM, HselN.
  rewrite <- EMib, <- EMbs, <- EMblk in HselM.
  rewrite <- ENib, <- ENbs, <- ENblk in HselN.
  assert (EqM : Z.quot (e_M e) (iim_block_ g) = Mb)
    by (rewrite EM; apply Z.quot_mul; lia).
  assert (EqN : Z.quot (e_N e) (iin_block_ g) = Nb)
    by (rewrite EN; apply Z.quot_mul; lia).
  cbn [n_s_body]. unfold body_no_K_split. rewrite EK.
  change (range 1) with [0]. cbn [flat_map]. rewrite app_nil_r.
  split.
  - rewrite anchor_regions_app, thread_anchor_other_site, app_nil_r
      by discriminate.
    apply block_anchors_tile; try assumption; try lia.
  - intros Hlayout p0.
    rewrite anchor_regions_app, thread_anchor_other_site, app_nil_r
      by discriminate.
    change (if in_slice p0 (thread_region g config e m_s n_s)
            then 1%nat else 0%nat)
      with (b2n (in_slice p0 (thread_region g config e m_s n_s))).
    rewrite in_thread_region.
    unfold M_anchor_info, N_anchor_info in *.
    unfold m_partition, n_partition in *. rewrite EqM, EqN in *.
    apply (matmul_loops_sub_block_count g config tsr_C (get_dtype_block g)
             (e_M_blk_num e) (e_M_block_size e) (e_M_ib_block_size e)
             (e_N_blk_num e) (e_N_block_size e) (e_N_ib_block_size e) s
             (thread_args g config e (size_t_rnd_up (e_K e) (iik_block_ g)) 0
                tid m_s n_s 0)
             (b_length (get_balance211_length Mb (M_split_num config) m_s))
             (b_length (get_balance211_length Nb (N_split_num config) n_s))
             (b_start (get_balance211_length Mb (M_split_num config) m_s))
             (b_start (get_balance211_length Nb (N_split_num config) n_s)));
      unfold thread_args, m_partition, n_partition;
      cbn [a_M a_N a_m_idx a_n_idx a_m_s a_n_s];
      rewrite ?EqM, ?EqN; try assumption; try reflexivity; try lia.
Qed.

(** The claim for thread [(1, 0)] of a blocked 112 x 48 output split over
    two threads along M, with two sub-blocks along M and N. *)
Lemma anchors_tile_thread_region_per_level_witness :
  exists p e,
    generate (f32_gen true 112 16 48) (machine 2) 16 (mk_config 2 1 2 2 1 0) true
    = Ok p
    /\ block_extents (f32_gen true 112 16 48) (machine 2) (mk_config 2 1 2 2 1 0)
       = Ok e
    /\ exactly_tiles (anchor_regions at_block (n_s_body p (fun _ _ _ => 1) 1 0))
         (thread_region (f32_gen true 112 16 48) (mk_config 2 1 2 2 1 0) e 1 0)
    /\ exactly_tiles
         (anchor_regions at_sub_block (n_s_body p (fun _ _ _ => 1) 1 0))
         (thread_region (f32_gen true 112 16 48) (mk_config 2 1 2 2 1 0) e 1 0).
Proof.
  eexists. eexists. split; [reflexivity|]. split; [reflexivity|].
  pose proof (anchors_tile_thread_region_per_level
                (f32_gen true 112 16 48) (machine 2) 16 (mk_config 2 1 2 2 1 0)
                _ _ (fun _ _ _ => 1) 1 0 eq_refl eq_refl eq_refl
                ltac:(simpl; lia) ltac:(simpl; lia) ltac:(simpl; lia)
                ltac:(simpl; lia) ltac:(simpl; lia) ltac:(simpl; lia)
                ltac:(simpl; lia) ltac:(vm_compute; split; congruence)
                ltac:(vm_compute; split; congruence) ltac:(lia)) as [H1 H2].
  split; [exact H1|]. apply H2. left. reflexivity.
Defined.

(** C1 as stated fails on a blocked 80 x 16 output computed by one thread
    with two sub-blocks along M: the anchors per block and the anchors per
    sub-block taken together are not pairwise disjoint, the block
    [(0, 0)] lies in a block anchor and in a sub-block anchor. *)
Lemma anchors_of_both_levels_overlap :
  exists p e,
    generate (f32_gen true 80 16 16) (machine 1) 16 (mk_config 1 1 2 1 1 0) true
    = Ok p
    /\ block_extents (f32_gen true 80 16 16) (machine 1) (mk_config 1 1 2 1 1 0)
       = Ok e
    /\ cover_count [0; 0; 0; 0]
         (anchor_regions at_block (n_s_body p (fun _ _ _ => 0) 0 0)
          ++ anchor_regions at_sub_block (n_s_body p (fun _ _ _ => 0) 0 0))
       = 2%nat
    /\ ~ exactly_tiles
           (anchor_regions at_block (n_s_body p (fun _ _ _ => 0) 0 0)
            ++ anchor_regions at_sub_block (n_s_body p (fun _ _ _ => 0) 0 0))
           (thread_region (f32_gen true 80 16 16) (mk_config 1 1 2 1 1 0) e 0 0).
Proof.
  eexists. eexists. split; [reflexivity|]. split; [reflexivity|].
  split; [reflexivity|].
  intros H. specialize (H [0; 0; 0; 0]). vm_compute in H. discriminate H.
Qed.

(** The same output in the plain layout: the table of the 16 cases divides
    the width in elements, 80, by [M_sub_block] before adding one block, so
    the two sub-block anchors are [0, 56) and [48, 88) along M; they
    overlap and leave the 80 rows of the thread. *)
Lemma plain_sub_block_anchors_overlap :
  exists p,
    generate (f32_gen false 80 16 16) (machine 1) 16 (mk_config 1 1 2 1 1 0) true
    = Ok p
    /\ anchor_regions at_sub_block (n_s_body p (fun _ _ _ => 0) 0 0)
       = [[(0, 56); (0, 16)]; [(48, 40); (0, 16)]]
    /\ cover_count [50; 0]
         (anchor_regions at_sub_block (n_s_body p (fun _ _ _ => 0) 0 0))
       = 2%nat
    /\ cover_count [85; 0]
         (anchor_regions at_sub_block (n_s_body p (fun _ _ _ => 0) 0 0))
       = 1%nat.
Proof.
  eexists. split; [reflexivity|]. repeat split; reflexivity.
Qed.

(** ** Claim C5: the reduction of a K-split plan *)

Lemma fold_left_flat_map {A B S : Type} (f : S -> B -> S) (F : A -> list B)
  (l : list A) (s : S) :
  fold_left f (flat_map F l) s
  = fold_left (fun s x => fold_left f (F x) s) l s.
Proof.
  revert s. induction l as [|a l IH]; intros s; simpl; [reflexivity|].
  now rewrite fold_left_app, IH.
Qed.

Lemma fold_left_map {A B S : Type} (f : S -> B -> S) (h : A -> B)
  (l : list A) (s : S) :
  fold_left f (map h l) s = fold_left (fun s x => f s (h x)) l s.
Proof.
  revert s. induction l as [|a l IH]; intros s; simpl; [reflexivity|]. apply IH.
Qed.

Lemma fold_left_id {A S : Type} (f : S -> A -> S) (l : list A) (s : S) :
  (forall x s', In x l -> f s' x = s') -> fold_left f l s = s.
Proof.
  induction l as [|a l IH]; intros H; simpl; [reflexivity|].
  rewrite H by now left. apply IH. intros x s' Hx. apply H. now right.
Qed.

(** A loop in which only the iteration [x0] changes the state. *)
Lemma fold_left_single {A S : Type} (f : S -> A -> S) (l : list A) (x0 : A)
  (s : S) :
  NoDup l -> In x0 l -> (forall x s', In x l -> x <> x0 -> f s' x = s') ->
  fold_left f l s = f s x0.
Proof.
  revert s. induction l as [|a l IH]; intros s ND Hin Hid; [contradiction|].
  inversion ND as [|? ? Hna ND']; subst. simpl.
  destruct Hin as [->|Hin].
  - apply fold_left_id. intros x s' Hx. apply Hid; [now right|].
    intros ->. contradiction.
  - rewrite (Hid a s (or_introl eq_refl)) by (intros ->; contradiction).
    apply IH; auto. intros x s' Hx. apply Hid. now right.
Qed.

Lemma fold_left_ext_in {A S : Type} (f f' : S -> A -> S) (l : list A) (s : S) :
  (forall x s', In x l -> f s' x = f' s' x) ->
  fold_left f l s = fold_left f' l s.
Proof.
  revert s. induction l as [|a l IH]; intros s H; simpl; [reflexivity|].
  rewrite H by now left. apply IH. intros x s' Hx. apply H. now right.
Qed.

(** A loop each of whose iterations adds one slot. *)
Lemma fold_left_slots (idx : list Z) (k : Z) (l0 : list (list Z)) :
  fold_left (append_slot idx) (range k) (Some l0)
  = Some (l0 ++ map (fun lks => lks :: idx) (range k)).
Proof.
  destruct (Z.le_gt_cases 0 k) as [Hk|Hk].
  - pattern k. apply natlike_ind; [| |exact Hk].
    + simpl. now rewrite app_nil_r.
    + intros x Hx IH. replace (Z.succ x) with (x + 1) by lia.
      rewrite range_succ, fold_left_app, IH, map_app, app_assoc by lia.
      reflexivity.
  - rewrite range_nonpos by lia. simpl. now rewrite app_nil_r.
Qed.

Lemma range_step_in (n step x : Z) :
  0 < step ->
  In x (range_step n step) <-> 0 <= x < n /\ Z.rem x step = 0.
Proof.
  intros Hs. unfold range_step. rewrite in_map_iff. split.
  - intros (i & <- & Hi). apply in_range in Hi.
    split; [|apply Z.rem_mul; lia].
    Z.to_euclidean_division_equations. nia.
  - intros [Hx Hr]. exists (Z.quot x step).
    pose proof (Z.quot_rem' x step) as Q. rewrite Hr in Q.
    split; [lia|]. apply in_range.
    Z.to_euclidean_division_equations. nia.
Qed.

Lemma NoDup_range_step (n step : Z) : 0 < step -> NoDup (range_step n step).
Proof.
  intros Hs. unfold range_step.
  apply Finite.Injective_map_NoDup_in; [|apply NoDup_range].
  intros a b _ _ H. nia.
Qed.

Lemma span_start (j L : Z) :
  0 <= j -> 0 < L ->
  let lno := Z.quot j L * L in
  lno <= j < lno + L /\ Z.rem lno L = 0 /\ 0 <= lno.
Proof.
  intros Hj HL lno. subst lno. split; [|split].
  - Z.to_euclidean_division_equations. nia.
  - apply Z.rem_mul. lia.
  - pose proof (Z.quot_pos j L Hj HL). nia.
Qed.

Lemma span_unique (j L lno : Z) :
  0 <= lno -> 0 < L -> Z.rem lno L = 0 -> lno <= j < lno + L ->
  lno = Z.quot j L * L.
Proof.
  intros H0 HL Hr Hj.
  pose proof (Z.quot_rem' lno L) as Q. rewrite Hr in Q.
  assert (Z.quot lno L = Z.quot j L); [|lia].
  apply (Z.quot_unique j L (Z.quot lno L) (j - lno)); lia.
Qed.

Section BlockedReduction.

Variable g : gen_managed_matmul_core_t.
Variables X Y i j L : Z.

Let iim := iim_block_ g.
Let iin := iin_block_ g.
Let idx := [X; Y; i; j].

Hypothesis Hi : 0 <= i < iim.
Hypothesis Hj : 0 <= j < iin.
Hypothesis HL : 0 < L.

(** The loops over [lmo] and [lno] of one slot add the element of the slot
    at the same position, once. *)
Lemma tile_slot_adds (lks : Z) (st : option (list (list Z))) :
  fold_left (c_step g idx)
    (flat_map (fun lmo =>
       map (fun lno => add_assign [X; Y; lmo; lno] [lks; X; Y; lmo; lno] L)
         (range_step iin L)) (range iim)) st
  = append_slot idx st lks.
Proof.
  rewrite fold_left_flat_map.
  rewrite (fold_left_single _ (range iim) i);
    [| apply NoDup_range | apply in_range; exact Hi |].
  - rewrite fold_left_map.
    destruct (span_start j L ltac:(lia) HL) as (Hspan & Hrem & Hpos).
    cbv zeta in Hspan, Hrem, Hpos.
    rewrite (fold_left_single _ (range_step iin L) (Z.quot j L * L));
      [| now apply NoDup_range_step
       | apply range_step_in; [exact HL | split; [lia | exact Hrem]] |].
    + unfold c_step, idx, in_span, covers. rewrite !Z.eqb_refl.
      destruct (Z.leb_spec (Z.quot j L * L) j); [|lia].
      destruct (Z.ltb_spec j (Z.quot j L * L + L)); [|lia].
      cbn [andb]. unfold append_slot. destruct st as [l|]; [|reflexivity].
      cbn [span_element last].
      replace (Z.quot j L * L + (j - Z.quot j L * L)) with j by lia.
      reflexivity.
    + intros lno s' Hlno Hne. apply range_step_in in Hlno as [Hl Hr]; [|exact HL].
      unfold c_step, idx, in_span, covers. rewrite !Z.eqb_refl. cbn [andb].
      destruct (Z.leb_spec lno j); [|reflexivity].
      destruct (Z.ltb_spec j (lno + L)); [|reflexivity].
      exfalso. apply Hne. apply span_unique; lia.
  - intros lmo s' Hlmo Hne. rewrite fold_left_map.
    apply fold_left_id. intros lno s'' _.
    unfold c_step, idx, in_span. rewrite !Z.eqb_refl.
    destruct (Z.eqb_spec i lmo); [congruence | reflexivity].
Qed.

(** All the slots of a tile, in order. *)
Lemma tile_adds (K : Z) (l0 : list (list Z)) :
  fold_left (c_step g idx)
    (flat_map (fun lks =>
       flat_map (fun lmo =>
         map (fun lno => add_assign [X; Y; lmo; lno] [lks; X; Y; lmo; lno] L)
           (range_step iin L)) (range iim)) (range K)) (Some l0)
  = Some (l0 ++ map (fun lks => lks :: idx) (range K)).
Proof.
  rewrite fold_left_flat_map.
  rewrite (fold_left_ext_in _ (append_slot idx))
    by (intros; apply tile_slot_adds).
  apply fold_left_slots.
Qed.

(** The events of another tile leave the element alone. *)
Lemma other_tile_events (X' Y' K : Z) (dt : sc_data_etype) (fusion : bool)
  (st : option (list (list Z))) :
  X' <> X \/ Y' <> Y ->
  fold_left (c_step g idx)
    (mem_zero [X'; Y'; 0; 0] (iim * iin) dt
     :: flat_map (fun lks =>
          flat_map (fun lmo =>
            map (fun lno =>
              add_assign [X'; Y'; lmo; lno] [lks; X'; Y'; lmo; lno] L)
              (range_step iin L)) (range iim)) (range K)
     ++ (if fusion
         then [output_fusion_anchor at_reduce_tile
                 [(X', 1); (Y', 1); (0, iim); (0, iin)]]
         else [])) st
  = st.
Proof.
  intros Hne.
  assert (Hxy : (X =? X') && (Y =? Y') = false).
  { destruct (Z.eqb_spec X X'), (Z.eqb_spec Y Y'); try reflexivity.
    exfalso. destruct Hne; congruence. }
  apply fold_left_id. intros ev s' [<-|Hev].
  - unfold c_step, zero_covers, idx. now rewrite Hxy.
  - apply in_app_or in Hev as [Hev|Hev].
    + apply in_flat_map in Hev as (lks & _ & Hev).
      apply in_flat_map in Hev as (lmo & _ & Hev).
      apply in_map_iff in Hev as (lno & <- & _).
      unfold c_step, idx, in_span.
      destruct (X =? X'); [|reflexivity]. simpl in Hxy. now rewrite Hxy.
    + destruct fusion; [|contradiction]. destruct Hev as [<-|[]]. reflexivity.
Qed.

(** The events of the tile of the element: it is set to zero, then every
    slot is added. *)
Lemma own_tile_events (K : Z) (dt : sc_data_etype) (fusion : bool)
  (st : option (list (list Z))) :
  fold_left (c_step g idx)
    (mem_zero [X; Y; 0; 0] (iim * iin) dt
     :: flat_map (fun lks =>
          flat_map (fun lmo =>
            map (fun lno =>
              add_assign [X; Y; lmo; lno] [lks; X; Y; lmo; lno] L)
              (range_step iin L)) (range iim)) (range K)
     ++ (if fusion
         then [output_fusion_anchor at_reduce_tile
                 [(X, 1); (Y, 1); (0, iim); (0, iin)]]
         else [])) st
  = Some (map (fun lks => lks :: idx) (range K)).
Proof.
  cbn [fold_left].
  assert (Hz : c_step g idx st (mem_zero [X; Y; 0; 0] (iim * iin) dt) = Some []).
  { unfold c_step, zero_covers, idx, covers. rewrite !Z.eqb_refl.
    fold iin.
    destruct (Z.leb_spec 0 j); [|lia].
    destruct (Z.ltb_spec j (0 + iin)); [|lia].
    destruct (Z.leb_spec (0 * iin + 0) (i * iin + j)); [|nia].
    destruct (Z.ltb_spec (i * iin + j) (0 * iin + 0 + iim * iin)); [|nia].
    reflexivity. }
  rewrite Hz, fold_left_app, tile_adds. cbn [app].
  destruct fusion; reflexivity.
Qed.

End BlockedReduction.

Lemma tile_of_index (LN d r k : Z) :
  0 < LN -> 0 <= r < LN -> 0 <= d -> 0 <= k ->
  (Z.quot k LN = d /\ Z.rem k LN = r) <-> k = d * LN + r.
Proof.
  intros HLN Hr Hd Hk. split.
  - intros [<- <-]. pose proof (Z.quot_rem' k LN). lia.
  - intros ->. split.
    + symmetry. apply (Z.quot_unique (d * LN + r) LN d r); lia.
    + symmetry. apply (Z.rem_unique (d * LN + r) LN d r); lia.
Qed.

Section ReducePhase.

Variable g : gen_managed_matmul_core_t.
Variable v : Z.
Variable config : managed_matmul_core_config_t.
Variable fusion : bool.
Variable e : extents.
Variables m_s n_s : Z.

Let iim := iim_block_ g.
Let iin := iin_block_ g.
Let bm := m_partition g config e m_s.
Let bn := n_partition g config e n_s.

Hypothesis Him : 0 < iim.
Hypothesis Hin : 0 < iin.
Hypothesis Hlanes : 0 < lanes g v.
Hypothesis HsM : 0 <= b_start bm.
Hypothesis HsN : 0 <= b_start bn.
Hypothesis HlM : 1 <= b_length bm.
Hypothesis HlN : 1 <= b_length bn.
Hypothesis HeM : b_start bm * iim < e_M e.
Hypothesis HeN : b_start bn * iin < e_N e.

Lemma reduce_phase_blocked (X Y i j : Z) (st : option (list (list Z))) :
  is_blocking (out_tensors_0 g) = true ->
  in_slice [X; Y; i; j] (thread_region g config e m_s n_s) = true ->
  fold_left (c_step g [X; Y; i; j]) (reduce_phase g v config fusion e m_s n_s) st
  = Some (map (fun lks => lks :: [X; Y; i; j]) (range (K_real_split g e))).
Proof.
  intros Hb Hin_region.
  unfold thread_region in Hin_region. rewrite Hb in Hin_region.
  fold bm bn iim iin in Hin_region. cbn [in_slice] in Hin_region.
  unfold covers in Hin_region.
  repeat (apply andb_prop in Hin_region as [?H Hin_region]).
  repeat match goal with
  | H : (_ <=? _) = true |- _ => apply Z.leb_le in H
  | H : (_ <? _) = true |- _ => apply Z.ltb_lt in H
  end.
  unfold reduce_phase. rewrite Hb.
  fold bm bn iim iin.
  replace ((b_start bm * iim <? e_M e) && (b_start bn * iin <? e_N e))
    with true
    by (symmetry; apply andb_true_iff; split; apply Z.ltb_lt; assumption).
  rewrite !Z.quot_mul by lia.
  rewrite !divide_and_ceil_mul by lia.
  rewrite fold_left_flat_map.
  set (k0 := (X - b_start bm) * b_length bn + (Y - b_start bn)).
  assert (Hk0 : 0 <= k0 < b_length bm * b_length bn) by (subst k0; nia).
  destruct (proj2 (tile_of_index (b_length bn) (X - b_start bm)
                     (Y - b_start bn) k0 ltac:(lia) ltac:(lia) ltac:(lia)
                     ltac:(lia)) eq_refl) as [Eq Er].
  rewrite (fold_left_single _ (range (b_length bm * b_length bn)) k0);
    [| apply NoDup_range | apply in_range; exact Hk0 |].
  - rewrite Eq, Er.
    replace (b_start bm + (X - b_start bm)) with X by lia.
    replace (b_start bn + (Y - b_start bn)) with Y by lia.
    apply own_tile_events; unfold iim, iin in *; lia.
  - intros k s' Hk Hne. apply in_range in Hk.
    apply other_tile_events.
    destruct (Z.eq_dec (b_start bm + Z.quot k (b_length bn)) X) as [EX|]; [|tauto].
    destruct (Z.eq_dec (b_start bn + Z.rem k (b_length bn)) Y) as [EY|]; [|tauto].
    exfalso. apply Hne. subst k0.
    apply (tile_of_index (b_length bn) (X - b_start bm) (Y - b_start bn) k);
      try lia.
Qed.

End ReducePhase.

Lemma thread_anchor_c_step (g : gen_managed_matmul_core_t) (e : extents)
  (m_s n_s m_idx n_idx : Z) (idx : list Z) (st : option (list (list Z))) :
  fold_left (c_step g idx) (thread_anchor g e m_s n_s m_idx n_idx) st = st.
Proof.
  apply fold_left_id. intros ev s' H. unfold thread_anchor in H.
  repeat match type of H with
  | In _ (if ?c then _ else _) => destruct c
  | In _ (let _ := _ in _) => cbv zeta in H
  end;
  repeat match type of H with
  | In _ [] => contradiction
  | In _ (_ :: _) => destruct H as [<-|H]
  end; reflexivity.
Qed.

Lemma rem_of_multiples (a b L : Z) :
  0 < L -> Z.rem a L = 0 -> Z.rem b L = 0 -> Z.rem (a - b) L = 0.
Proof.
  intros HL Ha Hb.
  pose proof (Z.quot_rem' a L) as Qa. pose proof (Z.quot_rem' b L) as Qb.
  rewrite Ha in Qa. rewrite Hb in Qb.
  replace (a - b) with ((Z.quot a L - Z.quot b L) * L) by lia.
  apply Z.rem_mul. lia.
Qed.

Lemma rem_of_product (a b L : Z) :
  0 < L -> Z.rem b L = 0 -> Z.rem (a * b) L = 0.
Proof.
  intros HL Hb. pose proof (Z.quot_rem' b L) as Qb. rewrite Hb in Qb.
  replace (a * b) with (a * Z.quot b L * L) by lia.
  apply Z.rem_mul. lia.
Qed.

Section PlainReducePhase.

Variable g : gen_managed_matmul_core_t.
Variable v : Z.
Variable config : managed_matmul_core_config_t.
Variable fusion : bool.
Variable e : extents.
Variables m_s n_s : Z.

Let iim := iim_block_ g.
Let iin := iin_block_ g.
Let bm := m_partition g config e m_s.
Let bn := n_partition g config e n_s.

Hypothesis Him : 0 < iim.
Hypothesis Hin : 0 < iin.
Hypothesis Hlanes : 0 < lanes g v.
Hypothesis Hdiv : Z.rem iin (lanes g v) = 0.
Hypothesis HsM : 0 <= b_start bm.
Hypothesis HsN : 0 <= b_start bn.
Hypothesis HlM : 1 <= b_length bm.
Hypothesis HlN : 1 <= b_length bn.
Hypothesis HeM : b_start bm * iim < e_M e.
Hypothesis HeN : b_start bn * iin < e_N e.

Lemma reduce_phase_plain (x y : Z) (st : option (list (list Z))) :
  is_blocking (out_tensors_0 g) = false ->
  in_slice [x; y] (thread_region g config e m_s n_s) = true ->
  fold_left (c_step g [x; y]) (reduce_phase g v config fusion e m_s n_s) st
  = Some (map (fun lks => lks :: [x; y]) (range (e_K_split_num e))).
Proof.
  intros Hb Hin_region.
  unfold thread_region in Hin_region. rewrite Hb in Hin_region.
  fold bm bn iim iin in Hin_region. cbn [in_slice] in Hin_region.
  unfold covers in Hin_region.
  repeat (apply andb_prop in Hin_region as [?H Hin_region]).
  repeat match goal with
  | H : (_ <=? _) = true |- _ => apply Z.leb_le in H
  | H : (_ <? _) = true |- _ => apply Z.ltb_lt in H
  end.
  unfold reduce_phase. rewrite Hb.
  fold bm bn iim iin.
  replace ((b_start bm * iim <? e_M e) && (b_start bn * iin <? e_N e))
    with true
    by (symmetry; apply andb_true_iff; split; apply Z.ltb_lt; assumption).
  set (L := lanes g v) in *.
  set (m_idx := b_start bm * iim) in *.
  set (n_idx := b_start bn * iin) in *.
  set (Ms := b_length bm * iim) in *.
  set (Ns := b_length bn * iin) in *.
  assert (HMs : 0 < Ms) by (subst Ms; nia).
  assert (HNs : 0 < Ns) by (subst Ns; nia).
  assert (HNsL : Z.rem Ns L = 0) by (subst Ns; now apply rem_of_product).
  rewrite !fold_left_app.
  (* the whole region is set to zero first *)
  assert (Hz : fold_left (c_step g [x; y])
                 [dnnl_brgemm_init [m_idx; n_idx] Ms Ns (e_N e) (out_dtype g) 0]
                 st = Some []).
  { cbn [fold_left c_step zero_covers]. unfold covers.
    destruct (Z.leb_spec m_idx x); [|lia].
    destruct (Z.ltb_spec x (m_idx + Ms)); [|lia].
    destruct (Z.leb_spec n_idx y); [|lia].
    destruct (Z.ltb_spec y (n_idx + Ns)); [|lia].
    reflexivity. }
  rewrite Hz. clear Hz.
  (* the anchors do not touch C *)
  assert (Ha : forall s, fold_left (c_step g [x; y])
                 (if fusion then thread_anchor g e m_s n_s m_idx n_idx else []) s
               = s).
  { intros s. destruct fusion; [apply thread_anchor_c_step | reflexivity]. }
  rewrite Ha. clear Ha.
  rewrite fold_left_flat_map.
  destruct (span_start (y - n_idx) L ltac:(lia) Hlanes) as (Hspan & Hrem & Hpos).
  cbv zeta in Hspan, Hrem, Hpos.
  set (lnq := Z.quot (y - n_idx) L * L) in *.
  set (k0 := (x - m_idx) * Ns + lnq).
  assert (Hk0 : 0 <= k0 < Ms * Ns) by (subst k0; nia).
  assert (Hk0L : Z.rem k0 L = 0).
  { subst k0.
    replace ((x - m_idx) * Ns + lnq) with ((x - m_idx) * Ns - (- lnq)) by lia.
    apply rem_of_multiples; [exact Hlanes | now apply rem_of_product |].
    rewrite Z.rem_opp_l by lia. rewrite Hrem. reflexivity. }
  destruct (proj2 (tile_of_index Ns (x - m_idx) lnq k0 HNs ltac:(lia)
                     ltac:(lia) ltac:(lia)) eq_refl) as [Eq Er].
  rewrite (fold_left_single _ (range_step (Ms * Ns) L) k0);
    [| now apply NoDup_range_step
     | apply range_step_in; [exact Hlanes | split; assumption] |].
  - rewrite Eq, Er. rewrite fold_left_flat_map.
    rewrite (fold_left_ext_in _ (append_slot [x; y])).
    + apply fold_left_slots.
    + intros lks s' _. cbn [fold_left c_step in_span]. unfold covers.
      replace (m_idx + (x - m_idx)) with x by lia.
      rewrite Z.eqb_refl.
      destruct (Z.leb_spec (n_idx + lnq) y); [|lia].
      destruct (Z.ltb_spec y (n_idx + lnq + L)); [|lia].
      cbn [andb]. unfold append_slot. destruct s' as [l|]; [|reflexivity].
      cbn [span_element last].
      replace (n_idx + lnq + (y - (n_idx + lnq))) with y by lia.
      reflexivity.
  - intros k s' Hk Hne. apply range_step_in in Hk as [Hk HkL]; [|exact Hlanes].
    rewrite fold_left_flat_map. apply fold_left_id. intros lks s'' _.
    cbn [fold_left c_step in_span]. unfold covers.
    destruct (Z.eqb_spec x (m_idx + Z.quot k Ns)) as [Ex|]; [|reflexivity].
    destruct (Z.leb_spec (n_idx + Z.rem k Ns) y); [|reflexivity].
    destruct (Z.ltb_spec y (n_idx + Z.rem k Ns + L)); [|reflexivity].
    exfalso. apply Hne.
    pose proof (Z.quot_rem' k Ns) as Qk.
    pose proof (Z.rem_bound_pos k Ns ltac:(lia) HNs) as Rk.
    assert (HrL : Z.rem (Z.rem k Ns) L = 0).
    { replace (Z.rem k Ns) with (k - Z.quot k Ns * Ns) by lia.
      apply rem_of_multiples; [exact Hlanes | exact HkL |].
      now apply rem_of_product. }
    assert (Z.rem k Ns = lnq).
    { subst lnq. apply span_unique; lia. }
    subst k0. nia.
Qed.

End PlainReducePhase.

Lemma partial_call_c_step (g : gen_managed_matmul_core_t)
  (config : managed_matmul_core_config_t) (dtype_block : Z) (fusion : bool)
  (Mi Ni : list Z) (a : call_args) (idx : list Z)
  (st : option (list (list Z))) :
  fold_left (c_step g idx)
    (matmul_loops g config tsr_out_tmp_buf dtype_block fusion Mi Ni true None a)
    st
  = st.
Proof.
  apply fold_left_id. intros ev s' H. unfold matmul_loops in H.
  apply in_flat_map in H as (m_b & _ & H).
  apply in_flat_map in H as (n_b & _ & H).
  rewrite app_nil_r in H.
  apply in_flat_map in H as (k_b & _ & H).
  assert (Hbody : forall m_o n_o,
            In ev (block_body g config tsr_out_tmp_buf dtype_block fusion true a
                     (b_start (get_balance211_length (Z.quot (a_M a) (iim_block_ g))
                                 (M_sub_block config) m_b))
                     (b_start (get_balance211_length (Z.quot (a_N a) (iin_block_ g))
                                 (N_sub_block config) n_b))
                     (b_length (get_balance211_length (Z.quot (a_M a) (iim_block_ g))
                                  (M_sub_block config) m_b))
                     (b_length (get_balance211_length (Z.quot (a_N a) (iin_block_ g))
                                  (N_sub_block config) n_b))
                     k_b m_o n_o) ->
            c_step g idx s' ev = s').
  { intros m_o n_o Hev. unfold block_body in Hev.
    rewrite andb_false_r in Hev. destruct Hev as [<-|[]]. reflexivity. }
  destruct (im_loop_order config =? 1);
    apply in_flat_map in H as (o1 & _ & H);
    apply in_flat_map in H as (o2 & _ & H);
    eapply Hbody; eassumption.
Qed.

Lemma generate_K_split_inv (g : gen_managed_matmul_core_t) (ctx : context_t)
  (v : Z) (config : managed_matmul_core_config_t) (fusion : bool) (e : extents)
  (p : loop_plan) :
  block_extents g ctx config = Ok e ->
  e_K_split_num e <> 1 ->
  generate g ctx v config fusion = Ok p ->
  p = mk_plan
        (Some (out_dtype g, K_real_split g e :: blocking_dims (out_tensors_0 g)))
        (Z.min (divide_and_ceil (e_M e) (iim_block_ g)) (M_split_num config))
        (Z.min (divide_and_ceil (e_N e) (iin_block_ g)) (N_split_num config))
        (body_K_split g v config fusion e
           (matmul_loops g config tsr_out_tmp_buf (get_dtype_block g) fusion
              (M_anchor_info e) (N_anchor_info e) true None))
        (m_split_anchor g config fusion e).
Proof.
  intros Ee EK H. unfold generate in H. rewrite Ee in H. cbn [bind] in H.
  unfold generate_plan in H.
  apply bind_inv in H as ([] & _ & H).
  apply bind_inv in H as ([] & _ & H).
  destruct (Z.eqb_spec (e_K_split_num e) 1) as [|_]; [contradiction|].
  apply bind_inv in H as (call & Ecall & H). apply Ok_inj in H.
  unfold single_thread_matmul_call in Ecall.
  rewrite andb_false_r in Ecall. apply Ok_inj in Ecall. now subst.
Qed.

Lemma ceil_of_blocks_pos (Xb block : Z) :
  0 < block -> 1 <= divide_and_ceil (Xb * block) block -> 1 <= Xb.
Proof.
  intros Hb H. unfold divide_and_ceil in H.
  Z.to_euclidean_division_equations. nia.
Qed.

Lemma ceil_of_blocks_lower (Xb block : Z) :
  0 < block -> Xb <= divide_and_ceil (Xb * block) block.
Proof.
  intros Hb. unfold divide_and_ceil.
  Z.to_euclidean_division_equations. nia.
Qed.

Lemma in_slice_4 (idx : list Z) (r1 r2 r3 r4 : Z * Z) :
  in_slice idx [r1; r2; r3; r4] = true ->
  exists X Y i j, idx = [X; Y; i; j].
Proof.
  destruct idx as [|X [|Y [|i [|j [|? ?]]]]]; destruct r1, r2, r3, r4; simpl;
    rewrite ?andb_false_r; try discriminate.
  intros _. now exists X, Y, i, j.
Qed.

Lemma in_slice_2 (idx : list Z) (r1 r2 : Z * Z) :
  in_slice idx [r1; r2] = true -> exists x y, idx = [x; y].
Proof.
  destruct idx as [|x [|y [|? ?]]]; destruct r1, r2; simpl;
    rewrite ?andb_false_r; try discriminate.
  intros _. now exists x, y.
Qed.

(** C5, as the code has it.  In a plan with K split the temporary tensor has
    [K_real_split = min(K / iik_block, K_split_num)] slots along its leading
    dimension, which is [K_split_num] when K has at least [K_split_num]
    blocks.  For a thread [(m_s, n_s)] of the decomposition and any element
    of its output region, what the body of the thread does to the element
    is: set it to zero, then add to it the elements at the same position of
    the slots [0, 1, ..., K_real_split - 1], in this order, and nothing
    else; this holds for a blocked C, and for a plain C when K has at least
    [K_split_num] blocks. *)
Theorem reduction_zeroes_then_adds_every_slot
  (g : gen_managed_matmul_core_t) (ctx : context_t) (v : Z)
  (config : managed_matmul_core_config_t) (fusion : bool) (e : extents)
  (p : loop_plan) (tid : Z -> Z -> Z -> Z) (m_s n_s : Z) :
  block_extents g ctx config = Ok e ->
  e_K_split_num e <> 1 ->
  generate g ctx v config fusion = Ok p ->
  0 < iim_block_ g -> 0 < iin_block_ g -> 0 < iik_block_ g ->
  0 < M_split_num config -> 0 < N_split_num config ->
  0 < lanes g v -> Z.rem (iin_block_ g) (lanes g v) = 0 ->
  0 <= m_s < M_real_split p -> 0 <= n_s < N_real_split p ->
  out_tmp_buf p
  = Some (out_dtype g, K_real_split g e :: blocking_dims (out_tensors_0 g))
  /\ K_real_split g e
     = Z.min (divide_and_ceil (e_K e) (iik_block_ g)) (e_K_split_num e)
  /\ (e_K_split_num e <= Z.quot (e_K e) (iik_block_ g) ->
      K_real_split g e = e_K_split_num e)
  /\ forall idx,
       in_slice idx (thread_region g config e m_s n_s) = true ->
       is_blocking (out_tensors_0 g) = true
       \/ e_K_split_num e <= Z.quot (e_K e) (iik_block_ g) ->
       c_state g idx (n_s_body p tid m_s n_s)
       = Some (map (fun lks => lks :: idx) (range (K_real_split g e))).
Proof.
  intros Ee EK Hgen Him Hin Hik HMs HNs HL Hdiv Hm Hn.
  rewrite (generate_K_split_inv g ctx v config fusion e p Ee EK Hgen) in *.
  destruct (block_extents_inv g ctx config e Ee) as (Mb & Nb & Kb & Hext).
  destruct Hext as (EM & EN & EKb & _).
  assert (HKreal : e_K_split_num e <= Z.quot (e_K e) (iik_block_ g) ->
            K_real_split g e = e_K_split_num e).
  { intros H. unfold K_real_split. rewrite EKb in *.
    rewrite Z.quot_mul in H by lia.
    pose proof (ceil_of_blocks_lower Kb (iik_block_ g) Hik). lia. }
  split; [reflexivity|]. split; [reflexivity|]. split; [exact HKreal|].
  cbn [M_real_split N_real_split n_s_body] in *.
  rewrite EM in Hm. rewrite EN in Hn.
  assert (HMb : 1 <= Mb) by (apply (ceil_of_blocks_pos Mb (iim_block_ g)); lia).
  assert (HNb : 1 <= Nb) by (apply (ceil_of_blocks_pos Nb (iin_block_ g)); lia).
  rewrite divide_and_ceil_mul in Hm, Hn by lia.
  pose proof (axis_thread Mb (iim_block_ g) (M_split_num config)
                ltac:(lia) Him HMs m_s Hm) as (_ & HlenM & HstM & HendM).
  pose proof (axis_thread Nb (iin_block_ g) (N_split_num config)
                ltac:(lia) Hin HNs n_s Hn) as (_ & HlenN & HstN & HendN).
  assert (EqM : Z.quot (e_M e) (iim_block_ g) = Mb)
    by (rewrite EM; apply Z.quot_mul; lia).
  assert (EqN : Z.quot (e_N e) (iin_block_ g) = Nb)
    by (rewrite EN; apply Z.quot_mul; lia).
  rewrite <- EqM in HlenM, HstM, HendM. rewrite <- EqN in HlenN, HstN, HendN.
  fold (m_partition g config e m_s) in HlenM, HstM, HendM.
  fold (n_partition g config e n_s) in HlenN, HstN, HendN.
  rewrite EqM in HendM. rewrite EqN in HendN.
  assert (HeM : b_start (m_partition g config e m_s) * iim_block_ g < e_M e)
    by (rewrite EM; nia).
  assert (HeN : b_start (n_partition g config e n_s) * iin_block_ g < e_N e)
    by (rewrite EN; nia).
  intros idx Hidx Hcase.
  unfold c_state, body_K_split. rewrite fold_left_app.
  rewrite fold_left_flat_map.
  rewrite (fold_left_id _ (range (K_real_split g e)))
    by (intros; apply partial_call_c_step).
  destruct (is_blocking (out_tensors_0 g)) eqn:Hb.
  - assert (Hshape : exists X Y i j, idx = [X; Y; i; j]).
    { unfold thread_region in Hidx. rewrite Hb in Hidx.
      eapply in_slice_4; eassumption. }
    destruct Hshape as (X & Y & i & j & ->).
    now apply reduce_phase_blocked.
  - assert (Hshape : exists x y, idx = [x; y]).
    { unfold thread_region in Hidx. rewrite Hb in Hidx.
      eapply in_slice_2; eassumption. }
    destruct Hshape as (x & y & ->).
    destruct Hcase as [|Hcase]; [discriminate|].
    rewrite (HKreal Hcase).
    now apply reduce_phase_plain.
Qed.

(** The claim for a blocked 32 x 32 output, K = 64, on two threads that
    split K only: the element [(3, 5)] of block [(0, 1)]. *)
Lemma reduction_zeroes_then_adds_every_slot_witness :
  exists p,
    generate (f32_gen true 32 64 32) (machine 2) 16 (mk_config 1 1 1 1 1 0) true
    = Ok p
    /\ out_tmp_buf p = Some (f32, [2; 2; 2; 16; 16])
    /\ c_state (f32_gen true 32 64 32) [0; 1; 3; 5]
         (n_s_body p (fun _ _ _ => 0) 0 0)
       = Some [[0; 0; 1; 3; 5]; [1; 0; 1; 3; 5]].
Proof.
  eexists. split; [reflexivity|].
  destruct (reduction_zeroes_then_adds_every_slot
              (f32_gen true 32 64 32) (machine 2) 16 (mk_config 1 1 1 1 1 0) true
              _ _ (fun _ _ _ => 0) 0 0 eq_refl
              ltac:(vm_compute; discriminate) eq_refl
              ltac:(simpl; lia) ltac:(simpl; lia) ltac:(simpl; lia)
              ltac:(simpl; lia) ltac:(simpl; lia)
              ltac:(vm_compute; reflexivity) ltac:(vm_compute; reflexivity)
              ltac:(vm_compute; split; congruence)
              ltac:(vm_compute; split; congruence))
    as (Hbuf & _ & _ & Hred).
  split; [exact Hbuf|].
  apply (Hred [0; 1; 3; 5]); [reflexivity | left; reflexivity].
Defined.

(** C5 as stated fails on a blocked 80 x 16 output, K = 16, on two threads
    that split K only: [K_split_num] is 2, K has one block, and the
    temporary tensor has one slot. *)
Lemma reduction_buffer_has_fewer_slots :
  exists p e,
    generate (f32_gen true 80 16 16) (machine 2) 16 (mk_config 1 1 1 1 1 0) true
    = Ok p
    /\ block_extents (f32_gen true 80 16 16) (machine 2) (mk_config 1 1 1 1 1 0)
       = Ok e
    /\ e_K_split_num e = 2
    /\ out_tmp_buf p = Some (f32, [1; 5; 1; 16; 16])
    /\ out_tmp_buf p <> Some (f32, [e_K_split_num e; 5; 1; 16; 16]).
Proof.
  eexists. eexists. split; [reflexivity|]. split; [reflexivity|].
  split; [reflexivity|]. split; [reflexivity|]. discriminate.
Qed.

(** The same plan for a plain C: the reduction loop runs over
    [K_split_num] slots, so it adds the slot 1 that the temporary tensor
    does not have. *)
Lemma plain_reduction_reads_missing_slot :
  exists p,
    generate (f32_gen false 80 16 16) (machine 2) 16 (mk_config 1 1 1 1 1 0) true
    = Ok p
    /\ out_tmp_buf p = Some (f32, [1; 80; 16])
    /\ c_state (f32_gen false 80 16 16) [0; 0] (n_s_body p (fun _ _ _ => 0) 0 0)
       = Some [[0; 0; 0]; [1; 0; 0]].
Proof.
  eexists. split; [reflexivity|]. split; reflexivity.
Qed.

(** * Further properties *)

(** ** Divisors: get_splits *)

Lemma StronglySorted_filter {A : Type} (R : A -> A -> Prop) (f : A -> bool)
  (l : list A) : StronglySorted R l -> StronglySorted R (filter f l).
Proof.
  induction 1 as [|a l Hs IH Ha]; simpl; [constructor|].
  destruct (f a); [|assumption].
  constructor; [assumption|].
  apply Forall_forall. intros x Hx. apply filter_In in Hx as (Hx & _).
  rewrite Forall_forall in Ha. now apply Ha.
Qed.

Lemma StronglySorted_seq (start len : nat) : StronglySorted lt (seq start len).
Proof.
  revert start. induction len as [|len IH]; intros start; simpl; constructor.
  - apply IH.
  - apply Forall_forall. intros x Hx. apply in_seq in Hx. lia.
Qed.

Lemma StronglySorted_map {A B : Type} (R : A -> A -> Prop) (R' : B -> B -> Prop)
  (f : A -> B) (l : list A) :
  (forall x y, R x y -> R' (f x) (f y)) ->
  StronglySorted R l -> StronglySorted R' (map f l).
Proof.
  intros Hf. induction 1 as [|a l Hs IH Ha]; simpl; constructor; [assumption|].
  apply Forall_forall. intros y Hy. apply in_map_iff in Hy as (x & <- & Hx).
  rewrite Forall_forall in Ha. apply Hf. now apply Ha.
Qed.

Lemma get_splits_sorted (X : Z) : StronglySorted Z.lt (get_splits X).
Proof.
  unfold get_splits, range. apply StronglySorted_filter.
  apply (StronglySorted_map Z.lt); [intros x y H; lia|].
  apply (StronglySorted_map lt); [intros x y H; lia|].
  apply StronglySorted_seq.
Qed.

(** The head of the vector: [1], then the least divisor above [1]. *)
Lemma get_splits_head (X : Z) :
  2 <= X ->
  exists p rest, get_splits X = 1 :: p :: rest
    /\ 1 < p <= X /\ Z.rem X p = 0
    /\ (forall d, 1 < d -> Z.rem X d = 0 -> p <= d)
    /\ (rest = [] <-> p = X).
Proof.
  intros HX.
  pose proof (get_splits_sorted X) as Hs.
  pose proof (get_splits_two X HX) as Hlen.
  assert (H1 : In 1 (get_splits X)).
  { apply in_get_splits. rewrite Z.rem_1_r. lia. }
  assert (HXin : In X (get_splits X)).
  { apply in_get_splits. rewrite Z.rem_same by lia. lia. }
  destruct (get_splits X) as [|a [|p rest]] eqn:E; simpl in Hlen; try lia.
  assert (Hin : forall d, In d (a :: p :: rest) <-> 1 <= d <= X /\ Z.rem X d = 0).
  { intros d. rewrite <- E. apply in_get_splits. }
  apply StronglySorted_inv in Hs as (Hs & Ha).
  apply StronglySorted_inv in Hs as (Hs & Hp).
  rewrite Forall_forall in Ha, Hp.
  assert (Ea : a = 1).
  { destruct H1 as [H1|H1]; [assumption|]. apply Ha in H1.
    assert (1 <= a) by (apply (Hin a); now left). lia. }
  subst a.
  assert (Hp1 : 1 < p) by (apply Ha; now left).
  assert (Hpin : 1 <= p <= X /\ Z.rem X p = 0) by (apply Hin; right; now left).
  exists p, rest. split; [reflexivity|]. split; [lia|]. split; [tauto|]. split.
  - intros d Hd Hr.
    assert (HdX : d <= X).
    { apply Z.rem_divide in Hr; [|lia]. apply Z.divide_pos_le in Hr; lia. }
    assert (Hdin : In d (1 :: p :: rest)) by (apply Hin; lia).
    destruct Hdin as [Hd1|[Hdp|Hdr]]; [lia|lia|]. apply Hp in Hdr. lia.
  - split.
    + intros ->. destruct HXin as [HX1|[HXp|[]]]; [lia|assumption].
    + intros ->. destruct rest as [|r rest]; [reflexivity|].
      assert (X < r) by (apply Hp; now left).
      assert (r <= X) by (apply (Hin r); right; right; now left). lia.
Qed.

(** X1.  [get_splits(X)] holds exactly the divisors of [X] between [1] and
    [X], each once and in increasing order; it is empty for [X <= 0]. *)
Theorem get_splits_lists_divisors_in_order (X : Z) :
  (forall d, In d (get_splits X) <-> 1 <= d <= X /\ (d | X))
  /\ StronglySorted Z.lt (get_splits X)
  /\ (X <= 0 -> get_splits X = []).
Proof.
  split; [|split].
  - intros d. rewrite in_get_splits. split; intros (Hd & Hr); (split; [lia|]).
    + apply Z.rem_divide; [lia | assumption].
    + apply Z.rem_divide; [lia | assumption].
  - apply get_splits_sorted.
  - intros HX. unfold get_splits. now rewrite range_nonpos.
Qed.

(** X2.  For [X >= 2] the vector starts with [1] and its element of index 1
    ([possible_splits[1]], [.at(1)]) is the least divisor of [X] above [1];
    dividing [X] by it is exact, and the vector has more than two elements
    exactly when this divisor is not [X] itself, the quotient then lying
    between [2] and [X - 1]. *)
Theorem get_splits_second_is_least_divisor (X : Z) :
  2 <= X ->
  exists p,
    vector_at (get_splits X) 1 = Ok p
    /\ nth 0 (get_splits X) 0 = 1 /\ nth 1 (get_splits X) 0 = p
    /\ 1 < p <= X /\ (p | X)
    /\ (forall d, 1 < d -> (d | X) -> p <= d)
    /\ Z.quot X p * p = X
    /\ ((2 < List.length (get_splits X))%nat <-> p < X)
    /\ (p < X -> 2 <= Z.quot X p < X).
Proof.
  intros HX. destruct (get_splits_head X HX) as (p & rest & E & Hp & Hr & Hleast & Hrest).
  exists p. rewrite E. cbn [vector_at nth_error nth].
  assert (Hdiv : (p | X)) by (apply Z.rem_divide; [lia | assumption]).
  assert (Hq : Z.quot X p * p = X).
  { pose proof (Z.quot_rem' X p) as H. rewrite Hr in H. lia. }
  repeat split; try reflexivity; try lia; try assumption.
  - intros d Hd Hd'. apply Hleast; [assumption|]. apply Z.rem_divide; [lia | assumption].
  - cbn [List.length]. intros Hl. destruct rest; [simpl in Hl; lia|].
    destruct (Z.eq_dec p X) as [e|]; [|lia]. apply Hrest in e. discriminate.
  - intros Hl. destruct rest; [|simpl; lia].
    assert (p = X) by now apply Hrest. lia.
  - assert (0 < Z.quot X p) by nia. destruct (Z.eq_dec (Z.quot X p) 1); nia.
  - nia.
Qed.

(** The property on 12 = 2 * 6. *)
Lemma get_splits_second_is_least_divisor_witness :
  exists p, vector_at (get_splits 12) 1 = Ok p /\ Z.quot 12 p * p = 12.
Proof.
  destruct (get_splits_second_is_least_divisor 12 ltac:(lia))
    as (p & H1 & _ & _ & _ & _ & _ & H2 & _).
  exists p. split; assumption.
Defined.

(** ** Blocking sizes: suggest_aligned_block and the constructor *)

Lemma size_t_rnd_up_spec (a b : Z) :
  0 <= a -> 0 < b ->
  a <= size_t_rnd_up a b < a + b /\ (b | size_t_rnd_up a b).
Proof.
  intros Ha Hb. unfold size_t_rnd_up. rewrite Z.quot_div_nonneg by lia.
  pose proof (Z.div_mod (a + b - 1) b ltac:(lia)) as E.
  pose proof (Z.mod_pos_bound (a + b - 1) b Hb) as Hm.
  split; [nia|]. now exists ((a + b - 1) / b).
Qed.

Lemma ceil_count_le (X b n : Z) :
  0 <= X -> 0 < b -> X <= n * b -> Z.quot (X + b - 1) b <= n.
Proof.
  intros HX Hb Hn. rewrite Z.quot_div_nonneg by lia.
  pose proof (Z.div_mod (X + b - 1) b ltac:(lia)) as E.
  pose proof (Z.mod_pos_bound (X + b - 1) b Hb) as Hm.
  nia.
Qed.

Lemma ceil_count_covers (X b : Z) :
  0 <= X -> 0 < b -> X <= Z.quot (X + b - 1) b * b /\ 0 <= Z.quot (X + b - 1) b.
Proof.
  intros HX Hb. rewrite Z.quot_div_nonneg by lia.
  pose proof (Z.div_mod (X + b - 1) b ltac:(lia)) as E.
  pose proof (Z.mod_pos_bound (X + b - 1) b Hb) as Hm.
  split; [nia|]. apply Z.div_pos; lia.
Qed.

Lemma size_t_rnd_up_least (a b m : Z) :
  0 <= a -> 0 < b -> a <= m -> (b | m) -> size_t_rnd_up a b <= m.
Proof.
  intros Ha Hb Hm (k & ->). unfold size_t_rnd_up.
  pose proof (ceil_count_le a b k Ha Hb Hm). nia.
Qed.

Lemma size_t_rnd_up_mono (a a' b : Z) :
  0 <= a <= a' -> 0 < b -> size_t_rnd_up a b <= size_t_rnd_up a' b.
Proof.
  intros Ha Hb. destruct (size_t_rnd_up_spec a' b ltac:(lia) Hb) as (H & Hd).
  apply size_t_rnd_up_least; [lia | lia | lia | assumption].
Qed.

Lemma size_t_rnd_up_pos (a b : Z) : 1 <= a -> 0 < b -> b <= size_t_rnd_up a b.
Proof.
  intros Ha Hb. destruct (size_t_rnd_up_spec a b ltac:(lia) Hb) as (H & k & Hk).
  destruct H as (H & _). rewrite Hk in *.
  assert (1 <= k) by nia. nia.
Qed.

(** The third case of [suggest_aligned_block]: [plain_X] split evenly into
    as many blocks as the default block needs. *)
Lemma even_block_spec (X d : Z) :
  1 <= d -> d <= X ->
  let num := Z.quot (X + d - 1) d in
  let c := Z.quot (X + num - 1) num in
  1 <= num /\ 1 <= c <= d /\ X <= c * num.
Proof.
  intros Hd HX num c.
  destruct (ceil_count_covers X d ltac:(lia) ltac:(lia)) as (Hcov & _).
  fold num in Hcov.
  assert (Hnum : 1 <= num) by nia.
  destruct (ceil_count_covers X num ltac:(lia) ltac:(lia)) as (Hcov' & _).
  fold c in Hcov'.
  pose proof (ceil_count_le X num d ltac:(lia) ltac:(lia) ltac:(lia)) as Hc.
  fold c in Hc. split; [assumption|]. split; [nia | lia].
Qed.

Lemma suggest_aligned_block_covers (plain_X default_block min align : Z) :
  0 <= plain_X -> 1 <= default_block -> 1 <= min -> 1 <= align ->
  let b := suggest_aligned_block plain_X default_block min align in
  1 <= b /\ plain_X <= b * Z.quot (plain_X + default_block - 1) default_block.
Proof.
  intros HX Hd Hmin Halign b.
  unfold b, suggest_aligned_block.
  destruct (Z.ltb_spec plain_X default_block) as [Hlt|Hge].
  - assert (Hn : Z.quot (plain_X + default_block - 1) default_block
                 = if plain_X =? 0 then 0 else 1).
    { rewrite Z.quot_div_nonneg by lia. destruct (Z.eqb_spec plain_X 0).
      - apply Z.div_small. lia.
      - symmetry. apply (Z.div_unique _ _ 1 (plain_X - 1)); lia. }
    rewrite Hn.
    destruct (Z.leb_spec plain_X min); [destruct (Z.eqb_spec plain_X 0); lia|].
    destruct (Z.ltb_spec plain_X align).
    + destruct (size_t_rnd_up_spec plain_X min ltac:(lia) ltac:(lia)).
      destruct (Z.eqb_spec plain_X 0); lia.
    + destruct (size_t_rnd_up_spec plain_X align ltac:(lia) ltac:(lia)).
      destruct (Z.eqb_spec plain_X 0); lia.
  - destruct (ceil_count_covers plain_X default_block ltac:(lia) ltac:(lia))
      as (Hcov & Hn0).
    destruct (Z.eqb_spec (Z.rem plain_X default_block) 0) as [Hr|Hr].
    + destruct (size_t_rnd_up_spec default_block align ltac:(lia) ltac:(lia)).
      split; [lia | nia].
    + cbv zeta.
      destruct (even_block_spec plain_X default_block Hd Hge) as (Hnum & Hc & Hcov').
      cbv zeta in Hnum, Hc, Hcov'.
      destruct (size_t_rnd_up_spec
                  (Z.quot (plain_X + Z.quot (plain_X + default_block - 1) default_block - 1)
                     (Z.quot (plain_X + default_block - 1) default_block))
                  align ltac:(lia) ltac:(lia)).
      split; [lia | nia].
Qed.

Lemma suggest_aligned_block_divides (plain_X default_block min align : Z) :
  0 <= plain_X -> 1 <= default_block -> 1 <= min -> 1 <= align ->
  (min | align) ->
  let b := suggest_aligned_block plain_X default_block min align in
  (min | b) /\ (align <= plain_X \/ default_block <= plain_X -> (align | b)).
Proof.
  intros HX Hd Hmin Halign Hdiv b.
  assert (Hma : min <= align) by (apply Z.divide_pos_le; [lia | assumption]).
  unfold b, suggest_aligned_block.
  destruct (Z.ltb_spec plain_X default_block) as [Hlt|Hge].
  - destruct (Z.leb_spec plain_X min) as [Hle|Hgt].
    + split; [apply Z.divide_refl|].
      intros [H|H]; [|lia].
      assert (min = align) by lia. subst. apply Z.divide_refl.
    + destruct (Z.ltb_spec plain_X align) as [Hla|Hga].
      * destruct (size_t_rnd_up_spec plain_X min ltac:(lia) ltac:(lia)) as (_ & Hm).
        split; [assumption|]. intros [H|H]; lia.
      * destruct (size_t_rnd_up_spec plain_X align ltac:(lia) ltac:(lia)) as (_ & Hm).
        split; [now apply (Z.divide_trans _ align)|]. intros _; assumption.
  - destruct (Z.eqb_spec (Z.rem plain_X default_block) 0) as [Hr|Hr].
    + destruct (size_t_rnd_up_spec default_block align ltac:(lia) ltac:(lia)) as (_ & Hm).
      split; [now apply (Z.divide_trans _ align)|]. intros _; assumption.
    + cbv zeta.
      destruct (even_block_spec plain_X default_block Hd Hge) as (Hnum & Hc & Hcov').
      cbv zeta in Hnum, Hc, Hcov'.
      destruct (size_t_rnd_up_spec
                  (Z.quot (plain_X + Z.quot (plain_X + default_block - 1) default_block - 1)
                     (Z.quot (plain_X + default_block - 1) default_block))
                  align ltac:(lia) ltac:(lia)) as (_ & Hm).
      split; [now apply (Z.divide_trans _ align)|]. intros _; assumption.
Qed.

Lemma suggest_aligned_block_cap (plain_X default_block min align : Z) :
  0 <= plain_X -> 1 <= default_block -> 1 <= min -> 1 <= align ->
  (min | align) ->
  suggest_aligned_block plain_X default_block min align
  <= size_t_rnd_up default_block align.
Proof.
  intros HX Hd Hmin Halign Hdiv.
  assert (Hma : min <= align) by (apply Z.divide_pos_le; [lia | assumption]).
  pose proof (size_t_rnd_up_pos default_block align Hd ltac:(lia)) as Hcap.
  unfold suggest_aligned_block.
  destruct (Z.ltb_spec plain_X default_block) as [Hlt|Hge].
  - destruct (Z.leb_spec plain_X min) as [Hle|Hgt]; [lia|].
    destruct (Z.ltb_spec plain_X align) as [Hla|Hga].
    + transitivity align; [|assumption].
      apply size_t_rnd_up_least; [lia | lia | lia | assumption].
    + apply size_t_rnd_up_mono; lia.
  - destruct (Z.eqb_spec (Z.rem plain_X default_block) 0) as [Hr|Hr]; [lia|].
    cbv zeta.
    destruct (even_block_spec plain_X default_block Hd Hge) as (Hnum & Hc & Hcov').
    cbv zeta in Hnum, Hc, Hcov'.
    apply size_t_rnd_up_mono; lia.
Qed.

(** X3.  For a dimension [plain_X >= 0] and positive [default_block], [min]
    and [align], the suggested block is positive, and blocking [plain_X] by
    it takes no more blocks than blocking by [default_block]. *)
Theorem suggest_aligned_block_needs_no_more_blocks
  (plain_X default_block min align : Z) :
  0 <= plain_X -> 1 <= default_block -> 1 <= min -> 1 <= align ->
  let b := suggest_aligned_block plain_X default_block min align in
  1 <= b
  /\ Z.quot (plain_X + b - 1) b
     <= Z.quot (plain_X + default_block - 1) default_block
  /\ plain_X <= b * Z.quot (plain_X + default_block - 1) default_block.
Proof.
  intros HX Hd Hmin Halign b.
  destruct (suggest_aligned_block_covers plain_X default_block min align
              HX Hd Hmin Halign) as (Hb & Hcov).
  fold b in Hb, Hcov. split; [assumption|]. split; [|assumption].
  apply ceil_count_le; lia.
Qed.

(** The property on the block of a dimension of 100 with default block 64:
    two blocks of 50, rounded up to 64. *)
Lemma suggest_aligned_block_needs_no_more_blocks_witness :
  1 <= suggest_aligned_block 100 64 1 16
  /\ Z.quot (100 + suggest_aligned_block 100 64 1 16 - 1)
       (suggest_aligned_block 100 64 1 16) <= 2.
Proof.
  destruct (suggest_aligned_block_needs_no_more_blocks 100 64 1 16
              ltac:(lia) ltac:(lia) ltac:(lia) ltac:(lia)) as (H1 & H2 & _).
  split; [exact H1 | exact H2].
Defined.

(** X4.  When [min] divides [align], as at every call of the constructor,
    the suggested block is a multiple of [min], a multiple of [align] as
    soon as the dimension reaches [align] or [default_block], and never
    above [default_block] rounded up to [align]. *)
Theorem suggest_aligned_block_is_aligned (plain_X default_block min align : Z) :
  0 <= plain_X -> 1 <= default_block -> 1 <= min -> 1 <= align ->
  (min | align) ->
  let b := suggest_aligned_block plain_X default_block min align in
  (min | b)
  /\ (align <= plain_X \/ default_block <= plain_X -> (align | b))
  /\ b <= size_t_rnd_up default_block align.
Proof.
  intros HX Hd Hmin Halign Hdiv b.
  destruct (suggest_aligned_block_divides plain_X default_block min align
              HX Hd Hmin Halign Hdiv) as (H1 & H2).
  split; [exact H1|]. split; [exact H2|].
  now apply suggest_aligned_block_cap.
Qed.

(** The property on the block of K of an int8 matmul with K = 100. *)
Lemma suggest_aligned_block_is_aligned_witness :
  (4 | suggest_aligned_block 100 64 4 16)
  /\ (16 | suggest_aligned_block 100 64 4 16)
  /\ suggest_aligned_block 100 64 4 16 <= 64.
Proof.
  destruct (suggest_aligned_block_is_aligned 100 64 4 16
              ltac:(lia) ltac:(lia) ltac:(lia) ltac:(lia)
              (ex_intro _ 4 eq_refl)) as (H1 & H2 & H3).
  split; [exact H1|]. split; [apply H2; left; lia | exact H3].
Defined.

Lemma default_blocks_cases (t : sc_data_etype) :
  default_blocks t = (16, 16, 16) \/ default_blocks t = (32, 32, 32)
  \/ default_blocks t = (32, 64, 64).
Proof. destruct t; cbv; tauto. Qed.

Lemma make_gen_blocks (nt : Z) (A B C : logical_tensor_t) :
  let '(Md, Nd, Kd) := default_blocks (dtype_ A) in
  iim_block_ (make_gen nt A B C)
  = (if (dim B 1 <=? 512) && (dim A 1 <=? 512)
     then Z.max 4 (Z.min Md (Z.quot (dim A 0 + nt - 1) nt))
     else suggest_aligned_block (dim A 0) Md 1 1)
  /\ iin_block_ (make_gen nt A B C) = suggest_aligned_block (dim B 1) Nd 1 16
  /\ iik_block_ (make_gen nt A B C)
     = suggest_aligned_block (dim A 1) Kd (K_block_min (dtype_ A)) 16.
Proof.
  unfold make_gen, default_blocks, K_block_min.
  destruct (dtype_ A); cbn [etype_eqb iim_block_ iin_block_ iik_block_];
    repeat split; reflexivity.
Qed.

(** X5.  For dimensions [>= 0] the blocks the constructor chooses are
    positive and at most the default blocks of the element type of A; when
    [plain_N <= 512] and [plain_K <= 512] the block of M is at least 4. *)
Theorem constructor_blocks_within_defaults (num_threads : Z)
  (A B C : logical_tensor_t) :
  0 <= dim A 0 -> 0 <= dim A 1 -> 0 <= dim B 1 ->
  let g := make_gen num_threads A B C in
  let '(Md, Nd, Kd) := default_blocks (dtype_ A) in
  1 <= iim_block_ g <= Md /\ 1 <= iin_block_ g <= Nd /\ 1 <= iik_block_ g <= Kd
  /\ (dim B 1 <= 512 -> dim A 1 <= 512 -> 4 <= iim_block_ g).
Proof.
  intros HM HK HN g. unfold g.
  pose proof (make_gen_blocks num_threads A B C) as Hb.
  assert (Hmin : K_block_min (dtype_ A) = 1 \/ K_block_min (dtype_ A) = 2
                 \/ K_block_min (dtype_ A) = 4).
  { unfold K_block_min. destruct (dtype_ A); cbn; tauto. }
  assert (Hdiv : (K_block_min (dtype_ A) | 16)).
  { destruct Hmin as [->|[->| ->]]; [exists 16 | exists 8 | exists 4]; reflexivity. }
  assert (Hcap : forall d, d = 16 \/ d = 32 \/ d = 64 ->
            1 <= d /\ size_t_rnd_up d 16 = d /\ size_t_rnd_up d 1 = d).
  { intros d [->|[->| ->]]; cbv; repeat split; congruence. }
  assert (Hd : forall Md Nd Kd, default_blocks (dtype_ A) = (Md, Nd, Kd) ->
            (Md = 16 \/ Md = 32 \/ Md = 64) /\ (Nd = 16 \/ Nd = 32 \/ Nd = 64)
            /\ (Kd = 16 \/ Kd = 32 \/ Kd = 64)).
  { intros Md Nd Kd E.
    destruct (default_blocks_cases (dtype_ A)) as [E'|[E'|E']];
      rewrite E' in E; injection E as <- <- <-; lia. }
  destruct (default_blocks (dtype_ A)) as [[Md Nd] Kd].
  destruct (Hd Md Nd Kd eq_refl) as (HMd & HNd & HKd).
  destruct Hb as (-> & -> & ->).
  destruct (Hcap Md HMd) as (HMd1 & _ & HcM).
  destruct (Hcap Nd HNd) as (HNd1 & HcN & _).
  destruct (Hcap Kd HKd) as (HKd1 & HcK & _).
  pose proof (suggest_aligned_block_covers (dim B 1) Nd 1 16
                HN HNd1 ltac:(lia) ltac:(lia)) as HN1.
  pose proof (suggest_aligned_block_covers (dim A 1) Kd
                (K_block_min (dtype_ A)) 16 HK HKd1 ltac:(lia) ltac:(lia)) as HK1.
  pose proof (suggest_aligned_block_covers (dim A 0) Md 1 1
                HM HMd1 ltac:(lia) ltac:(lia)) as HM1.
  pose proof (suggest_aligned_block_cap (dim B 1) Nd 1 16
                HN HNd1 ltac:(lia) ltac:(lia) (Z.divide_1_l 16)) as HN2.
  pose proof (suggest_aligned_block_cap (dim A 1) Kd (K_block_min (dtype_ A)) 16
                HK HKd1 ltac:(lia) ltac:(lia) Hdiv) as HK2.
  pose proof (suggest_aligned_block_cap (dim A 0) Md 1 1
                HM HMd1 ltac:(lia) ltac:(lia) (Z.divide_refl 1)) as HM2.
  rewrite HcN in HN2. rewrite HcK in HK2. rewrite HcM in HM2.
  cbv zeta in HN1, HK1, HM1.
  split; [|split; [lia|split; [lia|]]].
  - destruct ((dim B 1 <=? 512) && (dim A 1 <=? 512)); lia.
  - intros H1 H2.
    replace ((dim B 1 <=? 512) && (dim A 1 <=? 512)) with true; [lia|].
    symmetry. apply andb_true_iff. split; apply Z.leb_le; assumption.
Qed.

(** The property on a bf16 matmul of 100 x 600 by 600 x 300 on 4 threads. *)
Lemma constructor_blocks_within_defaults_witness :
  1 <= iim_block_ (matmul_gen 4 100 600 300 bf16) <= 32
  /\ 1 <= iin_block_ (matmul_gen 4 100 600 300 bf16) <= 32
  /\ 1 <= iik_block_ (matmul_gen 4 100 600 300 bf16) <= 32.
Proof.
  destruct (constructor_blocks_within_defaults 4
              (tensor_2d false 100 600 bf16) (tensor_2d false 600 300 bf16)
              (tensor_2d false 100 300 bf16)
              ltac:(cbv; discriminate) ltac:(cbv; discriminate) ltac:(cbv; discriminate))
    as (H1 & H2 & H3 & _).
  split; [exact H1|]. split; [exact H2 | exact H3].
Defined.

(** X6.  The block of K is a multiple of the [min] passed for the element
    type of A (2 for bf16, 4 for the other types than f32), and the blocks
    of N and K are multiples of 16 as soon as the dimension reaches 16. *)
Theorem constructor_blocks_are_aligned (num_threads : Z)
  (A B C : logical_tensor_t) :
  0 <= dim A 1 -> 0 <= dim B 1 ->
  let g := make_gen num_threads A B C in
  (K_block_min (dtype_ A) | iik_block_ g)
  /\ (16 <= dim B 1 -> (16 | iin_block_ g))
  /\ (16 <= dim A 1 -> (16 | iik_block_ g)).
Proof.
  intros HK HN g. unfold g.
  pose proof (make_gen_blocks num_threads A B C) as Hb.
  assert (Hmin : K_block_min (dtype_ A) = 1 \/ K_block_min (dtype_ A) = 2
                 \/ K_block_min (dtype_ A) = 4).
  { unfold K_block_min. destruct (dtype_ A); cbn; tauto. }
  assert (Hdiv : (K_block_min (dtype_ A) | 16)).
  { destruct Hmin as [->|[->| ->]]; [exists 16 | exists 8 | exists 4]; reflexivity. }
  assert (Hd : forall Md Nd Kd, default_blocks (dtype_ A) = (Md, Nd, Kd) ->
            1 <= Nd /\ 1 <= Kd).
  { intros Md Nd Kd E.
    destruct (default_blocks_cases (dtype_ A)) as [E'|[E'|E']];
      rewrite E' in E; injection E as <- <- <-; lia. }
  destruct (default_blocks (dtype_ A)) as [[Md Nd] Kd].
  destruct (Hd Md Nd Kd eq_refl) as (HNd & HKd).
  destruct Hb as (_ & -> & ->).
  destruct (suggest_aligned_block_divides (dim B 1) Nd 1 16
              HN HNd ltac:(lia) ltac:(lia) (Z.divide_1_l 16)) as (_ & HN2).
  destruct (suggest_aligned_block_divides (dim A 1) Kd (K_block_min (dtype_ A)) 16
              HK HKd ltac:(lia) ltac:(lia) Hdiv) as (HK1 & HK2).
  split; [exact HK1|]. split; intros H; [apply HN2 | apply HK2]; now left.
Qed.

(** The property on an s8 matmul of 100 x 600 by 600 x 300. *)
Lemma constructor_blocks_are_aligned_witness :
  (4 | iik_block_ (matmul_gen 4 100 600 300 s8))
  /\ (16 | iin_block_ (matmul_gen 4 100 600 300 s8)).
Proof.
  destruct (constructor_blocks_are_aligned 4
              (tensor_2d false 100 600 s8) (tensor_2d false 600 300 s8)
              (tensor_2d false 100 300 s8)
              ltac:(cbv; discriminate) ltac:(cbv; discriminate))
    as (H1 & H2 & _).
  split; [exact H1 | apply H2; cbv; discriminate].
Defined.

(** ** The splits of the default configuration and the split of K *)

Lemma idle_threads_do_not_split_K (nt s : Z) :
  1 <= s <= nt -> Z.quot (Z.quot nt (Z.quot nt s)) s = 1.
Proof.
  intros Hs.
  assert (Hm : 1 <= Z.quot nt s /\ Z.quot nt s * s <= nt < (Z.quot nt s + 1) * s).
  { rewrite Z.quot_div_nonneg by lia.
    pose proof (Z.div_mod nt s ltac:(lia)). pose proof (Z.mod_pos_bound nt s ltac:(lia)).
    assert (1 <= nt / s) by (apply Z.div_le_lower_bound; lia). nia. }
  set (m := Z.quot nt s) in *.
  assert (Hq : Z.quot nt m * m <= nt < (Z.quot nt m + 1) * m).
  { rewrite Z.quot_div_nonneg by lia.
    pose proof (Z.div_mod nt m ltac:(lia)). pose proof (Z.mod_pos_bound nt m ltac:(lia)).
    nia. }
  set (q := Z.quot nt m) in *.
  assert (Hq1 : s <= q < 2 * s) by nia.
  rewrite Z.quot_div_nonneg by lia.
  symmetry. apply (Z.div_unique _ _ 1 (q - s)); lia.
Qed.

Lemma quot_quot_lower (nt a b p : Z) :
  1 <= a -> 1 <= b -> 0 <= p -> a * b * p <= nt ->
  p <= Z.quot (Z.quot nt a) b.
Proof.
  intros Ha Hb Hp H.
  assert (Hnt : 0 <= nt) by nia.
  rewrite (Z.quot_div_nonneg nt a) by lia.
  assert (0 <= nt / a) by (apply Z.div_pos; lia).
  rewrite Z.quot_div_nonneg by lia.
  apply Z.div_le_lower_bound; [lia|]. apply Z.div_le_lower_bound; [lia|]. nia.
Qed.

Lemma large_K_overrides (is_int8 : bool) (nt M N K split_n Ms Ns : Z) :
  1 <= split_n <= nt -> 8192 <= K ->
  split_overrides is_int8 nt M N K split_n = Ok (Ms, Ns) ->
  M < N \/ (2 < List.length (get_splits split_n))%nat ->
  1 <= Ms /\ 1 <= Ns /\ 2 <= Z.quot (Z.quot nt Ms) Ns.
Proof.
  intros Hs HK. unfold split_overrides.
  rewrite idiv_ok by lia. cbn [bind].
  pose proof (quot_bounds nt split_n Hs) as [HM0 HM0'].
  set (M0 := Z.quot nt split_n) in *.
  replace (K <=? 512) with false by (symmetry; apply Z.leb_gt; lia).
  replace (K <=? 192) with false by (symmetry; apply Z.leb_gt; lia).
  rewrite !andb_false_r.
  replace (K >=? 8192) with true by (symmetry; rewrite Z.geb_leb; apply Z.leb_le; lia).
  destruct (Z.ltb_spec M N) as [HMN|HMN].
  - intros H _. apply bind_inv in H as (shrink & Es & H).
    destruct shrink.
    + destruct (Z.ltb_spec 2 (Z.of_nat (List.length (get_splits M0))));
        [|discriminate].
      assert (HM2 : 2 <= M0).
      { destruct (Z.eq_dec M0 1) as [e|]; [|lia].
        rewrite e, get_splits_1 in *. simpl in *. lia. }
      destruct (get_splits_head M0 HM2) as (p & rest & E & Hp & Hr & _).
      rewrite E in H. cbn [nth] in H.
      rewrite idiv_ok in H by lia. injection H as <- <-.
      assert (Hq : Z.quot M0 p * p = M0).
      { pose proof (Z.quot_rem' M0 p) as Hqr. rewrite Hr in Hqr. lia. }
      assert (1 <= Z.quot M0 p) by nia.
      split; [assumption|]. split; [lia|].
      transitivity p; [lia|]. apply quot_quot_lower; first [lia | nia].
    + apply bind_inv in H as (Ksn & EK & H).
      unfold vector_at in EK.
      destruct (nth_error (get_splits nt) 1) as [d|] eqn:End; [|discriminate].
      injection EK as ->.
      assert (Hnt2 : 2 <= nt).
      { destruct (Z.eq_dec nt 1) as [e|]; [|lia].
        rewrite e, get_splits_1 in End. discriminate. }
      destruct (get_splits_head nt Hnt2) as (p & rest & E & Hp & Hr & _).
      rewrite E in End. injection End as ->.
      rewrite idiv_ok in H by lia. injection H as <- <-.
      assert (Hq : Z.quot nt Ksn * Ksn = nt).
      { pose proof (Z.quot_rem' nt Ksn) as Hqr. rewrite Hr in Hqr. lia. }
      assert (1 <= Z.quot nt Ksn) by nia.
      split; [lia|]. split; [assumption|].
      transitivity Ksn; [lia|]. apply quot_quot_lower; first [lia | nia].
  - intros H [HMN'|Hlen]; [lia|].
    replace (2 <? Z.of_nat (List.length (get_splits split_n))) with true in H
      by (symmetry; apply Z.ltb_lt; lia).
    assert (Hs2 : 2 <= split_n).
    { destruct (Z.eq_dec split_n 1) as [e|]; [|lia].
      rewrite e, get_splits_1 in Hlen. simpl in Hlen. lia. }
    destruct (get_splits_head split_n Hs2) as (p & rest & E & Hp & Hr & _).
    rewrite E in H. cbn [nth] in H.
    rewrite idiv_ok in H by lia. injection H as <- <-.
    assert (Hq : Z.quot split_n p * p = split_n).
    { pose proof (Z.quot_rem' split_n p) as Hqr. rewrite Hr in Hqr. lia. }
    assert (1 <= Z.quot split_n p) by nia.
    split; [lia|]. split; [assumption|].
    transitivity p; [lia|]. apply quot_quot_lower; first [lia | nia].
Qed.

Lemma block_extents_K_split_num (g : gen_managed_matmul_core_t) (ctx : context_t)
  (config : managed_matmul_core_config_t) (e : extents) :
  block_extents g ctx config = Ok e ->
  e_K_split_num e
  = Z.quot (Z.quot (get_num_threads ctx) (M_split_num config)) (N_split_num config).
Proof.
  intros H. apply block_extents_inv in H as (Mb & Nb & Kb & H).
  unfold extents_of_blocks in H. tauto.
Qed.

(** X8.  For [K >= 8192] (after rounding), the overrides leave threads for
    K whenever [M < N] or the searched [split_n] has more than two
    divisors: both splits are at least 1 and
    [num_threads / M_split_num / N_split_num], the [K_split_num] of
    [generate], is at least 2.  So when [M < N] every Config
    [get_default_config] returns makes [generate] split K. *)
Theorem large_K_default_config_splits_K (fp : Z -> Z -> Z -> Z)
  (g : gen_managed_matmul_core_t) (ctx : context_t) (M N K : Z) :
  let nt := get_num_threads ctx in
  let is_int8 := is_u8_or_s8 (get_A_dtype g) in
  1 <= nt ->
  rounded_M g = Ok M -> rounded_N g = Ok N -> rounded_K g = Ok K ->
  8192 <= K ->
  (forall split_n Ms Ns, 1 <= split_n <= nt ->
     split_overrides is_int8 nt M N K split_n = Ok (Ms, Ns) ->
     M < N \/ (2 < List.length (get_splits split_n))%nat ->
     1 <= Ms /\ 1 <= Ns /\ 2 <= Z.quot (Z.quot nt Ms) Ns)
  /\ (M < N ->
      forall cfg, get_default_config fp g ctx = Ok cfg ->
        2 <= Z.quot (Z.quot nt (M_split_num cfg)) (N_split_num cfg)
        /\ forall e, block_extents g ctx cfg = Ok e -> 2 <= e_K_split_num e).
Proof.
  intros nt is_int8 Hnt EM EN EK HK. split.
  - intros split_n Ms Ns Hs. now apply large_K_overrides.
  - intros HMN cfg H.
    apply get_default_config_inv in H
      as (M' & N' & K' & split_n & cost & EM' & EN' & EK' & ES & EO & _).
    rewrite EM in EM'. rewrite EN in EN'. rewrite EK in EK'.
    injection EM' as <-. injection EN' as <-. injection EK' as <-.
    apply cost_search_range in ES; [|assumption].
    destruct (large_K_overrides _ _ _ _ _ _ _ _ ES HK EO (or_introl HMN))
      as (_ & _ & H2).
    split; [exact H2|]. intros e He.
    rewrite (block_extents_K_split_num _ _ _ _ He). exact H2.
Qed.

(** The property on 8 threads: an f32 matmul of 64 x 8192 by 8192 x 512,
    whose default Config has the splits [(1, 4)]. *)
Lemma large_K_default_config_splits_K_witness :
  2 <= Z.quot (Z.quot 8 1) 4.
Proof.
  destruct (large_K_default_config_splits_K L2_MN_exact
              (matmul_gen 8 64 8192 512 f32) (machine 8) 64 512 8192
              ltac:(cbv; discriminate) eq_refl eq_refl eq_refl
              ltac:(lia)) as (_ & H2).
  exact (proj1 (H2 ltac:(lia) (mk_config 1 4 1 1 16 0)
                  ltac:(vm_compute; reflexivity))).
Defined.

Lemma small_K_overrides (is_int8 : bool) (nt M N K split_n Ms Ns : Z) :
  1 <= split_n <= nt -> K < 8192 ->
  split_overrides is_int8 nt M N K split_n = Ok (Ms, Ns) ->
  (Ms, Ns) = (nt, 1) \/ (Ms, Ns) = (Z.quot nt split_n, split_n).
Proof.
  intros Hs HK. unfold split_overrides.
  rewrite idiv_ok by lia. cbn [bind].
  destruct (is_int8 && (N <=? 512) && (K <=? 512)); [intros [= <- <-]; now left|].
  destruct ((N <=? 192) && (K <=? 192)); [intros [= <- <-]; now left|].
  replace (K >=? 8192) with false by (symmetry; rewrite Z.geb_leb; apply Z.leb_gt; lia).
  intros [= <- <-]; now right.
Qed.

(** X9.  For [K < 8192] (after rounding) every Config [get_default_config]
    returns has [num_threads / M_split_num / N_split_num = 1]: [generate]
    then does not split K, also when the searched [split_n] does not divide
    the thread count and [M_split_num * N_split_num] threads are fewer than
    [num_threads]. *)
Theorem default_config_splits_K_only_for_large_K (fp : Z -> Z -> Z -> Z)
  (g : gen_managed_matmul_core_t) (ctx : context_t) (K : Z)
  (cfg : managed_matmul_core_config_t) :
  let nt := get_num_threads ctx in
  1 <= nt -> rounded_K g = Ok K -> K < 8192 ->
  get_default_config fp g ctx = Ok cfg ->
  Z.quot (Z.quot nt (M_split_num cfg)) (N_split_num cfg) = 1
  /\ forall e, block_extents g ctx cfg = Ok e -> e_K_split_num e = 1.
Proof.
  intros nt Hnt EK HK H.
  apply get_default_config_inv in H
    as (M' & N' & K' & split_n & cost & _ & _ & EK' & ES & EO & _).
  rewrite EK in EK'. injection EK' as <-.
  apply cost_search_range in ES; [|assumption].
  assert (H1 : Z.quot (Z.quot nt (M_split_num cfg)) (N_split_num cfg) = 1).
  { destruct (small_K_overrides _ _ _ _ _ _ _ _ ES HK EO) as [E|E];
      injection E as -> ->.
    - rewrite Z.quot_same by lia. reflexivity.
    - apply idle_threads_do_not_split_K. exact ES. }
  split; [exact H1|]. intros e He.
  rewrite (block_extents_K_split_num _ _ _ _ He). exact H1.
Qed.

(** The property on 3 threads, where the search picks [split_n = 2]: an f32
    matmul of 16 x 1024 by 1024 x 32. *)
Lemma default_config_splits_K_only_for_large_K_witness :
  Z.quot (Z.quot 3 1) 2 = 1.
Proof.
  exact (proj1 (default_config_splits_K_only_for_large_K L2_MN_exact
                  (matmul_gen 3 16 1024 32 f32) (machine 3) 1024
                  (mk_config 1 2 1 1 2 0)
                  ltac:(cbv; discriminate) eq_refl ltac:(lia)
                  ltac:(vm_compute; reflexivity))).
Defined.

(** ** The default configuration of a small matmul *)

Lemma ceil_of_rounded (M b : Z) :
  0 < b -> 0 <= Z.quot M b -> Z.quot M b * b = M ->
  Z.quot (M + b - 1) b = Z.quot M b.
Proof.
  intros Hb Hq E. rewrite <- E at 1.
  apply (divide_and_ceil_mul (Z.quot M b) b); assumption.
Qed.

(** X7.  For [N <= 192] and [K <= 192] (after rounding), whatever the
    element type, positive dimensions and blocks and an L2 cache of at
    least [2 * sizeof(A) * K] bytes: [get_default_config] returns the Config
    that puts every thread on M, with [K_sub_block = 1] and, for
    [L2_MN = L2_size / (2 * sizeof(A) * K)], the sub-block counts
    [max(1, single_M / L2_MN)] and [max(1, N / L2_MN)]. *)
Theorem small_N_K_default_config (fp : Z -> Z -> Z -> Z)
  (g : gen_managed_matmul_core_t) (ctx : context_t) (M N K : Z) :
  let nt := get_num_threads ctx in
  let L2_MN :=
    Z.quot (getDCacheSize_2 ctx) (2 * get_sizeof_etype (get_A_dtype g) * K) in
  let single_M := divide_and_ceil (Z.quot M (iim_block_ g)) nt * iim_block_ g in
  1 <= nt -> 0 < iim_block_ g -> 0 < iin_block_ g -> 0 < iik_block_ g ->
  1 <= dim (in_tensors_0 g) 0 -> 1 <= dim (in_tensors_1 g) 1 ->
  1 <= dim (in_tensors_0 g) 1 ->
  rounded_M g = Ok M -> rounded_N g = Ok N -> rounded_K g = Ok K ->
  N <= 192 -> K <= 192 ->
  2 * get_sizeof_etype (get_A_dtype g) * K <= getDCacheSize_2 ctx ->
  get_default_config fp g ctx
  = Ok (mk_config nt 1 (Z.max 1 (Z.quot single_M L2_MN))
          (Z.max 1 (Z.quot N L2_MN)) 1 0).
Proof.
  intros nt L2_MN single_M Hnt Him Hin Hik HdM HdN HdK EM EN EK HN HK HL2.
  unfold get_default_config. rewrite EM, EN, EK. cbn [bind]. fold nt.
  unfold rounded_M, rounded_N, rounded_K in *.
  rewrite rnd_up_ok in EM, EN, EK by assumption.
  destruct (rnd_up_blocks _ _ HdM Him) as (HMb & HMq & _).
  destruct (rnd_up_blocks _ _ HdN Hin) as (HNb & HNq & _).
  destruct (rnd_up_blocks _ _ HdK Hik) as (_ & _ & HKp).
  cbv zeta in HMb, HMq, HNb, HNq, HKp.
  injection EM as EM. injection EN as EN. injection EK as EK.
  rewrite EM in HMb, HMq. rewrite EN in HNb, HNq. rewrite EK in HKp.
  destruct (cost_search_ok nt _ _ _ _ Him Hin HMb HNb) as ([split_n cost] & ES).
  rewrite ES. cbn [bind].
  pose proof (cost_search_range _ _ _ _ _ _ _ Hnt ES) as Hs.
  rewrite (split_overrides_small _ nt M N K split_n) by
    (try lia; right; apply andb_true_iff; split; apply Z.leb_le; lia).
  cbn [bind].
  unfold sub_block_sizing.
  rewrite (single_extent_ok M) by lia. cbn [bind].
  rewrite (single_extent_ok N) by lia. cbn [bind].
  fold (get_A_dtype g).
  rewrite single_K_threshold_ok. cbn [bind].
  pose proof (sizeof_pos (get_A_dtype g)) as Hsz.
  assert (Hthr : forall b : bool,
            K < Z.quot (if b then 2048 else 4096) (get_sizeof_etype (get_A_dtype g))).
  { intros b. pose proof (threshold_value b (get_A_dtype g)) as Ht.
    cbv zeta in Ht. lia. }
  rewrite Z.geb_leb.
  match goal with |- context [Z.leb ?t K] => destruct (Z.leb_spec t K) as [Hc|Hc] end.
  { exfalso. revert Hc.
    match goal with |- context [if ?b then 2048 else 4096] =>
      intros Hc; specialize (Hthr b); lia end. }
  assert (Hd : 0 < 2 * get_sizeof_etype (get_A_dtype g) * K) by nia.
  rewrite (idiv_ok (getDCacheSize_2 ctx)) by lia. cbn [bind].
  pose proof (quot_nonzero _ _ Hd HL2) as Hq. fold L2_MN in Hq |- *.
  rewrite (idiv_ok _ _ Hq). cbn [bind].
  rewrite (idiv_ok _ _ Hq). cbn [bind].
  rewrite (ceil_of_rounded M (iim_block_ g)) by (assumption || lia).
  rewrite (ceil_of_rounded N (iin_block_ g)) by (assumption || lia).
  replace (Z.quot N (iin_block_ g) + 1 - 1) with (Z.quot N (iin_block_ g)) by lia.
  rewrite Z.quot_1_r, HNq. reflexivity.
Qed.

(** The property on 8 threads: an f32 matmul of 64 x 100 by 100 x 100, of
    blocks 8, 16 and 16. *)
Lemma small_N_K_default_config_witness :
  get_default_config L2_MN_exact (matmul_gen 8 64 100 100 f32) (machine 8)
  = Ok (mk_config 8 1 1 1 1 0).
Proof.
  exact (small_N_K_default_config L2_MN_exact (matmul_gen 8 64 100 100 f32)
           (machine 8) 64 112 112
           ltac:(cbv; discriminate) ltac:(cbv; reflexivity)
           ltac:(cbv; reflexivity) ltac:(cbv; reflexivity)
           ltac:(cbv; discriminate) ltac:(cbv; discriminate)
           ltac:(cbv; discriminate) eq_refl eq_refl eq_refl
           ltac:(lia) ltac:(lia) ltac:(cbv; discriminate)).
Defined.

(** ** What generate does with a configuration *)

Lemma irem_ok (a b : Z) : b <> 0 -> irem a b = Ok (Z.rem a b).
Proof. intros H. unfold irem. now apply Z.eqb_neq in H as ->. Qed.

Lemma map_outcome_ok {A B : Type} (f : A -> outcome B) (l : list A) :
  (forall a, exists b, f a = Ok b) -> exists bs, map_outcome f l = Ok bs.
Proof.
  intros Hf. induction l as [|a l (bs & IH)]; simpl; [eauto|].
  destruct (Hf a) as (b & ->). cbn [bind]. rewrite IH. cbn [bind]. eauto.
Qed.

Lemma anchor_length_ok (blocking : bool) (X block sub i : Z) :
  block <> 0 -> sub <> 0 ->
  exists l, anchor_length blocking X block sub i = Ok l.
Proof.
  intros Hb Hs. unfold anchor_length. destruct blocking;
    repeat (first [rewrite idiv_ok by assumption | rewrite irem_ok by assumption];
            cbn [bind]); eauto.
Qed.

Lemma sub_block_anchor_shapes_ok (blocking : bool) (iim iin : Z)
  (config : managed_matmul_core_config_t) (Mi Ni : list Z) :
  iim <> 0 -> iin <> 0 -> M_sub_block config <> 0 -> N_sub_block config <> 0 ->
  exists s, sub_block_anchor_shapes blocking iim iin config Mi Ni = Ok s.
Proof.
  intros Him Hin HM HN. unfold sub_block_anchor_shapes.
  assert (He : exists even, no_imbalance iim iin config Mi Ni = Ok even).
  { unfold no_imbalance.
    destruct (negb (nth 1 Mi 0 =? nth 2 Mi 0)); [eauto|].
    destruct (negb (nth 1 Ni 0 =? nth 2 Ni 0)); [eauto|].
    rewrite idiv_ok by assumption. cbn [bind].
    rewrite irem_ok by assumption. cbn [bind].
    destruct (negb (Z.rem (Z.quot (nth 1 Mi 0) iim) (M_sub_block config) =? 0));
      [eauto|].
    rewrite idiv_ok by assumption. cbn [bind].
    rewrite irem_ok by assumption. cbn [bind]. eauto. }
  destruct He as (even & ->). cbn [bind]. destruct even.
  - destruct blocking;
      repeat (rewrite idiv_ok by assumption; cbn [bind]); eauto.
  - match goal with |- context [map_outcome ?f ?l] =>
      destruct (map_outcome_ok f l) as (t & ->) end; [|cbn [bind]; eauto].
    intros [[[p q] i] j].
    destruct (anchor_length_ok blocking (nth (p + 1) Mi 0) iim
                (M_sub_block config) i Him HM) as (lm & ->).
    destruct (anchor_length_ok blocking (nth (q + 1) Ni 0) iin
                (N_sub_block config) j Hin HN) as (ln & ->).
    cbn [bind]. eauto.
Qed.

Lemma single_thread_matmul_call_ok (g : gen_managed_matmul_core_t)
  (config : managed_matmul_core_config_t) (C : tensor_id) (dtype_block : Z)
  (fusion : bool) (Mi Ni : list Z) (is_partial : bool) :
  iim_block_ g <> 0 -> iin_block_ g <> 0 ->
  M_sub_block config <> 0 -> N_sub_block config <> 0 ->
  exists call,
    single_thread_matmul_call g config C dtype_block fusion Mi Ni is_partial
    = Ok call.
Proof.
  intros Him Hin HM HN. unfold single_thread_matmul_call.
  destruct (fusion && negb is_partial); [|eauto].
  destruct (sub_block_anchor_shapes_ok (is_blocking (out_tensors_0 g)) _ _
              config Mi Ni Him Hin HM HN) as (s & ->).
  cbn [bind]. eauto.
Qed.

Lemma block_sizes_ok (X block split : Z) :
  block <> 0 -> split <> 0 -> exists p, block_sizes X block split = Ok p.
Proof.
  intros Hb Hs. unfold block_sizes, utils_divide_and_ceil.
  repeat (rewrite idiv_ok by assumption; cbn [bind]). eauto.
Qed.

Lemma rnd_up_nonzero (d b : Z) : b <> 0 -> exists X, utils_rnd_up d b = Ok X.
Proof.
  intros Hb. unfold utils_rnd_up, utils_divide_and_ceil.
  rewrite idiv_ok by assumption. cbn [bind]. eauto.
Qed.

Lemma block_extents_ok (g : gen_managed_matmul_core_t) (ctx : context_t)
  (config : managed_matmul_core_config_t) :
  iim_block_ g <> 0 -> iin_block_ g <> 0 -> iik_block_ g <> 0 ->
  M_split_num config <> 0 -> N_split_num config <> 0 ->
  Z.quot (Z.quot (get_num_threads ctx) (M_split_num config)) (N_split_num config)
  <> 0 ->
  exists e, block_extents g ctx config = Ok e.
Proof.
  intros Him Hin Hik HM HN HK. unfold block_extents.
  rewrite idiv_ok by assumption. cbn [bind].
  rewrite idiv_ok by assumption. cbn [bind].
  destruct (rnd_up_nonzero (dim (in_tensors_0 g) 0) _ Him) as (M & ->). cbn [bind].
  destruct (rnd_up_nonzero (dim (in_tensors_0 g) 1) _ Hik) as (K & ->). cbn [bind].
  destruct (rnd_up_nonzero (dim (in_tensors_1 g) 1) _ Hin) as (N & ->). cbn [bind].
  destruct (block_sizes_ok M _ _ Him HM) as ([a b] & ->). cbn [bind].
  destruct (block_sizes_ok N _ _ Hin HN) as ([c d] & ->). cbn [bind].
  destruct (block_sizes_ok K _ _ Hik HK) as ([x y] & ->). cbn [bind].
  rewrite idiv_ok by assumption. cbn [bind].
  rewrite idiv_ok by assumption. cbn [bind]. eauto.
Qed.

Lemma generate_plan_ok_or_fatal (g : gen_managed_matmul_core_t) (v : Z)
  (config : managed_matmul_core_config_t) (fusion : bool) (e : extents) :
  iim_block_ g <> 0 -> iin_block_ g <> 0 ->
  M_sub_block config <> 0 -> N_sub_block config <> 0 ->
  (exists p, generate_plan g v config fusion e = Ok p)
  \/ (exists msg, In msg generate_messages
        /\ generate_plan g v config fusion e = Fatal msg).
Proof.
  intros Him Hin HM HN. unfold generate_plan, generate_messages.
  destruct (check_sub_blocks_spec g config e)
    as [[Ec _]|(msg & Hmsg & Ec & _)]; rewrite Ec; cbn [bind].
  2:{ right. exists msg. split; [apply in_or_app; now left | reflexivity]. }
  unfold check_B_format, COMPILE_ASSERT.
  assert (Hcall : forall C is_partial, exists call,
            single_thread_matmul_call g config C (get_dtype_block g) fusion
              (M_anchor_info e) (N_anchor_info e) is_partial = Ok call).
  { intros. now apply single_thread_matmul_call_ok. }
  assert (Hrest :
    exists p,
      (if e_K_split_num e =? 1
       then call <- single_thread_matmul_call g config tsr_C (get_dtype_block g)
                      fusion (M_anchor_info e) (N_anchor_info e) false ;;
            Ok (mk_plan None
                  (Z.min (divide_and_ceil (e_M e) (iim_block_ g)) (M_split_num config))
                  (Z.min (divide_and_ceil (e_N e) (iin_block_ g)) (N_split_num config))
                  (body_no_K_split g config fusion e call
                     (size_t_rnd_up (e_K e) (iik_block_ g)))
                  (m_split_anchor g config fusion e))
       else call <- single_thread_matmul_call g config tsr_out_tmp_buf
                      (get_dtype_block g) fusion (M_anchor_info e)
                      (N_anchor_info e) true ;;
            Ok (mk_plan
                  (Some (out_dtype g, K_real_split g e :: blocking_dims (out_tensors_0 g)))
                  (Z.min (divide_and_ceil (e_M e) (iim_block_ g)) (M_split_num config))
                  (Z.min (divide_and_ceil (e_N e) (iin_block_ g)) (N_split_num config))
                  (body_K_split g v config fusion e call)
                  (m_split_anchor g config fusion e))) = Ok p).
  { destruct (e_K_split_num e =? 1).
    - destruct (Hcall tsr_C false) as (call & ->). cbn [bind]. eauto.
    - destruct (Hcall tsr_out_tmp_buf true) as (call & ->). cbn [bind]. eauto. }
  destruct (1 <? get_dtype_block g); [|cbn [bind]; now left].
  destruct ((format_blocks_2 (in_tensors_1 g) =? -1)
            || (format_blocks_2 (in_tensors_1 g) =? get_dtype_block g));
    cbn [bind]; [now left|].
  right. eexists. split; [|reflexivity]. apply in_or_app. right. now left.
Qed.

(** X10.  With at least one thread, [generate] run on a Config returned by
    [get_default_config] for the same matmul either emits a plan or ends in
    one of its four fatal errors: none of its divisions (by a split, by
    [K_split_num], by a block or by a sub-block count) is by zero, and no
    vector access is out of range. *)
Theorem generate_is_defined_on_default_config (fp : Z -> Z -> Z -> Z)
  (g : gen_managed_matmul_core_t) (ctx : context_t) (v : Z) (fusion : bool)
  (cfg : managed_matmul_core_config_t) :
  1 <= get_num_threads ctx ->
  get_default_config fp g ctx = Ok cfg ->
  (exists p, generate g ctx v cfg fusion = Ok p)
  \/ (exists msg, In msg generate_messages
        /\ generate g ctx v cfg fusion = Fatal msg).
Proof.
  intros Hnt H.
  pose proof (get_default_config_split_bounds fp g ctx cfg Hnt H)
    as (HMs & HNs & Hprod).
  apply get_default_config_inv in H
    as (M & N & K & split_n & cost & EM & EN & EK & _ & _ & EZ & _).
  apply rnd_up_inv in EM as (Him & _).
  apply rnd_up_inv in EN as (Hin & _).
  apply rnd_up_inv in EK as (Hik & _).
  assert (Hsub : 1 <= M_sub_block cfg /\ 1 <= N_sub_block cfg).
  { unfold sub_block_sizing in EZ.
    apply bind_inv in EZ as (single_M & _ & EZ).
    apply bind_inv in EZ as (single_N & _ & EZ).
    apply bind_inv in EZ as (threshold & _ & EZ).
    destruct (K >=? threshold).
    - apply bind_inv in EZ as (K_sub & _ & EZ).
      apply bind_inv in EZ as (kb & _ & EZ).
      apply bind_inv in EZ as (l2k & _ & EZ).
      apply bind_inv in EZ as (m & _ & EZ).
      apply bind_inv in EZ as (n & _ & EZ).
      injection EZ as <- <- _. lia.
    - apply bind_inv in EZ as (L2_MN & _ & EZ).
      apply bind_inv in EZ as (m & _ & EZ).
      apply bind_inv in EZ as (n & _ & EZ).
      injection EZ as <- <- _. lia. }
  assert (HK : Z.quot (Z.quot (get_num_threads ctx) (M_split_num cfg))
                 (N_split_num cfg) <> 0).
  { pose proof (quot_quot_lower (get_num_threads ctx) (M_split_num cfg)
                  (N_split_num cfg) 1 HMs HNs ltac:(lia) ltac:(lia)). lia. }
  destruct (block_extents_ok g ctx cfg Him Hin Hik ltac:(lia) ltac:(lia) HK)
    as (e & Ee).
  unfold generate. rewrite Ee. cbn [bind].
  apply generate_plan_ok_or_fatal; lia.
Qed.

(** The property on 8 threads: the f32 matmul of 64 x 8192 by 8192 x 512
    and its default Config. *)
Lemma generate_is_defined_on_default_config_witness :
  (exists p, generate (matmul_gen 8 64 8192 512 f32) (machine 8) 16
               (mk_config 1 4 1 1 16 0) true = Ok p)
  \/ (exists msg, In msg generate_messages
        /\ generate (matmul_gen 8 64 8192 512 f32) (machine 8) 16
             (mk_config 1 4 1 1 16 0) true = Fatal msg).
Proof.
  exact (generate_is_defined_on_default_config L2_MN_exact
           (matmul_gen 8 64 8192 512 f32) (machine 8) 16 true
           (mk_config 1 4 1 1 16 0)
           ltac:(cbv; discriminate) ltac:(vm_compute; reflexivity)).
Defined.

Lemma block_extents_dims (g : gen_managed_matmul_core_t) (ctx : context_t)
  (config : managed_matmul_core_config_t) (e : extents) :
  block_extents g ctx config = Ok e ->
  rounded_M g = Ok (e_M e) /\ rounded_N g = Ok (e_N e)
  /\ rounded_K g = Ok (e_K e)
  /\ M_split_num config <> 0 /\ N_split_num config <> 0
  /\ e_K_split_num e <> 0.
Proof.
  unfold block_extents. intros H.
  apply bind_inv in H as (t & Et & H).
  apply bind_inv in H as (Ks & EKs & H).
  apply bind_inv in H as (M & EM & H).
  apply bind_inv in H as (K & EK & H).
  apply bind_inv in H as (N & EN & H).
  apply bind_inv in H as ([a b] & Ea & H).
  apply bind_inv in H as ([c d] & Ec & H).
  apply bind_inv in H as ([x y] & Ex & H).
  apply bind_inv in H as (mb & _ & H).
  apply bind_inv in H as (nb & _ & H).
  apply Ok_inj in H. subst e. cbn [e_M e_N e_K e_K_split_num].
  apply idiv_inv in Et as (HM & _). apply idiv_inv in EKs as (HN & _).
  apply block_sizes_inv in Ex as (_ & HK & _).
  unfold rounded_M, rounded_N, rounded_K. tauto.
Qed.

(** X11.  [get_default_config] sizes [K_sub_block] from the whole K, not
    from the share of K of one thread.  So for a Config it returns, with
    [threshold] the threshold on K it used: when the blocks of K of the
    smaller share, [K_ib_block_size / iik_block], times [threshold] are
    fewer than K, [K_sub_block = ceil(K / threshold)] exceeds them and
    [generate] rejects the Config with an error on the sub-block counts. *)
Theorem default_config_rejected_when_K_share_is_short (fp : Z -> Z -> Z -> Z)
  (g : gen_managed_matmul_core_t) (ctx : context_t) (v : Z) (fusion : bool)
  (cfg : managed_matmul_core_config_t) (e : extents) :
  let sA := get_sizeof_etype (get_A_dtype g) in
  let threshold :=
    Z.quot (if imul (imul (e_M_block_size e) (e_N_block_size e)) sA
               <? getDCacheSize_2 ctx
            then 2048 else 4096) sA in
  1 <= get_num_threads ctx ->
  0 < iim_block_ g -> 0 < iin_block_ g -> 0 < iik_block_ g ->
  1 <= dim (in_tensors_0 g) 0 -> 1 <= dim (in_tensors_1 g) 1 ->
  1 <= dim (in_tensors_0 g) 1 ->
  get_default_config fp g ctx = Ok cfg ->
  block_extents g ctx cfg = Ok e ->
  Z.quot (e_K_ib_block_size e) (iik_block_ g) * threshold < e_K e ->
  K_sub_block cfg = Z.quot (e_K e + threshold - 1) threshold
  /\ Z.quot (e_K_ib_block_size e) (iik_block_ g) < K_sub_block cfg
  /\ exists msg, In msg sub_block_messages
       /\ generate g ctx v cfg fusion = Fatal msg.
Proof.
  intros sA threshold Hnt Him Hin Hik HdM HdN HdK H Ee Hshort.
  pose proof (get_default_config_split_bounds fp g ctx cfg Hnt H)
    as (HMs1 & HNs1 & Hprod).
  assert (HKs1 : 1 <= e_K_split_num e).
  { rewrite (block_extents_K_split_num _ _ _ _ Ee).
    apply quot_quot_lower; lia. }
  apply get_default_config_inv in H
    as (M & N & K & split_n & cost & EM & EN & EK & _ & _ & EZ & _).
  destruct (block_extents_dims _ _ _ _ Ee) as (EM' & EN' & EK' & HMs & HNs & HKs).
  rewrite EM in EM'. rewrite EN in EN'. rewrite EK in EK'.
  apply Ok_inj in EM', EN', EK'. subst M N K.
  pose proof Ee as Hext.
  apply block_extents_inv in Hext as (Mb & Nb & Kb & Hext).
  destruct Hext as (HeM & HeN & HeK & _ & _ & HMbs & _ & _ & HNbs & _ & _ & _ & HKib).
  unfold rounded_M, rounded_N, rounded_K in EM, EN, EK.
  rewrite rnd_up_ok in EM, EN, EK by assumption.
  apply Ok_inj in EM, EN, EK.
  destruct (rnd_up_blocks _ _ HdM Him) as (HMb & HMq & _).
  destruct (rnd_up_blocks _ _ HdN Hin) as (HNb & HNq & _).
  destruct (rnd_up_blocks _ _ HdK Hik) as (HKb & HKq & _).
  cbv zeta in HMb, HMq, HNb, HNq, HKb, HKq.
  rewrite EM in HMb, HMq. rewrite EN in HNb, HNq. rewrite EK in HKb, HKq.
  assert (EMb : Z.quot (e_M e) (iim_block_ g) = Mb).
  { rewrite HeM. apply Z.quot_mul. lia. }
  assert (ENb : Z.quot (e_N e) (iin_block_ g) = Nb).
  { rewrite HeN. apply Z.quot_mul. lia. }
  assert (EKb : Z.quot (e_K e) (iik_block_ g) = Kb).
  { rewrite HeK. apply Z.quot_mul. lia. }
  rewrite EMb in *. rewrite ENb in *. rewrite EKb in *.
  (* the sizing *)
  unfold sub_block_sizing in EZ.
  unfold single_extent, utils_divide_and_ceil in EZ.
  rewrite (idiv_ok _ (iim_block_ g)) in EZ by lia. cbn [bind] in EZ.
  rewrite (idiv_ok _ (M_split_num cfg)) in EZ by assumption. cbn [bind] in EZ.
  rewrite (idiv_ok _ (iin_block_ g)) in EZ by lia. cbn [bind] in EZ.
  rewrite (idiv_ok _ (N_split_num cfg)) in EZ by assumption. cbn [bind] in EZ.
  rewrite (ceil_of_rounded (e_M e) (iim_block_ g)) in EZ by lia.
  rewrite (ceil_of_rounded (e_N e) (iin_block_ g)) in EZ by lia.
  rewrite EMb, ENb in EZ.
  fold (divide_and_ceil Mb (M_split_num cfg)) in EZ.
  fold (divide_and_ceil Nb (N_split_num cfg)) in EZ.
  rewrite <- HMbs, <- HNbs in EZ.
  fold (get_A_dtype g) in EZ. fold sA in EZ.
  unfold single_K_threshold in EZ.
  pose proof (sizeof_pos (get_A_dtype g)) as Hsz. fold sA in Hsz.
  rewrite (idiv_ok _ sA) in EZ by lia. cbn [bind] in EZ.
  fold threshold in EZ.
  assert (Hthr : 512 <= threshold) by apply threshold_value.
  (* the smaller share of K has at least one block *)
  assert (Hkf : 1 <= Z.quot (e_K_ib_block_size e) (iik_block_ g)).
  { rewrite HKib. clear - HKb HKs1 Hik.
    set (ks := e_K_split_num e) in *.
    destruct (Z.eqb_spec (Z.quot Kb ks * iik_block_ g) 0) as [E0|E0];
      rewrite Z.quot_mul by lia.
    - apply ceil_quot_pos; lia.
    - assert (Z.quot Kb ks <> 0) by nia.
      assert (0 <= Z.quot Kb ks) by (apply Z.quot_pos; lia). lia. }
  assert (HKthr : threshold <= e_K e) by nia.
  rewrite Z.geb_leb in EZ.
  replace (threshold <=? e_K e) with true in EZ by (symmetry; apply Z.leb_le; lia).
  rewrite (idiv_ok _ threshold) in EZ by lia. cbn [bind] in EZ.
  apply bind_inv in EZ as (kb & _ & EZ).
  apply bind_inv in EZ as (l2k & _ & EZ).
  apply bind_inv in EZ as (m & _ & EZ).
  apply bind_inv in EZ as (n & _ & EZ).
  injection EZ as _ _ EKsub.
  assert (Hgt : Z.quot (e_K_ib_block_size e) (iik_block_ g) < K_sub_block cfg).
  { rewrite <- EKsub.
    destruct (ceil_count_covers (e_K e) threshold ltac:(lia) ltac:(lia)) as (Hc & _).
    nia. }
  split; [now symmetry|]. split; [exact Hgt|].
  unfold generate. rewrite Ee. cbn [bind]. unfold generate_plan.
  destruct (check_sub_blocks_spec g cfg e)
    as [[Ec Hn]|(msg & Hmsg & Ec & Hex)].
  - exfalso. apply Hn. unfold sub_block_exceeds. do 5 right. lia.
  - rewrite Ec. cbn [bind]. exists msg. split; [exact Hmsg | reflexivity].
Qed.

(** The property on 61 threads, which all go to K: the f32 matmul of
    64 x 8192 by 8192 x 512 and its default Config. *)
Lemma default_config_rejected_when_K_share_is_short_witness :
  exists msg, In msg sub_block_messages
    /\ generate (matmul_gen 61 64 8192 512 f32) (machine 61) 16
         (mk_config 1 1 1 2 16 0) true = Fatal msg.
Proof.
  refine (proj2 (proj2 (default_config_rejected_when_K_share_is_short
            L2_MN_exact (matmul_gen 61 64 8192 512 f32) (machine 61) 16 true
            (mk_config 1 1 1 2 16 0) _
            ltac:(cbv; discriminate) ltac:(cbv; reflexivity)
            ltac:(cbv; reflexivity) ltac:(cbv; reflexivity)
            ltac:(cbv; discriminate) ltac:(cbv; discriminate)
            ltac:(cbv; discriminate) ltac:(vm_compute; reflexivity)
            ltac:(vm_compute; reflexivity) _))).
  vm_compute. reflexivity.
Defined.

(** On 67 threads and the f32 matmul of 8192 x 8192 by 8192 x 65536 the
    tile of one thread has [2^31] bytes and the [int] product is negative:
    the threshold is 512 and [K_sub_block] is 16. *)
Lemma default_config_on_wrapping_tile :
  imul (imul 8192 65536) 4 = - 2 ^ 31
  /\ get_default_config L2_MN_exact (matmul_gen 67 8192 8192 65536 f32)
       (machine 67)
     = Ok (mk_config 1 1 38 309 16 0).
Proof. vm_compute. split; reflexivity. Qed.

Lemma idiv_cases (a b : Z) :
  idiv a b = Undefined \/ exists q, idiv a b = Ok q.
Proof. unfold idiv. destruct (b =? 0); eauto. Qed.

Lemma rnd_up_cases (d b : Z) :
  utils_rnd_up d b = Undefined \/ exists X, utils_rnd_up d b = Ok X.
Proof.
  unfold utils_rnd_up, utils_divide_and_ceil.
  destruct (idiv_cases (d + b - 1) b) as [->|(q & ->)]; cbn [bind]; eauto.
Qed.

Lemma block_sizes_cases (X block split : Z) :
  block_sizes X block split = Undefined
  \/ exists p, block_sizes X block split = Ok p.
Proof.
  unfold block_sizes, utils_divide_and_ceil.
  destruct (idiv_cases X block) as [->|(q & ->)]; cbn [bind]; [eauto|].
  destruct (idiv_cases (q + split - 1) split) as [->|(c & ->)]; cbn [bind]; [eauto|].
  destruct (idiv_cases q split) as [->|(f & ->)]; cbn [bind]; eauto.
Qed.

Lemma block_sizes_no_split (X block : Z) : block_sizes X block 0 = Undefined.
Proof.
  unfold block_sizes, utils_divide_and_ceil.
  destruct (idiv_cases X block) as [->|(q & ->)]; reflexivity.
Qed.

Lemma block_extents_no_K_split_num (g : gen_managed_matmul_core_t)
  (ctx : context_t) (config : managed_matmul_core_config_t) :
  M_split_num config <> 0 -> N_split_num config <> 0 ->
  Z.quot (Z.quot (get_num_threads ctx) (M_split_num config)) (N_split_num config)
  = 0 ->
  block_extents g ctx config = Undefined.
Proof.
  intros HM HN HK. unfold block_extents.
  rewrite idiv_ok by assumption. cbn [bind].
  rewrite idiv_ok by assumption. cbn [bind]. rewrite HK.
  destruct (rnd_up_cases (dim (in_tensors_0 g) 0) (iim_block_ g)) as [->|(M & ->)];
    cbn [bind]; [reflexivity|].
  destruct (rnd_up_cases (dim (in_tensors_0 g) 1) (iik_block_ g)) as [->|(K & ->)];
    cbn [bind]; [reflexivity|].
  destruct (rnd_up_cases (dim (in_tensors_1 g) 1) (iin_block_ g)) as [->|(N & ->)];
    cbn [bind]; [reflexivity|].
  destruct (block_sizes_cases M (iim_block_ g) (M_split_num config))
    as [->|([a b] & ->)]; cbn [bind]; [reflexivity|].
  destruct (block_sizes_cases N (iin_block_ g) (N_split_num config))
    as [->|([c d] & ->)]; cbn [bind]; [reflexivity|].
  rewrite block_sizes_no_split. reflexivity.
Qed.

(** X12.  A Config that asks for more threads than there are,
    [M_split_num * N_split_num > num_threads], or for a split of zero, is
    not rejected by a check: [K_split_num] is then zero (or the division
    that computes it is by zero) and [generate] divides by zero while it
    computes the sizes at its head. *)
Theorem generate_divides_by_zero_when_splits_exceed_threads
  (g : gen_managed_matmul_core_t) (ctx : context_t) (v : Z)
  (config : managed_matmul_core_config_t) (fusion : bool) :
  M_split_num config = 0 \/ N_split_num config = 0
  \/ (1 <= M_split_num config /\ 1 <= N_split_num config
      /\ 0 <= get_num_threads ctx < M_split_num config * N_split_num config) ->
  generate g ctx v config fusion = Undefined.
Proof.
  intros H. unfold generate.
  enough (E : block_extents g ctx config = Undefined) by now rewrite E.
  destruct (Z.eq_dec (M_split_num config) 0) as [HM|HM].
  { unfold block_extents, idiv. rewrite HM. reflexivity. }
  destruct (Z.eq_dec (N_split_num config) 0) as [HN|HN].
  { unfold block_extents. rewrite idiv_ok by assumption. cbn [bind].
    unfold idiv. rewrite HN. reflexivity. }
  destruct H as [H|[H|(HMs & HNs & Hnt)]]; [contradiction|contradiction|].
  apply block_extents_no_K_split_num; [assumption|assumption|].
  rewrite (Z.quot_div_nonneg (get_num_threads ctx)) by lia.
  assert (Hq : 0 <= get_num_threads ctx / M_split_num config < N_split_num config).
  { split; [apply Z.div_pos; lia|]. apply Z.div_lt_upper_bound; lia. }
  apply Z.quot_small. exact Hq.
Qed.

(** The property on 4 threads and a Config of 3 x 2 splits. *)
Lemma generate_divides_by_zero_when_splits_exceed_threads_witness :
  generate (f32_gen false 96 64 64) (machine 4) 16 (mk_config 3 2 1 1 1 0) true
  = Undefined.
Proof.
  apply generate_divides_by_zero_when_splits_exceed_threads.
  right. right. cbv. repeat split; discriminate.
Defined.

Lemma check_B_format_spec (g : gen_managed_matmul_core_t) :
  let fb := format_blocks_2 (in_tensors_1 g) in
  let wrong :=
    (get_B_dtype g = bf16 /\ fb <> -1 /\ fb <> 2)
    \/ (is_u8_or_s8 (get_B_dtype g) = true /\ fb <> -1 /\ fb <> 4) in
  (check_B_format g = Ok tt /\ ~ wrong)
  \/ (check_B_format g = Fatal "Wrong data format of B" /\ wrong).
Proof.
  intros fb wrong. unfold wrong.
  unfold check_B_format, COMPILE_ASSERT, get_dtype_block. fold fb.
  destruct (get_B_dtype g) eqn:EB; cbn [etype_eqb is_u8_or_s8 orb Z.ltb Z.compare
                                         Pos.compare Pos.compare_cont];
    try (left; split; [reflexivity|];
         intros [(E & _)|(E & _)]; discriminate E).
  - destruct (Z.eqb_spec fb (-1)) as [E1|E1]; cbn [orb].
    + left. split; [reflexivity|].
      intros [(_ & H & _)|(E & _)]; [contradiction | discriminate E].
    + destruct (Z.eqb_spec fb 2) as [E2|E2].
      * left. split; [reflexivity|].
        intros [(_ & _ & H)|(E & _)]; [contradiction | discriminate E].
      * right. split; [reflexivity|]. left. auto.
  - destruct (Z.eqb_spec fb (-1)) as [E1|E1]; cbn [orb].
    + left. split; [reflexivity|].
      intros [(E & _)|(_ & H & _)]; [discriminate E | contradiction].
    + destruct (Z.eqb_spec fb 4) as [E2|E2].
      * left. split; [reflexivity|].
        intros [(E & _)|(_ & _ & H)]; [discriminate E | contradiction].
      * right. split; [reflexivity|]. right. auto.
  - destruct (Z.eqb_spec fb (-1)) as [E1|E1]; cbn [orb].
    + left. split; [reflexivity|].
      intros [(E & _)|(_ & H & _)]; [discriminate E | contradiction].
    + destruct (Z.eqb_spec fb 4) as [E2|E2].
      * left. split; [reflexivity|].
        intros [(E & _)|(_ & _ & H)]; [discriminate E | contradiction].
      * right. split; [reflexivity|]. right. auto.
Qed.

(** X13.  Once the sizes at the head of [generate] are computed,
    [generate] ends in the error "Wrong data format of B" exactly when the
    checks on the sub-block counts pass, B is of type bf16 (then
    [dtype_block] is 2) or u8 or s8 (then 4), and [blocks_[2]] of the
    format of B is neither [-1] nor [dtype_block].  The format of an f32 B
    is not checked, and the element type of A plays no part. *)
Theorem generate_rejects_wrong_B_format (g : gen_managed_matmul_core_t)
  (ctx : context_t) (v : Z) (config : managed_matmul_core_config_t)
  (fusion : bool) (e : extents) :
  let fb := format_blocks_2 (in_tensors_1 g) in
  block_extents g ctx config = Ok e ->
  (generate g ctx v config fusion = Fatal "Wrong data format of B"
   <-> ~ sub_block_exceeds g config e
       /\ ((get_B_dtype g = bf16 /\ fb <> -1 /\ fb <> 2)
           \/ (is_u8_or_s8 (get_B_dtype g) = true /\ fb <> -1 /\ fb <> 4))).
Proof.
  intros fb Ee. unfold generate. rewrite Ee. cbn [bind]. unfold generate_plan.
  destruct (check_sub_blocks_spec g config e)
    as [[Ec Hn]|(msg & Hmsg & Ec & Hex)]; rewrite Ec; cbn [bind].
  2:{ split; [|intros (Hn & _); contradiction].
      intros [= ->]. unfold sub_block_messages in Hmsg. simpl in Hmsg.
      destruct Hmsg as [H|[H|[H|[]]]]; discriminate H. }
  assert (Hrest : forall s,
    (if e_K_split_num e =? 1
     then call <- single_thread_matmul_call g config tsr_C (get_dtype_block g)
                    fusion (M_anchor_info e) (N_anchor_info e) false ;;
          Ok (mk_plan None
                (Z.min (divide_and_ceil (e_M e) (iim_block_ g)) (M_split_num config))
                (Z.min (divide_and_ceil (e_N e) (iin_block_ g)) (N_split_num config))
                (body_no_K_split g config fusion e call
                   (size_t_rnd_up (e_K e) (iik_block_ g)))
                (m_split_anchor g config fusion e))
     else call <- single_thread_matmul_call g config tsr_out_tmp_buf
                    (get_dtype_block g) fusion (M_anchor_info e)
                    (N_anchor_info e) true ;;
          Ok (mk_plan
                (Some (out_dtype g, K_real_split g e :: blocking_dims (out_tensors_0 g)))
                (Z.min (divide_and_ceil (e_M e) (iim_block_ g)) (M_split_num config))
                (Z.min (divide_and_ceil (e_N e) (iin_block_ g)) (N_split_num config))
                (body_K_split g v config fusion e call)
                (m_split_anchor g config fusion e))) <> Fatal s).
  { intros s. destruct (e_K_split_num e =? 1);
      (apply bind_no_fatal;
       [intros; apply single_thread_matmul_call_no_fatal | discriminate]). }
  destruct (check_B_format_spec g) as [[EB Hw]|[EB Hw]]; cbv zeta in Hw;
    fold fb in Hw; rewrite EB; cbn [bind].
  - split; [intros H; exfalso; exact (Hrest _ H)|].
    intros (_ & H). contradiction.
  - split; [intros _; split; assumption | reflexivity].
Qed.

(** The property on a bf16 matmul whose B has the inner block 4. *)
Lemma generate_rejects_wrong_B_format_witness :
  generate (mk_gen (tensor_2d false 64 64 bf16)
                   (mk_tensor [64; 64] bf16 true [2; 2; 16; 32; 4] 4)
                   (tensor_2d false 64 64 bf16) 32 32 32)
    (machine 1) 16 (mk_config 1 1 1 1 1 0) true
  = Fatal "Wrong data format of B".
Proof.
  refine (proj2 (generate_rejects_wrong_B_format
                   (mk_gen (tensor_2d false 64 64 bf16)
                      (mk_tensor [64; 64] bf16 true [2; 2; 16; 32; 4] 4)
                      (tensor_2d false 64 64 bf16) 32 32 32)
                   (machine 1) 16 (mk_config 1 1 1 1 1 0) true _
                   ltac:(vm_compute; reflexivity)) _).
  split.
  - vm_compute. intros H. repeat destruct H as [H|H]; discriminate H.
  - left. cbv. repeat split; discriminate.
Defined.

(** ** The plan of generate: threads and their anchors *)

(** What a successful [generate] has built, with or without K split. *)
Lemma generate_inv (g : gen_managed_matmul_core_t) (ctx : context_t) (v : Z)
  (config : managed_matmul_core_config_t) (fusion : bool) (e : extents)
  (p : loop_plan) :
  block_extents g ctx config = Ok e ->
  generate g ctx v config fusion = Ok p ->
  check_sub_blocks g config e = Ok tt
  /\ M_real_split p
     = Z.min (divide_and_ceil (e_M e) (iim_block_ g)) (M_split_num config)
  /\ N_real_split p
     = Z.min (divide_and_ceil (e_N e) (iin_block_ g)) (N_split_num config)
  /\ m_s_tail p = m_split_anchor g config fusion e
  /\ ((e_K_split_num e = 1 /\ out_tmp_buf p = None
       /\ exists shapes,
            n_s_body p
            = body_no_K_split g config fusion e
                (matmul_loops g config tsr_C (get_dtype_block g) fusion
                   (M_anchor_info e) (N_anchor_info e) false shapes)
                (size_t_rnd_up (e_K e) (iik_block_ g)))
      \/ (e_K_split_num e <> 1
          /\ out_tmp_buf p
             = Some (out_dtype g,
                     K_real_split g e :: blocking_dims (out_tensors_0 g))
          /\ n_s_body p
             = body_K_split g v config fusion e
                 (matmul_loops g config tsr_out_tmp_buf (get_dtype_block g)
                    fusion (M_anchor_info e) (N_anchor_info e) true None))).
Proof.
  intros Ee H. unfold generate in H. rewrite Ee in H. cbn [bind] in H.
  unfold generate_plan in H.
  apply bind_inv in H as ([] & Ec & H).
  apply bind_inv in H as ([] & _ & H).
  split; [exact Ec|].
  destruct (Z.eqb_spec (e_K_split_num e) 1) as [EK|EK].
  - apply bind_inv in H as (call & Ecall & H). apply Ok_inj in H. subst p.
    cbn [M_real_split N_real_split m_s_tail out_tmp_buf n_s_body].
    repeat split. left. repeat split; [assumption|].
    unfold single_thread_matmul_call in Ecall.
    destruct (fusion && negb false).
    + apply bind_inv in Ecall as (s & _ & Ecall). apply Ok_inj in Ecall.
      exists (Some s). now subst.
    + apply Ok_inj in Ecall. exists None. now subst.
  - apply bind_inv in H as (call & Ecall & H). apply Ok_inj in H. subst p.
    cbn [M_real_split N_real_split m_s_tail out_tmp_buf n_s_body].
    repeat split. right. repeat split; [assumption|].
    unfold single_thread_matmul_call in Ecall.
    rewrite andb_false_r in Ecall. apply Ok_inj in Ecall. now subst.
Qed.

(** The events of one call of [single_thread_matmul_call] create anchors
    per block and per sub-block only. *)
Lemma matmul_loops_sites (g : gen_managed_matmul_core_t)
  (config : managed_matmul_core_config_t) (C : tensor_id) (dtype_block : Z)
  (fusion : bool) (Mi Ni : list Z) (is_partial : bool)
  (shapes : option sub_block_shapes) (a : call_args) (site : anchor_site) :
  site <> at_block -> site <> at_sub_block ->
  anchor_regions site
    (matmul_loops g config C dtype_block fusion Mi Ni is_partial shapes a) = [].
Proof.
  intros H1 H2. apply anchor_regions_nil. intros ev H.
  assert (Hb : site_eqb at_block site = false)
    by (destruct site; try reflexivity; contradiction).
  assert (Hs : site_eqb at_sub_block site = false)
    by (destruct site; try reflexivity; contradiction).
  unfold matmul_loops in H.
  apply in_flat_map in H as (m_b & _ & H).
  apply in_flat_map in H as (n_b & _ & H).
  apply in_app_or in H as [H|H].
  - apply in_flat_map in H as (k_b & _ & H).
    assert (Hbody : forall m_o n_o,
              In ev (block_body g config C dtype_block fusion is_partial a
                       (b_start (get_balance211_length (Z.quot (a_M a) (iim_block_ g))
                                   (M_sub_block config) m_b))
                       (b_start (get_balance211_length (Z.quot (a_N a) (iin_block_ g))
                                   (N_sub_block config) n_b))
                       (b_length (get_balance211_length (Z.quot (a_M a) (iim_block_ g))
                                    (M_sub_block config) m_b))
                       (b_length (get_balance211_length (Z.quot (a_N a) (iin_block_ g))
                                    (N_sub_block config) n_b))
                       k_b m_o n_o) ->
              anchor_region site ev = []).
    { intros m_o n_o Hin. unfold block_body in Hin.
      destruct Hin as [<-|Hin]; [reflexivity|].
      destruct (fusion && negb is_partial); [|contradiction].
      destruct (k_b =? K_sub_block config - 1); [|contradiction].
      destruct Hin as [<-|[]]. cbn [anchor_region]. now rewrite Hb. }
    destruct (im_loop_order config =? 1);
      apply in_flat_map in H as (x & _ & H);
      apply in_flat_map in H as (y & _ & H);
      eapply Hbody; eassumption.
  - destruct shapes as [s|]; [|contradiction].
    destruct H as [<-|[]]. unfold sub_block_anchor.
    destruct s; cbn [anchor_region]; now rewrite Hs.
Qed.

(** The launched shares of an axis, [idx < min(nb, split)], are the
    non-empty ones and cover the [nb] blocks. *)
Lemma balance_start_real (nb split : Z) :
  0 <= nb -> 0 < split ->
  b_start (get_balance211_length nb split (Z.min nb split)) = nb.
Proof.
  intros Hnb Hs. destruct (Z.le_ge_cases split nb) as [H|H].
  - rewrite Z.min_r by assumption. now apply balance_start_team.
  - rewrite Z.min_l by assumption.
    destruct (Z.eq_dec nb 0) as [->|Hn0]; [now apply balance_start_0|].
    assert (Hn1 : divide_and_ceil nb split = 1).
    { unfold divide_and_ceil. rewrite Z.quot_div_nonneg by lia.
      symmetry. apply (Z.div_unique _ _ 1 (nb - 1)); lia. }
    unfold get_balance211_length. cbn [b_start]. rewrite Hn1.
    replace (nb - (1 - 1) * split) with nb by lia.
    rewrite Z.leb_refl. lia.
Qed.

Lemma balance_idle_share (nb split idx : Z) :
  0 <= nb -> 0 < split -> Z.min nb split <= idx < split ->
  b_length (get_balance211_length nb split idx) = 0.
Proof.
  intros Hnb Hs Hidx.
  assert (Hlt : nb < split) by lia. rewrite Z.min_l in Hidx by lia.
  destruct (Z.eq_dec nb 0) as [->|Hn0].
  - assert (Hn1 : divide_and_ceil 0 split = 0).
    { unfold divide_and_ceil. apply Z.quot_small. lia. }
    unfold get_balance211_length. cbn [b_length]. rewrite Hn1.
    replace (0 - (0 - 1) * split) with split by lia.
    replace (idx <? split) with true by (symmetry; apply Z.ltb_lt; lia).
    reflexivity.
  - assert (Hn1 : divide_and_ceil nb split = 1).
    { unfold divide_and_ceil. rewrite Z.quot_div_nonneg by lia.
      symmetry. apply (Z.div_unique _ _ 1 (nb - 1)); lia. }
    unfold get_balance211_length. cbn [b_length]. rewrite Hn1.
    replace (nb - (1 - 1) * split) with nb by lia.
    replace (idx <? nb) with false by (symmetry; apply Z.ltb_ge; lia).
    reflexivity.
Qed.

Lemma launched_shares_cover (nb split unit x : Z) :
  0 <= nb -> 0 < split -> 0 < unit ->
  nsum (fun s =>
          b2n (covers x (b_start (get_balance211_length nb split s) * unit)
                 (b_length (get_balance211_length nb split s) * unit)))
    (range (Z.min nb split))
  = b2n (covers x 0 (nb * unit)).
Proof.
  intros Hnb Hs Hunit.
  rewrite (nsum_filter (fun s => covers x
             (b_start (get_balance211_length nb split s) * unit)
             (b_length (get_balance211_length nb split s) * unit))).
  rewrite (contiguous_cover_count
             (fun s => b_start (get_balance211_length nb split s) * unit)
             (fun s => b_length (get_balance211_length nb split s) * unit)).
  - rewrite balance_start_0, balance_start_real by assumption.
    f_equal. f_equal; lia.
  - lia.
  - intros i Hi.
    pose proof (balance_length_nonneg_in_range nb split i Hnb Hs ltac:(lia)). nia.
  - intros i Hi. rewrite balance_contiguous. lia.
Qed.

(** The numbers of blocks behind the extents, for dimensions [>= 0]. *)
Lemma extents_blocks (g : gen_managed_matmul_core_t) (ctx : context_t)
  (config : managed_matmul_core_config_t) (e : extents) :
  block_extents g ctx config = Ok e ->
  0 < iim_block_ g -> 0 < iin_block_ g ->
  0 <= dim (in_tensors_0 g) 0 -> 0 <= dim (in_tensors_1 g) 1 ->
  exists Mb Nb Kb,
    extents_of_blocks g ctx config e Mb Nb Kb /\ 0 <= Mb /\ 0 <= Nb
    /\ Z.quot (e_M e) (iim_block_ g) = Mb /\ Z.quot (e_N e) (iin_block_ g) = Nb
    /\ divide_and_ceil (e_M e) (iim_block_ g) = Mb
    /\ divide_and_ceil (e_N e) (iin_block_ g) = Nb.
Proof.
  intros Ee Him Hin HdM HdN.
  destruct (block_extents_dims _ _ _ _ Ee) as (EM & EN & _).
  destruct (block_extents_inv _ _ _ _ Ee) as (Mb & Nb & Kb & Hext).
  exists Mb, Nb, Kb. split; [exact Hext|].
  destruct Hext as (HeM & HeN & _).
  unfold rounded_M, rounded_N in EM, EN.
  rewrite rnd_up_ok in EM, EN by assumption. apply Ok_inj in EM, EN.
  destruct (ceil_count_covers (dim (in_tensors_0 g) 0) (iim_block_ g) HdM Him)
    as (_ & HM0).
  destruct (ceil_count_covers (dim (in_tensors_1 g) 1) (iin_block_ g) HdN Hin)
    as (_ & HN0).
  assert (HMb : 0 <= Mb) by nia. assert (HNb : 0 <= Nb) by nia.
  rewrite HeM, HeN. rewrite !Z.quot_mul by lia.
  rewrite !divide_and_ceil_mul by lia. repeat split; assumption || reflexivity.
Qed.

(** X14.  The parallel loops over [m_s] and [n_s] launch exactly the
    threads whose share of blocks is not empty: among the [M_split_num]
    shares of the balance, those of index below [M_real_split] hold at least
    one block and the others none, and likewise along N.  The share of a
    launched thread lies inside the output, so the test
    [m_idx < M && n_idx < N] that guards its anchors and its reduction
    always holds. *)
Theorem parallel_loops_launch_nonempty_shares (g : gen_managed_matmul_core_t)
  (ctx : context_t) (v : Z) (config : managed_matmul_core_config_t)
  (fusion : bool) (e : extents) (p : loop_plan) :
  block_extents g ctx config = Ok e ->
  generate g ctx v config fusion = Ok p ->
  0 < iim_block_ g -> 0 < iin_block_ g ->
  0 < M_split_num config -> 0 < N_split_num config ->
  0 <= dim (in_tensors_0 g) 0 -> 0 <= dim (in_tensors_1 g) 1 ->
  (forall m_s, 0 <= m_s < M_split_num config ->
     let bm := m_partition g config e m_s in
     (m_s < M_real_split p -> 1 <= b_length bm)
     /\ (M_real_split p <= m_s -> b_length bm = 0))
  /\ (forall n_s, 0 <= n_s < N_split_num config ->
        let bn := n_partition g config e n_s in
        (n_s < N_real_split p -> 1 <= b_length bn)
        /\ (N_real_split p <= n_s -> b_length bn = 0))
  /\ (forall m_s n_s,
        0 <= m_s < M_real_split p -> 0 <= n_s < N_real_split p ->
        let bm := m_partition g config e m_s in
        let bn := n_partition g config e n_s in
        0 <= b_start bm * iim_block_ g < e_M e
        /\ (b_start bm + b_length bm) * iim_block_ g <= e_M e
        /\ 0 <= b_start bn * iin_block_ g < e_N e
        /\ (b_start bn + b_length bn) * iin_block_ g <= e_N e).
Proof.
  intros Ee Hgen Him Hin HMs HNs HdM HdN.
  destruct (generate_inv _ _ _ _ _ _ _ Ee Hgen) as (_ & EMr & ENr & _).
  destruct (extents_blocks _ _ _ _ Ee Him Hin HdM HdN)
    as (Mb & Nb & Kb & Hext & HMb & HNb & EqM & EqN & EcM & EcN).
  destruct Hext as (HeM & HeN & _).
  rewrite EMr, ENr, EcM, EcN. unfold m_partition, n_partition.
  rewrite EqM, EqN.
  split; [|split].
  - intros m_s Hm. cbv zeta. split.
    + intros Hl.
      now destruct (axis_thread Mb (iim_block_ g) (M_split_num config)
                      HMb Him HMs m_s ltac:(lia)) as (_ & H & _).
    + intros Hl. apply balance_idle_share; lia.
  - intros n_s Hn. cbv zeta. split.
    + intros Hl.
      now destruct (axis_thread Nb (iin_block_ g) (N_split_num config)
                      HNb Hin HNs n_s ltac:(lia)) as (_ & H & _).
    + intros Hl. apply balance_idle_share; lia.
  - intros m_s n_s Hm Hn. cbv zeta.
    destruct (axis_thread Mb (iim_block_ g) (M_split_num config)
                HMb Him HMs m_s Hm) as (_ & H1 & H2 & H3).
    destruct (axis_thread Nb (iin_block_ g) (N_split_num config)
                HNb Hin HNs n_s Hn) as (_ & H4 & H5 & H6).
    rewrite HeM, HeN. nia.
Qed.

(** The property for a 48 x 64 output of 16 x 16 blocks and a Config of
    4 x 2 splits on 8 threads: three threads along M are launched. *)
Lemma parallel_loops_launch_nonempty_shares_witness :
  exists p e,
    generate (f32_gen false 48 64 64) (machine 8) 16 (mk_config 4 2 1 1 1 0) true
    = Ok p
    /\ block_extents (f32_gen false 48 64 64) (machine 8) (mk_config 4 2 1 1 1 0)
       = Ok e
    /\ M_real_split p = 3
    /\ b_length (m_partition (f32_gen false 48 64 64) (mk_config 4 2 1 1 1 0) e 3)
       = 0.
Proof.
  eexists. eexists. split; [reflexivity|]. split; [reflexivity|].
  split; [reflexivity|].
  destruct (parallel_loops_launch_nonempty_shares
              (f32_gen false 48 64 64) (machine 8) 16 (mk_config 4 2 1 1 1 0)
              true _ _ eq_refl eq_refl
              ltac:(cbv; reflexivity) ltac:(cbv; reflexivity)
              ltac:(cbv; reflexivity) ltac:(cbv; reflexivity)
              ltac:(cbv; discriminate) ltac:(cbv; discriminate)) as (H & _).
  apply (H 3); [cbv; split; [discriminate | reflexivity] | cbv; discriminate].
Defined.

Section ThreadAnchors.

Variable g : gen_managed_matmul_core_t.
Variable ctx : context_t.
Variable config : managed_matmul_core_config_t.
Variable e : extents.
Variables Mb Nb Kb : Z.

Hypothesis Hext : extents_of_blocks g ctx config e Mb Nb Kb.
Hypothesis Him : 0 < iim_block_ g.
Hypothesis Hin : 0 < iin_block_ g.
Hypothesis HMs : 0 < M_split_num config.
Hypothesis HNs : 0 < N_split_num config.
Hypothesis HMb : 0 <= Mb.
Hypothesis HNb : 0 <= Nb.

(** The share of a launched thread along M: its length is the one of the
    two candidates that the comparison with [M_blk_num] selects. *)
Lemma launched_M_share (m_s : Z) :
  0 <= m_s < Z.min Mb (M_split_num config) ->
  let bm := m_partition g config e m_s in
  b_length bm * iim_block_ g
  = (if m_s <? e_M_blk_num e then e_M_block_size e else e_M_ib_block_size e)
  /\ 1 <= b_length bm /\ 0 <= b_start bm /\ b_start bm + b_length bm <= Mb
  /\ b_start bm * iim_block_ g < e_M e.
Proof.
  intros Hm bm. unfold bm, m_partition.
  destruct Hext as (EM & EN & _ & _ & _ & EMbs & EMib & EMblk & _).
  cbv beta in EMib.
  rewrite EM, Z.quot_mul by lia.
  pose proof (axis_thread Mb (iim_block_ g) (M_split_num config)
                HMb Him HMs m_s Hm) as (Hsel & Hlen & Hst & Hend).
  cbv zeta in Hsel. rewrite <- EMib, <- EMbs, <- EMblk in Hsel.
  repeat split; try assumption. nia.
Qed.

Lemma launched_N_share (n_s : Z) :
  0 <= n_s < Z.min Nb (N_split_num config) ->
  let bn := n_partition g config e n_s in
  b_length bn * iin_block_ g
  = (if n_s <? e_N_blk_num e then e_N_block_size e else e_N_ib_block_size e)
  /\ 1 <= b_length bn /\ 0 <= b_start bn /\ b_start bn + b_length bn <= Nb
  /\ b_start bn * iin_block_ g < e_N e.
Proof.
  intros Hn bn. unfold bn, n_partition.
  destruct Hext as (EM & EN & _ & _ & _ & _ & _ & _ & ENbs & ENib & ENblk & _).
  cbv beta in ENib.
  rewrite EN, Z.quot_mul by lia.
  pose proof (axis_thread Nb (iin_block_ g) (N_split_num config)
                HNb Hin HNs n_s Hn) as (Hsel & Hlen & Hst & Hend).
  cbv zeta in Hsel. rewrite <- ENib, <- ENbs, <- ENblk in Hsel.
  repeat split; try assumption. nia.
Qed.

(** The anchor of a launched thread denotes the region of the thread. *)
Lemma thread_anchor_selected (m_s n_s : Z) :
  0 <= m_s < Z.min Mb (M_split_num config) ->
  0 <= n_s < Z.min Nb (N_split_num config) ->
  anchor_regions at_thread
    (thread_anchor g e m_s n_s
       (b_start (m_partition g config e m_s) * iim_block_ g)
       (b_start (n_partition g config e n_s) * iin_block_ g))
  = [thread_region g config e m_s n_s].
Proof.
  intros Hm Hn.
  destruct (launched_M_share m_s Hm) as (HselM & _ & _ & _ & HinM).
  destruct (launched_N_share n_s Hn) as (HselN & _ & _ & _ & HinN).
  cbv zeta in HselM, HselN, HinM, HinN.
  unfold thread_anchor, thread_slice, thread_region.
  apply Z.ltb_lt in HinM, HinN. rewrite HinM, HinN. cbn [andb].
  set (bm := m_partition g config e m_s) in *.
  set (bn := n_partition g config e n_s) in *.
  destruct (Z.eqb_spec (e_M_block_size e) (e_M_ib_block_size e)) as [EqM|NeM];
    destruct (Z.eqb_spec (e_N_block_size e) (e_N_ib_block_size e)) as [EqN|NeN];
    cbn [andb];
    destruct (m_s <? e_M_blk_num e); destruct (n_s <? e_N_blk_num e);
    cbn [anchor_regions flat_map anchor_region site_eqb nth_error Z.to_nat
         Pos.to_nat Pos.iter_op Init.Nat.add app Z.eqb Pos.eqb];
    rewrite <- ?EqM in HselM; rewrite <- ?EqN in HselN;
    rewrite <- ?HselM, <- ?HselN;
    destruct (is_blocking (out_tensors_0 g));
    rewrite ?Z.quot_mul by lia; reflexivity.
Qed.

(** The anchor created after the [n_s] loop denotes the band of rows of
    the thread [m_s], over the whole width of the output. *)
Lemma m_split_anchor_selected (m_s : Z) :
  0 <= m_s < Z.min Mb (M_split_num config) ->
  N_split_num config = 1 ->
  let bm := m_partition g config e m_s in
  anchor_regions at_m_split (m_split_anchor g config true e m_s)
  = [if is_blocking (out_tensors_0 g)
     then [(b_start bm, b_length bm); (0, Nb);
           (0, iim_block_ g); (0, iin_block_ g)]
     else [(b_start bm * iim_block_ g, b_length bm * iim_block_ g);
           (0, e_N e)]].
Proof.
  intros Hm HN1 bm.
  destruct (launched_M_share m_s Hm) as (HselM & _).
  cbv zeta in HselM. fold bm in HselM.
  destruct Hext as (_ & EN & _).
  unfold m_split_anchor. fold bm. rewrite HN1. cbn [andb Z.eqb Pos.eqb].
  rewrite EN, divide_and_ceil_mul by lia.
  destruct (Z.eqb_spec (e_M_block_size e) (e_M_ib_block_size e)) as [EqM|NeM];
    destruct (m_s <? e_M_blk_num e);
    cbn [anchor_regions flat_map anchor_region site_eqb nth_error Z.to_nat
         Pos.to_nat Pos.iter_op Init.Nat.add app];
    rewrite <- ?EqM in HselM; rewrite <- ?HselM;
    destruct (is_blocking (out_tensors_0 g));
    rewrite ?Z.quot_mul by lia; reflexivity.
Qed.

End ThreadAnchors.

Lemma anchor_regions_flat_map_nil {A : Type} (site : anchor_site)
  (F : A -> list event) (l : list A) :
  (forall x, In x l -> anchor_regions site (F x) = []) ->
  anchor_regions site (flat_map F l) = [].
Proof.
  intros H. induction l as [|a l IH]; [reflexivity|].
  simpl. rewrite anchor_regions_app, (H a) by now left.
  apply IH. intros x Hx. apply H. now right.
Qed.

Lemma m_split_anchor_other_site (g : gen_managed_matmul_core_t)
  (config : managed_matmul_core_config_t) (fusion : bool) (e : extents)
  (m_s : Z) (site : anchor_site) :
  site <> at_m_split ->
  anchor_regions site (m_split_anchor g config fusion e m_s) = [].
Proof.
  intros Hs.
  assert (Hsite : site_eqb at_m_split site = false)
    by (destruct site; try reflexivity; contradiction).
  unfold m_split_anchor.
  destruct (fusion && (N_split_num config =? 1)); [|reflexivity].
  destruct (e_M_block_size e =? e_M_ib_block_size e);
    cbn [anchor_regions flat_map anchor_region]; rewrite Hsite; reflexivity.
Qed.

(** The anchors per thread of the body of the [n_s] loop are those of
    [thread_anchor], when K is not split or C is plain. *)
Lemma n_s_body_thread_regions (g : gen_managed_matmul_core_t) (ctx : context_t)
  (v : Z) (config : managed_matmul_core_config_t) (e : extents) (p : loop_plan)
  (tid : Z -> Z -> Z -> Z) (m_s n_s : Z) :
  block_extents g ctx config = Ok e ->
  generate g ctx v config true = Ok p ->
  e_K_split_num e = 1 \/ is_blocking (out_tensors_0 g) = false ->
  anchor_regions at_thread (n_s_body p tid m_s n_s)
  = anchor_regions at_thread
      (thread_anchor g e m_s n_s
         (b_start (m_partition g config e m_s) * iim_block_ g)
         (b_start (n_partition g config e n_s) * iin_block_ g)).
Proof.
  intros Ee Hgen Hcase.
  destruct (generate_inv _ _ _ _ _ _ _ Ee Hgen)
    as (_ & _ & _ & _ & [(EK & _ & shapes & ->)|(EK & _ & ->)]).
  - unfold body_no_K_split. rewrite anchor_regions_app.
    rewrite anchor_regions_flat_map_nil; [reflexivity|].
    intros k_s _. apply matmul_loops_sites; discriminate.
  - destruct Hcase as [Hc|Hplain]; [contradiction|].
    unfold body_K_split. rewrite anchor_regions_app.
    rewrite anchor_regions_flat_map_nil
      by (intros k_s _; apply matmul_loops_sites; discriminate).
    cbn [app]. unfold reduce_phase. rewrite Hplain.
    rewrite !anchor_regions_app.
    match goal with
    | |- anchor_regions _ ?a ++ anchor_regions _ ?b ++ _ = _ =>
        replace (anchor_regions at_thread a) with (@nil slice_range);
        [replace (anchor_regions at_thread b) with (@nil slice_range)|]
    end.
    + reflexivity.
    + symmetry. apply anchor_regions_flat_map_nil. intros lm_ln _.
      apply anchor_regions_flat_map_nil. intros lks _.
      match goal with |- context [if ?c then _ else _] => destruct c end;
        reflexivity.
    + match goal with |- context [if ?c then _ else _] => destruct c end;
        reflexivity.
Qed.

Lemma output_region_count (g : gen_managed_matmul_core_t) (e : extents)
  (Mb Nb : Z) (p : list Z) :
  e_M e = Mb * iim_block_ g -> e_N e = Nb * iin_block_ g ->
  0 < iim_block_ g -> 0 < iin_block_ g ->
  (b2n (if is_blocking (out_tensors_0 g)
        then covers (point_m p) 0 (Mb * 1)
        else covers (point_m p) 0 (Mb * iim_block_ g))
   * b2n (if is_blocking (out_tensors_0 g)
          then covers (point_n p) 0 (Nb * 1)
          else covers (point_n p) 0 (Nb * iin_block_ g))
   * b2n (point_tail p (inner_block g)))%nat
  = b2n (in_slice p (output_region g e)).
Proof.
  intros EM EN Him Hin. unfold output_region, inner_block.
  rewrite EM, EN, !Z.quot_mul, !Z.mul_1_r by lia.
  destruct (is_blocking (out_tensors_0 g)); now rewrite b2n_in_slice_2d.
Qed.

(** The regions of the launched threads tile the output. *)
Lemma thread_regions_tile (g : gen_managed_matmul_core_t) (ctx : context_t)
  (config : managed_matmul_core_config_t) (e : extents) (Mb Nb Kb : Z)
  (p : list Z) :
  extents_of_blocks g ctx config e Mb Nb Kb ->
  0 < iim_block_ g -> 0 < iin_block_ g ->
  0 < M_split_num config -> 0 < N_split_num config ->
  0 <= Mb -> 0 <= Nb ->
  nsum (fun m_s =>
    nsum (fun n_s => b2n (in_slice p (thread_region g config e m_s n_s)))
      (range (Z.min Nb (N_split_num config))))
    (range (Z.min Mb (M_split_num config)))
  = b2n (in_slice p (output_region g e)).
Proof.
  intros Hext Him Hin HMs HNs HMb HNb.
  pose proof Hext as (EM & EN & _).
  rewrite <- (output_region_count g e Mb Nb p EM EN Him Hin).
  rewrite (nsum_ext _ (fun m_s => nsum (fun n_s =>
    (b2n (if is_blocking (out_tensors_0 g)
          then covers (point_m p)
                 (b_start (get_balance211_length Mb (M_split_num config) m_s) * 1)
                 (b_length (get_balance211_length Mb (M_split_num config) m_s) * 1)
          else covers (point_m p)
                 (b_start (get_balance211_length Mb (M_split_num config) m_s)
                  * iim_block_ g)
                 (b_length (get_balance211_length Mb (M_split_num config) m_s)
                  * iim_block_ g))
     * b2n (if is_blocking (out_tensors_0 g)
            then covers (point_n p)
                   (b_start (get_balance211_length Nb (N_split_num config) n_s) * 1)
                   (b_length (get_balance211_length Nb (N_split_num config) n_s) * 1)
            else covers (point_n p)
                   (b_start (get_balance211_length Nb (N_split_num config) n_s)
                    * iin_block_ g)
                   (b_length (get_balance211_length Nb (N_split_num config) n_s)
                    * iin_block_ g))
     * b2n (point_tail p (inner_block g)))%nat)
    (range (Z.min Nb (N_split_num config))))).
  2:{ intros m_s _. apply nsum_ext. intros n_s _.
      rewrite in_thread_region. unfold m_partition, n_partition.
      rewrite EM, EN, !Z.quot_mul, !Z.mul_1_r by lia. reflexivity. }
  rewrite nsum_product. f_equal. f_equal.
  - destruct (is_blocking (out_tensors_0 g)).
    + apply (launched_shares_cover Mb (M_split_num config) 1); lia.
    + apply launched_shares_cover; lia.
  - destruct (is_blocking (out_tensors_0 g)).
    + apply (launched_shares_cover Nb (N_split_num config) 1); lia.
    + apply launched_shares_cover; lia.
Qed.

(** X15.  In a plan built with a fusion manager, when K is not split or C
    is plain: every launched thread [(m_s, n_s)] creates one anchor in the
    body of the [n_s] loop, whose region (the selected candidate, for an
    iterated anchor) is the region of the output assigned to the thread;
    over the whole plan these regions exactly tile the output. *)
Theorem thread_anchors_tile_output (g : gen_managed_matmul_core_t)
  (ctx : context_t) (v : Z) (config : managed_matmul_core_config_t)
  (e : extents) (p : loop_plan) (tid : Z -> Z -> Z -> Z) :
  block_extents g ctx config = Ok e ->
  generate g ctx v config true = Ok p ->
  e_K_split_num e = 1 \/ is_blocking (out_tensors_0 g) = false ->
  0 < iim_block_ g -> 0 < iin_block_ g ->
  0 < M_split_num config -> 0 < N_split_num config ->
  0 <= dim (in_tensors_0 g) 0 -> 0 <= dim (in_tensors_1 g) 1 ->
  (forall m_s n_s,
     0 <= m_s < M_real_split p -> 0 <= n_s < N_real_split p ->
     anchor_regions at_thread (n_s_body p tid m_s n_s)
     = [thread_region g config e m_s n_s])
  /\ exactly_tiles (anchor_regions at_thread (run_plan p tid))
       (output_region g e).
Proof.
  intros Ee Hgen Hcase Him Hin HMs HNs HdM HdN.
  destruct (generate_inv _ _ _ _ _ _ _ Ee Hgen) as (_ & EMr & ENr & Etail & _).
  destruct (extents_blocks _ _ _ _ Ee Him Hin HdM HdN)
    as (Mb & Nb & Kb & Hext & HMb & HNb & _ & _ & EcM & EcN).
  rewrite EcM in EMr. rewrite EcN in ENr.
  assert (Hbody : forall m_s n_s,
            0 <= m_s < M_real_split p -> 0 <= n_s < N_real_split p ->
            anchor_regions at_thread (n_s_body p tid m_s n_s)
            = [thread_region g config e m_s n_s]).
  { intros m_s n_s Hm Hn.
    rewrite (n_s_body_thread_regions g ctx v config e p tid m_s n_s Ee Hgen Hcase).
    rewrite EMr in Hm. rewrite ENr in Hn.
    now apply (thread_anchor_selected g ctx config e Mb Nb Kb). }
  split; [exact Hbody|].
  intros pt.
  change (if in_slice pt (output_region g e) then 1%nat else 0%nat)
    with (b2n (in_slice pt (output_region g e))).
  unfold run_plan. rewrite cover_count_flat_map.
  rewrite <- (thread_regions_tile g ctx config e Mb Nb Kb pt Hext Him Hin
                HMs HNs HMb HNb).
  rewrite <- EMr, <- ENr.
  apply nsum_ext. intros m_s Hm. apply in_range in Hm.
  rewrite anchor_regions_app, cover_count_app, Etail.
  rewrite m_split_anchor_other_site by discriminate.
  rewrite cover_count_flat_map. cbn [cover_count filter List.length].
  rewrite Nat.add_0_r.
  apply nsum_ext. intros n_s Hn. apply in_range in Hn.
  rewrite Hbody by assumption. apply cover_count_single.
Qed.

(** The property on a plain 48 x 64 output of 16 x 16 blocks and 3 x 2
    threads. *)
Lemma thread_anchors_tile_output_witness :
  exists p e,
    generate (f32_gen false 48 64 64) (machine 6) 16 (mk_config 3 2 1 1 1 0) true
    = Ok p
    /\ block_extents (f32_gen false 48 64 64) (machine 6) (mk_config 3 2 1 1 1 0)
       = Ok e
    /\ exactly_tiles (anchor_regions at_thread (run_plan p (fun _ _ _ => 0)))
         (output_region (f32_gen false 48 64 64) e).
Proof.
  eexists. eexists. split; [reflexivity|]. split; [reflexivity|].
  apply (thread_anchors_tile_output
           (f32_gen false 48 64 64) (machine 6) 16 (mk_config 3 2 1 1 1 0)
           _ _ (fun _ _ _ => 0) eq_refl eq_refl (or_introl eq_refl)
           ltac:(cbv; reflexivity) ltac:(cbv; reflexivity)
           ltac:(cbv; reflexivity) ltac:(cbv; reflexivity)
           ltac:(cbv; discriminate) ltac:(cbv; discriminate)).
Defined.

Lemma reduce_phase_sites (g : gen_managed_matmul_core_t) (v : Z)
  (config : managed_matmul_core_config_t) (fusion : bool) (e : extents)
  (m_s n_s : Z) (site : anchor_site) :
  site <> at_thread -> site <> at_reduce_tile ->
  anchor_regions site (reduce_phase g v config fusion e m_s n_s) = [].
Proof.
  intros H1 H2.
  assert (Hr : site_eqb at_reduce_tile site = false)
    by (destruct site; try reflexivity; contradiction).
  unfold reduce_phase. destruct (is_blocking (out_tensors_0 g)).
  - apply anchor_regions_flat_map_nil. intros lm_ln _.
    match goal with |- context [if ?c then _ else _] => destruct c end;
      [|reflexivity].
    change (anchor_regions site (?ev :: ?l))
      with (anchor_region site ev ++ anchor_regions site l).
    cbn [anchor_region app]. rewrite anchor_regions_app.
    rewrite anchor_regions_flat_map_nil.
    + destruct fusion; [|reflexivity].
      cbn [app anchor_regions flat_map anchor_region]. now rewrite Hr.
    + intros lks _. apply anchor_regions_flat_map_nil. intros lmo _.
      apply anchor_regions_nil. intros ev Hev.
      apply in_map_iff in Hev as (lno & <- & _). reflexivity.
  - rewrite !anchor_regions_app.
    match goal with
    | |- anchor_regions _ ?a ++ anchor_regions _ ?b ++ anchor_regions _ ?c = _ =>
        replace (anchor_regions site a) with (@nil slice_range);
        [replace (anchor_regions site b) with (@nil slice_range);
         [replace (anchor_regions site c) with (@nil slice_range)|]|]
    end.
    + reflexivity.
    + destruct fusion; [|reflexivity]. symmetry.
      now apply thread_anchor_other_site.
    + symmetry. apply anchor_regions_flat_map_nil. intros lm_ln _.
      apply anchor_regions_flat_map_nil. intros lks _.
      match goal with |- context [if ?c then _ else _] => destruct c end;
        reflexivity.
    + match goal with |- context [if ?c then _ else _] => destruct c end;
        reflexivity.
Qed.

Lemma n_s_body_no_m_split_anchor (g : gen_managed_matmul_core_t)
  (ctx : context_t) (v : Z) (config : managed_matmul_core_config_t)
  (fusion : bool) (e : extents) (p : loop_plan) (tid : Z -> Z -> Z -> Z)
  (m_s n_s : Z) :
  block_extents g ctx config = Ok e ->
  generate g ctx v config fusion = Ok p ->
  anchor_regions at_m_split (n_s_body p tid m_s n_s) = [].
Proof.
  intros Ee Hgen.
  destruct (generate_inv _ _ _ _ _ _ _ Ee Hgen)
    as (_ & _ & _ & _ & [(EK & _ & shapes & ->)|(EK & _ & ->)]).
  - unfold body_no_K_split. rewrite anchor_regions_app.
    rewrite anchor_regions_flat_map_nil
      by (intros k_s _; apply matmul_loops_sites; discriminate).
    destruct fusion; [|reflexivity].
    now apply thread_anchor_other_site.
  - unfold body_K_split. rewrite anchor_regions_app.
    rewrite anchor_regions_flat_map_nil
      by (intros k_s _; apply matmul_loops_sites; discriminate).
    apply reduce_phase_sites; discriminate.
Qed.

(** X16.  In a plan built with a fusion manager from a Config with
    [N_split_num = 1], every launched [m_s] creates one anchor after the
    [n_s] loop, whose region is the band of rows of the thread over the
    whole width of the output; over the plan these bands exactly tile the
    output.  With another [N_split_num] no such anchor is created. *)
Theorem m_split_anchors_tile_output (g : gen_managed_matmul_core_t)
  (ctx : context_t) (v : Z) (config : managed_matmul_core_config_t)
  (e : extents) (p : loop_plan) (tid : Z -> Z -> Z -> Z) :
  block_extents g ctx config = Ok e ->
  generate g ctx v config true = Ok p ->
  0 < iim_block_ g -> 0 < iin_block_ g ->
  0 < M_split_num config -> 0 < N_split_num config ->
  0 <= dim (in_tensors_0 g) 0 -> 0 <= dim (in_tensors_1 g) 1 ->
  (N_split_num config = 1 ->
   exactly_tiles (anchor_regions at_m_split (run_plan p tid))
     (output_region g e))
  /\ (N_split_num config <> 1 ->
      anchor_regions at_m_split (run_plan p tid) = []).
Proof.
  intros Ee Hgen Him Hin HMs HNs HdM HdN.
  destruct (generate_inv _ _ _ _ _ _ _ Ee Hgen) as (_ & EMr & ENr & Etail & _).
  destruct (extents_blocks _ _ _ _ Ee Him Hin HdM HdN)
    as (Mb & Nb & Kb & Hext & HMb & HNb & _ & _ & EcM & EcN).
  rewrite EcM in EMr. rewrite EcN in ENr.
  split.
  - intros HN1 pt.
    change (if in_slice pt (output_region g e) then 1%nat else 0%nat)
      with (b2n (in_slice pt (output_region g e))).
    pose proof Hext as (EM & EN & _).
    rewrite <- (output_region_count g e Mb Nb pt EM EN Him Hin).
    unfold run_plan. rewrite cover_count_flat_map.
    rewrite (nsum_ext _ (fun m_s =>
      (b2n (if is_blocking (out_tensors_0 g)
            then covers (point_m pt)
                   (b_start (get_balance211_length Mb (M_split_num config) m_s) * 1)
                   (b_length (get_balance211_length Mb (M_split_num config) m_s) * 1)
            else covers (point_m pt)
                   (b_start (get_balance211_length Mb (M_split_num config) m_s)
                    * iim_block_ g)
                   (b_length (get_balance211_length Mb (M_split_num config) m_s)
                    * iim_block_ g))
       * (b2n (if is_blocking (out_tensors_0 g)
               then covers (point_n pt) 0 (Nb * 1)
               else covers (point_n pt) 0 (Nb * iin_block_ g))
          * b2n (point_tail pt (inner_block g))))%nat)).
    + rewrite nsum_scale, EMr.
      rewrite Nat.mul_assoc. f_equal. f_equal.
      destruct (is_blocking (out_tensors_0 g)).
      * apply (launched_shares_cover Mb (M_split_num config) 1); lia.
      * apply launched_shares_cover; lia.
    + intros m_s Hm. apply in_range in Hm. rewrite EMr in Hm.
      rewrite anchor_regions_app, cover_count_app.
      rewrite anchor_regions_flat_map_nil
        by (intros n_s _; now apply (n_s_body_no_m_split_anchor g ctx v config true e)).
      rewrite Etail.
      rewrite (m_split_anchor_selected g ctx config e Mb Nb Kb Hext Him Hin
                 HMs HMb HNb m_s Hm HN1).
      change (cover_count pt []) with 0%nat. rewrite Nat.add_0_l.
      rewrite cover_count_single. unfold m_partition, inner_block.
      rewrite EM, EN, !Z.quot_mul, !Z.mul_1_r by lia.
      destruct (is_blocking (out_tensors_0 g));
        rewrite b2n_in_slice_2d; lia.
  - intros HN1. unfold run_plan. apply anchor_regions_flat_map_nil.
    intros m_s _. rewrite anchor_regions_app.
    rewrite anchor_regions_flat_map_nil
      by (intros n_s _; now apply (n_s_body_no_m_split_anchor g ctx v config true e)).
    rewrite Etail. unfold m_split_anchor.
    replace (N_split_num config =? 1) with false
      by (symmetry; now apply Z.eqb_neq).
    reflexivity.
Qed.

(** The property on a blocked 48 x 64 output of 16 x 16 blocks split over
    three threads along M. *)
Lemma m_split_anchors_tile_output_witness :
  exists p e,
    generate (f32_gen true 48 64 64) (machine 3) 16 (mk_config 3 1 1 1 1 0) true
    = Ok p
    /\ block_extents (f32_gen true 48 64 64) (machine 3) (mk_config 3 1 1 1 1 0)
       = Ok e
    /\ exactly_tiles (anchor_regions at_m_split (run_plan p (fun _ _ _ => 0)))
         (output_region (f32_gen true 48 64 64) e).
Proof.
  eexists. eexists. split; [reflexivity|]. split; [reflexivity|].
  apply (m_split_anchors_tile_output
           (f32_gen true 48 64 64) (machine 3) 16 (mk_config 3 1 1 1 1 0)
           _ _ (fun _ _ _ => 0) eq_refl eq_refl
           ltac:(cbv; reflexivity) ltac:(cbv; reflexivity)
           ltac:(cbv; reflexivity) ltac:(cbv; reflexivity)
           ltac:(cbv; discriminate) ltac:(cbv; discriminate)).
  reflexivity.
Defined.

(** ** Every product of blocks is computed exactly once *)

Lemma multiply_count_app (g : gen_managed_matmul_core_t) (db mb nb kb : Z)
  (l l' : list event) :
  multiply_count g db mb nb kb (l ++ l')
  = (multiply_count g db mb nb kb l + multiply_count g db mb nb kb l')%nat.
Proof. unfold multiply_count. apply filter_length_app. Qed.

Lemma multiply_count_flat_map (g : gen_managed_matmul_core_t) (db mb nb kb : Z)
  (F : Z -> list event) (l : list Z) :
  multiply_count g db mb nb kb (flat_map F l)
  = nsum (fun x => multiply_count g db mb nb kb (F x)) l.
Proof.
  unfold nsum. induction l as [|a l IH]; simpl; [reflexivity|].
  now rewrite multiply_count_app, IH.
Qed.

Lemma multiply_count_nil (g : gen_managed_matmul_core_t) (db mb nb kb : Z)
  (l : list event) :
  (forall ev, In ev l -> brgemm_multiplies g db mb nb kb ev = false) ->
  multiply_count g db mb nb kb l = 0%nat.
Proof.
  intros H. unfold multiply_count. induction l as [|ev l IH]; [reflexivity|].
  simpl. rewrite (H ev) by now left. apply IH. intros ev' Hin. apply H. now right.
Qed.

Lemma covers_unit (x s : Z) : covers x s 1 = (s =? x).
Proof.
  unfold covers. destruct (Z.eqb_spec s x), (Z.leb_spec s x), (Z.ltb_spec x (s + 1));
    try reflexivity; lia.
Qed.

Section BlockProducts.

Variable g : gen_managed_matmul_core_t.
Variable config : managed_matmul_core_config_t.
Variable C : tensor_id.
Variable fusion : bool.
Variable M_anchor_info N_anchor_info : list Z.
Variable is_partial : bool.
Variables mb nb kb : Z.

Let iim := iim_block_ g.
Let iin := iin_block_ g.
Let iik := iik_block_ g.
Let db := get_dtype_block g.

Hypothesis Him : 0 < iim.
Hypothesis Hin : 0 < iin.
Hypothesis Hik : 0 < iik.
Hypothesis HC : C = if is_partial then tsr_out_tmp_buf else tsr_C.

(** The arguments of the call: the thread starts at the blocks [Ms], [Ns]
    and [Ks] and holds [Kl] blocks of K. *)
Variable a : call_args.
Variables Ms Ns Ks Kl : Z.
Hypothesis EaM : a_m_idx a = Ms * iim.
Hypothesis EaN : a_n_idx a = Ns * iin.
Hypothesis EaK : a_k_idx a = Ks * iik.
Hypothesis EaKl : a_K a = Kl * iik.

Lemma block_body_multiplies (m_b_idx n_b_idx m_o_end n_o_end k_b m_o n_o : Z) :
  let bk := get_balance211_length Kl (K_sub_block config) k_b in
  multiply_count g db mb nb kb
    (block_body g config C db fusion is_partial a m_b_idx n_b_idx
       m_o_end n_o_end k_b m_o n_o)
  = (b2n (covers mb (Ms + (m_b_idx + Z.rem (m_o + a_tid a) m_o_end) * 1) 1)
     * b2n (covers nb (Ns + (n_b_idx + Z.rem (n_o + a_tid a) n_o_end) * 1) 1)
     * b2n (covers kb (Ks + b_start bk * 1) (b_length bk * 1)))%nat.
Proof.
  intros bk. unfold block_body.
  change (?ev :: ?l) with ([ev] ++ l) at 1.
  rewrite multiply_count_app.
  rewrite (multiply_count_nil g db mb nb kb (if fusion && negb is_partial then _ else _)).
  2:{ intros ev Hev. destruct (fusion && negb is_partial); [|contradiction].
      destruct (k_b =? K_sub_block config - 1); [|contradiction].
      destruct Hev as [<-|[]]. reflexivity. }
  rewrite Nat.add_0_r. unfold multiply_count. cbn [filter].
  rewrite EaM, EaN, EaK, EaKl.
  fold iim iin iik.
  rewrite (Z.quot_mul Kl iik) by lia. fold bk.
  set (rm := Z.rem (m_o + a_tid a) m_o_end).
  set (rn := Z.rem (n_o + a_tid a) n_o_end).
  replace (Ms * iim + m_b_idx * iim + rm * iim) with ((Ms + (m_b_idx + rm) * 1) * iim) by lia.
  replace (Ns * iin + n_b_idx * iin + rn * iin) with ((Ns + (n_b_idx + rn) * 1) * iin) by lia.
  replace (Ks * iik + b_start bk * iik) with ((Ks + b_start bk * 1) * iik) by lia.
  set (M0 := Ms + (m_b_idx + rm) * 1). set (N0 := Ns + (n_b_idx + rn) * 1).
  set (K0 := Ks + b_start bk * 1).
  rewrite !Z.mul_1_r.
  assert (E : brgemm_multiplies g db mb nb kb
                (brgemm (k_b =? 0)
                   (if negb (is_blocking (in_tensors_0 g)) then [M0 * iim; K0 * iik]
                    else [Z.quot (M0 * iim) iim; Z.quot (K0 * iik) iik; 0; 0])
                   (if 1 <? db then [Z.quot (N0 * iin) iin; Z.quot (K0 * iik) iik; 0; 0; 0]
                    else if negb (is_blocking (in_tensors_1 g)) then [K0 * iik; N0 * iin]
                    else [Z.quot (N0 * iin) iin; Z.quot (K0 * iik) iik; 0; 0])
                   C
                   (if is_partial
                    then a_k_s a :: (if negb (is_blocking (out_tensors_0 g))
                                     then [M0 * iim; N0 * iin]
                                     else [Z.quot (M0 * iim) iim; Z.quot (N0 * iin) iin; 0; 0])
                    else (if negb (is_blocking (out_tensors_0 g))
                          then [M0 * iim; N0 * iin]
                          else [Z.quot (M0 * iim) iim; Z.quot (N0 * iin) iin; 0; 0]))
                   (b_length bk)
                   (if negb (is_blocking (in_tensors_0 g)) then dim (in_tensors_0 g) 1 else iik)
                   (if negb (is_blocking (in_tensors_1 g)) then dim (in_tensors_1 g) 1 else iin)
                   (if negb (is_blocking (out_tensors_0 g)) then dim (in_tensors_1 g) 1 else iin)
                   (if negb (is_blocking (in_tensors_0 g)) then iik else iim * iik)
                   (if negb (is_blocking (in_tensors_1 g))
                    then iik * dim (in_tensors_1 g) 1 else iik * iin))
              = (M0 =? mb) && (N0 =? nb) && covers kb K0 (b_length bk)).
  { unfold brgemm_multiplies, block_of. fold iim iin iik. rewrite HC.
    destruct is_partial, (is_blocking (in_tensors_0 g)),
      (is_blocking (in_tensors_1 g)), (is_blocking (out_tensors_0 g)),
      (1 <? db);
      cbn [negb orb nth tl]; rewrite ?Z.quot_mul by lia;
      rewrite ?Z.eqb_refl;
      destruct (M0 =? mb), (N0 =? nb), (covers kb K0 (b_length bk)); reflexivity. }
  rewrite E. rewrite !covers_unit.
  destruct (M0 =? mb), (N0 =? nb), (covers kb K0 (b_length bk)); reflexivity.
Qed.

Hypothesis Htid : 0 <= a_tid a.
Hypothesis HKl : 0 <= Kl.
Hypothesis HMsub : 0 < M_sub_block config.
Hypothesis HNsub : 0 < N_sub_block config.
Hypothesis HKsub : 0 < K_sub_block config.

Lemma inner_loops_multiply (bm bn : balance211) (k_b : Z) :
  let body m_o n_o :=
    block_body g config C db fusion is_partial a (b_start bm) (b_start bn)
      (b_length bm) (b_length bn) k_b m_o n_o in
  let bk := get_balance211_length Kl (K_sub_block config) k_b in
  let SM := nsum (fun m_o =>
              b2n (covers mb
                     (Ms + (b_start bm + Z.rem (m_o + a_tid a) (b_length bm)) * 1) 1))
              (range (b_length bm)) in
  let SN := nsum (fun n_o =>
              b2n (covers nb
                     (Ns + (b_start bn + Z.rem (n_o + a_tid a) (b_length bn)) * 1) 1))
              (range (b_length bn)) in
  multiply_count g db mb nb kb
    (if im_loop_order config =? 1 then
       flat_map (fun n_o => flat_map (fun m_o => body m_o n_o)
         (range (b_length bm))) (range (b_length bn))
     else
       flat_map (fun m_o => flat_map (fun n_o => body m_o n_o)
         (range (b_length bn))) (range (b_length bm)))
  = (SM * SN * b2n (covers kb (Ks + b_start bk * 1) (b_length bk * 1)))%nat.
Proof.
  intros body bk SM SN.
  destruct (im_loop_order config =? 1).
  - rewrite multiply_count_flat_map.
    rewrite (nsum_ext _ (fun n_o => nsum (fun m_o =>
               multiply_count g db mb nb kb (body m_o n_o))
               (range (b_length bm))))
      by (intros; apply multiply_count_flat_map).
    unfold body.
    rewrite (nsum_ext _ (fun n_o => nsum _ (range (b_length bm))))
      by (intros; apply nsum_ext; intros; apply block_body_multiplies).
    apply nsum_product_swapped.
  - rewrite multiply_count_flat_map.
    rewrite (nsum_ext _ (fun m_o => nsum (fun n_o =>
               multiply_count g db mb nb kb (body m_o n_o))
               (range (b_length bn))))
      by (intros; apply multiply_count_flat_map).
    unfold body.
    rewrite (nsum_ext _ (fun m_o => nsum _ (range (b_length bn))))
      by (intros; apply nsum_ext; intros; apply block_body_multiplies).
    apply nsum_product.
Qed.

(** One call of [single_thread_matmul_call] on [Ml x Nl x Kl] blocks:
    every product of blocks of its share is computed once, none else. *)
Lemma matmul_loops_multiply (shapes : option sub_block_shapes) (Ml Nl : Z) :
  a_M a = Ml * iim -> a_N a = Nl * iin -> 0 <= Ml -> 0 <= Nl ->
  multiply_count g db mb nb kb
    (matmul_loops g config C db fusion M_anchor_info N_anchor_info is_partial
       shapes a)
  = (b2n (covers mb Ms (Ml * 1)) * b2n (covers nb Ns (Nl * 1))
     * b2n (covers kb Ks (Kl * 1)))%nat.
Proof.
  intros EaMl EaNl HMl HNl. unfold matmul_loops. cbv zeta.
  rewrite EaMl, EaNl. fold iim iin. rewrite !Z.quot_mul by lia.
  rewrite <- (blocks_cover Ml (M_sub_block config) Ms 1 (a_tid a) mb) by lia.
  rewrite <- (blocks_cover Nl (N_sub_block config) Ns 1 (a_tid a) nb) by lia.
  rewrite <- (sub_blocks_cover Kl (K_sub_block config) Ks 1 kb) by lia.
  rewrite multiply_count_flat_map.
  rewrite <- nsum_product.
  apply nsum_ext. intros m_b _.
  rewrite multiply_count_flat_map.
  apply nsum_ext. intros n_b _.
  rewrite multiply_count_app.
  rewrite (multiply_count_nil g db mb nb kb (match shapes with Some _ => _ | None => _ end)).
  2:{ intros ev Hev. destruct shapes as [s|]; [|contradiction].
      destruct Hev as [<-|[]]. unfold sub_block_anchor. destruct s; reflexivity. }
  rewrite Nat.add_0_r.
  rewrite multiply_count_flat_map.
  rewrite (nsum_ext _ _ _ (fun k_b _ => inner_loops_multiply _ _ k_b)).
  cbv zeta. rewrite nsum_scale_l. reflexivity.
Qed.

End BlockProducts.

Lemma multiply_count_flat_map_nil {A : Type} (g : gen_managed_matmul_core_t)
  (db mb nb kb : Z) (F : A -> list event) (l : list A) :
  (forall x, In x l -> multiply_count g db mb nb kb (F x) = 0%nat) ->
  multiply_count g db mb nb kb (flat_map F l) = 0%nat.
Proof.
  intros H. induction l as [|x l IH]; [reflexivity|].
  simpl. rewrite multiply_count_app, (H x) by now left.
  apply IH. intros y Hy. apply H. now right.
Qed.

Lemma thread_anchor_multiplies (g : gen_managed_matmul_core_t) (e : extents)
  (db mb nb kb m_s n_s m_idx n_idx : Z) :
  multiply_count g db mb nb kb (thread_anchor g e m_s n_s m_idx n_idx) = 0%nat.
Proof.
  apply multiply_count_nil. intros ev H. unfold thread_anchor in H.
  repeat match type of H with
  | In _ (if ?c then _ else _) => destruct c
  | In _ (let _ := _ in _) => cbv zeta in H
  end;
  repeat match type of H with
  | In _ [] => contradiction
  | In _ (_ :: _) => destruct H as [<-|H]
  end; reflexivity.
Qed.

Lemma m_split_anchor_multiplies (g : gen_managed_matmul_core_t)
  (config : managed_matmul_core_config_t) (fusion : bool) (e : extents)
  (db mb nb kb m_s : Z) :
  multiply_count g db mb nb kb (m_split_anchor g config fusion e m_s) = 0%nat.
Proof.
  unfold m_split_anchor.
  destruct (fusion && (N_split_num config =? 1)); [|reflexivity].
  destruct (e_M_block_size e =? e_M_ib_block_size e); reflexivity.
Qed.

Lemma reduce_phase_multiplies (g : gen_managed_matmul_core_t) (v : Z)
  (config : managed_matmul_core_config_t) (fusion : bool) (e : extents)
  (db mb nb kb m_s n_s : Z) :
  multiply_count g db mb nb kb (reduce_phase g v config fusion e m_s n_s) = 0%nat.
Proof.
  unfold reduce_phase. destruct (is_blocking (out_tensors_0 g)).
  - apply multiply_count_flat_map_nil. intros lm_ln _.
    match goal with |- context [if ?c then _ else _] => destruct c end;
      [|reflexivity].
    change (?ev :: ?l) with ([ev] ++ l) at 1.
    rewrite !multiply_count_app.
    rewrite multiply_count_flat_map_nil.
    + destruct fusion; reflexivity.
    + intros lks _. apply multiply_count_flat_map_nil. intros lmo _.
      apply multiply_count_nil. intros ev Hev.
      apply in_map_iff in Hev as (lno & <- & _). reflexivity.
  - rewrite !multiply_count_app.
    rewrite multiply_count_flat_map_nil.
    + destruct fusion; [rewrite thread_anchor_multiplies|];
        match goal with |- context [if ?c then _ else _] => destruct c end;
        reflexivity.
    + intros lm_ln _. apply multiply_count_flat_map_nil. intros lks _.
      match goal with |- context [if ?c then _ else _] => destruct c end;
        reflexivity.
Qed.

Lemma size_t_rnd_up_multiple (Xb block : Z) :
  0 <= Xb -> 0 < block -> size_t_rnd_up (Xb * block) block = Xb * block.
Proof.
  intros HX Hb. unfold size_t_rnd_up.
  fold (divide_and_ceil (Xb * block) block).
  now rewrite divide_and_ceil_mul.
Qed.

Section PlanProducts.

Variable g : gen_managed_matmul_core_t.
Variable ctx : context_t.
Variable v : Z.
Variable config : managed_matmul_core_config_t.
Variable fusion : bool.
Variable e : extents.
Variable p : loop_plan.
Variable tid : Z -> Z -> Z -> Z.
Variables Mb Nb Kb : Z.

Hypothesis Ee : block_extents g ctx config = Ok e.
Hypothesis Hgen : generate g ctx v config fusion = Ok p.
Hypothesis Hext : extents_of_blocks g ctx config e Mb Nb Kb.
Hypothesis Him : 0 < iim_block_ g.
Hypothesis Hin : 0 < iin_block_ g.
Hypothesis Hik : 0 < iik_block_ g.
Hypothesis HMs : 0 < M_split_num config.
Hypothesis HNs : 0 < N_split_num config.
Hypothesis HKs : 0 < e_K_split_num e.
Hypothesis HMsub : 0 < M_sub_block config.
Hypothesis HNsub : 0 < N_sub_block config.
Hypothesis HKsub : 0 < K_sub_block config.
Hypothesis HMb : 0 <= Mb.
Hypothesis HNb : 0 <= Nb.
Hypothesis HKb : 0 <= Kb.
Hypothesis Htid :
  forall m_s n_s k_s, 0 <= m_s -> 0 <= n_s -> 0 <= k_s -> 0 <= tid m_s n_s k_s.

(** The body of a launched thread computes the products of the blocks of
    its rows and columns, over the whole of K. *)
Lemma n_s_body_multiply (mb nb kb m_s n_s : Z) :
  0 <= m_s < Z.min Mb (M_split_num config) ->
  0 <= n_s < Z.min Nb (N_split_num config) ->
  let bm := m_partition g config e m_s in
  let bn := n_partition g config e n_s in
  multiply_count g (get_dtype_block g) mb nb kb (n_s_body p tid m_s n_s)
  = (b2n (covers mb (b_start bm * 1) (b_length bm * 1))
     * b2n (covers nb (b_start bn * 1) (b_length bn * 1))
     * b2n (covers kb 0 (Kb * 1)))%nat.
Proof.
  intros Hm Hn bm bn.
  destruct (launched_M_share g ctx config e Mb Nb Kb Hext Him HMs HMb m_s Hm)
    as (_ & HlM & HsM & _).
  destruct (launched_N_share g ctx config e Mb Nb Kb Hext Hin HNs HNb n_s Hn)
    as (_ & HlN & HsN & _).
  cbv zeta in HlM, HsM, HlN, HsN. fold bm in HlM, HsM. fold bn in HlN, HsN.
  pose proof Hext as (EM & EN & EK & _).
  destruct (generate_inv _ _ _ _ _ _ _ Ee Hgen)
    as (_ & _ & _ & _ & [(EK1 & _ & shapes & ->)|(EK1 & _ & ->)]).
  - unfold body_no_K_split. rewrite multiply_count_app.
    rewrite EK1. change (range 1) with [0]. cbn [flat_map]. rewrite app_nil_r.
    replace (multiply_count g (get_dtype_block g) mb nb kb
               (if fusion then _ else _)) with 0%nat
      by (destruct fusion; [now rewrite thread_anchor_multiplies | reflexivity]).
    rewrite Nat.add_0_r.
    rewrite matmul_loops_multiply
      with (Ms := b_start bm) (Ns := b_start bn) (Ks := 0) (Kl := Kb)
           (Ml := b_length bm) (Nl := b_length bn);
      cbn [thread_args a_m_idx a_n_idx a_k_idx a_K a_M a_N a_tid]; fold bm bn;
      try reflexivity; try assumption; try lia.
    + now rewrite !Z.mul_1_r.
    + rewrite EK. now apply size_t_rnd_up_multiple.
    + apply Htid; lia.
  - unfold body_K_split. rewrite multiply_count_app, reduce_phase_multiplies.
    rewrite Nat.add_0_r, multiply_count_flat_map.
    unfold K_real_split, k_partition.
    rewrite EK, divide_and_ceil_mul, Z.quot_mul by lia.
    rewrite <- (launched_shares_cover Kb (e_K_split_num e) 1 kb) by lia.
    rewrite <- nsum_scale_l.
    apply nsum_ext. intros k_s Hk. apply in_range in Hk.
    set (bk := get_balance211_length Kb (e_K_split_num e) k_s).
    rewrite matmul_loops_multiply
      with (Ms := b_start bm) (Ns := b_start bn) (Ks := b_start bk)
           (Kl := b_length bk) (Ml := b_length bm) (Nl := b_length bn);
      cbn [thread_args a_m_idx a_n_idx a_k_idx a_K a_M a_N a_tid];
      fold bm bn; try reflexivity; try assumption; try lia.
    + now rewrite !Z.mul_1_r.
    + apply Htid; lia.
    + apply balance_length_nonneg_in_range; lia.
Qed.

Lemma run_plan_multiply (mb nb kb : Z) :
  multiply_count g (get_dtype_block g) mb nb kb (run_plan p tid)
  = (b2n (covers mb 0 (Mb * 1)) * b2n (covers nb 0 (Nb * 1))
     * b2n (covers kb 0 (Kb * 1)))%nat.
Proof.
  pose proof Hext as (EM & EN & EK & _).
  destruct (generate_inv _ _ _ _ _ _ _ Ee Hgen) as (_ & EMr & ENr & Etail & _).
  rewrite EM, divide_and_ceil_mul in EMr by lia.
  rewrite EN, divide_and_ceil_mul in ENr by lia.
  unfold run_plan. rewrite multiply_count_flat_map.
  rewrite <- (launched_shares_cover Mb (M_split_num config) 1 mb) by lia.
  rewrite <- (launched_shares_cover Nb (N_split_num config) 1 nb) by lia.
  rewrite <- nsum_product. rewrite EMr, ENr.
  apply nsum_ext. intros m_s Hm. apply in_range in Hm.
  rewrite multiply_count_app, Etail, m_split_anchor_multiplies, Nat.add_0_r.
  rewrite multiply_count_flat_map.
  apply nsum_ext. intros n_s Hn. apply in_range in Hn.
  rewrite n_s_body_multiply by assumption.
  unfold m_partition, n_partition. rewrite EM, EN, !Z.quot_mul by lia.
  reflexivity.
Qed.

End PlanProducts.

Lemma extents_blocks_3 (g : gen_managed_matmul_core_t) (ctx : context_t)
  (config : managed_matmul_core_config_t) (e : extents) :
  block_extents g ctx config = Ok e ->
  0 < iim_block_ g -> 0 < iin_block_ g -> 0 < iik_block_ g ->
  0 <= dim (in_tensors_0 g) 0 -> 0 <= dim (in_tensors_1 g) 1 ->
  0 <= dim (in_tensors_0 g) 1 ->
  exists Mb Nb Kb,
    extents_of_blocks g ctx config e Mb Nb Kb
    /\ 0 <= Mb /\ 0 <= Nb /\ 0 <= Kb
    /\ Z.quot (e_M e) (iim_block_ g) = Mb /\ Z.quot (e_N e) (iin_block_ g) = Nb
    /\ Z.quot (e_K e) (iik_block_ g) = Kb.
Proof.
  intros Ee Him Hin Hik HdM HdN HdK.
  destruct (block_extents_dims _ _ _ _ Ee) as (_ & _ & EK & _).
  destruct (extents_blocks _ _ _ _ Ee Him Hin HdM HdN)
    as (Mb & Nb & Kb & Hext & HMb & HNb & EqM & EqN & _).
  exists Mb, Nb, Kb. split; [exact Hext|].
  destruct Hext as (_ & _ & HeK & _).
  unfold rounded_K in EK. rewrite rnd_up_ok in EK by assumption.
  apply Ok_inj in EK.
  destruct (ceil_count_covers (dim (in_tensors_0 g) 1) (iik_block_ g) HdK Hik)
    as (_ & HK0).
  assert (HKb : 0 <= Kb) by nia.
  rewrite HeK, Z.quot_mul by lia. repeat split; assumption || reflexivity.
Qed.

(** X17.  The brgemm calls of a plan compute the matmul of the rounded
    dimensions block by block, each product once.  For positive blocks,
    splits and sub-block counts and thread ids [>= 0]: the block [(mb, kb)]
    of A and the block [(kb, nb)] of B are multiplied, into the block
    [(mb, nb)] of the output (of C, or of a slot of the temporary tensor
    when K is split), by exactly one brgemm call of the plan when [mb],
    [nb] and [kb] are blocks of the matmul, and by none otherwise.  Within
    the plan, the calls of the thread [(m_s, n_s)] are those for the blocks
    of its own rows and columns. *)
Theorem every_block_product_is_computed_once (g : gen_managed_matmul_core_t)
  (ctx : context_t) (v : Z) (config : managed_matmul_core_config_t)
  (fusion : bool) (e : extents) (p : loop_plan) (tid : Z -> Z -> Z -> Z) :
  block_extents g ctx config = Ok e ->
  generate g ctx v config fusion = Ok p ->
  0 <= get_num_threads ctx ->
  0 < iim_block_ g -> 0 < iin_block_ g -> 0 < iik_block_ g ->
  0 < M_split_num config -> 0 < N_split_num config ->
  0 < M_sub_block config -> 0 < N_sub_block config -> 0 < K_sub_block config ->
  0 <= dim (in_tensors_0 g) 0 -> 0 <= dim (in_tensors_1 g) 1 ->
  0 <= dim (in_tensors_0 g) 1 ->
  (forall m_s n_s k_s,
     0 <= m_s -> 0 <= n_s -> 0 <= k_s -> 0 <= tid m_s n_s k_s) ->
  let Mb := Z.quot (e_M e) (iim_block_ g) in
  let Nb := Z.quot (e_N e) (iin_block_ g) in
  let Kb := Z.quot (e_K e) (iik_block_ g) in
  (forall mb nb kb,
     multiply_count g (get_dtype_block g) mb nb kb (run_plan p tid)
     = if covers mb 0 Mb && covers nb 0 Nb && covers kb 0 Kb
       then 1%nat else 0%nat)
  /\ (forall m_s n_s mb nb kb,
        0 <= m_s < M_real_split p -> 0 <= n_s < N_real_split p ->
        let bm := m_partition g config e m_s in
        let bn := n_partition g config e n_s in
        multiply_count g (get_dtype_block g) mb nb kb (n_s_body p tid m_s n_s)
        = if covers mb (b_start bm) (b_length bm)
             && covers nb (b_start bn) (b_length bn) && covers kb 0 Kb
          then 1%nat else 0%nat).
Proof.
  intros Ee Hgen Hnt Him Hin Hik HMs HNs HMsub HNsub HKsub HdM HdN HdK Htid
    Mb Nb Kb.
  destruct (extents_blocks_3 _ _ _ _ Ee Him Hin Hik HdM HdN HdK)
    as (Mb' & Nb' & Kb' & Hext & HMb & HNb & HKb & EqM & EqN & EqK).
  subst Mb Nb Kb. rewrite EqM, EqN, EqK.
  assert (HKs : 0 < e_K_split_num e).
  { destruct (block_extents_dims _ _ _ _ Ee) as (_ & _ & _ & _ & _ & Hne).
    rewrite (block_extents_K_split_num _ _ _ _ Ee) in *.
    assert (0 <= Z.quot (Z.quot (get_num_threads ctx) (M_split_num config))
                   (N_split_num config)).
    { apply Z.quot_pos; [|lia]. apply Z.quot_pos; lia. }
    lia. }
  split.
  - intros mb nb kb.
    rewrite (run_plan_multiply g ctx v config fusion e p tid Mb' Nb' Kb'
               Ee Hgen Hext Him Hin Hik HMs HNs HKs HMsub HNsub HKsub
               HMb HNb HKb Htid).
    rewrite !Z.mul_1_r.
    destruct (covers mb 0 Mb'), (covers nb 0 Nb'), (covers kb 0 Kb'); reflexivity.
  - intros m_s n_s mb nb kb Hm Hn bm bn.
    destruct (generate_inv _ _ _ _ _ _ _ Ee Hgen) as (_ & EMr & ENr & _).
    pose proof Hext as (EM & EN & _).
    rewrite EM, divide_and_ceil_mul in EMr by lia.
    rewrite EN, divide_and_ceil_mul in ENr by lia.
    rewrite EMr in Hm. rewrite ENr in Hn.
    rewrite (n_s_body_multiply g ctx v config fusion e p tid Mb' Nb' Kb'
               Ee Hgen Hext Him Hin Hik HMs HNs HKs HMsub HNsub HKsub
               HMb HNb HKb Htid mb nb kb m_s n_s Hm Hn).
    fold bm bn. rewrite !Z.mul_1_r.
    destruct (covers mb (b_start bm) (b_length bm)),
      (covers nb (b_start bn) (b_length bn)), (covers kb 0 Kb'); reflexivity.
Qed.

(** The property on 8 threads with K split in two: a blocked 48 x 64
    output, K = 128, blocks of 16, a Config of 2 x 2 splits and two
    sub-blocks along each axis. *)
Lemma every_block_product_is_computed_once_witness :
  exists p,
    generate (f32_gen true 48 128 64) (machine 8) 16 (mk_config 2 2 1 2 2 1) true
    = Ok p
    /\ multiply_count (f32_gen true 48 128 64)
         (get_dtype_block (f32_gen true 48 128 64)) 2 3 7
         (run_plan p (fun m_s n_s k_s => m_s + n_s + k_s)) = 1%nat.
Proof.
  eexists. split; [reflexivity|].
  destruct (every_block_product_is_computed_once
              (f32_gen true 48 128 64) (machine 8) 16 (mk_config 2 2 1 2 2 1)
              true _ _ (fun m_s n_s k_s => m_s + n_s + k_s) eq_refl eq_refl
              ltac:(cbv; discriminate) ltac:(cbv; reflexivity)
              ltac:(cbv; reflexivity) ltac:(cbv; reflexivity)
              ltac:(cbv; reflexivity) ltac:(cbv; reflexivity)
              ltac:(cbv; reflexivity) ltac:(cbv; reflexivity)
              ltac:(cbv; reflexivity) ltac:(cbv; discriminate)
              ltac:(cbv; discriminate) ltac:(cbv; discriminate)
              ltac:(intros; lia)) as (H & _).
  exact (H 2 3 7).
Defined.

(** ** The order of the loops over the blocks of a sub-block *)

Lemma matmul_loops_loop_order (g : gen_managed_matmul_core_t)
  (config : managed_matmul_core_config_t) (o : Z) (C : tensor_id)
  (dtype_block : Z) (fusion : bool) (Mi Ni : list Z) (is_partial : bool)
  (shapes : option sub_block_shapes) (a : call_args) :
  Permutation
    (matmul_loops g (with_loop_order config o) C dtype_block fusion Mi Ni
       is_partial shapes a)
    (matmul_loops g config C dtype_block fusion Mi Ni is_partial shapes a).
Proof.
  unfold matmul_loops.
  cbn [with_loop_order M_sub_block N_sub_block K_sub_block im_loop_order].
  apply Permutation_flat_map_pointwise. intros m_b _.
  apply Permutation_flat_map_pointwise. intros n_b _.
  apply Permutation_app.
  - apply Permutation_flat_map_pointwise. intros k_b _.
    change (block_body g (with_loop_order config o))
      with (block_body g config).
    destruct (o =? 1), (im_loop_order config =? 1);
      try reflexivity.
    + apply (Permutation_flat_map_swap
               (fun n_o m_o => block_body g config C dtype_block fusion
                                 is_partial a _ _ _ _ k_b m_o n_o)).
    + apply (Permutation_flat_map_swap
               (fun m_o n_o => block_body g config C dtype_block fusion
                                 is_partial a _ _ _ _ k_b m_o n_o)).
  - destruct shapes as [s|]; [|constructor].
    destruct s; reflexivity.
Qed.

(** X18.  [im_loop_order] plays no part in what [generate] checks or
    computes, and exchanging the loops [im_m] and [im_n] changes only the
    order in which a thread visits the blocks of a sub-block: when
    [generate] emits a plan for a Config, it emits one for the same Config
    with any other [im_loop_order], with the same temporary tensor and the
    same parallel loops, and what the one plan does is a permutation of
    what the other does. *)
Theorem loop_order_only_reorders_the_plan (g : gen_managed_matmul_core_t)
  (ctx : context_t) (v : Z) (config : managed_matmul_core_config_t)
  (fusion : bool) (o : Z) (p : loop_plan) :
  generate g ctx v config fusion = Ok p ->
  exists p',
    generate g ctx v (with_loop_order config o) fusion = Ok p'
    /\ out_tmp_buf p' = out_tmp_buf p
    /\ M_real_split p' = M_real_split p /\ N_real_split p' = N_real_split p
    /\ forall tid, Permutation (run_plan p' tid) (run_plan p tid).
Proof.
  intros H. unfold generate in *.
  change (block_extents g ctx (with_loop_order config o))
    with (block_extents g ctx config).
  destruct (block_extents g ctx config) as [e| | |]; try discriminate.
  cbn [bind] in *. unfold generate_plan in *.
  change (check_sub_blocks g (with_loop_order config o) e)
    with (check_sub_blocks g config e).
  destruct (check_sub_blocks g config e) as [[]| | |]; try discriminate.
  cbn [bind] in *.
  destruct (check_B_format g) as [[]| | |]; try discriminate.
  cbn [bind] in *.
  unfold single_thread_matmul_call in *.
  change (sub_block_anchor_shapes (is_blocking (out_tensors_0 g)) (iim_block_ g)
            (iin_block_ g) (with_loop_order config o))
    with (sub_block_anchor_shapes (is_blocking (out_tensors_0 g)) (iim_block_ g)
            (iin_block_ g) config).
  assert (Hrun : forall (body body' : (Z -> Z -> Z -> Z) -> Z -> Z -> list event)
                   (out : option (sc_data_etype * list Z)) (Mr Nr : Z)
                   (tail : Z -> list event) tid,
            (forall m_s n_s, Permutation (body' tid m_s n_s) (body tid m_s n_s)) ->
            Permutation (run_plan (mk_plan out Mr Nr body' tail) tid)
              (run_plan (mk_plan out Mr Nr body tail) tid)).
  { intros body body' out Mr Nr tail tid Hb. unfold run_plan.
    cbn [M_real_split N_real_split n_s_body m_s_tail].
    apply Permutation_flat_map_pointwise. intros m_s _.
    apply Permutation_app_tail.
    apply Permutation_flat_map_pointwise. intros n_s _. apply Hb. }
  destruct (e_K_split_num e =? 1).
  - destruct (fusion && negb false).
    + destruct (sub_block_anchor_shapes _ _ _ config _ _) as [s| | |];
        try discriminate.
      cbn [bind] in *. apply Ok_inj in H. subst p.
      eexists. split; [reflexivity|]. repeat split.
      intros tid. apply Hrun. intros m_s n_s. unfold body_no_K_split.
      apply Permutation_app_tail.
      apply Permutation_flat_map_pointwise. intros k_s _.
      apply matmul_loops_loop_order.
    + cbn [bind] in *. apply Ok_inj in H. subst p.
      eexists. split; [reflexivity|]. repeat split.
      intros tid. apply Hrun. intros m_s n_s. unfold body_no_K_split.
      apply Permutation_app_tail.
      apply Permutation_flat_map_pointwise. intros k_s _.
      apply matmul_loops_loop_order.
  - rewrite andb_false_r in *. cbn [bind] in *. apply Ok_inj in H. subst p.
    eexists. split; [reflexivity|]. repeat split.
    intros tid. apply Hrun. intros m_s n_s. unfold body_K_split.
    apply Permutation_app_tail.
    apply Permutation_flat_map_pointwise. intros k_s _.
    apply matmul_loops_loop_order.
Qed.

(** The property on a blocked 48 x 64 output: the plan of the loop order 1
    against the plan of the loop order 0. *)
Lemma loop_order_only_reorders_the_plan_witness :
  exists p',
    generate (f32_gen true 48 128 64) (machine 4) 16
      (with_loop_order (mk_config 2 2 1 1 2 0) 1) true = Ok p'.
Proof.
  destruct (loop_order_only_reorders_the_plan
              (f32_gen true 48 128 64) (machine 4) 16 (mk_config 2 2 1 1 2 0)
              true 1 _ eq_refl) as (p' & H & _).
  exists p'. exact H.
Defined.

(** ** The two phases of a plan that splits K *)

Lemma partial_call_events (g : gen_managed_matmul_core_t)
  (config : managed_matmul_core_config_t) (db : Z) (fusion : bool)
  (Mi Ni : list Z) (a : call_args) (ev : event) :
  In ev (matmul_loops g config tsr_out_tmp_buf db fusion Mi Ni true None a) ->
  writes_slot (a_k_s a) ev.
Proof.
  unfold matmul_loops. intros H.
  apply in_flat_map in H as (m_b & _ & H).
  apply in_flat_map in H as (n_b & _ & H).
  rewrite app_nil_r in H.
  apply in_flat_map in H as (k_b & _ & H).
  assert (Hbody : forall mi ni me ne m_o n_o,
            In ev (block_body g config tsr_out_tmp_buf db fusion true a
                     mi ni me ne k_b m_o n_o) ->
            writes_slot (a_k_s a) ev).
  { intros mi ni me ne m_o n_o Hin. unfold block_body in Hin.
    rewrite andb_false_r in Hin. destruct Hin as [<-|[]]. reflexivity. }
  destruct (im_loop_order config =? 1);
    apply in_flat_map in H as (x & _ & H);
    apply in_flat_map in H as (y & _ & H);
    eapply Hbody; eassumption.
Qed.

Lemma reduce_phase_no_brgemm (g : gen_managed_matmul_core_t) (v : Z)
  (config : managed_matmul_core_config_t) (fusion : bool) (e : extents)
  (m_s n_s : Z) (ev : event) :
  In ev (reduce_phase g v config fusion e m_s n_s) -> is_brgemm ev = false.
Proof.
  unfold reduce_phase. destruct (is_blocking (out_tensors_0 g)).
  - intros H. apply in_flat_map in H as (lm_ln & _ & H).
    match type of H with In _ (if ?c then _ else _) => destruct c end;
      [|contradiction].
    destruct H as [<-|H]; [reflexivity|].
    apply in_app_or in H as [H|H].
    + apply in_flat_map in H as (lks & _ & H).
      apply in_flat_map in H as (lmo & _ & H).
      apply in_map_iff in H as (lno & <- & _). reflexivity.
    + destruct fusion; [|contradiction]. destruct H as [<-|[]]. reflexivity.
  - intros H. apply in_app_or in H as [H|H].
    { match type of H with In _ (if ?c then _ else _) => destruct c end;
        [|contradiction].
      destruct H as [<-|[]]. reflexivity. }
    apply in_app_or in H as [H|H].
    { apply in_flat_map in H as (lm_ln & _ & H).
      apply in_flat_map in H as (lks & _ & H).
      match type of H with In _ (if ?c then _ else _) => destruct c end;
        [|contradiction].
      destruct H as [<-|[]]. reflexivity. }
    destruct fusion; [|contradiction]. unfold thread_anchor in H.
    repeat match type of H with
    | In _ (if ?c then _ else _) => destruct c
    | In _ (let _ := _ in _) => cbv zeta in H
    end;
    repeat match type of H with
    | In _ [] => contradiction
    | In _ (_ :: _) => destruct H as [<-|H]
    end; reflexivity.
Qed.

(** X19.  A plan that splits K works in two phases for every thread
    [(m_s, n_s)].  The first is the loop over [k_s < K_real_split], the
    number of slots of the temporary tensor: its iteration [k_s] consists of
    brgemm calls only, with or without a fusion manager, and each of them
    accumulates into the slot [k_s] of the temporary tensor, never into C.
    The second, the reduction, calls no brgemm. *)
Theorem partial_products_go_to_their_slot (g : gen_managed_matmul_core_t)
  (ctx : context_t) (v : Z) (config : managed_matmul_core_config_t)
  (fusion : bool) (e : extents) (p : loop_plan) :
  block_extents g ctx config = Ok e ->
  e_K_split_num e <> 1 ->
  generate g ctx v config fusion = Ok p ->
  exists phase_1 : (Z -> Z -> Z -> Z) -> Z -> Z -> Z -> list event,
    out_tmp_buf p
    = Some (out_dtype g, K_real_split g e :: blocking_dims (out_tensors_0 g))
    /\ (forall tid m_s n_s,
          n_s_body p tid m_s n_s
          = flat_map (phase_1 tid m_s n_s) (range (K_real_split g e))
            ++ reduce_phase g v config fusion e m_s n_s)
    /\ (forall tid m_s n_s k_s ev,
          In ev (phase_1 tid m_s n_s k_s) -> writes_slot k_s ev)
    /\ (forall m_s n_s ev,
          In ev (reduce_phase g v config fusion e m_s n_s) ->
          is_brgemm ev = false).
Proof.
  intros Ee EK Hgen.
  destruct (generate_inv _ _ _ _ _ _ _ Ee Hgen)
    as (_ & _ & _ & _ & [(EK1 & _)|(_ & Eout & Ebody)]); [contradiction|].
  exists (fun tid m_s n_s k_s =>
            matmul_loops g config tsr_out_tmp_buf (get_dtype_block g) fusion
              (M_anchor_info e) (N_anchor_info e) true None
              (thread_args g config e
                 (b_length (k_partition g e k_s) * iik_block_ g)
                 (b_start (k_partition g e k_s) * iik_block_ g)
                 tid m_s n_s k_s)).
  split; [exact Eout|]. split; [|split].
  - intros tid m_s n_s. rewrite Ebody. reflexivity.
  - intros tid m_s n_s k_s ev Hev.
    apply partial_call_events in Hev. exact Hev.
  - intros m_s n_s ev. apply reduce_phase_no_brgemm.
Qed.

(** The property on 8 threads: a blocked 48 x 64 output, K = 128 and a
    Config of 2 x 2 splits, so K is split in two. *)
Lemma partial_products_go_to_their_slot_witness :
  exists p,
    generate (f32_gen true 48 128 64) (machine 8) 16 (mk_config 2 2 1 1 2 0) true
    = Ok p
    /\ out_tmp_buf p = Some (f32, [2; 3; 4; 16; 16]).
Proof.
  eexists. split; [reflexivity|].
  destruct (partial_products_go_to_their_slot
              (f32_gen true 48 128 64) (machine 8) 16 (mk_config 2 2 1 1 2 0)
              true _ _ eq_refl ltac:(cbv; discriminate) eq_refl)
    as (ph & H & _).
  exact H.
Defined.

(** ** The anchors of the reduction *)

Lemma range_add (n m : Z) :
  0 <= n -> 0 <= m -> range (n + m) = range n ++ map (fun j => n + j) (range m).
Proof.
  intros Hn Hm. revert m Hm. apply natlike_ind.
  - rewrite Z.add_0_r. change (range 0) with (@nil Z). simpl.
    now rewrite app_nil_r.
  - intros m Hm IH. unfold Z.succ.
    rewrite Z.add_assoc, range_succ, IH, range_succ by lia.
    rewrite map_app, app_assoc. reflexivity.
Qed.

Lemma nsum_map (f : Z -> nat) (h : Z -> Z) (l : list Z) :
  nsum f (map h l) = nsum (fun x => f (h x)) l.
Proof. unfold nsum. now rewrite map_map. Qed.

(** A loop over [a * b] indices split into quotient and remainder by [b]
    is a double loop. *)
Lemma nsum_quot_rem (f h : Z -> nat) (t : nat) (a b : Z) :
  0 <= a -> 0 < b ->
  nsum (fun k => (f (Z.quot k b) * h (Z.rem k b) * t)%nat) (range (a * b))
  = (nsum f (range a) * nsum h (range b) * t)%nat.
Proof.
  intros Ha Hb. revert a Ha. apply natlike_ind.
  - reflexivity.
  - intros a Ha IH. unfold Z.succ.
    replace ((a + 1) * b) with (a * b + b) by lia.
    rewrite range_add, nsum_app, IH, nsum_map by nia.
    rewrite range_succ, nsum_app by lia.
    assert (E : nsum (fun x => (f (Z.quot (a * b + x) b)
                                * h (Z.rem (a * b + x) b) * t)%nat) (range b)
                = (nsum h (range b) * (f a * t))%nat).
    { rewrite <- nsum_scale. apply nsum_ext.
      intros j Hj. apply in_range in Hj.
      destruct (proj2 (tile_of_index b a j (a * b + j) Hb Hj Ha ltac:(nia))
                  eq_refl) as [-> ->].
      lia. }
    rewrite E. change (nsum f [a]) with (f a + 0)%nat. lia.
Qed.

Lemma consecutive_cover (x s n : Z) :
  0 <= n ->
  nsum (fun i => b2n (covers x (s + i) 1)) (range n) = b2n (covers x s n).
Proof.
  intros Hn.
  rewrite (nsum_filter (fun i => covers x (s + i) 1)).
  rewrite (contiguous_cover_count (fun i => s + i) (fun _ => 1)); try lia.
  f_equal. f_equal; lia.
Qed.

Section ReduceAnchors.

Variable g : gen_managed_matmul_core_t.
Variable ctx : context_t.
Variable v : Z.
Variable config : managed_matmul_core_config_t.
Variable e : extents.
Variables Mb Nb Kb : Z.

Hypothesis Hext : extents_of_blocks g ctx config e Mb Nb Kb.
Hypothesis Hblocked : is_blocking (out_tensors_0 g) = true.
Hypothesis Him : 0 < iim_block_ g.
Hypothesis Hin : 0 < iin_block_ g.
Hypothesis HMs : 0 < M_split_num config.
Hypothesis HNs : 0 < N_split_num config.
Hypothesis HMb : 0 <= Mb.
Hypothesis HNb : 0 <= Nb.

(** The anchors of the tiles of the reduction of a launched thread tile
    the region of the thread. *)
Lemma reduce_tile_anchors_count (m_s n_s : Z) (pt : list Z) :
  0 <= m_s < Z.min Mb (M_split_num config) ->
  0 <= n_s < Z.min Nb (N_split_num config) ->
  cover_count pt
    (anchor_regions at_reduce_tile (reduce_phase g v config true e m_s n_s))
  = b2n (in_slice pt (thread_region g config e m_s n_s)).
Proof.
  intros Hm Hn.
  destruct (launched_M_share g ctx config e Mb Nb Kb Hext Him HMs HMb m_s Hm)
    as (_ & HlM & HsM & _ & HinM).
  destruct (launched_N_share g ctx config e Mb Nb Kb Hext Hin HNs HNb n_s Hn)
    as (_ & HlN & HsN & _ & HinN).
  cbv zeta in HlM, HsM, HinM, HlN, HsN, HinN.
  unfold reduce_phase, thread_region. rewrite Hblocked.
  apply Z.ltb_lt in HinM, HinN. rewrite HinM, HinN. cbn [andb].
  set (bm := m_partition g config e m_s) in *.
  set (bn := n_partition g config e n_s) in *.
  rewrite !divide_and_ceil_mul, !Z.quot_mul by lia.
  rewrite cover_count_flat_map.
  rewrite b2n_in_slice_2d.
  rewrite <- (consecutive_cover (point_m pt) (b_start bm) (b_length bm)) by lia.
  rewrite <- (consecutive_cover (point_n pt) (b_start bn) (b_length bn)) by lia.
  rewrite <- nsum_quot_rem by lia.
  apply nsum_ext. intros lm_ln _.
  change (anchor_regions at_reduce_tile (?ev :: ?l))
    with (anchor_region at_reduce_tile ev ++ anchor_regions at_reduce_tile l).
  cbn [anchor_region app]. rewrite anchor_regions_app.
  rewrite anchor_regions_flat_map_nil.
  - cbn [app anchor_regions flat_map anchor_region site_eqb].
    rewrite cover_count_single, b2n_in_slice_2d. reflexivity.
  - intros lks _. apply anchor_regions_flat_map_nil. intros lmo _.
    apply anchor_regions_nil. intros ev Hev.
    apply in_map_iff in Hev as (lno & <- & _). reflexivity.
Qed.

End ReduceAnchors.

(** X20.  In a plan that splits K, built with a fusion manager for a
    blocked C: after reducing a tile of the output, a thread creates an
    anchor on this tile; the regions of these anchors exactly tile the
    region of the thread, and over the whole plan the output. *)
Theorem reduce_tile_anchors_tile_output (g : gen_managed_matmul_core_t)
  (ctx : context_t) (v : Z) (config : managed_matmul_core_config_t)
  (e : extents) (p : loop_plan) (tid : Z -> Z -> Z -> Z) :
  block_extents g ctx config = Ok e ->
  e_K_split_num e <> 1 ->
  generate g ctx v config true = Ok p ->
  is_blocking (out_tensors_0 g) = true ->
  0 < iim_block_ g -> 0 < iin_block_ g ->
  0 < M_split_num config -> 0 < N_split_num config ->
  0 <= dim (in_tensors_0 g) 0 -> 0 <= dim (in_tensors_1 g) 1 ->
  (forall m_s n_s,
     0 <= m_s < M_real_split p -> 0 <= n_s < N_real_split p ->
     exactly_tiles (anchor_regions at_reduce_tile (n_s_body p tid m_s n_s))
       (thread_region g config e m_s n_s))
  /\ exactly_tiles (anchor_regions at_reduce_tile (run_plan p tid))
       (output_region g e).
Proof.
  intros Ee EK Hgen Hblocked Him Hin HMs HNs HdM HdN.
  destruct (generate_inv _ _ _ _ _ _ _ Ee Hgen)
    as (_ & EMr & ENr & Etail & [(EK1 & _)|(_ & _ & Ebody)]); [contradiction|].
  destruct (extents_blocks _ _ _ _ Ee Him Hin HdM HdN)
    as (Mb & Nb & Kb & Hext & HMb & HNb & _ & _ & EcM & EcN).
  rewrite EcM in EMr. rewrite EcN in ENr.
  assert (Hbody : forall m_s n_s pt,
            0 <= m_s < M_real_split p -> 0 <= n_s < N_real_split p ->
            cover_count pt (anchor_regions at_reduce_tile (n_s_body p tid m_s n_s))
            = b2n (in_slice pt (thread_region g config e m_s n_s))).
  { intros m_s n_s pt Hm Hn. rewrite Ebody. unfold body_K_split.
    rewrite anchor_regions_app.
    rewrite anchor_regions_flat_map_nil
      by (intros k_s _; apply matmul_loops_sites; discriminate).
    cbn [app]. rewrite EMr in Hm. rewrite ENr in Hn.
    now apply (reduce_tile_anchors_count g ctx v config e Mb Nb Kb). }
  split.
  - intros m_s n_s Hm Hn pt. now apply Hbody.
  - intros pt.
    change (if in_slice pt (output_region g e) then 1%nat else 0%nat)
      with (b2n (in_slice pt (output_region g e))).
    unfold run_plan. rewrite cover_count_flat_map.
    rewrite <- (thread_regions_tile g ctx config e Mb Nb Kb pt Hext Him Hin
                  HMs HNs HMb HNb).
    rewrite <- EMr, <- ENr.
    apply nsum_ext. intros m_s Hm. apply in_range in Hm.
    rewrite anchor_regions_app, cover_count_app, Etail.
    rewrite m_split_anchor_other_site by discriminate.
    rewrite cover_count_flat_map.
    change (cover_count pt []) with 0%nat. rewrite Nat.add_0_r.
    apply nsum_ext. intros n_s Hn. apply in_range in Hn.
    now apply Hbody.
Qed.

(** The property on 8 threads: a blocked 48 x 64 output, K = 128 and a
    Config of 2 x 2 splits. *)
Lemma reduce_tile_anchors_tile_output_witness :
  exists p e,
    generate (f32_gen true 48 128 64) (machine 8) 16 (mk_config 2 2 1 1 2 0) true
    = Ok p
    /\ block_extents (f32_gen true 48 128 64) (machine 8) (mk_config 2 2 1 1 2 0)
       = Ok e
    /\ exactly_tiles (anchor_regions at_reduce_tile (run_plan p (fun _ _ _ => 0)))
         (output_region (f32_gen true 48 128 64) e).
Proof.
  eexists. eexists. split; [reflexivity|]. split; [reflexivity|].
  apply (reduce_tile_anchors_tile_output
           (f32_gen true 48 128 64) (machine 8) 16 (mk_config 2 2 1 1 2 0)
           _ _ (fun _ _ _ => 0) eq_refl ltac:(cbv; discriminate) eq_refl eq_refl
           ltac:(cbv; reflexivity) ltac:(cbv; reflexivity)
           ltac:(cbv; reflexivity) ltac:(cbv; reflexivity)
           ltac:(cbv; discriminate) ltac:(cbv; discriminate)).
Defined.

(** ** The first call on a tile initialises it *)

Lemma tensor_eqb_eq (a b : tensor_id) : tensor_eqb a b = true -> a = b.
Proof. destruct a, b; simpl; congruence. Qed.

Lemma index_eqb_eq (a b : list Z) : index_eqb a b = true -> a = b.
Proof.
  revert b. induction a as [|x a IH]; intros [|y b]; simpl; try congruence.
  intros H. apply andb_true_iff in H as (Hx & Hab).
  apply Z.eqb_eq in Hx. apply IH in Hab. congruence.
Qed.

Lemma init_flags_app (C : tensor_id) (idx : list Z) (l l' : list event) :
  init_flags C idx (l ++ l') = init_flags C idx l ++ init_flags C idx l'.
Proof. unfold init_flags. apply flat_map_app. Qed.

Lemma init_flags_flat_map {A : Type} (C : tensor_id) (idx : list Z)
  (F : A -> list event) (l : list A) :
  init_flags C idx (flat_map F l) = flat_map (fun x => init_flags C idx (F x)) l.
Proof.
  induction l as [|a l IH]; simpl; [reflexivity|].
  now rewrite init_flags_app, IH.
Qed.

Lemma init_flags_plain (C : tensor_id) (idx : list Z) (l : list event) :
  (forall ev, In ev l -> is_brgemm ev = false) -> init_flags C idx l = [].
Proof.
  intros H. unfold init_flags. induction l as [|ev l IH]; [reflexivity|].
  simpl. rewrite IH by (intros; apply H; now right).
  specialize (H ev (or_introl eq_refl)). destruct ev; try reflexivity.
  discriminate H.
Qed.

Lemma init_count_app (C : tensor_id) (idx : list Z) (l l' : list event) :
  init_count C idx (l ++ l')
  = (init_count C idx l + init_count C idx l')%nat.
Proof.
  unfold init_count. rewrite init_flags_app. apply filter_length_app.
Qed.

Lemma flat_map_repeat {A : Type} (b : A) (k : Z -> nat) (l : list Z) :
  flat_map (fun x => repeat b (k x)) l = repeat b (nsum k l).
Proof.
  unfold nsum. induction l as [|x l IH]; simpl; [reflexivity|].
  now rewrite IH, repeat_app.
Qed.

Lemma count_true_repeat (b : bool) (k : nat) :
  List.length (filter (fun x : bool => x) (repeat b k)) = if b then k else 0%nat.
Proof.
  induction k as [|k IH]; simpl; [now destruct b|].
  destruct b; simpl; [now rewrite IH | exact IH].
Qed.

Lemma flat_map_ext_range {A B : Type} (f f' : A -> list B) (l : list A) :
  (forall x, In x l -> f x = f' x) -> flat_map f l = flat_map f' l.
Proof.
  intros H. induction l as [|a l IH]; simpl; [reflexivity|].
  rewrite (H a) by now left. f_equal. apply IH. intros x Hx. apply H. now right.
Qed.

Lemma count_true_rounds (config : managed_matmul_core_config_t) (k : nat) :
  1 <= K_sub_block config ->
  List.length (filter (fun x : bool => x) (rounds config k)) = k.
Proof.
  intros HK. unfold rounds.
  rewrite range_cons by lia. cbn [flat_map]. rewrite filter_length_app.
  rewrite count_true_repeat. cbn [Z.eqb].
  rewrite flat_map_map.
  replace (List.length (filter (fun x : bool => x)
             (flat_map (fun x => repeat (x + 1 =? 0) k)
                (range (K_sub_block config - 1))))) with 0%nat; [lia|].
  symmetry.
  rewrite (flat_map_ext_range _ (fun _ => repeat false k)).
  - rewrite (flat_map_repeat false (fun _ => k)).
    now rewrite count_true_repeat.
  - intros x Hx. apply in_range in Hx.
    destruct (Z.eqb_spec (x + 1) 0); [lia | reflexivity].
Qed.

Lemma rounds_0 (config : managed_matmul_core_config_t) : rounds config 0 = [].
Proof.
  unfold rounds. induction (range (K_sub_block config)) as [|k l IH];
    [reflexivity | exact IH].
Qed.

Lemma tile_in_order_app (g : gen_managed_matmul_core_t)
  (config : managed_matmul_core_config_t) (e : extents) (C : tensor_id)
  (idx : list Z) (l l' : list event) :
  tile_in_order g config e C idx l -> tile_in_order g config e C idx l' ->
  tile_in_order g config e C idx (l ++ l').
Proof.
  unfold tile_in_order. destruct (tile_blocks g e C idx) as [[mb nb] kb].
  intros (R1 & Q1) (R2 & Q2).
  rewrite init_count_app, multiply_count_app, init_flags_app.
  split; [lia|]. intros Hn.
  destruct (init_count C idx l) as [|n1] eqn:E1.
  - rewrite Q1, rounds_0 by lia. cbn [app Nat.add]. apply Q2. lia.
  - destruct (init_count C idx l') as [|n2] eqn:E2; [|lia].
    rewrite (Q2 ltac:(lia)), rounds_0, app_nil_r, Nat.add_0_r. apply Q1. lia.
Qed.

Lemma tile_in_order_plain (g : gen_managed_matmul_core_t)
  (config : managed_matmul_core_config_t) (e : extents) (C : tensor_id)
  (idx : list Z) (l : list event) :
  (forall ev, In ev l -> is_brgemm ev = false) ->
  tile_in_order g config e C idx l.
Proof.
  intros H. unfold tile_in_order, init_count.
  destruct (tile_blocks g e C idx) as [[mb nb] kb].
  rewrite (init_flags_plain C idx l H). cbn [filter List.length].
  split; [lia|]. intros _. now rewrite rounds_0.
Qed.

Lemma tile_in_order_flat_map {A : Type} (g : gen_managed_matmul_core_t)
  (config : managed_matmul_core_config_t) (e : extents) (C : tensor_id)
  (idx : list Z) (F : A -> list event) (l : list A) :
  (forall x, In x l -> tile_in_order g config e C idx (F x)) ->
  tile_in_order g config e C idx (flat_map F l).
Proof.
  intros H. induction l as [|a l IH]; simpl.
  - apply tile_in_order_plain. intros ev [].
  - apply tile_in_order_app; [apply H; now left|].
    apply IH. intros x Hx. apply H. now right.
Qed.


Lemma flat_map_if_repeat (b : bool) (h : Z -> bool) (l : list Z) :
  flat_map (fun x => if h x then [b] else []) l
  = repeat b (nsum (fun x => b2n (h x)) l).
Proof.
  rewrite <- flat_map_repeat. apply flat_map_ext_range.
  intros x _. now destruct (h x).
Qed.

Lemma init_le_multiply_flat_map {A : Type} (g : gen_managed_matmul_core_t)
  (db mb nb kb : Z) (C : tensor_id) (idx : list Z) (F : A -> list event)
  (l : list A) :
  (forall x, In x l ->
     (init_count C idx (F x) <= multiply_count g db mb nb kb (F x))%nat) ->
  (init_count C idx (flat_map F l)
   <= multiply_count g db mb nb kb (flat_map F l))%nat.
Proof.
  intros H. induction l as [|a l IH]; simpl; [apply Nat.le_refl|].
  rewrite init_count_app, multiply_count_app.
  specialize (H a (or_introl eq_refl)) as Ha.
  assert (forall x, In x l ->
            (init_count C idx (F x) <= multiply_count g db mb nb kb (F x))%nat)
    by (intros; apply H; now right).
  specialize (IH H0). lia.
Qed.

Section TileOrder.

Variable g : gen_managed_matmul_core_t.
Variable config : managed_matmul_core_config_t.
Variable e : extents.
Variable C : tensor_id.
Variable fusion : bool.
Variable M_anchor_info N_anchor_info : list Z.
Variable is_partial : bool.
Variable T : tensor_id.
Variable idx : list Z.
Variables mT nT kT : Z.

Let iim := iim_block_ g.
Let iin := iin_block_ g.
Let iik := iik_block_ g.
Let db := get_dtype_block g.

Hypothesis Him : 0 < iim.
Hypothesis Hin : 0 < iin.
Hypothesis Hik : 0 < iik.
Hypothesis HC : C = if is_partial then tsr_out_tmp_buf else tsr_C.
Hypothesis HT : tile_blocks g e T idx = (mT, nT, kT).

Variable a : call_args.
Variables Ms Ns Ks Kl : Z.
Hypothesis EaM : a_m_idx a = Ms * iim.
Hypothesis EaN : a_n_idx a = Ns * iin.
Hypothesis EaK : a_k_idx a = Ks * iik.
Hypothesis EaKl : a_K a = Kl * iik.
Hypothesis Hslot :
  Ks = if is_partial then b_start (k_partition g e (a_k_s a)) else 0.
Hypothesis HKl : 1 <= Kl.
Hypothesis HKsub : 0 < K_sub_block config.

Lemma block_body_flags (mi ni me ne k_b m_o n_o : Z) :
  init_flags T idx
    (block_body g config C db fusion is_partial a mi ni me ne k_b m_o n_o)
  = if tensor_eqb T C
       && index_eqb idx (block_C_idx g is_partial a mi ni me ne m_o n_o)
    then [k_b =? 0] else [].
Proof.
  unfold block_body, block_C_idx, init_flags. cbn [flat_map].
  fold (init_flags T idx
          (if fusion && negb is_partial
           then if k_b =? K_sub_block config - 1
                then [output_fusion_anchor at_block
                        (if negb (is_blocking (out_tensors_0 g))
                         then [(a_m_idx a + mi * iim_block_ g
                                + Z.rem (m_o + a_tid a) me * iim_block_ g,
                                iim_block_ g);
                               (a_n_idx a + ni * iin_block_ g
                                + Z.rem (n_o + a_tid a) ne * iin_block_ g,
                                iin_block_ g)]
                         else [(Z.quot (a_m_idx a + mi * iim_block_ g
                                        + Z.rem (m_o + a_tid a) me * iim_block_ g)
                                  (iim_block_ g), 1);
                               (Z.quot (a_n_idx a + ni * iin_block_ g
                                        + Z.rem (n_o + a_tid a) ne * iin_block_ g)
                                  (iin_block_ g), 1);
                               (0, iim_block_ g); (0, iin_block_ g)])]
                else []
           else [])).
  rewrite init_flags_plain, app_nil_r; [reflexivity|].
  intros ev Hev. destruct (fusion && negb is_partial); [|contradiction].
  destruct (k_b =? K_sub_block config - 1); [|contradiction].
  destruct Hev as [<-|[]]. reflexivity.
Qed.

Lemma block_body_init_le (mi ni me ne k_b m_o n_o : Z) :
  (init_count T idx
     (block_body g config C db fusion is_partial a mi ni me ne k_b m_o n_o)
   <= multiply_count g db mT nT kT
        (block_body g config C db fusion is_partial a mi ni me ne k_b m_o n_o))%nat.
Proof.
  unfold init_count. rewrite block_body_flags.
  destruct (tensor_eqb T C
            && index_eqb idx (block_C_idx g is_partial a mi ni me ne m_o n_o))
    eqn:Ew; [|simpl; lia].
  destruct (Z.eqb_spec k_b 0) as [->|Hk]; [|simpl; lia].
  cbn [filter List.length].
  apply andb_true_iff in Ew as (ET & EI).
  apply tensor_eqb_eq in ET. apply index_eqb_eq in EI.
  rewrite (block_body_multiplies g config C fusion is_partial mT nT kT
             Him Hin Hik HC a Ms Ns Ks Kl EaM EaN EaK EaKl).
  cbv zeta.
  rewrite balance_start_0 by lia.
  assert (Hlen : 1 <= b_length (get_balance211_length Kl (K_sub_block config) 0)).
  { pose proof (balance_T1_pos Kl (K_sub_block config) ltac:(lia) HKsub) as HT1.
    destruct (balance_big Kl (K_sub_block config) 0 HT1) as [-> _].
    unfold divide_and_ceil. apply ceil_quot_pos; lia. }
  set (rm := Z.rem (m_o + a_tid a) me).
  set (rn := Z.rem (n_o + a_tid a) ne).
  assert (Etile : (mT, nT, kT) = (Ms + (mi + rm) * 1, Ns + (ni + rn) * 1, Ks)).
  { rewrite <- HT. subst T idx. unfold tile_blocks, block_C_idx, block_of.
    rewrite HC, EaM, EaN, Hslot. fold iim iin rm rn.
    replace (Ms * iim + mi * iim + rm * iim) with ((Ms + (mi + rm) * 1) * iim) by lia.
    replace (Ns * iin + ni * iin + rn * iin) with ((Ns + (ni + rn) * 1) * iin) by lia.
    destruct is_partial, (is_blocking (out_tensors_0 g));
      cbn [negb nth]; rewrite ?Z.quot_mul by lia; reflexivity. }
  injection Etile as -> -> ->.
  unfold covers.
  rewrite !Z.leb_refl.
  replace (Ms + (mi + rm) * 1 <? Ms + (mi + rm) * 1 + 1) with true
    by (symmetry; apply Z.ltb_lt; lia).
  replace (Ns + (ni + rn) * 1 <? Ns + (ni + rn) * 1 + 1) with true
    by (symmetry; apply Z.ltb_lt; lia).
  replace (Ks + 0 * 1) with Ks by lia. rewrite Z.leb_refl.
  replace (Ks <? Ks + b_length (get_balance211_length Kl (K_sub_block config) 0) * 1)
    with true by (symmetry; apply Z.ltb_lt; lia).
  simpl. lia.
Qed.

(** The body of the loop over [n_b] for one sub-block: the loops over
    [k_b] and the blocks, then the anchor of the sub-block. *)
Lemma sub_block_in_order (shapes : option sub_block_shapes) (m_b n_b : Z)
  (bm bn : balance211) :
  tile_in_order g config e T idx
    (flat_map (fun k_b =>
       if im_loop_order config =? 1 then
         flat_map (fun n_o => flat_map (fun m_o =>
           block_body g config C db fusion is_partial a
             (b_start bm) (b_start bn) (b_length bm) (b_length bn) k_b m_o n_o)
           (range (b_length bm))) (range (b_length bn))
       else
         flat_map (fun m_o => flat_map (fun n_o =>
           block_body g config C db fusion is_partial a
             (b_start bm) (b_start bn) (b_length bm) (b_length bn) k_b m_o n_o)
           (range (b_length bn))) (range (b_length bm)))
       (range (K_sub_block config))
     ++ match shapes with
        | Some s => [sub_block_anchor g M_anchor_info N_anchor_info s a m_b n_b bm bn]
        | None => []
        end).
Proof.
  set (w := fun m_o n_o =>
         tensor_eqb T C
         && index_eqb idx (block_C_idx g is_partial a (b_start bm) (b_start bn)
                             (b_length bm) (b_length bn) m_o n_o)).
  set (c := if im_loop_order config =? 1
            then nsum (fun n_o => nsum (fun m_o => b2n (w m_o n_o))
                         (range (b_length bm))) (range (b_length bn))
            else nsum (fun m_o => nsum (fun n_o => b2n (w m_o n_o))
                         (range (b_length bn))) (range (b_length bm))).
  set (loops := flat_map _ (range (K_sub_block config))).
  set (anchor := match shapes with Some _ => _ | None => _ end).
  assert (Hanchor : forall ev, In ev anchor -> is_brgemm ev = false).
  { intros ev Hev. unfold anchor in Hev. destruct shapes as [s|]; [|contradiction].
    destruct Hev as [<-|[]]. unfold sub_block_anchor. now destruct s. }
  assert (Hflags : init_flags T idx (loops ++ anchor) = rounds config c).
  { rewrite init_flags_app, (init_flags_plain T idx anchor Hanchor), app_nil_r.
    unfold loops. rewrite init_flags_flat_map. unfold rounds.
    apply flat_map_ext_range. intros k_b _. unfold c.
    destruct (im_loop_order config =? 1).
    - rewrite init_flags_flat_map.
      rewrite (flat_map_ext_range _
                 (fun n_o => repeat (k_b =? 0)
                               (nsum (fun m_o => b2n (w m_o n_o))
                                  (range (b_length bm))))).
      + apply flat_map_repeat.
      + intros n_o _. rewrite init_flags_flat_map.
        rewrite <- (flat_map_if_repeat (k_b =? 0) (fun m_o => w m_o n_o)).
        apply flat_map_ext_range. intros m_o _. apply block_body_flags.
    - rewrite init_flags_flat_map.
      rewrite (flat_map_ext_range _
                 (fun m_o => repeat (k_b =? 0)
                               (nsum (fun n_o => b2n (w m_o n_o))
                                  (range (b_length bn))))).
      + apply flat_map_repeat.
      + intros m_o _. rewrite init_flags_flat_map.
        rewrite <- (flat_map_if_repeat (k_b =? 0) (fun n_o => w m_o n_o)).
        apply flat_map_ext_range. intros n_o _. apply block_body_flags. }
  unfold tile_in_order. rewrite HT. split.
  - rewrite init_count_app, multiply_count_app.
    replace (init_count T idx anchor) with 0%nat
      by (unfold init_count; now rewrite (init_flags_plain T idx anchor Hanchor)).
    enough (init_count T idx loops
            <= multiply_count g (get_dtype_block g) mT nT kT loops)%nat by lia.
    unfold loops. apply init_le_multiply_flat_map. intros k_b _.
    destruct (im_loop_order config =? 1);
      apply init_le_multiply_flat_map; intros x _;
      apply init_le_multiply_flat_map; intros y _;
      apply block_body_init_le.
  - intros _. unfold init_count. rewrite Hflags.
    now rewrite count_true_rounds by lia.
Qed.

Lemma matmul_loops_in_order (shapes : option sub_block_shapes) :
  tile_in_order g config e T idx
    (matmul_loops g config C db fusion M_anchor_info N_anchor_info is_partial
       shapes a).
Proof.
  unfold matmul_loops.
  apply tile_in_order_flat_map. intros m_b _.
  apply tile_in_order_flat_map. intros n_b _.
  apply sub_block_in_order.
Qed.

End TileOrder.

Lemma thread_anchor_no_brgemm (g : gen_managed_matmul_core_t) (e : extents)
  (m_s n_s m_idx n_idx : Z) (ev : event) :
  In ev (thread_anchor g e m_s n_s m_idx n_idx) -> is_brgemm ev = false.
Proof.
  intros H. unfold thread_anchor in H.
  repeat match type of H with
  | In _ (if ?c then _ else _) => destruct c
  | In _ (let _ := _ in _) => cbv zeta in H
  end;
  repeat match type of H with
  | In _ [] => contradiction
  | In _ (_ :: _) => destruct H as [<-|H]
  end; reflexivity.
Qed.

Lemma m_split_anchor_no_brgemm (g : gen_managed_matmul_core_t)
  (config : managed_matmul_core_config_t) (fusion : bool) (e : extents)
  (m_s : Z) (ev : event) :
  In ev (m_split_anchor g config fusion e m_s) -> is_brgemm ev = false.
Proof.
  unfold m_split_anchor.
  destruct (fusion && (N_split_num config =? 1)); [|contradiction].
  destruct (e_M_block_size e =? e_M_ib_block_size e);
    intros [<-|[]]; reflexivity.
Qed.

Lemma rounds_1 (config : managed_matmul_core_config_t) :
  1 <= K_sub_block config ->
  rounds config 1 = true :: repeat false (Z.to_nat (K_sub_block config - 1)).
Proof.
  intros HK. unfold rounds.
  rewrite range_cons by lia. cbn [flat_map repeat app Z.eqb].
  f_equal. rewrite flat_map_map.
  rewrite (flat_map_ext_range _ (fun _ => repeat false 1)).
  - rewrite (flat_map_repeat false (fun _ => 1%nat)).
    f_equal. rewrite <- (range_length (K_sub_block config - 1)).
    unfold nsum.
    induction (range (K_sub_block config - 1)) as [|x l IH];
      [reflexivity | simpl; now rewrite IH].
  - intros x Hx. apply in_range in Hx.
    destruct (Z.eqb_spec (x + 1) 0); [lia | reflexivity].
Qed.

Section PlanOrder.

Variable g : gen_managed_matmul_core_t.
Variable ctx : context_t.
Variable v : Z.
Variable config : managed_matmul_core_config_t.
Variable fusion : bool.
Variable e : extents.
Variable p : loop_plan.
Variable tid : Z -> Z -> Z -> Z.
Variables Mb Nb Kb : Z.
Variable T : tensor_id.
Variable idx : list Z.

Hypothesis Ee : block_extents g ctx config = Ok e.
Hypothesis Hgen : generate g ctx v config fusion = Ok p.
Hypothesis Hext : extents_of_blocks g ctx config e Mb Nb Kb.
Hypothesis Him : 0 < iim_block_ g.
Hypothesis Hin : 0 < iin_block_ g.
Hypothesis Hik : 0 < iik_block_ g.
Hypothesis HKs : 0 < e_K_split_num e.
Hypothesis HKsub : 0 < K_sub_block config.
Hypothesis HKb : 1 <= Kb.

Lemma n_s_body_in_order (m_s n_s : Z) :
  tile_in_order g config e T idx (n_s_body p tid m_s n_s).
Proof.
  pose proof Hext as (EM & EN & EK & _).
  destruct (tile_blocks g e T idx) as [[mT nT] kT] eqn:HT.
  destruct (generate_inv _ _ _ _ _ _ _ Ee Hgen)
    as (_ & _ & _ & _ & [(EK1 & _ & shapes & ->)|(EK1 & _ & ->)]).
  - unfold body_no_K_split. apply tile_in_order_app.
    + apply tile_in_order_flat_map. intros k_s Hk.
      rewrite EK1 in Hk. change (range 1) with [0] in Hk.
      destruct Hk as [<-|[]].
      apply matmul_loops_in_order
        with (mT := mT) (nT := nT) (kT := kT)
             (Ms := b_start (m_partition g config e m_s))
             (Ns := b_start (n_partition g config e n_s))
             (Ks := 0) (Kl := Kb);
        cbn [thread_args a_m_idx a_n_idx a_k_idx a_K a_k_s];
        try reflexivity; try assumption; try lia.
      rewrite EK. apply size_t_rnd_up_multiple; lia.
    + apply tile_in_order_plain. intros ev Hev.
      destruct fusion; [|contradiction].
      now apply thread_anchor_no_brgemm in Hev.
  - unfold body_K_split. apply tile_in_order_app.
    + apply tile_in_order_flat_map. intros k_s Hk. apply in_range in Hk.
      unfold K_real_split in Hk.
      rewrite EK, divide_and_ceil_mul in Hk by lia.
      destruct (axis_thread Kb (iik_block_ g) (e_K_split_num e)
                  ltac:(lia) Hik HKs k_s Hk) as (_ & Hlen & _).
      cbv zeta in Hlen.
      apply matmul_loops_in_order
        with (mT := mT) (nT := nT) (kT := kT)
             (Ms := b_start (m_partition g config e m_s))
             (Ns := b_start (n_partition g config e n_s))
             (Ks := b_start (k_partition g e k_s))
             (Kl := b_length (k_partition g e k_s));
        cbn [thread_args a_m_idx a_n_idx a_k_idx a_K a_k_s];
        try reflexivity; try assumption; try lia.
      unfold k_partition. rewrite EK, Z.quot_mul by lia. exact Hlen.
    + apply tile_in_order_plain. intros ev Hev.
      now apply reduce_phase_no_brgemm in Hev.
Qed.

Lemma run_plan_in_order : tile_in_order g config e T idx (run_plan p tid).
Proof.
  destruct (generate_inv _ _ _ _ _ _ _ Ee Hgen) as (_ & _ & _ & Etail & _).
  unfold run_plan. apply tile_in_order_flat_map. intros m_s _.
  apply tile_in_order_app.
  - apply tile_in_order_flat_map. intros n_s _. apply n_s_body_in_order.
  - apply tile_in_order_plain. intros ev Hev. rewrite Etail in Hev.
    now apply m_split_anchor_no_brgemm in Hev.
Qed.

End PlanOrder.


(** X21.  Every tile is initialised before it is accumulated into, and
    once.  For positive blocks, splits and sub-block counts and thread ids
    [>= 0]: on any tile of C, or of a slot of the temporary tensor when K
    is split, the brgemm calls of a plan, in the order of the loops, are
    either none or exactly [K_sub_block] calls, the first a
    [brgemm_init_update] and all the others [brgemm_update]. *)
Theorem each_tile_is_initialised_first (g : gen_managed_matmul_core_t)
  (ctx : context_t) (v : Z) (config : managed_matmul_core_config_t)
  (fusion : bool) (e : extents) (p : loop_plan) (tid : Z -> Z -> Z -> Z) :
  block_extents g ctx config = Ok e ->
  generate g ctx v config fusion = Ok p ->
  0 <= get_num_threads ctx ->
  0 < iim_block_ g -> 0 < iin_block_ g -> 0 < iik_block_ g ->
  0 < M_split_num config -> 0 < N_split_num config ->
  0 < M_sub_block config -> 0 < N_sub_block config -> 0 < K_sub_block config ->
  0 <= dim (in_tensors_0 g) 0 -> 0 <= dim (in_tensors_1 g) 1 ->
  0 <= dim (in_tensors_0 g) 1 ->
  (forall m_s n_s k_s,
     0 <= m_s -> 0 <= n_s -> 0 <= k_s -> 0 <= tid m_s n_s k_s) ->
  forall (T : tensor_id) (idx : list Z),
    init_flags T idx (run_plan p tid) = []
    \/ init_flags T idx (run_plan p tid)
       = true :: repeat false (Z.to_nat (K_sub_block config - 1)).
Proof.
  intros Ee Hgen Hnt Him Hin Hik HMs HNs HMsub HNsub HKsub HdM HdN HdK Htid
    T idx.
  destruct (extents_blocks_3 _ _ _ _ Ee Him Hin Hik HdM HdN HdK)
    as (Mb & Nb & Kb & Hext & HMb & HNb & HKb & _).
  assert (HKs : 0 < e_K_split_num e).
  { destruct (block_extents_dims _ _ _ _ Ee) as (_ & _ & _ & _ & _ & Hne).
    rewrite (block_extents_K_split_num _ _ _ _ Ee) in *.
    assert (0 <= Z.quot (Z.quot (get_num_threads ctx) (M_split_num config))
                   (N_split_num config)).
    { apply Z.quot_pos; [|lia]. apply Z.quot_pos; lia. }
    lia. }
  assert (HKb1 : 1 <= Kb).
  { destruct (generate_inv _ _ _ _ _ _ _ Ee Hgen) as (Hc & _).
    destruct (check_sub_blocks_spec g config e) as [(_ & Hno)|(msg & _ & Hf & _)];
      [|congruence].
    destruct (Z.eq_dec Kb 0) as [->|]; [|lia].
    exfalso. apply Hno. unfold sub_block_exceeds.
    do 4 right. left.
    destruct Hext as (_ & _ & _ & _ & _ & _ & _ & _ & _ & _ & _ & -> & _).
    rewrite Z.quot_mul by lia. unfold divide_and_ceil.
    rewrite Z.quot_small by lia. lia. }
  pose proof (run_plan_in_order g ctx v config fusion e p tid Mb Nb Kb T idx
                Ee Hgen Hext Him Hin Hik HKs HKsub HKb1) as Hord.
  unfold tile_in_order in Hord.
  destruct (tile_blocks g e T idx) as [[mT nT] kT].
  destruct Hord as (Hle & Hflags).
  rewrite (run_plan_multiply g ctx v config fusion e p tid Mb Nb Kb
             Ee Hgen Hext Him Hin Hik HMs HNs HKs HMsub HNsub HKsub
             HMb HNb HKb Htid) in Hle.
  assert (Hn : (init_count T idx (run_plan p tid) <= 1)%nat).
  { destruct (covers mT 0 (Mb * 1)), (covers nT 0 (Nb * 1)),
      (covers kT 0 (Kb * 1)); simpl in Hle; lia. }
  specialize (Hflags Hn). rewrite Hflags.
  destruct (init_count T idx (run_plan p tid)) as [|[|n]]; [| |lia].
  - left. apply rounds_0.
  - right. apply rounds_1. lia.
Qed.

(** The property on 8 threads with K split in two: a blocked 48 x 64
    output, K = 128, blocks of 16, a Config of 2 x 2 splits and two
    sub-blocks along N and K; the tile of the blocks (2, 3) of the slot 1. *)
Lemma each_tile_is_initialised_first_witness :
  exists p,
    generate (f32_gen true 48 128 64) (machine 8) 16 (mk_config 2 2 1 2 2 1) true
    = Ok p
    /\ init_flags tsr_out_tmp_buf [1; 2; 3; 0; 0]
         (run_plan p (fun m_s n_s k_s => m_s + n_s + k_s)) = [true; false].
Proof.
  eexists. split; [reflexivity|].
  destruct (each_tile_is_initialised_first
              (f32_gen true 48 128 64) (machine 8) 16 (mk_config 2 2 1 2 2 1)
              true _ _ (fun m_s n_s k_s => m_s + n_s + k_s) eq_refl eq_refl
              ltac:(cbv; discriminate) ltac:(cbv; reflexivity)
              ltac:(cbv; reflexivity) ltac:(cbv; reflexivity)
              ltac:(cbv; reflexivity) ltac:(cbv; reflexivity)
              ltac:(cbv; reflexivity) ltac:(cbv; reflexivity)
              ltac:(cbv; reflexivity) ltac:(cbv; discriminate)
              ltac:(cbv; discriminate) ltac:(cbv; discriminate)
              ltac:(intros; lia) tsr_out_tmp_buf [1; 2; 3; 0; 0]) as [H|H].
  - vm_compute in H. discriminate H.
  - exact H.
Defined.
